(** * GPUMD: SW force kernel, VAC/SDC engine, modal analysis and
      initial velocities

    A shallow embedding of four parts of GPUMD:
    - [sw.cu]: the constructor [SW2::SW2] with the three readers of the
      parameter file, the kernels [gpu_set_f12_to_zero] and
      [gpu_find_force_sw3_partial], and [SW2::compute];
    - [vac.cu]: [VAC::preprocess], [VAC::process] with its kernels, and
      [VAC::postprocess] with [perform_dft], [find_dos] and [find_sdc];
    - [modal_analysis.cu]: [MODAL_ANALYSIS::setN], [preprocess] with the
      set-up of the bins and the reading of [eigenvector.out], and the
      kernels driven by [MODAL_ANALYSIS::process];
    - [velocity.cu]: the initial velocities of [Atom::initialize_velocity].

    Conventions.
    - A C [int] is a [Z]; [/] and [%] are [Z.quot] and [Z.rem].  Signed
      overflow is undefined in C++ and no statement below relies on it.
    - [double] and [float] values are elements of a type [F] with the
      operations of class [Arith].  Two instances are provided:
      [binary64] (IEEE-754 double precision, the kernel's primitive floats)
      and [real_arith] (the real numbers, i.e. arithmetic without rounding).
    - A device or host array is a [list]; [rd] and [wr] are the checked
      accesses.  An access outside the allocation is undefined behaviour in
      the source and is [None] here, as is a kernel launch with an empty
      grid (reported by the CUDA runtime and turned fatal by
      [CUDA_CHECK_KERNEL]).
    - A kernel is a function of the block and thread index; [launch] runs it
      for every thread of the grid.  The kernels embedded here are free of
      data races between blocks, so the order of that enumeration is not
      observable. *)

From Stdlib Require Import ZArith Lia Reals Lra Floats String.
From stdpp Require Import base decidable option list list_numbers.

Local Open Scope Z_scope.

(** ** Numbers *)

(** The arithmetic the sources use on [double] and [float]. *)
Class Arith (F : Type) := {
  fzero : F;
  fone : F;
  fadd : F -> F -> F;
  fsub : F -> F -> F;
  fmul : F -> F -> F;
  fdiv : F -> F -> F;
  fopp : F -> F;
  flt : F -> F -> bool;     (* x < y *)
  fge : F -> F -> bool;     (* x >= y *)
  fsqrt : F -> F;
  of_int : Z -> F           (* conversion int -> floating point *)
}.

Declare Scope arith_scope.
Delimit Scope arith_scope with ar.
Infix "+." := fadd (at level 50, left associativity) : arith_scope.
Infix "-." := fsub (at level 50, left associativity) : arith_scope.
Infix "*." := fmul (at level 40, left associativity) : arith_scope.
Infix "/." := fdiv (at level 40, left associativity) : arith_scope.
Notation "-. x" := (fopp x) (at level 35, right associativity) : arith_scope.
Local Open Scope arith_scope.

Section Constants.
Context {F : Type} `{Arith F}.

(** The macros [ZERO], [ONE], [TWO], [FOUR] and [HALF] of [common.cuh] (a
    header that is not among the sources): the literals 0.0, 1.0, 2.0, 4.0
    and 0.5, all of them exact in both instances.  A literal [0.0] or
    [0.5] in the sources is [ZERO] or [HALF] as well; any other literal is
    an integer and goes through [of_int]. *)
Definition ZERO : F := fzero.
Definition ONE : F := fone.
Definition TWO : F := of_int 2.
Definition FOUR : F := of_int 4.
Definition HALF : F := of_int 1 /. of_int 2.

End Constants.

(** Real numbers: arithmetic without rounding. *)
Definition Rltb (x y : R) : bool := if Rlt_dec x y then true else false.
Definition Rgeb (x y : R) : bool := if Rge_dec x y then true else false.

#[export] Instance real_arith : Arith R := {|
  fzero := 0%R; fone := 1%R;
  fadd := Rplus; fsub := Rminus; fmul := Rmult; fdiv := Rdiv; fopp := Ropp;
  flt := Rltb; fge := Rgeb;
  fsqrt := R_sqrt.sqrt;
  of_int := IZR |}.

(** IEEE-754 binary64. *)
Definition b64_of_Z (z : Z) : float :=
  if z <? 0 then PrimFloat.opp (PrimFloat.of_uint63 (Uint63.of_Z (- z)))
  else PrimFloat.of_uint63 (Uint63.of_Z z).

#[export] Instance binary64 : Arith float := {|
  fzero := 0%float; fone := 1%float;
  fadd := PrimFloat.add; fsub := PrimFloat.sub;
  fmul := PrimFloat.mul; fdiv := PrimFloat.div; fopp := PrimFloat.opp;
  flt := PrimFloat.ltb; fge := fun x y => PrimFloat.leb y x;
  fsqrt := PrimFloat.sqrt;
  of_int := b64_of_Z |}.

(** Laws of addition that hold without rounding; they are what makes a
    tree reduction equal to the plain sum. *)
Class AddLaws (F : Type) `{Arith F} : Prop := {
  fadd_comm : forall x y : F, x +. y = y +. x;
  fadd_assoc : forall x y z : F, x +. (y +. z) = (x +. y) +. z;
  fadd_0_l : forall x : F, fzero +. x = x
}.

#[export] Instance real_add_laws : AddLaws R.
Proof.
  split; intros; simpl.
  - apply Rplus_comm.
  - symmetry. apply Rplus_assoc.
  - apply Rplus_0_l.
Qed.

(** ** Arrays and loops *)

Section Memory.
Context {A : Type}.

(** [a[i]] as an r-value. *)
Definition rd (a : list A) (i : Z) : option A :=
  if decide (0 <= i) then a !! Z.to_nat i else None.

(** [a[i] = v]. *)
Definition wr (a : list A) (i : Z) (v : A) : option (list A) :=
  if decide (0 <= i < Z.of_nat (length a))
  then Some (<[Z.to_nat i := v]> a) else None.

(** [a[i] = f(a[i])], for [+=], [*=], [/=] and [++]. *)
Definition modify (a : list A) (i : Z) (f : A -> A) : option (list A) :=
  v ← rd a i; wr a i (f v).

End Memory.

(** The call returned normally. *)
Definition succeeds {A} (o : option A) : bool :=
  match o with Some _ => true | None => false end.

(** Entry [k] of a stream or array, [ZERO] outside of it. *)
Definition get {F} `{Arith F} (l : list F) (k : Z) : F := default ZERO (rd l k).

(** A C array seen through a pointer [p + off]. *)
Definition ptr (A : Type) : Type := list A * Z.
Definition load {A} (p : ptr A) (i : Z) : option A := rd p.1 (p.2 + i).
Definition store {A} (p : ptr A) (i : Z) (v : A) : option (ptr A) :=
  a ← wr p.1 (p.2 + i) v; Some (a, p.2).

Section Loops.
Context {S : Type}.

Fixpoint foldM {X} (body : X -> S -> option S) (l : list X) (s : S) : option S :=
  match l with
  | [] => Some s
  | x :: l => s' ← body x s; foldM body l s'
  end.

(** [for (i = lo; i < hi; ++i) body]. *)
Definition for_range (lo hi : Z) (body : Z -> S -> option S) (s : S) : option S :=
  foldM body (seqZ lo (hi - lo)) s.

(** [kernel<<<gridDim, blockDim>>>] with one-dimensional grid and blocks. *)
Definition launch (gridDim blockDim : Z) (kernel : Z -> Z -> S -> option S)
    (s : S) : option S :=
  if decide (0 < gridDim /\ 0 < blockDim) then
    for_range 0 gridDim (fun bid =>
      for_range 0 blockDim (fun tid => kernel bid tid)) s
  else None.

(** A launch whose blocks cooperate through shared memory: [block bid] is
    the effect of all threads of block [bid]. *)
Definition launch_blocks (gridDim : Z) (block : Z -> S -> option S)
    (s : S) : option S :=
  if decide (0 < gridDim) then for_range 0 gridDim block s else None.

(** A launch with two-dimensional grid and blocks ([dim3] with z = 1). *)
Definition launch2 (gx gy bx by_ : Z) (kernel : Z -> Z -> Z -> Z -> S -> option S)
    (s : S) : option S :=
  if decide (0 < gx /\ 0 < gy /\ 0 < bx /\ 0 < by_) then
    for_range 0 gx (fun bidx => for_range 0 gy (fun bidy =>
      for_range 0 bx (fun tidx => for_range 0 by_ (fun tidy =>
        kernel bidx bidy tidx tidy)))) s
  else None.

End Loops.

(** *** Facts about checked accesses *)

Section MemoryFacts.
Context {A : Type}.
Implicit Types (a : list A) (i j : Z) (v : A).

Lemma rd_is_Some a i : is_Some (rd a i) <-> 0 <= i < Z.of_nat (length a).
Proof.
  unfold rd. case_decide.
  - rewrite lookup_lt_is_Some. lia.
  - split; [intros [? ?]; discriminate | lia].
Qed.

Lemma rd_in_range a i :
  0 <= i < Z.of_nat (length a) -> exists v, rd a i = Some v.
Proof. intros Hi. by apply rd_is_Some. Qed.

Lemma rd_Some_lt a i v : rd a i = Some v -> 0 <= i < Z.of_nat (length a).
Proof. intros E. apply rd_is_Some. eauto. Qed.

Lemma rd_None a i : ~ (0 <= i < Z.of_nat (length a)) -> rd a i = None.
Proof.
  intros Hi. destruct (rd a i) eqn:E; [|done].
  exfalso. apply Hi. apply rd_is_Some. eauto.
Qed.

Lemma wr_Some a i v :
  0 <= i < Z.of_nat (length a) -> wr a i v = Some (<[Z.to_nat i := v]> a).
Proof. intros Hi. unfold wr. case_decide; [done | lia]. Qed.


Lemma wr_inv a a' i v :
  wr a i v = Some a' ->
  0 <= i < Z.of_nat (length a) /\ a' = <[Z.to_nat i := v]> a.
Proof. unfold wr. case_decide; [|done]. intros [= <-]. done. Qed.

Lemma wr_length a a' i v : wr a i v = Some a' -> length a' = length a.
Proof. intros (_ & ->)%wr_inv. apply length_insert. Qed.

Lemma rd_wr_eq a a' i v : wr a i v = Some a' -> rd a' i = Some v.
Proof.
  intros (Hi & ->)%wr_inv. unfold rd. case_decide; [|lia].
  apply list_lookup_insert_eq. lia.
Qed.

Lemma rd_wr_ne a a' i j v : wr a i v = Some a' -> j <> i -> rd a' j = rd a j.
Proof.
  intros (Hi & ->)%wr_inv Hne. unfold rd. case_decide; [|done].
  apply list_lookup_insert_ne. lia.
Qed.

Lemma modify_Some a i (f : A -> A) v :
  rd a i = Some v -> modify a i f = Some (<[Z.to_nat i := f v]> a).
Proof.
  intros E. unfold modify. rewrite E. simpl.
  apply wr_Some. by eapply rd_Some_lt.
Qed.

Lemma modify_inv a a' i (f : A -> A) :
  modify a i f = Some a' ->
  exists v, rd a i = Some v /\ wr a i (f v) = Some a'.
Proof.
  unfold modify. destruct (rd a i) as [v|]; simpl; [|done]. eauto.
Qed.

Lemma rd_replicate n v i :
  0 <= i < Z.of_nat n -> rd (replicate n v) i = Some v.
Proof.
  intros Hi. unfold rd. case_decide; [|lia].
  apply lookup_replicate_2. lia.
Qed.

(** Two arrays with the same cells are the same array. *)
Lemma rd_ext a b : (forall i, rd a i = rd b i) -> a = b.
Proof.
  intros E. apply list_eq. intros n.
  specialize (E (Z.of_nat n)). unfold rd in E.
  case_decide; [|lia]. by rewrite Nat2Z.id in E.
Qed.

End MemoryFacts.

Lemma bind_Some_eq {X Y} (x : X) (f : X -> option Y) : (Some x ≫= f) = f x.
Proof. done. Qed.

Lemma get_rd {F} `{Arith F} (s : list F) j v : rd s j = Some v -> get s j = v.
Proof. intros E. unfold get. by rewrite E. Qed.

Lemma rd_get {F} `{Arith F} (s : list F) j :
  0 <= j < Z.of_nat (length s) -> rd s j = Some (get s j).
Proof.
  intros Hj. destruct (rd_in_range s j Hj) as [v E].
  by rewrite (get_rd _ _ _ E).
Qed.

(** *** Loop invariants *)

Section LoopFacts.
Context {S : Type}.

Lemma foldM_app {X} (body : X -> S -> option S) l1 l2 s :
  foldM body (l1 ++ l2) s = s' ← foldM body l1 s; foldM body l2 s'.
Proof.
  revert s. induction l1 as [|x l1 IH]; intros s; simpl; [done|].
  destruct (body x s); simpl; [apply IH | done].
Qed.

Lemma for_range_empty lo hi (body : Z -> S -> option S) s :
  hi <= lo -> for_range lo hi body s = Some s.
Proof.
  intros Hle. unfold for_range.
  replace (seqZ lo (hi - lo)) with (@nil Z); [done|].
  symmetry. apply length_zero_iff_nil. rewrite length_seqZ. lia.
Qed.

Lemma for_range_first lo hi (body : Z -> S -> option S) s :
  lo < hi ->
  for_range lo hi body s = s' ← body lo s; for_range (lo + 1) hi body s'.
Proof.
  intros Hlt. unfold for_range.
  rewrite (seqZ_cons lo (hi - lo)) by lia. simpl.
  replace (Z.succ lo) with (lo + 1) by lia.
  replace (Z.pred (hi - lo)) with (hi - (lo + 1)) by lia. done.
Qed.

Lemma for_range_last lo hi (body : Z -> S -> option S) s :
  lo <= hi ->
  for_range lo (hi + 1) body s = s' ← for_range lo hi body s; body hi s'.
Proof.
  intros Hle. unfold for_range.
  replace (hi + 1 - lo) with ((hi - lo) + 1) by lia.
  rewrite seqZ_app by lia. rewrite foldM_app.
  destruct (foldM body (seqZ lo (hi - lo)) s) as [s'|]; simpl; [|done].
  replace (lo + (hi - lo)) with hi by lia.
  simpl. change (Z.of_nat 0 + hi) with hi. by destruct (body hi s').
Qed.

(** The invariant rule for a counted loop: [P k s] holds before iteration
    [k]; every iteration completes and re-establishes it. *)
Lemma for_range_inv (P : Z -> S -> Prop) lo hi (body : Z -> S -> option S) s :
  lo <= hi ->
  P lo s ->
  (forall k s, lo <= k < hi -> P k s ->
     exists s', body k s = Some s' /\ P (k + 1) s') ->
  exists s', for_range lo hi body s = Some s' /\ P hi s'.
Proof.
  intros Hle H0 Hstep.
  assert (forall n : nat, Z.of_nat n <= hi - lo ->
    exists s', for_range lo (lo + Z.of_nat n) body s = Some s'
               /\ P (lo + Z.of_nat n) s') as Hn.
  { induction n as [|n IH]; intros Hb.
    - exists s. rewrite for_range_empty by lia.
      replace (lo + Z.of_nat 0) with lo by lia. done.
    - destruct IH as (s1 & E1 & P1); [lia|].
      destruct (Hstep (lo + Z.of_nat n) s1) as (s2 & E2 & P2); [lia|done|].
      exists s2.
      replace (lo + Z.of_nat (Datatypes.S n)) with (lo + Z.of_nat n + 1) by lia.
      rewrite for_range_last by lia. rewrite E1. simpl. done. }
  destruct (Hn (Z.to_nat (hi - lo))) as (s' & E & HP); [lia|].
  replace (lo + Z.of_nat (Z.to_nat (hi - lo))) with hi in * by lia. eauto.
Qed.

(** The same rule when the loop is known to return. *)
Lemma for_range_inv_partial (P : Z -> S -> Prop) lo hi
    (body : Z -> S -> option S) s s' :
  lo <= hi ->
  for_range lo hi body s = Some s' ->
  P lo s ->
  (forall k s s', lo <= k < hi -> P k s -> body k s = Some s' -> P (k + 1) s') ->
  P hi s'.
Proof.
  intros Hle E H0 Hstep.
  assert (forall n : nat, Z.of_nat n <= hi - lo ->
    forall s1, for_range lo (lo + Z.of_nat n) body s = Some s1 ->
               P (lo + Z.of_nat n) s1) as Hn.
  { induction n as [|n IH]; intros Hb s1 E1.
    - rewrite for_range_empty in E1 by lia. injection E1 as <-.
      replace (lo + Z.of_nat 0) with lo by lia. done.
    - replace (lo + Z.of_nat (Datatypes.S n)) with (lo + Z.of_nat n + 1) in * by lia.
      rewrite for_range_last in E1 by lia.
      destruct (for_range lo (lo + Z.of_nat n) body s) as [s0|] eqn:E0;
        simpl in E1; [|done].
      eapply Hstep; [| |exact E1]; [lia|]. apply IH; [lia|done]. }
  specialize (Hn (Z.to_nat (hi - lo))).
  replace (lo + Z.of_nat (Z.to_nat (hi - lo))) with hi in * by lia.
  apply Hn; [lia|done].
Qed.

Lemma for_range_ext lo hi (f g : Z -> S -> option S) s :
  (forall k s, lo <= k < hi -> f k s = g k s) ->
  for_range lo hi f s = for_range lo hi g s.
Proof.
  intros E. unfold for_range.
  assert (forall l s, (forall k, k ∈ l -> lo <= k < hi) ->
            foldM f l s = foldM g l s) as Hl.
  { induction l as [|x l IH]; intros s0 Hin; simpl; [done|].
    rewrite E by (apply Hin; left).
    destruct (g x s0); simpl; [|done].
    apply IH. intros k Hk. apply Hin. by right. }
  apply Hl. intros k Hk. apply elem_of_seqZ in Hk. lia.
Qed.

End LoopFacts.

(** *** Launches *)

Section LaunchFacts.
Context {S : Type}.

(** The invariant rule for a launch: [P g s] holds when the threads with
    global index below [g] have run. *)
Lemma launch_inv (P : Z -> S -> Prop) gridDim blockDim
    (kernel : Z -> Z -> S -> option S) s :
  0 < gridDim -> 0 < blockDim ->
  P 0 s ->
  (forall bid tid s, 0 <= bid < gridDim -> 0 <= tid < blockDim ->
     P (bid * blockDim + tid) s ->
     exists s', kernel bid tid s = Some s' /\ P (bid * blockDim + tid + 1) s') ->
  exists s', launch gridDim blockDim kernel s = Some s'
             /\ P (gridDim * blockDim) s'.
Proof.
  intros Hg Hb H0 Hstep. unfold launch. case_decide; [|lia].
  apply (for_range_inv (fun bid => P (bid * blockDim))); [lia|done|].
  intros bid s1 Hbid P1.
  destruct (for_range_inv (fun tid => P (bid * blockDim + tid)) 0 blockDim
              (fun tid => kernel bid tid) s1) as (s2 & E2 & P2); [lia| | |].
  - by rewrite Z.add_0_r.
  - intros tid s2 Htid P2.
    destruct (Hstep bid tid s2) as (s3 & E3 & P3); [done|done|done|].
    exists s3. split; [done|]. by rewrite Z.add_assoc.
  - exists s2. split; [done|].
    replace ((bid + 1) * blockDim) with (bid * blockDim + blockDim) by lia. done.
Qed.

Lemma launch_blocks_inv (P : Z -> S -> Prop) gridDim
    (block : Z -> S -> option S) s :
  0 < gridDim ->
  P 0 s ->
  (forall bid s, 0 <= bid < gridDim -> P bid s ->
     exists s', block bid s = Some s' /\ P (bid + 1) s') ->
  exists s', launch_blocks gridDim block s = Some s' /\ P gridDim s'.
Proof.
  intros Hg H0 Hstep. unfold launch_blocks. case_decide; [|lia].
  apply (for_range_inv P); [lia|done|done].
Qed.

End LaunchFacts.

(** *** Arrays updated cell by cell *)

Section Updated.
Context {A : Type}.
Implicit Types (a : list A) (P : Z -> Prop) (v : Z -> A).

(** [a'] is [a] with the cells in [P] set to [v]. *)
Definition updated P v a a' : Prop :=
  length a' = length a /\
  (forall j, P j -> rd a' j = Some (v j)) /\
  (forall j, ~ P j -> rd a' j = rd a j).

Lemma updated_none v a : updated (fun _ => False) v a a.
Proof. split; [done|]. split; [intros j []|done]. Qed.

Lemma updated_ext P Q v a a' :
  (forall j, P j <-> Q j) -> updated P v a a' -> updated Q v a a'.
Proof.
  intros E (L & Hin & Hout). split; [done|]. split.
  - intros j Hj. apply Hin. by apply E.
  - intros j Hj. apply Hout. by rewrite E.
Qed.

Lemma updated_wr P v a a' i x :
  updated P v a a' ->
  0 <= i < Z.of_nat (length a) ->
  x = v i ->
  exists a'', wr a' i x = Some a''
              /\ updated (fun j => P j \/ j = i) v a a''.
Proof.
  intros (L & Hin & Hout) Hi ->.
  assert (wr a' i (v i) = Some (<[Z.to_nat i := v i]> a')) as E
    by (apply wr_Some; lia).
  eexists. split; [exact E|]. split; [|split].
  - by rewrite (wr_length _ _ _ _ E).
  - intros j [Hj | ->]; [|by apply (rd_wr_eq _ _ _ _ E)].
    destruct (decide (j = i)) as [->|Hne]; [by apply (rd_wr_eq _ _ _ _ E)|].
    rewrite (rd_wr_ne _ _ _ _ _ E Hne). by apply Hin.
  - intros j Hj.
    rewrite (rd_wr_ne _ _ _ _ _ E) by tauto. apply Hout. tauto.
Qed.

(** The same for [a[i] = f(a[i])] on a cell not written before. *)
Lemma updated_modify P v a a' i (f : A -> A) x :
  updated P v a a' ->
  ~ P i ->
  rd a i = Some x ->
  f x = v i ->
  exists a'', modify a' i f = Some a''
              /\ updated (fun j => P j \/ j = i) v a a''.
Proof.
  intros U Hn Hx Hv.
  assert (rd a' i = Some x) as Hx' by (destruct U as (_ & _ & Ho); by rewrite Ho).
  unfold modify. rewrite Hx'. simpl.
  apply updated_wr; [done | by eapply rd_Some_lt | done].
Qed.

Lemma updated_all v a a' :
  updated (fun j => 0 <= j < Z.of_nat (length a)) v a a' ->
  forall b, length b = length a ->
  updated (fun j => 0 <= j < Z.of_nat (length b)) v b a'.
Proof.
  intros (L & Hin & Hout) b Lb. split; [congruence|]. split.
  - intros j Hj. apply Hin. by rewrite <- Lb.
  - intros j Hj. rewrite !rd_None; [done| |]; lia.
Qed.

End Updated.

(** *** Loops over three arrays *)

Section ArrayFacts.
Context {F : Type} `{Arith F}.

(** The three arrays have [n] entries each. *)
Definition sized3 (n : Z) (v : list F * list F * list F) : Prop :=
  Z.of_nat (length v.1.1) = n /\ Z.of_nat (length v.1.2) = n /\
  Z.of_nat (length v.2) = n.

(** [v'] is [v] with entry [j] of the three arrays replaced by
    [f j], [g j] and [h j], for all [j] below [n]. *)
Definition rewritten (n : Z) (f g h : Z -> F)
    (v v' : list F * list F * list F) : Prop :=
  updated (fun j => 0 <= j < n) f v.1.1 v'.1.1 /\
  updated (fun j => 0 <= j < n) g v.1.2 v'.1.2 /\
  updated (fun j => 0 <= j < n) h v.2 v'.2.

Lemma rewritten_sized n f g h v v' :
  rewritten n f g h v v' -> sized3 n v -> sized3 n v'.
Proof.
  intros ((Lx & _) & (Ly & _) & (Lz & _)) (Sx & Sy & Sz).
  unfold sized3. rewrite Lx, Ly, Lz. done.
Qed.

Lemma rewritten_get n f g h v v' j :
  rewritten n f g h v v' -> 0 <= j < n ->
  get v'.1.1 j = f j /\ get v'.1.2 j = g j /\ get v'.2 j = h j.
Proof.
  intros ((_ & Hx & _) & (_ & Hy & _) & (_ & Hz & _)) Hj.
  split; [|split]; apply get_rd; auto.
Qed.

(** A loop that modifies entry [i] of the three arrays in iteration [i]. *)
Lemma modify_loop (f g h : Z -> F -> F) (v : list F * list F * list F) n :
  0 <= n -> sized3 n v ->
  exists v',
    for_range 0 n (fun i '(ax, ay, az) =>
      ax ← modify ax i (f i); ay ← modify ay i (g i); az ← modify az i (h i);
      Some (ax, ay, az)) v = Some v' /\
    rewritten n (fun j => f j (get v.1.1 j)) (fun j => g j (get v.1.2 j))
      (fun j => h j (get v.2 j)) v v'.
Proof.
  intros Hn (Lx & Ly & Lz). destruct v as [[ax ay] az]. simpl in * .
  apply (for_range_inv (fun k v' =>
    rewritten k (fun j => f j (get ax j)) (fun j => g j (get ay j))
      (fun j => h j (get az j)) (ax, ay, az) v')); [lia | |].
  { repeat split; simpl; try done; intros j Hj; lia. }
  intros k [[bx by_] bz] Hk (Ux & Uy & Uz). simpl in Ux, Uy, Uz.
  destruct (rd_in_range ax k) as [ux Eux]; [lia|].
  destruct (rd_in_range ay k) as [uy Euy]; [lia|].
  destruct (rd_in_range az k) as [uz Euz]; [lia|].
  destruct (updated_modify _ _ _ _ k (f k) ux Ux) as (cx & -> & Ux');
    [lia | done | by rewrite (get_rd _ _ _ Eux) |].
  destruct (updated_modify _ _ _ _ k (g k) uy Uy) as (cy & -> & Uy');
    [lia | done | by rewrite (get_rd _ _ _ Euy) |].
  destruct (updated_modify _ _ _ _ k (h k) uz Uz) as (cz & -> & Uz');
    [lia | done | by rewrite (get_rd _ _ _ Euz) |].
  simpl. eexists. split; [reflexivity|].
  split; [|split]; simpl; (eapply updated_ext; [|eassumption]);
    intros j; cbv beta; lia.
Qed.

End ArrayFacts.

(** ** Loops that commute with a change of state, and loops that fail *)

Section LoopMaps.
Context {S : Type}.

(** A loop whose body commutes with a change [h] of the state. *)
Lemma for_range_map (h : S -> S) lo hi (body : Z -> S -> option S) s :
  (forall k s, lo <= k < hi -> body k (h s) = h <$> body k s) ->
  for_range lo hi body (h s) = h <$> for_range lo hi body s.
Proof.
  intros Hb. destruct (decide (hi <= lo)) as [Hle|Hlt].
  { by rewrite !for_range_empty by lia. }
  assert (forall n : nat, lo + Z.of_nat n <= hi ->
    for_range lo (lo + Z.of_nat n) body (h s)
    = h <$> for_range lo (lo + Z.of_nat n) body s) as Hn.
  { induction n as [|n IH]; intros Hle.
    - by rewrite !for_range_empty by lia.
    - replace (lo + Z.of_nat (Datatypes.S n)) with (lo + Z.of_nat n + 1) by lia.
      rewrite !for_range_last by lia. rewrite IH by lia.
      destruct (for_range lo (lo + Z.of_nat n) body s) as [s'|]; simpl; [|done].
      apply Hb. lia. }
  specialize (Hn (Z.to_nat (hi - lo))).
  replace (lo + Z.of_nat (Z.to_nat (hi - lo))) with hi in Hn by lia.
  apply Hn. lia.
Qed.



End LoopMaps.

(** * The Stillinger-Weber potential ([sw.cu]) *)

Module SW.

Section Definitions.
Context {F : Type} `{Arith F}.

(** [exp] of the C math library. *)
Variable exp : F -> F.

(** [Box] and [dev_apply_mic] are declared in [mic.cuh], which is not
    among the sources: the minimum-image correction of a displacement. *)
Context {Box : Type}.
Variable dev_apply_mic : Box -> F -> F -> F -> F * F * F.

(** The indeterminate contents of freshly allocated device memory. *)
Variable garbage : Z -> F.

(** ** Parameter tables *)

(** [double t[3][3]] and [double t[3][3][3]]; an entry that was never
    assigned keeps whatever the table held before. *)
Definition table2 : Type := Z -> Z -> F.
Definition table3 : Type := Z -> Z -> Z -> F.

Definition set2 (t : table2) (n1 n2 : Z) (v : F) : table2 :=
  fun i j => if decide (i = n1 /\ j = n2) then v else t i j.
Definition set3 (t : table3) (n1 n2 n3 : Z) (v : F) : table3 :=
  fun i j k => if decide (i = n1 /\ j = n2 /\ k = n3) then v else t i j k.

Record SW2_Para := {
  A : table2; B : table2; a : table2;
  sigma : table2; gamma : table2; rc : table2;
  lambda : table3; cos0 : table3
}.

(** The six assignments [sw2_para.X[n1][n2] = ...] of one type pair. *)
Definition set_pair (p : SW2_Para) (n1 n2 : Z) (vA vB va vsigma vgamma vrc : F)
    : SW2_Para :=
  {| A := set2 (A p) n1 n2 vA; B := set2 (B p) n1 n2 vB;
     a := set2 (a p) n1 n2 va; sigma := set2 (sigma p) n1 n2 vsigma;
     gamma := set2 (gamma p) n1 n2 vgamma; rc := set2 (rc p) n1 n2 vrc;
     lambda := lambda p; cos0 := cos0 p |}.

(** The two assignments [sw2_para.lambda[n1][n2][n3] = ...] and
    [sw2_para.cos0[n1][n2][n3] = ...]. *)
Definition set_triple (p : SW2_Para) (n1 n2 n3 : Z) (vlambda vcos0 : F)
    : SW2_Para :=
  {| A := A p; B := B p; a := a p; sigma := sigma p; gamma := gamma p;
     rc := rc p;
     lambda := set3 (lambda p) n1 n2 n3 vlambda;
     cos0 := set3 (cos0 p) n1 n2 n3 vcos0 |}.

(** The potential file is the stream of the numbers still to be read.
    [fscanf] with [k] conversions [%lf] returns the [k] values and the
    rest of the stream; [None] is a count other than [k], which
    [PRINT_SCANF_ERROR] turns into a fatal error. *)
Definition fscanf (k : nat) (fid : list F) : option (list F * list F) :=
  if decide (k <= length fid)%nat then Some (take k fid, drop k fid) else None.

(** [SW2::initialize_sw_1985_1]: the tables, the force cutoff [rc] of the
    potential and the rest of the stream. *)
Definition initialize_sw_1985_1 (sw2_para : SW2_Para) (fid : list F)
    : option (SW2_Para * F * list F) :=
  '(vs, fid) ← fscanf 8 fid;
  match vs with
  | [epsilon; vlambda; vA; vB; va; vgamma; vsigma; vcos0] =>
      let sw2_para :=
        set_pair sw2_para 0 0 (epsilon *. vA) vB va vsigma vgamma (vsigma *. va) in
      let rc_ := rc sw2_para 0 0 in
      let sw2_para := set_triple sw2_para 0 0 0 (epsilon *. vlambda) vcos0 in
      Some (sw2_para, rc_, fid)
  | _ => None
  end.

(** The three-body loops shared by the two- and three-element readers:
    [for n1 < nt, n2 < nt, n3 < nt] read [lambda] and [cos0]. *)
Definition read_three_body (nt : Z) (st : SW2_Para * list F)
    : option (SW2_Para * list F) :=
  for_range 0 nt (fun n1 =>
    for_range 0 nt (fun n2 =>
      for_range 0 nt (fun n3 '(sw2_para, fid) =>
        '(vs, fid) ← fscanf 2 fid;
        match vs with
        | [vlambda; vcos0] =>
            Some (set_triple sw2_para n1 n2 n3 vlambda vcos0, fid)
        | _ => None
        end))) st.

(** [SW2::initialize_sw_1985_2]. *)
Definition initialize_sw_1985_2 (sw2_para : SW2_Para) (fid : list F)
    : option (SW2_Para * F * list F) :=
  (* the local arrays A[3], B[3], a[3], sigma[3], gamma[3], one row each *)
  '(rows, fid) ← for_range 0 3 (fun n '(rows, fid) =>
      '(vs, fid) ← fscanf 5 fid;
      Some (rows ++ [vs], fid)) ([], fid);
  '(sw2_para, rc_) ← for_range 0 2 (fun n1 =>
    for_range 0 2 (fun n2 '(sw2_para, rc_) =>
      row ← rd rows (n1 + n2);
      match row with
      | [vA; vB; va; vsigma; vgamma] =>
          let sw2_para :=
            set_pair sw2_para n1 n2 vA vB va vsigma vgamma (vsigma *. va) in
          let rc_ := if flt rc_ (rc sw2_para n1 n2)
                     then rc sw2_para n1 n2 else rc_ in
          Some (sw2_para, rc_)
      | _ => None
      end)) (sw2_para, ZERO);
  '(sw2_para, fid) ← read_three_body 2 (sw2_para, fid);
  Some (sw2_para, rc_, fid).

(** The body of the double loop of [initialize_sw_1985_3]: read the row
    of type pair [(n1, n2)]; the state is the tables, the cutoff [rc] and
    the stream. *)
Definition read_pair (n1 n2 : Z) (st : SW2_Para * F * list F)
    : option (SW2_Para * F * list F) :=
  let '(sw2_para, rc_, fid) := st in
  '(vs, fid) ← fscanf 5 fid;
  match vs with
  | [vA; vB; va; vsigma; vgamma] =>
      let sw2_para :=
        set_pair sw2_para n1 n2 vA vB va vsigma vgamma (vsigma *. va) in
      let rc_ := if flt rc_ (rc sw2_para n1 n2)
                 then rc sw2_para n1 n2 else rc_ in
      Some (sw2_para, rc_, fid)
  | _ => None
  end.

(** [SW2::initialize_sw_1985_3]. *)
Definition initialize_sw_1985_3 (sw2_para : SW2_Para) (fid : list F)
    : option (SW2_Para * F * list F) :=
  '(sw2_para, rc_, fid) ← for_range 0 3 (fun n1 =>
    for_range 0 3 (fun n2 => read_pair n1 n2)) (sw2_para, ZERO, fid);
  '(sw2_para, fid) ← read_three_body 3 (sw2_para, fid);
  Some (sw2_para, rc_, fid).

(** ** The potential object *)

(** What [sw.cu] reads of [Atom]. *)
Record Atom := {
  N : Z;                         (* number of atoms *)
  MN : Z;                        (* neighbor.MN: neighbours per atom, at most *)
  NN_local : list Z;             (* neighbour counts *)
  NL_local : list Z;             (* neighbour list, entry i of atom n at i*N+n *)
  type : list Z;
  shift : list Z;                (* type offset of each potential *)
  x : list F; y : list F; z : list F;
  potential_per_atom : list F;
  box : Box
}.

Record SW2_Data := { f12x : list F; f12y : list F; f12z : list F }.

Record SW2 := {
  sw2_para : SW2_Para;
  potential_rc : F;              (* Potential::rc *)
  N1 : Z; N2 : Z;                (* Potential::N1, Potential::N2 *)
  sw2_data : SW2_Data
}.

(** The conversion of a [size_t] to an [int] of 32 bits: the value modulo
    [2^32], read as a signed number. *)
Definition int_of_size_t (n : Z) : Z := (n + 2 ^ 31) mod 2 ^ 32 - 2 ^ 31.

(** [cudaMalloc] of [size] bytes for an array of doubles.  The argument is
    a [size_t]: a negative [int] arrives as [2^64 - |size|] bytes, which
    no device has. *)
Definition cudaMalloc (size : Z) : option (list F) :=
  if decide (0 <= size) then Some (garbage <$> seqZ 0 (size `quot` 8))
  else None.

(** The per-atom capacity of the partial-force buffers. *)
Definition num_of_neighbors (atom : Atom) : Z :=
  if decide (MN atom < 50) then MN atom else 50.

(** The constructor [SW2::SW2].  [this] holds the members as they are
    before the constructor body runs.  [memory] is an [int]: the product
    [sizeof(double) * atom->N * num_of_neighbors] is computed as a [size_t]
    and narrowed. *)
Definition new_SW2 (this : SW2) (fid : list F) (atom : Atom) (num_of_types : Z)
    : option (SW2 * list F) :=
  '(para, rc_, fid) ←
    (if decide (num_of_types = 1) then initialize_sw_1985_1 (sw2_para this) fid
     else Some (sw2_para this, potential_rc this, fid));
  '(para, rc_, fid) ←
    (if decide (num_of_types = 2) then initialize_sw_1985_2 para fid
     else Some (para, rc_, fid));
  '(para, rc_, fid) ←
    (if decide (num_of_types = 3) then initialize_sw_1985_3 para fid
     else Some (para, rc_, fid));
  let memory := int_of_size_t (8 * N atom * num_of_neighbors atom) in
  bx ← cudaMalloc memory;
  by_ ← cudaMalloc memory;
  bz ← cudaMalloc memory;
  Some ({| sw2_para := para; potential_rc := rc_;
           N1 := N1 this; N2 := N2 this;
           sw2_data := {| f12x := bx; f12y := by_; f12z := bz |} |}, fid).

(** ** The force kernel *)

(** [find_p2_and_f2]: the two-body energy [p2] and force factor [f2]. *)
Definition find_p2_and_f2 (sigma_ a_ B_ epsilon_times_A d12 : F) : F * F :=
  let r12 := d12 /. sigma_ in
  let B_over_r12power4 := B_ /. (r12 *. r12 *. r12 *. r12) in
  let exp_factor := epsilon_times_A *. exp (ONE /. (r12 -. a_)) in
  let p2 := exp_factor *. (B_over_r12power4 -. ONE) in
  let f2 := -. p2 /. ((r12 -. a_) *. (r12 -. a_))
            -. exp_factor *. FOUR *. B_over_r12power4 /. r12 in
  (p2, f2 /. (sigma_ *. d12)).

(** [LDG(a, n)], a read of [a[n]] through the read-only cache. *)
Definition LDG (g : list F) (n : Z) : option F := rd g n.

Section Kernels.
(** The kernel arguments that are only read. *)
Variables (number_of_particles N1_ N2_ : Z) (box_ : Box) (sw3 : SW2_Para).
Variables (g_neighbor_number g_neighbor_list g_type : list Z) (shift_ : Z).
Variables (g_x g_y g_z : list F).

(** The local variables of one atom [n1] and one of its neighbours [n2]
    that the three-body loop reads. *)
Record pair_locals := {
  l_n1 : Z; l_type1 : Z; l_x1 : F; l_y1 : F; l_z1 : F;
  l_n2 : Z; l_type2 : Z; l_x12 : F; l_y12 : F; l_z12 : F;
  l_d12 : F; l_d12inv : F;
  l_gamma12 : F; l_sigma12 : F; l_a12 : F; l_tmp : F
}.

(** One iteration [i2] of the three-body loop; the state is
    [(potential_energy, f12x, f12y, f12z)]. *)
Definition three_body (l : pair_locals) (i2 : Z) (st : F * F * F * F)
    : option (F * F * F * F) :=
  let '(potential_energy, f12x_, f12y_, f12z_) := st in
  n3 ← rd g_neighbor_list (l_n1 l + number_of_particles * i2);
  if decide (n3 = l_n2 l) then Some st else
  t3 ← rd g_type n3;
  let type3 := t3 - shift_ in
  x3 ← LDG g_x n3; y3 ← LDG g_y n3; z3 ← LDG g_z n3;
  let '(x13, y13, z13) :=
    dev_apply_mic box_ (x3 -. l_x1 l) (y3 -. l_y1 l) (z3 -. l_z1 l) in
  let d13 := fsqrt (x13 *. x13 +. y13 *. y13 +. z13 *. z13) in
  if fge d13 (rc sw3 (l_type1 l) type3) then Some st else
  let vcos0 := cos0 sw3 (l_type1 l) (l_type2 l) type3 in
  let vlambda := lambda sw3 (l_type1 l) (l_type2 l) type3 in
  let exp123 := d13 /. sigma sw3 (l_type1 l) type3 -. a sw3 (l_type1 l) type3 in
  let exp123 := gamma sw3 (l_type1 l) type3 /. exp123 in
  let exp123 :=
    exp (l_gamma12 l /. (l_d12 l /. l_sigma12 l -. l_a12 l) +. exp123) in
  let one_over_d12d13 := ONE /. (l_d12 l *. d13) in
  let cos123 :=
    (l_x12 l *. x13 +. l_y12 l *. y13 +. l_z12 l *. z13) *. one_over_d12d13 in
  let cos123_over_d12d12 := cos123 *. l_d12inv l *. l_d12inv l in
  let tmp1 := exp123 *. (cos123 -. vcos0) *. vlambda in
  let tmp2 := l_tmp l *. (cos123 -. vcos0) *. l_d12inv l in
  let potential_energy :=
    potential_energy +. (cos123 -. vcos0) *. tmp1 *. HALF in
  let cos_d := x13 *. one_over_d12d13 -. l_x12 l *. cos123_over_d12d12 in
  let f12x_ := f12x_ +. tmp1 *. (TWO *. cos_d -. tmp2 *. l_x12 l) in
  let cos_d := y13 *. one_over_d12d13 -. l_y12 l *. cos123_over_d12d12 in
  let f12y_ := f12y_ +. tmp1 *. (TWO *. cos_d -. tmp2 *. l_y12 l) in
  let cos_d := z13 *. one_over_d12d13 -. l_z12 l *. cos123_over_d12d12 in
  let f12z_ := f12z_ +. tmp1 *. (TWO *. cos_d -. tmp2 *. l_z12 l) in
  Some (potential_energy, f12x_, f12y_, f12z_).

(** The part of iteration [i1] after the cutoff test: the two-body term,
    the three-body loop and the store of the partial force. *)
Definition pair_eval (neighbor_number index n1 type1 : Z) (x1 y1 z1 : F)
    (n2 type2 : Z) (x12 y12 z12 d12 d12inv : F)
    (st : F * SW2_Data) : option (F * SW2_Data) :=
  let '(potential_energy, g_f12) := st in
  let gamma12 := gamma sw3 type1 type2 in
  let sigma12 := sigma sw3 type1 type2 in
  let a12 := a sw3 type1 type2 in
  let tmp := gamma12 /.
    (sigma12 *. (d12 /. sigma12 -. a12) *. (d12 /. sigma12 -. a12)) in
  let '(p2, f2) :=
    find_p2_and_f2 sigma12 a12 (B sw3 type1 type2) (A sw3 type1 type2) d12 in
  (* treat the two-body part in the same way as the many-body part *)
  let f12x_ := f2 *. x12 *. HALF in
  let f12y_ := f2 *. y12 *. HALF in
  let f12z_ := f2 *. z12 *. HALF in
  (* accumulate potential energy *)
  let potential_energy := potential_energy +. p2 *. HALF in
  (* three-body part *)
  let l := {| l_n1 := n1; l_type1 := type1; l_x1 := x1; l_y1 := y1; l_z1 := z1;
              l_n2 := n2; l_type2 := type2;
              l_x12 := x12; l_y12 := y12; l_z12 := z12;
              l_d12 := d12; l_d12inv := d12inv;
              l_gamma12 := gamma12; l_sigma12 := sigma12; l_a12 := a12;
              l_tmp := tmp |} in
  '(potential_energy, f12x_, f12y_, f12z_) ←
    for_range 0 neighbor_number (three_body l)
      (potential_energy, f12x_, f12y_, f12z_);
  bx ← wr (f12x g_f12) index f12x_;
  by_ ← wr (f12y g_f12) index f12y_;
  bz ← wr (f12z g_f12) index f12z_;
  Some (potential_energy, {| f12x := bx; f12y := by_; f12z := bz |}).

(** Iteration [i1] of the loop over the neighbours of atom [n1]; the state
    is [potential_energy] and the three partial-force buffers. *)
Definition pair_step (neighbor_number n1 type1 : Z) (x1 y1 z1 : F) (i1 : Z)
    (st : F * SW2_Data) : option (F * SW2_Data) :=
  let index := i1 * number_of_particles + n1 in
  n2 ← rd g_neighbor_list index;
  t2 ← rd g_type n2;
  let type2 := t2 - shift_ in
  x2 ← LDG g_x n2; y2 ← LDG g_y n2; z2 ← LDG g_z n2;
  let '(x12, y12, z12) := dev_apply_mic box_ (x2 -. x1) (y2 -. y1) (z2 -. z1) in
  let d12 := fsqrt (x12 *. x12 +. y12 *. y12 +. z12 *. z12) in
  let d12inv := ONE /. d12 in
  if fge d12 (rc sw3 type1 type2) then Some st (* continue *) else
  pair_eval neighbor_number index n1 type1 x1 y1 z1
    n2 type2 x12 y12 z12 d12 d12inv st.

(** [gpu_find_force_sw3_partial], thread [threadIdx.x = tid] of block
    [blockIdx.x = bid]; the state is [g_potential] and the buffers. *)
Definition gpu_find_force_sw3_partial (blockDim bid tid : Z)
    (st : list F * SW2_Data) : option (list F * SW2_Data) :=
  let '(g_potential, g_f12) := st in
  let n1 := bid * blockDim + tid + N1_ in
  if decide (n1 >= N1_ /\ n1 < N2_) then
    neighbor_number ← rd g_neighbor_number n1;
    t1 ← rd g_type n1;
    let type1 := t1 - shift_ in
    x1 ← LDG g_x n1; y1 ← LDG g_y n1; z1 ← LDG g_z n1;
    '(potential_energy, g_f12) ←
      for_range 0 neighbor_number
        (pair_step neighbor_number n1 type1 x1 y1 z1) (ZERO, g_f12);
    (* save potential *)
    g_potential ← wr g_potential n1 potential_energy;
    Some (g_potential, g_f12)
  else Some st.

End Kernels.

(** [gpu_set_f12_to_zero], thread [tid] of block [bid]. *)
Definition gpu_set_f12_to_zero (N_ N1_ N2_ : Z) (g_NN : list Z)
    (blockDim bid tid : Z) (g_f12 : SW2_Data) : option SW2_Data :=
  let n1 := bid * blockDim + tid + N1_ in
  if decide (n1 >= N1_ /\ n1 < N2_) then
    neighbor_number ← rd g_NN n1;
    for_range 0 neighbor_number (fun i1 g_f12 =>
      let index := i1 * N_ + n1 in
      bx ← wr (f12x g_f12) index ZERO;
      by_ ← wr (f12y g_f12) index ZERO;
      bz ← wr (f12z g_f12) index ZERO;
      Some {| f12x := bx; f12y := by_; f12z := bz |}) g_f12
  else Some g_f12.

Definition BLOCK_SIZE_SW : Z := 64.

(** The reset launch of [SW2::compute]. *)
Definition compute_reset (this : SW2) (atom : Atom) : option SW2_Data :=
  let grid_size := (N2 this - N1 this - 1) `quot` BLOCK_SIZE_SW + 1 in
  launch grid_size BLOCK_SIZE_SW
    (gpu_set_f12_to_zero (N atom) (N1 this) (N2 this) (NN_local atom)
       BLOCK_SIZE_SW)
    (sw2_data this).

(** Step 1 of [SW2::compute], on buffers that were reset: the potential
    energies and the partial forces. *)
Definition compute_partial (this : SW2) (atom : Atom) (potential_number : Z)
    (g_f12 : SW2_Data) : option (list F * SW2_Data) :=
  shift_ ← rd (shift atom) potential_number;
  let grid_size := (N2 this - N1 this - 1) `quot` BLOCK_SIZE_SW + 1 in
  launch grid_size BLOCK_SIZE_SW
    (gpu_find_force_sw3_partial (N atom) (N1 this) (N2 this) (box atom)
       (sw2_para this) (NN_local atom) (NL_local atom) (type atom) shift_
       (x atom) (y atom) (z atom) BLOCK_SIZE_SW)
    (potential_per_atom atom, g_f12).

(** [SW2::compute] up to the call of [find_properties_many_body] (the
    accumulator, which is not part of [sw.cu]): the new potential energies
    and the potential object with its buffers. *)
Definition compute (this : SW2) (atom : Atom) (potential_number : Z)
    : option (list F * SW2) :=
  g_f12 ← compute_reset this atom;
  '(pe, g_f12) ← compute_partial this atom potential_number g_f12;
  Some (pe, {| sw2_para := sw2_para this; potential_rc := potential_rc this;
               N1 := N1 this; N2 := N2 this; sw2_data := g_f12 |}).

End Definitions.

Arguments table2 F : clear implicits.
Arguments table3 F : clear implicits.
Arguments SW2_Para F : clear implicits.
Arguments SW2_Data F : clear implicits.
Arguments SW2 F : clear implicits.
Arguments Atom F Box : clear implicits.

(** ** Properties of the parameter tables *)

Section TableFacts.
Context {F : Type} `{Arith F}.

(** A two-body table is symmetric on the types [0 .. nt-1]. *)
Definition symmetric (nt : Z) (t : table2 F) : Prop :=
  forall i j, 0 <= i < nt -> 0 <= j < nt -> t i j = t j i.

Definition two_body_symmetric (nt : Z) (p : SW2_Para F) : Prop :=
  symmetric nt (A p) /\ symmetric nt (B p) /\ symmetric nt (a p) /\
  symmetric nt (sigma p) /\ symmetric nt (gamma p) /\ symmetric nt (rc p).

(** The cutoff of every type pair is [sigma * a]. *)
Definition cutoff_is_sigma_a (nt : Z) (p : SW2_Para F) : Prop :=
  forall i j, 0 <= i < nt -> 0 <= j < nt -> rc p i j = sigma p i j *. a p i j.

(** The entries of type pair [(i, j)] are those of row [r] of the file. *)
Definition pair_from_row (fid : list F) (p : SW2_Para F) (i j r : Z) : Prop :=
  A p i j = get fid (5 * r) /\ B p i j = get fid (5 * r + 1) /\
  a p i j = get fid (5 * r + 2) /\ sigma p i j = get fid (5 * r + 3) /\
  gamma p i j = get fid (5 * r + 4).

Lemma set2_eq (t : table2 F) n1 n2 v : set2 t n1 n2 v n1 n2 = v.
Proof. unfold set2. case_decide; [done | tauto]. Qed.

Lemma set2_ne (t : table2 F) n1 n2 v i j :
  (i, j) <> (n1, n2) -> set2 t n1 n2 v i j = t i j.
Proof.
  intros Hne. unfold set2. case_decide as Hd; [|done].
  destruct Hd as [-> ->]. done.
Qed.

Lemma fscanf_inv k (fid vs rest : list F) :
  fscanf k fid = Some (vs, rest) ->
  fid = vs ++ rest /\ length vs = k.
Proof.
  unfold fscanf. case_decide; [|done]. intros [= <- <-].
  split; [by rewrite take_drop | rewrite length_take; lia].
Qed.

Lemma for_range_2 {S} (f : Z -> S -> option S) s :
  for_range 0 2 f s = s1 ← f 0 s; f 1 s1.
Proof.
  unfold for_range. replace (seqZ 0 (2 - 0)) with [0; 1] by reflexivity.
  simpl. destruct (f 0 s) as [s1|]; simpl; [|done].
  by destruct (f 1 s1).
Qed.

Lemma for_range_3 {S} (f : Z -> S -> option S) s :
  for_range 0 3 f s = s1 ← f 0 s; s2 ← f 1 s1; f 2 s2.
Proof.
  unfold for_range. replace (seqZ 0 (3 - 0)) with [0; 1; 2] by reflexivity.
  simpl. destruct (f 0 s) as [s1|]; simpl; [|done].
  destruct (f 1 s1) as [s2|]; simpl; [|done].
  by destruct (f 2 s2).
Qed.

(** The three-body loops leave the two-body tables alone. *)
Lemma read_three_body_two_body nt (p p' : SW2_Para F) (fid fid' : list F) :
  0 <= nt ->
  read_three_body nt (p, fid) = Some (p', fid') ->
  A p' = A p /\ B p' = B p /\ a p' = a p /\ sigma p' = sigma p /\
  gamma p' = gamma p /\ rc p' = rc p.
Proof.
  intros Hnt E. unfold read_three_body in E.
  set (Q := fun (st : SW2_Para F * list F) =>
    A st.1 = A p /\ B st.1 = B p /\ a st.1 = a p /\ sigma st.1 = sigma p /\
    gamma st.1 = gamma p /\ rc st.1 = rc p).
  change (Q (p', fid')).
  eapply (for_range_inv_partial (fun _ => Q)); [exact Hnt | exact E | by unfold Q |].
  intros n1 s1 s1' _ Q1 E1.
  eapply (for_range_inv_partial (fun _ => Q)); [exact Hnt | exact E1 | done |].
  intros n2 s2 s2' _ Q2 E2.
  eapply (for_range_inv_partial (fun _ => Q)); [exact Hnt | exact E2 | done |].
  intros n3 [q fq] s3' _ Q3 E3. simpl in E3.
  destruct (fscanf 2 fq) as [[vs fq']|]; simpl in E3; [|done].
  destruct vs as [|v1 [|v2 [|]]]; try done.
  injection E3 as <-. exact Q3.
Qed.

End TableFacts.

Section ReaderFacts.
Context {F : Type} `{Arith F}.

Ltac five v := destruct v as [|? [|? [|? [|? [|? [|]]]]]]; try discriminate.

Ltac eval_rd_in E :=
  repeat match type of E with
  | context [rd ?l ?i] =>
      let v := eval vm_compute in (rd l i) in change (rd l i) with v in E
  end.

Ltac eval_get :=
  repeat match goal with
  | |- context [get ?l ?i] =>
      let v := eval vm_compute in (get l i) in change (get l i) with v
  end.

(** One successful [fscanf] of five numbers in hypothesis [E]. *)
Ltac scan5 E :=
  match type of E with
  | context [fscanf 5 ?f] =>
      let v := fresh "v" in let r := fresh "r" in let E0 := fresh "E0" in
      destruct (fscanf 5 f) as [[v r]|] eqn:E0; simpl in E; [|discriminate E];
      apply fscanf_inv in E0 as [-> E0]; five v; clear E0
  end.

Lemma initialize_1_spec (p0 p : SW2_Para F) (fid fid' : list F) rc_ :
  initialize_sw_1985_1 p0 fid = Some (p, rc_, fid') ->
  A p 0 0 = get fid 0 *. get fid 2 /\ B p 0 0 = get fid 3 /\
  a p 0 0 = get fid 4 /\ gamma p 0 0 = get fid 5 /\
  sigma p 0 0 = get fid 6 /\ rc p 0 0 = sigma p 0 0 *. a p 0 0 /\
  rc_ = rc p 0 0.
Proof.
  intros E. unfold initialize_sw_1985_1 in E.
  destruct (fscanf 8 fid) as [[vs r]|] eqn:E0; simpl in E; [|done].
  apply fscanf_inv in E0 as [-> _].
  destruct vs as [|? [|? [|? [|? [|? [|? [|? [|? [|]]]]]]]]]; try done.
  injection E as <- <- <-. simpl. eval_get. unfold set2. simpl. done.
Qed.

Lemma initialize_2_spec (p0 p : SW2_Para F) (fid fid' : list F) rc_ :
  initialize_sw_1985_2 p0 fid = Some (p, rc_, fid') ->
  forall i j, 0 <= i < 2 -> 0 <= j < 2 ->
    pair_from_row fid p i j (i + j) /\ rc p i j = sigma p i j *. a p i j.
Proof.
  intros E. unfold initialize_sw_1985_2 in E.
  rewrite for_range_3 in E. do 3 scan5 E.
  rewrite !for_range_2 in E. eval_rd_in E. simpl in E.
  eval_rd_in E. simpl in E.
  match type of E with context [read_three_body 2 ?st] =>
    destruct (read_three_body 2 st) as [[q fq]|] eqn:E3; simpl in E; [|done] end.
  injection E as <- <- <-.
  apply read_three_body_two_body in E3 as (EA & EB & Ea & Es & Eg & Er); [|lia].
  intros i j Hi Hj. unfold pair_from_row. rewrite EA, EB, Ea, Es, Eg, Er. simpl.
  assert (i = 0 \/ i = 1) as [-> | ->] by lia;
  assert (j = 0 \/ j = 1) as [-> | ->] by lia; simpl; eval_get; unfold set2; simpl;
  repeat split; reflexivity.
Qed.

Lemma read_pair_inv n1 n2 (p p' : SW2_Para F) (r r' : F) (fid fid' : list F) :
  read_pair n1 n2 (p, r, fid) = Some (p', r', fid') ->
  exists vA vB va vs vg,
    fid = [vA; vB; va; vs; vg] ++ fid' /\
    p' = set_pair p n1 n2 vA vB va vs vg (vs *. va).
Proof.
  unfold read_pair. intros E. scan5 E. simpl in E. injection E as <- _ <-.
  eauto 10.
Qed.

Lemma initialize_3_spec (p0 p : SW2_Para F) (fid fid' : list F) rc_ :
  initialize_sw_1985_3 p0 fid = Some (p, rc_, fid') ->
  forall i j, 0 <= i < 3 -> 0 <= j < 3 ->
    pair_from_row fid p i j (3 * i + j) /\ rc p i j = sigma p i j *. a p i j.
Proof.
  intros E. unfold initialize_sw_1985_3 in E.
  rewrite !for_range_3 in E.
  do 9 (rewrite ?for_range_3 in E;
    match type of E with context [read_pair ?n1 ?n2 ?st] =>
      let E1 := fresh "E1" in
      destruct (read_pair n1 n2 st) as [[[? ?] ?]|] eqn:E1;
        [|discriminate E];
      apply read_pair_inv in E1 as (? & ? & ? & ? & ? & -> & ->);
      rewrite ?bind_Some_eq in E
    end).
  match type of E with context [read_three_body 3 ?st] =>
    destruct (read_three_body 3 st) as [[q fq]|] eqn:E3; simpl in E; [|done] end.
  injection E as <- <- <-.
  apply read_three_body_two_body in E3 as (EA & EB & Ea & Es & Eg & Er); [|lia].
  intros i j Hi Hj. unfold pair_from_row. rewrite EA, EB, Ea, Es, Eg, Er. simpl.
  assert (i = 0 \/ i = 1 \/ i = 2) as [-> | [-> | ->]] by lia;
  assert (j = 0 \/ j = 1 \/ j = 2) as [-> | [-> | ->]] by lia;
  simpl; eval_get; unfold set2; simpl; repeat split; reflexivity.
Qed.

Context {Box : Type} (garbage : Z -> F).

(** The size in bytes of each buffer that the constructor asks for. *)
Definition buffer_bytes (atom : Atom F Box) : Z :=
  int_of_size_t (8 * N atom * num_of_neighbors atom).

(** What the constructor did, by the number of species. *)
Lemma new_SW2_inv (this sw : SW2 F) (fid fid' : list F) (atom : Atom F Box) nt :
  new_SW2 garbage this fid atom nt = Some (sw, fid') ->
  (nt = 1 -> initialize_sw_1985_1 (sw2_para this) fid
             = Some (sw2_para sw, potential_rc sw, fid')) /\
  (nt = 2 -> initialize_sw_1985_2 (sw2_para this) fid
             = Some (sw2_para sw, potential_rc sw, fid')) /\
  (nt = 3 -> initialize_sw_1985_3 (sw2_para this) fid
             = Some (sw2_para sw, potential_rc sw, fid')) /\
  0 <= buffer_bytes atom /\
  f12x (sw2_data sw) = garbage <$> seqZ 0 (buffer_bytes atom `quot` 8) /\
  f12y (sw2_data sw) = garbage <$> seqZ 0 (buffer_bytes atom `quot` 8) /\
  f12z (sw2_data sw) = garbage <$> seqZ 0 (buffer_bytes atom `quot` 8).
Proof.
  unfold new_SW2, cudaMalloc. fold (buffer_bytes atom). intros E.
  destruct (decide (0 <= buffer_bytes atom)) as [Hm|Hm].
  2:{ repeat (case_decide || (simpl in E) ||
        match type of E with context [@mbind _ _ _ _ _ ?o] =>
          destruct o as [[[? ?] ?]|]; simpl in E end); done. }
  destruct (decide (nt = 1)) as [->|N1];
    [|destruct (decide (nt = 2)) as [->|N2];
      [|destruct (decide (nt = 3)) as [->|N3]]]; simpl in E.
  - destruct (initialize_sw_1985_1 _ fid) as [[[p r] f]|]; simpl in E; [|done].
    injection E as <- <-. simpl. repeat split; (done || lia).
  - destruct (initialize_sw_1985_2 _ fid) as [[[p r] f]|]; simpl in E; [|done].
    injection E as <- <-. simpl. repeat split; (done || lia).
  - destruct (initialize_sw_1985_3 _ fid) as [[[p r] f]|]; simpl in E; [|done].
    injection E as <- <-. simpl. repeat split; (done || lia).
  - injection E as <- <-. simpl. repeat split; (done || lia).
Qed.

End ReaderFacts.

(** ** Symmetry of the two-body tables *)

Section Symmetry.
Context {F : Type} `{Arith F} {Box : Type} (garbage : Z -> F).

(** The rows of a three-element file agree for the pairs [(i, j)] and
    [(j, i)]: row [3 i + j] holds [A B a sigma gamma] of pair [(i, j)]. *)
Definition rows_symmetric (fid : list F) : Prop :=
  forall i j k, 0 <= i < 3 -> 0 <= j < 3 -> 0 <= k < 5 ->
    get fid (5 * (3 * i + j) + k) = get fid (5 * (3 * j + i) + k).

Lemma symmetric_from_rows nt (p : SW2_Para F) (fid : list F) (row : Z -> Z -> Z) :
  (forall i j, 0 <= i < nt -> 0 <= j < nt ->
     pair_from_row fid p i j (row i j) /\ rc p i j = sigma p i j *. a p i j) ->
  (forall i j k, 0 <= i < nt -> 0 <= j < nt -> 0 <= k < 5 ->
     get fid (5 * row i j + k) = get fid (5 * row j i + k)) ->
  two_body_symmetric nt p.
Proof.
  intros Hp Hr.
  assert (forall i j, 0 <= i < nt -> 0 <= j < nt ->
    A p i j = A p j i /\ B p i j = B p j i /\ a p i j = a p j i /\
    sigma p i j = sigma p j i /\ gamma p i j = gamma p j i) as Hs.
  { intros i j Hi Hj.
    destruct (Hp i j Hi Hj) as [(EA & EB & Ea & Es & Eg) _].
    destruct (Hp j i Hj Hi) as [(EA' & EB' & Ea' & Es' & Eg') _].
    rewrite EA, EB, Ea, Es, Eg, EA', EB', Ea', Es', Eg'.
    pose proof (Hr i j 0 Hi Hj) as H0. rewrite !Z.add_0_r in H0.
    rewrite H0, (Hr i j 1), (Hr i j 2), (Hr i j 3), (Hr i j 4) by lia. done. }
  repeat split; intros i j Hi Hj; try (by apply Hs).
  destruct (Hp i j Hi Hj) as [_ ->], (Hp j i Hj Hi) as [_ ->].
  destruct (Hs i j Hi Hj) as (_ & _ & -> & -> & _). done.
Qed.

(** C9, as the code has it.  After a successful construction for one or
    two species the two-body tables [A], [B], [a], [sigma], [gamma] and
    [rc] are symmetric whatever the file holds (for two species entry
    [(n1, n2)] is row [n1 + n2] of three rows).  For three species every
    ordered pair [(i, j)] has a row of its own, row [3 i + j] of nine, so
    the tables are symmetric exactly when those rows are. *)
Theorem two_body_tables_symmetry_by_species
    (this sw : SW2 F) (fid fid' : list F) (atom : Atom F Box) (nt : Z) :
  new_SW2 garbage this fid atom nt = Some (sw, fid') ->
  (nt = 1 \/ nt = 2 -> two_body_symmetric nt (sw2_para sw)) /\
  (nt = 3 ->
     (forall i j, 0 <= i < 3 -> 0 <= j < 3 ->
        pair_from_row fid (sw2_para sw) i j (3 * i + j)) /\
     (two_body_symmetric 3 (sw2_para sw) <-> rows_symmetric fid)).
Proof.
  intros E. apply new_SW2_inv in E as (E1 & E2 & E3 & _). split.
  - intros [-> | ->].
    + specialize (E1 eq_refl). apply initialize_1_spec in E1.
      destruct E1 as (_ & _ & _ & _ & _ & _ & _).
      repeat split; intros i j Hi Hj;
        assert (i = 0) as -> by lia; assert (j = 0) as -> by lia; done.
    + specialize (E2 eq_refl).
      apply (symmetric_from_rows 2 _ fid (fun i j => i + j)).
      * by apply (initialize_2_spec _ _ _ _ _ E2).
      * intros i j k _ _ _. by rewrite (Z.add_comm i j).
  - intros ->. specialize (E3 eq_refl).
    pose proof (initialize_3_spec _ _ _ _ _ E3) as Hp. split; [|split].
    + intros i j Hi Hj. by apply Hp.
    + intros (SA & SB & Sa & Ss & Sg & _) i j k Hi Hj Hk.
      destruct (Hp i j Hi Hj) as [(EA & EB & Ea & Es & Eg) _].
      destruct (Hp j i Hj Hi) as [(EA' & EB' & Ea' & Es' & Eg') _].
      assert (k = 0 \/ k = 1 \/ k = 2 \/ k = 3 \/ k = 4)
        as [-> | [-> | [-> | [-> | ->]]]] by lia.
      * rewrite !Z.add_0_r, <- EA, <- EA'. by apply SA.
      * rewrite <- EB, <- EB'. by apply SB.
      * rewrite <- Ea, <- Ea'. by apply Sa.
      * rewrite <- Es, <- Es'. by apply Ss.
      * rewrite <- Eg, <- Eg'. by apply Sg.
    + intros Hr. apply (symmetric_from_rows 3 _ fid (fun i j => 3 * i + j));
        [exact Hp | exact Hr].
Qed.

End Symmetry.

(** Concrete potential files, in binary64. *)

Definition no_tables : SW2_Para float :=
  {| A := fun _ _ => 0%float; B := fun _ _ => 0%float; a := fun _ _ => 0%float;
     sigma := fun _ _ => 0%float; gamma := fun _ _ => 0%float;
     rc := fun _ _ => 0%float;
     lambda := fun _ _ _ => 0%float; cos0 := fun _ _ _ => 0%float |}.

Definition blank_SW2 (n1 n2 : Z) : SW2 float :=
  {| sw2_para := no_tables; potential_rc := 0%float; N1 := n1; N2 := n2;
     sw2_data := {| f12x := []; f12y := []; f12z := [] |} |}.

(** Two atoms one unit apart, each the only neighbour of the other. *)
Definition two_atoms : Atom float unit :=
  {| N := 2; MN := 1; NN_local := [1; 1]; NL_local := [1; 0];
     type := [0; 0]; shift := [0];
     x := [0; 1]%float; y := [0; 0]%float; z := [0; 0]%float;
     potential_per_atom := [0; 0]%float; box := tt |}.

(** Three rows [A B a sigma gamma] for the pairs 00, 01 = 10 and 11, then
    eight rows [lambda cos0]. *)
Definition two_species_file : list float :=
  ([7; 0.5; 2; 2; 1] ++ [8; 0.5; 2; 2; 1] ++ [9; 0.5; 2; 2; 1]
   ++ concat (replicate 8 [21; -0.5]))%float.

(** Nine rows [A B a sigma gamma], one per ordered pair, whose [A] differ
    between pair 01 and pair 10; then 27 rows [lambda cos0]. *)
Definition three_species_file : list float :=
  ([7; 0.5; 2; 2; 1] ++ [8; 0.5; 2; 2; 1] ++ [9; 0.5; 2; 2; 1]
   ++ [10; 0.5; 2; 2; 1] ++ [11; 0.5; 2; 2; 1] ++ [12; 0.5; 2; 2; 1]
   ++ [13; 0.5; 2; 2; 1] ++ [14; 0.5; 2; 2; 1] ++ [15; 0.5; 2; 2; 1]
   ++ concat (replicate 27 [21; -0.5]))%float.

Lemma two_species_tables_symmetric :
  exists sw fid',
    new_SW2 (fun _ => 0%float) (blank_SW2 0 2) two_species_file two_atoms 2
      = Some (sw, fid') /\
    two_body_symmetric 2 (sw2_para sw).
Proof.
  destruct (new_SW2 (fun _ => 0%float) (blank_SW2 0 2) two_species_file
              two_atoms 2) as [[sw fid']|] eqn:E.
  - exists sw, fid'. split; [reflexivity|].
    apply (two_body_tables_symmetry_by_species _ _ _ _ _ _ _ E). by right.
  - assert (succeeds (new_SW2 (fun _ => 0%float) (blank_SW2 0 2)
                        two_species_file two_atoms 2) = true) as Hs
      by (vm_compute; reflexivity).
    rewrite E in Hs. discriminate Hs.
Defined.

(** C9 as stated fails for three species: the file gives pair 01 and pair
    10 different values of [A], and the constructor stores both. *)
Lemma three_species_tables_not_symmetric :
  exists sw fid',
    new_SW2 (fun _ => 0%float) (blank_SW2 0 2) three_species_file two_atoms 3
      = Some (sw, fid') /\
    ~ two_body_symmetric 3 (sw2_para sw).
Proof.
  destruct (new_SW2 (fun _ => 0%float) (blank_SW2 0 2) three_species_file
              two_atoms 3) as [[sw fid']|] eqn:E.
  - exists sw, fid'. split; [reflexivity|].
    apply new_SW2_inv in E as (_ & _ & E3 & _). specialize (E3 eq_refl).
    pose proof (initialize_3_spec _ _ _ _ _ E3) as Hp.
    intros (SA & _).
    destruct (Hp 0 1) as [(EA & _) _]; [lia|lia|].
    destruct (Hp 1 0) as [(EA' & _) _]; [lia|lia|].
    specialize (SA 0 1). rewrite EA, EA' in SA.
    specialize (SA ltac:(lia) ltac:(lia)).
    apply (f_equal (fun t => PrimFloat.eqb t 8)) in SA.
    vm_compute in SA. discriminate SA.
  - assert (succeeds (new_SW2 (fun _ => 0%float) (blank_SW2 0 2)
                        three_species_file two_atoms 3) = true) as Hs
      by (vm_compute; reflexivity).
    rewrite E in Hs. discriminate Hs.
Qed.

(** ** The two-body term, over the real numbers *)

Section RealTwoBody.
Context {Box : Type} (dev_apply_mic : Box -> R -> R -> R -> R * R * R).
Context (garbage : Z -> R).

Lemma Rgeb_true (u v : R) : ~ (u < v)%R -> Rgeb u v = true.
Proof. intros Hn. unfold Rgeb. destruct (Rge_dec u v); [done | lra]. Qed.

Lemma Rgeb_false (u v : R) : (u < v)%R -> Rgeb u v = false.
Proof. intros Hn. unfold Rgeb. destruct (Rge_dec u v); [lra | done]. Qed.

(** The energy computed by [find_p2_and_f2] is the Stillinger-Weber pair
    energy. *)
Lemma find_p2_real (vsigma va vB vA d12 : R) :
  (find_p2_and_f2 Rtrigo_def.exp vsigma va vB vA d12).1
  = (vA * Rtrigo_def.exp (1 / (d12 / vsigma - va))
       * (vB * (vsigma / d12) ^ 4 - 1))%R.
Proof.
  unfold find_p2_and_f2, ONE. simpl.
  f_equal. f_equal.
  rewrite <- (Rinv_div d12 vsigma). set (r12 := (d12 / vsigma)%R).
  unfold Rdiv. rewrite !Rinv_mult. ring.
Qed.

(** After a successful construction the cutoff of every pair of species
    is [sigma * a]. *)
Lemma constructed_cutoff (this sw : SW2 R) (fid fid' : list R)
    (atom : Atom R Box) (nt : Z) :
  new_SW2 garbage this fid atom nt = Some (sw, fid') ->
  1 <= nt <= 3 ->
  cutoff_is_sigma_a nt (sw2_para sw).
Proof.
  intros E Hnt. apply new_SW2_inv in E as (E1 & E2 & E3 & _).
  intros i j Hi Hj.
  assert (nt = 1 \/ nt = 2 \/ nt = 3) as [-> | [-> | ->]] by lia.
  - apply initialize_1_spec in E1 as (_ & _ & _ & _ & _ & Er & _); [|done].
    assert (i = 0) as -> by lia. assert (j = 0) as -> by lia. exact Er.
  - by apply (initialize_2_spec _ _ _ _ _ (E2 eq_refl)).
  - by apply (initialize_3_spec _ _ _ _ _ (E3 eq_refl)).
Qed.

Section Shift.
Variables (number_of_particles : Z) (box_ : Box) (sw3 : SW2_Para R).
Variables (g_neighbor_list g_type : list Z) (shift_ : Z).
Variables (g_x g_y g_z : list R).

(** The state [(potential_energy, f12x, f12y, f12z)] of the three-body
    loop, moved by [c]. *)
Definition moved (c : R * R * R * R) (st : R * R * R * R) : R * R * R * R :=
  (c.1.1.1 + st.1.1.1, c.1.1.2 + st.1.1.2, c.1.2 + st.1.2, c.2 + st.2)%R.

(** An iteration of the three-body loop adds to the state what it adds
    to the zero state. *)
Lemma three_body_moved (l : pair_locals) i2 (c st : R * R * R * R) :
  three_body Rtrigo_def.exp dev_apply_mic number_of_particles box_ sw3
    g_neighbor_list g_type shift_ g_x g_y g_z l i2 (moved c st)
  = moved c <$>
    three_body Rtrigo_def.exp dev_apply_mic number_of_particles box_ sw3
      g_neighbor_list g_type shift_ g_x g_y g_z l i2 st.
Proof.
  destruct c as [[[c0 c1] c2] c3], st as [[[e fx] fy] fz].
  unfold three_body, moved. cbn [fst snd].
  destruct (rd g_neighbor_list _) as [n3|]; simpl; [|done].
  case_decide; [done|].
  destruct (rd g_type n3) as [t3|]; simpl; [|done].
  destruct (LDG g_x n3) as [x3|]; simpl; [|done].
  destruct (LDG g_y n3) as [y3|]; simpl; [|done].
  destruct (LDG g_z n3) as [z3|]; simpl; [|done].
  destruct (dev_apply_mic _ _ _ _) as [[x13 y13] z13].
  destruct (Rgeb _ _); [done|]. simpl.
  f_equal. repeat (apply pair_equal_spec; split); ring.
Qed.

Lemma three_body_loop_moved (l : pair_locals) n (c st : R * R * R * R) :
  for_range 0 n
    (three_body Rtrigo_def.exp dev_apply_mic number_of_particles box_ sw3
       g_neighbor_list g_type shift_ g_x g_y g_z l) (moved c st)
  = moved c <$>
    for_range 0 n
      (three_body Rtrigo_def.exp dev_apply_mic number_of_particles box_ sw3
         g_neighbor_list g_type shift_ g_x g_y g_z l) st.
Proof.
  apply for_range_map. intros k s _. apply three_body_moved.
Qed.

End Shift.

(** C3.  For the neighbour in slot [i1] of atom [n1], at minimum-image
    distance [d12], in a state [(pe, g)] of the energy of the atom and the
    buffers:
    - the cutoff of the pair is [sigma * a];
    - when [d12] is not below it, the iteration leaves the energy and the
      buffers as they are;
    - when [d12] is below it, the iteration adds to the energy half of
      the two-body energy
      [p2 = A exp(1 / (d12 / sigma - a)) (B (sigma / d12)^4 - 1)]
      and the three-body terms [e3] of the pair, and stores in cell
      [i1 * N + n1] of the buffers half of the two-body force along
      [x12], [y12], [z12] plus the three-body forces;
    - for one species [A] is the product [epsilon * A] of the file's
      values.
    The three-body terms are what the three-body loop of the pair
    accumulates from zero. *)
Theorem two_body_cutoff_and_energy
    (this sw : SW2 R) (fid fid' : list R) (atom : Atom R Box) (nt : Z)
    (number_of_particles : Z) (box_ : Box)
    (g_neighbor_list g_type : list Z) (shift_ : Z) (g_x g_y g_z : list R)
    (neighbor_number n1 type1 : Z) (x1 y1 z1 : R) (i1 : Z)
    (pe : R) (g : SW2_Data R)
    (n2 t2 : Z) (x2 y2 z2 x12 y12 z12 : R) :
  new_SW2 garbage this fid atom nt = Some (sw, fid') ->
  1 <= nt <= 3 -> 0 <= type1 < nt -> 0 <= t2 - shift_ < nt ->
  rd g_neighbor_list (i1 * number_of_particles + n1) = Some n2 ->
  rd g_type n2 = Some t2 ->
  LDG g_x n2 = Some x2 -> LDG g_y n2 = Some y2 -> LDG g_z n2 = Some z2 ->
  dev_apply_mic box_ (x2 - x1)%R (y2 - y1)%R (z2 - z1)%R = (x12, y12, z12) ->
  let sw3 := sw2_para sw in
  let type2 := t2 - shift_ in
  let index := i1 * number_of_particles + n1 in
  let d12 := R_sqrt.sqrt (x12 * x12 + y12 * y12 + z12 * z12)%R in
  let vsigma := sigma sw3 type1 type2 in
  let va := a sw3 type1 type2 in
  let vgamma := gamma sw3 type1 type2 in
  let p2 := (A sw3 type1 type2 * Rtrigo_def.exp (1 / (d12 / vsigma - va))
             * (B sw3 type1 type2 * (vsigma / d12) ^ 4 - 1))%R in
  let f2 := (find_p2_and_f2 Rtrigo_def.exp vsigma va (B sw3 type1 type2)
               (A sw3 type1 type2) d12).2 in
  let l := {| l_n1 := n1; l_type1 := type1;
              l_x1 := x1; l_y1 := y1; l_z1 := z1;
              l_n2 := n2; l_type2 := type2;
              l_x12 := x12; l_y12 := y12; l_z12 := z12;
              l_d12 := d12; l_d12inv := (1 / d12)%R;
              l_gamma12 := vgamma; l_sigma12 := vsigma; l_a12 := va;
              l_tmp := (vgamma / (vsigma * (d12 / vsigma - va)
                                  * (d12 / vsigma - va)))%R |} in
  let step :=
    pair_step Rtrigo_def.exp dev_apply_mic number_of_particles box_ sw3
      g_neighbor_list g_type shift_ g_x g_y g_z
      neighbor_number n1 type1 x1 y1 z1 i1 (pe, g) in
  rc sw3 type1 type2 = (vsigma * va)%R /\
  (~ (d12 < vsigma * va)%R -> step = Some (pe, g)) /\
  ((d12 < vsigma * va)%R ->
   forall e3 fx fy fz : R,
     for_range 0 neighbor_number
       (three_body Rtrigo_def.exp dev_apply_mic number_of_particles box_ sw3
          g_neighbor_list g_type shift_ g_x g_y g_z l) (0, 0, 0, 0)%R
     = Some (e3, fx, fy, fz) ->
     0 <= index < Z.of_nat (length (f12x g)) ->
     0 <= index < Z.of_nat (length (f12y g)) ->
     0 <= index < Z.of_nat (length (f12z g)) ->
     step
     = Some ((pe + p2 / 2 + e3)%R,
             {| f12x := <[Z.to_nat index := (f2 * x12 / 2 + fx)%R]> (f12x g);
                f12y := <[Z.to_nat index := (f2 * y12 / 2 + fy)%R]> (f12y g);
                f12z := <[Z.to_nat index := (f2 * z12 / 2 + fz)%R]> (f12z g)
             |})) /\
  (nt = 1 -> A sw3 0 0 = (get fid 0 * get fid 2)%R).
Proof.
  intros E Hnt Ht1 Ht2 En2 Et2 Ex Ey Ez Emic
    sw3 type2 index d12 vsigma va vgamma p2 f2 l step.
  assert (rc sw3 type1 type2 = (vsigma * va)%R) as Hrc.
  { by apply (constructed_cutoff _ _ _ _ _ _ E). }
  assert (step = (if Rgeb d12 (rc sw3 type1 type2) then Some (pe, g) else
      pair_eval Rtrigo_def.exp dev_apply_mic number_of_particles box_ sw3
        g_neighbor_list g_type shift_ g_x g_y g_z
        neighbor_number index n1 type1 x1 y1 z1
        n2 type2 x12 y12 z12 d12 (1 / d12)%R (pe, g))) as Hstep.
  { unfold step, pair_step. rewrite En2. simpl. rewrite Et2. simpl.
    rewrite Ex, Ey, Ez. simpl. rewrite Emic. reflexivity. }
  split; [exact Hrc|]. split; [|split].
  - intros Hge. rewrite Hstep, Hrc. by rewrite Rgeb_true.
  - intros Hlt e3 fx fy fz E3 Bx By Bz.
    rewrite Hstep, Hrc, Rgeb_false by done.
    unfold pair_eval. fold vsigma va vgamma.
    pose proof (find_p2_real vsigma va (B sw3 type1 type2)
                  (A sw3 type1 type2) d12) as Hp2. fold p2 in Hp2.
    fold sw3 in f2 |- * .
    destruct (find_p2_and_f2 Rtrigo_def.exp vsigma va (B sw3 type1 type2)
                (A sw3 type1 type2) d12) as [p2' f2'] eqn:Ef.
    simpl in Hp2. subst p2'. subst f2. cbn [snd].
    change (fdiv vgamma (fmul (fmul vsigma (fsub (fdiv d12 vsigma) va))
                           (fsub (fdiv d12 vsigma) va)))
      with (l_tmp l).
    match goal with
    | |- context [for_range 0 neighbor_number ?body ?s0] =>
      replace s0 with (moved s0 (0, 0, 0, 0)%R)
        by (unfold moved; cbn [fst snd];
            repeat (apply pair_equal_spec; split); apply Rplus_0_r);
      change body with
        (three_body Rtrigo_def.exp dev_apply_mic number_of_particles box_ sw3
           g_neighbor_list g_type shift_ g_x g_y g_z l)
    end.
    rewrite three_body_loop_moved, E3. simpl.
    rewrite !wr_Some by lia. simpl.
    f_equal. unfold HALF. simpl.
    apply pair_equal_spec; split; [lra|].
    f_equal; f_equal; lra.
  - intros ->. apply new_SW2_inv in E as (E1 & _).
    by apply initialize_1_spec in E1 as (EA & _).
Qed.

End RealTwoBody.

(** A one-species file [epsilon lambda A B a gamma sigma cos0] and two
    atoms one unit apart, over the real numbers. *)
Definition one_species_file_R : list R :=
  [2; 21; 7; / 2; 2; 1; 2; - / 3]%R.

Definition no_tables_R : SW2_Para R :=
  {| A := fun _ _ => 0%R; B := fun _ _ => 0%R; a := fun _ _ => 0%R;
     sigma := fun _ _ => 0%R; gamma := fun _ _ => 0%R; rc := fun _ _ => 0%R;
     lambda := fun _ _ _ => 0%R; cos0 := fun _ _ _ => 0%R |}.

Definition blank_SW2_R : SW2 R :=
  {| sw2_para := no_tables_R; potential_rc := 0%R; N1 := 0; N2 := 2;
     sw2_data := {| f12x := []; f12y := []; f12z := [] |} |}.

Definition two_atoms_R : Atom R unit :=
  {| N := 2; MN := 1; NN_local := [1; 1]; NL_local := [1; 0];
     type := [0; 0]; shift := [0];
     x := [0; 1]%R; y := [0; 0]%R; z := [0; 0]%R;
     potential_per_atom := [0; 0]%R; box := tt |}.

(** No periodic image is nearer. *)
Definition no_mic (b : unit) (dx dy dz : R) : R * R * R := (dx, dy, dz).

Lemma one_species_pair_cutoff :
  exists sw fid',
    new_SW2 (fun _ => 0%R) blank_SW2_R one_species_file_R two_atoms_R 1
      = Some (sw, fid') /\
    let sw3 := sw2_para sw in
    let vA := A sw3 0 0 in let vB := B sw3 0 0 in
    let va := a sw3 0 0 in let vsigma := sigma sw3 0 0 in
    let d12 := R_sqrt.sqrt ((1 - 0) * (1 - 0) + (0 - 0) * (0 - 0)
                            + (0 - 0) * (0 - 0))%R in
    let p2 := (vA * Rtrigo_def.exp (1 / (d12 / vsigma - va))
               * (vB * (vsigma / d12) ^ 4 - 1))%R in
    let f2 := (find_p2_and_f2 Rtrigo_def.exp vsigma va vB vA d12).2 in
    rc sw3 0 0 = (vsigma * va)%R /\
    (d12 < vsigma * va)%R /\
    pair_step Rtrigo_def.exp no_mic 2 tt sw3 [1; 0] [0; 0] 0
      [0; 1]%R [0; 0]%R [0; 0]%R 1 0 0 0%R 0%R 0%R 0
      (0%R, {| f12x := [7; 7]%R; f12y := [7; 7]%R; f12z := [7; 7]%R |})
    = Some ((0 + p2 / 2 + 0)%R,
            {| f12x := [(f2 * (1 - 0) / 2 + 0)%R; 7%R];
               f12y := [(f2 * (0 - 0) / 2 + 0)%R; 7%R];
               f12z := [(f2 * (0 - 0) / 2 + 0)%R; 7%R] |}).
Proof.
  destruct (new_SW2 (fun _ => 0%R) blank_SW2_R one_species_file_R
              two_atoms_R 1) as [[sw fid']|] eqn:E.
  - exists sw, fid'. split; [reflexivity|].
    pose proof (two_body_cutoff_and_energy no_mic (fun _ => 0%R)
      blank_SW2_R sw one_species_file_R fid' two_atoms_R 1
      2 tt [1; 0] [0; 0] 0 [0; 1]%R [0; 0]%R [0; 0]%R
      1 0 0 0%R 0%R 0%R 0
      0%R {| f12x := [7; 7]%R; f12y := [7; 7]%R; f12z := [7; 7]%R |}
      1 0 1%R 0%R 0%R (1 - 0)%R (0 - 0)%R (0 - 0)%R
      E ltac:(lia) ltac:(lia) ltac:(lia) eq_refl eq_refl eq_refl eq_refl
      eq_refl eq_refl) as (Hrc & _ & Hin & _).
    cbv zeta in Hrc, Hin |- * . change (0 - 0) with 0 in Hrc, Hin.
    assert (R_sqrt.sqrt ((1 - 0) * (1 - 0) + (0 - 0) * (0 - 0)
                         + (0 - 0) * (0 - 0))
            < sigma (sw2_para sw) 0%Z 0%Z * a (sw2_para sw) 0%Z 0%Z)%R as Hlt.
    { apply new_SW2_inv in E as (E1 & _).
      apply initialize_1_spec in E1 as (_ & _ & -> & _ & -> & _); [|done].
      replace ((1 - 0) * (1 - 0) + (0 - 0) * (0 - 0) + (0 - 0) * (0 - 0))%R
        with 1%R by ring.
      rewrite sqrt_1. unfold get, one_species_file_R. simpl. lra. }
    split; [exact Hrc|]. split; [exact Hlt|].
    apply (Hin Hlt 0%R 0%R 0%R 0%R); [reflexivity | simpl; lia..].
  - assert (succeeds (new_SW2 (fun _ => 0%R) blank_SW2_R one_species_file_R
                        two_atoms_R 1) = true) as Hs by reflexivity.
    rewrite E in Hs. discriminate Hs.
Defined.

(** ** The reset kernel *)

Section Reset.
Context {F : Type} `{Arith F}.

(** The neighbour count of atom [n]. *)
Definition count (g_NN : list Z) (n : Z) : Z := default 0 (rd g_NN n).

(** Cell [j] is slot [i1] of an atom [n1] with [lo <= n1 < hi] and
    [i1 < cnt n1]. *)
Definition slot_cells (N_ lo hi : Z) (cnt : Z -> Z) (j : Z) : Prop :=
  exists n1 i1, lo <= n1 < hi /\ 0 <= i1 < cnt n1 /\ j = i1 * N_ + n1.

Definition data_updated (P : Z -> Prop) (v : Z -> F) (d d' : SW2_Data F) : Prop :=
  updated P v (f12x d) (f12x d') /\ updated P v (f12y d) (f12y d') /\
  updated P v (f12z d) (f12z d').

Lemma data_updated_ext (P Q : Z -> Prop) v (d d' : SW2_Data F) :
  (forall j, P j <-> Q j) -> data_updated P v d d' -> data_updated Q v d d'.
Proof. intros E (X & Y & Z_). repeat split; by eapply updated_ext. Qed.

(** The grid of [SW2::compute] covers the atoms [N1 .. N2-1]. *)
Lemma grid_size_covers (n1 n2 : Z) :
  n1 <= n2 ->
  let grid_size := (n2 - n1 - 1) `quot` BLOCK_SIZE_SW + 1 in
  0 < grid_size /\ n2 - n1 <= grid_size * BLOCK_SIZE_SW.
Proof.
  intros Hle grid_size. unfold grid_size, BLOCK_SIZE_SW.
  destruct (decide (n2 = n1)) as [->|Hne].
  - replace (n1 - n1 - 1) with (-1) by lia. change ((-1) `quot` 64) with 0. lia.
  - pose proof (Z.quot_rem' (n2 - n1 - 1) 64) as E.
    pose proof (Z.rem_bound_pos (n2 - n1 - 1) 64) as Hb.
    pose proof (Z.quot_pos (n2 - n1 - 1) 64). lia.
Qed.

Lemma reset_launch (N_ n1_ n2_ : Z) (g_NN : list Z) (d : SW2_Data F) :
  0 <= n1_ <= n2_ -> n2_ <= Z.of_nat (length g_NN) ->
  (forall j, slot_cells N_ n1_ n2_ (count g_NN) j ->
     0 <= j < Z.of_nat (length (f12x d)) /\
     0 <= j < Z.of_nat (length (f12y d)) /\
     0 <= j < Z.of_nat (length (f12z d))) ->
  exists d',
    launch ((n2_ - n1_ - 1) `quot` BLOCK_SIZE_SW + 1) BLOCK_SIZE_SW
      (gpu_set_f12_to_zero N_ n1_ n2_ g_NN BLOCK_SIZE_SW) d = Some d' /\
    data_updated (slot_cells N_ n1_ n2_ (count g_NN)) (fun _ => ZERO) d d'.
Proof.
  intros Hn Hlen Hin.
  destruct (grid_size_covers n1_ n2_) as [Hg Hcov]; [lia|].
  set (grid_size := (n2_ - n1_ - 1) `quot` BLOCK_SIZE_SW + 1) in * .
  clearbody grid_size. unfold BLOCK_SIZE_SW in * .
  set (Q := fun (m : Z) (d' : SW2_Data F) =>
    data_updated (slot_cells N_ n1_ (Z.min m n2_) (count g_NN))
      (fun _ => ZERO) d d').
  destruct (launch_inv (fun g => Q (n1_ + g)) grid_size 64
    (gpu_set_f12_to_zero N_ n1_ n2_ g_NN 64) d)
    as (d' & E & Qd); [lia | done | | |].
  - unfold Q. eapply data_updated_ext;
      [|repeat split; apply updated_none].
    intros j. split; [done|]. intros (n1 & i1 & ? & _). lia.
  - intros bid tid d1 Hbid Htid Q1. unfold gpu_set_f12_to_zero.
    set (n1 := bid * 64 + tid + n1_).
    assert (n1 = bid * 64 + tid + n1_) as Hn1 by reflexivity. clearbody n1.
    case_decide as Hr.
    2:{ exists d1. split; [done|]. unfold Q in * .
        replace (Z.min (n1_ + (bid * 64 + tid + 1)) n2_)
          with (Z.min (n1_ + (bid * 64 + tid)) n2_) by lia. done. }
    destruct (rd_in_range g_NN n1) as [c Ec]; [lia|].
    rewrite Ec. simpl.
    assert (count g_NN n1 = c) as Hc by (unfold count; by rewrite Ec).
    set (Qin := fun (k : Z) (d' : SW2_Data F) =>
      data_updated (fun j => slot_cells N_ n1_ n1 (count g_NN) j \/
                             exists i1, 0 <= i1 < k /\ j = i1 * N_ + n1)
        (fun _ => ZERO) d d').
    assert (Qin 0 d1) as Q0.
    { unfold Q in Q1. eapply data_updated_ext; [|exact Q1].
      intros j. replace (Z.min (n1_ + (bid * 64 + tid)) n2_)
        with n1 by lia.
      split; [tauto|]. intros [?|(i1 & ? & _)]; [done|lia]. }
    assert (exists d2,
      for_range 0 c (fun i1 g_f12 =>
        bx ← wr (f12x g_f12) (i1 * N_ + n1) ZERO;
        by_ ← wr (f12y g_f12) (i1 * N_ + n1) ZERO;
        bz ← wr (f12z g_f12) (i1 * N_ + n1) ZERO;
        Some {| f12x := bx; f12y := by_; f12z := bz |}) d1 = Some d2
      /\ Qin (Z.max 0 c) d2) as (d2 & E2 & Q2).
    { destruct (decide (c <= 0)) as [Hc0|Hc0].
      - exists d1. rewrite for_range_empty by lia.
        replace (Z.max 0 c) with 0 by lia. done.
      - replace (Z.max 0 c) with c by lia.
        apply (for_range_inv Qin); [lia|done|].
        intros k d2 Hk (Ux & Uy & Uz).
        assert (slot_cells N_ n1_ n2_ (count g_NN) (k * N_ + n1)) as Hcell.
        { exists n1, k. repeat split; lia. }
        destruct (Hin _ Hcell) as (Bx & By & Bz).
        destruct (updated_wr _ _ _ _ (k * N_ + n1) ZERO Ux Bx eq_refl)
          as (bx & -> & Ux').
        destruct (updated_wr _ _ _ _ (k * N_ + n1) ZERO Uy By eq_refl)
          as (by_ & -> & Uy').
        destruct (updated_wr _ _ _ _ (k * N_ + n1) ZERO Uz Bz eq_refl)
          as (bz & -> & Uz').
        simpl. eexists. split; [reflexivity|].
        assert (forall j,
          ((slot_cells N_ n1_ n1 (count g_NN) j \/
            exists i1, 0 <= i1 < k /\ j = i1 * N_ + n1) \/ j = k * N_ + n1)
          <-> (slot_cells N_ n1_ n1 (count g_NN) j \/
               exists i1, 0 <= i1 < k + 1 /\ j = i1 * N_ + n1)) as Hext.
        { intros j. split.
          - intros [[?|(i1 & ? & ?)]| ->]; [by left| |].
            + right. exists i1. split; [lia|done].
            + right. exists k. split; [lia|done].
          - intros [?|(i1 & ? & ->)]; [by left; left|].
            destruct (decide (i1 = k)) as [->|]; [by right|].
            left. right. exists i1. split; [lia|done]. }
        unfold Qin. split; [|split]; simpl;
          (eapply updated_ext; [exact Hext | assumption]). }
    exists d2. split; [exact E2|]. unfold Q, Qin in * .
    eapply data_updated_ext; [|exact Q2].
    intros j. replace (Z.min (n1_ + (bid * 64 + tid + 1)) n2_)
      with (n1 + 1) by lia.
    split.
    + intros [(m & i1 & ? & ? & ->)|(i1 & ? & ->)].
      * exists m, i1. repeat split; lia.
      * exists n1, i1. repeat split; lia.
    + intros (m & i1 & Hm & Hi & ->).
      destruct (decide (m = n1)) as [->|].
      * right. exists i1. split; [lia|done].
      * left. exists m, i1. repeat split; lia.
  - exists d'. split; [exact E|]. unfold Q in Qd.
    replace (Z.min (n1_ + grid_size * 64) n2_) with n2_ in Qd by lia.
    exact Qd.
Qed.

End Reset.

Section ResetClaim.
Context {F : Type} `{Arith F} {Box : Type}.

(** The potential object fits the atoms: the range [N1 .. N2-1] lies
    within the [N] atoms, no atom of the range has more neighbours than
    the buffers have slots per atom, and the buffers are as the
    constructor allocates them. *)
Definition wf_buffers (this : SW2 F) (atom : Atom F Box) : Prop :=
  0 <= N1 this <= N2 this /\ N2 this <= N atom /\
  Z.of_nat (length (NN_local atom)) = N atom /\
  (forall n1, N1 this <= n1 < N2 this ->
     count (NN_local atom) n1 <= num_of_neighbors atom) /\
  Z.of_nat (length (f12x (sw2_data this))) = N atom * num_of_neighbors atom /\
  Z.of_nat (length (f12y (sw2_data this))) = N atom * num_of_neighbors atom /\
  Z.of_nat (length (f12z (sw2_data this))) = N atom * num_of_neighbors atom.

Lemma slot_in_buffer (N_ cap n1 i1 c : Z) :
  0 <= n1 < N_ -> 0 <= i1 < c -> c <= cap ->
  0 <= i1 * N_ + n1 < N_ * cap.
Proof. intros Hn Hi Hc. nia. Qed.

(** C4 as stated: after the reset every slot of every atom of the range
    is zero, up to the capacity of the buffers. *)
Definition zero_up_to_capacity (this : SW2 F) (atom : Atom F Box)
    (d' : SW2_Data F) : Prop :=
  forall n1 i1, N1 this <= n1 < N2 this -> 0 <= i1 < num_of_neighbors atom ->
    rd (f12x d') (i1 * N atom + n1) = Some ZERO /\
    rd (f12y d') (i1 * N atom + n1) = Some ZERO /\
    rd (f12z d') (i1 * N atom + n1) = Some ZERO.

(** C4, as the code has it.  The reset kernel completes and zeroes, for
    every atom of the range, the slots below the atom's current neighbour
    count; every other cell of the three buffers keeps its value. *)
Theorem reset_zeroes_neighbour_slots (this : SW2 F) (atom : Atom F Box) :
  wf_buffers this atom ->
  exists d',
    compute_reset this atom = Some d' /\
    (forall n1 i1, N1 this <= n1 < N2 this ->
       0 <= i1 < count (NN_local atom) n1 ->
       rd (f12x d') (i1 * N atom + n1) = Some ZERO /\
       rd (f12y d') (i1 * N atom + n1) = Some ZERO /\
       rd (f12z d') (i1 * N atom + n1) = Some ZERO) /\
    (forall j,
       ~ slot_cells (N atom) (N1 this) (N2 this) (count (NN_local atom)) j ->
       rd (f12x d') j = rd (f12x (sw2_data this)) j /\
       rd (f12y d') j = rd (f12y (sw2_data this)) j /\
       rd (f12z d') j = rd (f12z (sw2_data this)) j).
Proof.
  intros (Hr & Hn & Hl & Hc & Lx & Ly & Lz).
  destruct (reset_launch (N atom) (N1 this) (N2 this) (NN_local atom)
              (sw2_data this)) as (d' & E & Ux & Uy & Uz); [lia | lia | |].
  { intros j (n1 & i1 & Hn1 & Hi1 & ->). rewrite Lx, Ly, Lz.
    pose proof (slot_in_buffer (N atom) (num_of_neighbors atom) n1 i1
                  (count (NN_local atom) n1)) as Hb.
    specialize (Hc n1 Hn1). lia. }
  exists d'. split; [exact E|]. split.
  - intros n1 i1 Hn1 Hi1.
    assert (slot_cells (N atom) (N1 this) (N2 this) (count (NN_local atom))
              (i1 * N atom + n1)) as Hcell by (by exists n1, i1).
    destruct Ux as (_ & Hx & _), Uy as (_ & Hy & _), Uz as (_ & Hz & _).
    by rewrite Hx, Hy, Hz.
  - intros j Hj.
    destruct Ux as (_ & _ & Hx), Uy as (_ & _ & Hy), Uz as (_ & _ & Hz).
    by rewrite Hx, Hy, Hz.
Qed.

End ResetClaim.

(** Two atoms with one neighbour each, buffers of two slots per atom
    whose second slots still hold partial forces of an earlier step. *)
Definition two_atoms_two_slots : Atom float unit :=
  {| N := 2; MN := 2; NN_local := [1; 1]; NL_local := [1; 0; 0; 0];
     type := [0; 0]; shift := [0];
     x := [0; 1]%float; y := [0; 0]%float; z := [0; 0]%float;
     potential_per_atom := [0; 0]%float; box := tt |}.

Definition stale_SW2 : SW2 float :=
  {| sw2_para := no_tables; potential_rc := 0%float; N1 := 0; N2 := 2;
     sw2_data := {| f12x := [1; 2; 3; 4]%float; f12y := [5; 6; 7; 8]%float;
                    f12z := [9; 10; 11; 12]%float |} |}.

Lemma reset_of_stale_buffers :
  exists d',
    compute_reset stale_SW2 two_atoms_two_slots = Some d' /\
    rd (f12x d') 0 = Some 0%float /\ rd (f12x d') 2 = Some 3%float.
Proof.
  destruct (reset_zeroes_neighbour_slots stale_SW2 two_atoms_two_slots)
    as (d' & E & Hz & Hs).
  { unfold wf_buffers. simpl. repeat split; try lia; try reflexivity.
    intros n1 Hn1. assert (n1 = 0 \/ n1 = 1) as [-> | ->] by lia;
      vm_compute; discriminate. }
  exists d'. split; [exact E|]. split.
  - apply (Hz 0 0); [simpl; lia|].
    change (count (NN_local two_atoms_two_slots) 0) with 1. lia.
  - destruct (Hs 2) as (-> & _); [|reflexivity].
    intros (n1 & i1 & Hn1 & Hi1 & Hj). simpl in Hn1, Hj.
    assert (n1 = 0 \/ n1 = 1) as [-> | ->] by lia.
    + change (count (NN_local two_atoms_two_slots) 0) with 1 in Hi1. lia.
    + change (count (NN_local two_atoms_two_slots) 1) with 1 in Hi1. lia.
Defined.

(** C4 as stated fails: the second slots are within the capacity and are
    not zero after the reset. *)
Lemma reset_leaves_slots_beyond_count :
  exists d',
    compute_reset stale_SW2 two_atoms_two_slots = Some d' /\
    ~ zero_up_to_capacity stale_SW2 two_atoms_two_slots d'.
Proof.
  eexists. split; [vm_compute; reflexivity|].
  intros Hz. destruct (Hz 0 1) as (Hx & _);
    [simpl; lia | change (num_of_neighbors two_atoms_two_slots) with 2; lia |].
  apply (f_equal (fun o => match o with
                            | Some t => PrimFloat.eqb t 0
                            | None => true
                            end)) in Hx.
  vm_compute in Hx. discriminate Hx.
Qed.

(** ** The force kernel and the capacity of the buffers *)

Arguments find_p2_and_f2 : simpl never.
Arguments three_body : simpl never.
Arguments pair_eval : simpl never.

Section ForceBounds.
Context {F : Type} `{Arith F} {Box : Type}.
Variable exp : F -> F.
Variable dev_apply_mic : Box -> F -> F -> F -> F * F * F.



Section OneThread.
Variables (number_of_particles : Z) (box_ : Box) (sw3 : SW2_Para F).
Variables (g_neighbor_list g_type : list Z) (shift_ : Z).
Variables (g_x g_y g_z : list F).
Variables (n1 cnt : Z).

Hypothesis Htype : Z.of_nat (length g_type) = number_of_particles.
Hypothesis Hx : Z.of_nat (length g_x) = number_of_particles.
Hypothesis Hy : Z.of_nat (length g_y) = number_of_particles.
Hypothesis Hz : Z.of_nat (length g_z) = number_of_particles.
Hypothesis Hlist : forall i1, 0 <= i1 < cnt ->
  exists n2, rd g_neighbor_list (i1 * number_of_particles + n1) = Some n2
             /\ 0 <= n2 < number_of_particles.



End OneThread.
End ForceBounds.

Section ForceClaim.
Context {F : Type} `{Arith F} {Box : Type}.
Variable exp : F -> F.
Variable dev_apply_mic : Box -> F -> F -> F -> F * F * F.



End ForceClaim.






(** ** How much of the potential file the constructor reads *)

Section StreamFacts.
Context {F : Type} `{Arith F}.

(** [f] reads exactly [k] numbers: from a state in [P] it returns, in a
    state in [Q], with the stream advanced by [k] when the stream holds
    that many numbers, and fails otherwise. *)
Definition reads {S : Type} (k : nat) (P Q : S -> Prop)
    (f : S * list F -> option (S * list F)) : Prop :=
  forall s fid, P s ->
    if decide (k <= length fid)%nat
    then exists s', f (s, fid) = Some (s', drop k fid) /\ Q s'
    else f (s, fid) = None.

Lemma reads_weaken {S : Type} k (P P' Q Q' : S -> Prop) f :
  reads k P Q f -> (forall s, P' s -> P s) -> (forall s, Q s -> Q' s) ->
  reads k P' Q' f.
Proof.
  unfold reads. intros Hf HP HQ s fid Hs. specialize (Hf s fid (HP s Hs)).
  case_decide; [|done]. destruct Hf as (s' & E & Hq). eauto.
Qed.

(** A counted loop whose iterations read [k] numbers each. *)
Lemma reads_for_range {S : Type} (k : nat) (I : Z -> S -> Prop) lo hi
    (body : Z -> S * list F -> option (S * list F)) :
  lo <= hi ->
  (forall i, lo <= i < hi -> reads k (I i) (I (i + 1)) (body i)) ->
  reads (Z.to_nat (hi - lo) * k) (I lo) (I hi) (for_range lo hi body).
Proof.
  intros Hle Hbody.
  assert (forall n : nat, lo + Z.of_nat n <= hi ->
    reads (n * k) (I lo) (I (lo + Z.of_nat n))
      (for_range lo (lo + Z.of_nat n) body)) as Hn.
  { unfold reads in * . induction n as [|n IH]; intros Hb s fid Hs.
    - change (0 * k)%nat with 0%nat. rewrite for_range_empty by lia.
      case_decide; [|lia].
      exists s. rewrite drop_0. split; [done|].
      by replace (lo + Z.of_nat 0) with lo by lia.
    - replace (lo + Z.of_nat (Datatypes.S n)) with (lo + Z.of_nat n + 1) by lia.
      rewrite for_range_last by lia.
      specialize (IH ltac:(lia) s fid Hs).
      destruct (decide (n * k <= length fid)%nat) as [H1|H1].
      + destruct IH as (s1 & -> & I1). rewrite bind_Some_eq.
        specialize (Hbody (lo + Z.of_nat n) ltac:(lia) s1 (drop (n * k) fid) I1).
        rewrite length_drop in Hbody.
        destruct (decide (k <= length fid - n * k)%nat) as [H2|H2].
        * case_decide; [|lia]. destruct Hbody as (s2 & -> & I2).
          exists s2. rewrite drop_drop. split; [|done].
          do 2 f_equal. f_equal. lia.
        * case_decide; [lia|]. done.
      + rewrite IH. case_decide; [lia|]. done. }
  specialize (Hn (Z.to_nat (hi - lo))).
  replace (lo + Z.of_nat (Z.to_nat (hi - lo))) with hi in Hn by lia.
  apply Hn. lia.
Qed.

End StreamFacts.

Section ReaderTotal.
Context {F : Type} `{Arith F}.

Lemma fscanf_Some (k : nat) (fid : list F) :
  (k <= length fid)%nat ->
  fscanf k fid = Some (take k fid, drop k fid) /\ length (take k fid) = k.
Proof.
  intros Hk. unfold fscanf. case_decide; [|lia].
  split; [done|]. rewrite length_take. lia.
Qed.

Lemma fscanf_None (k : nat) (fid : list F) :
  ~ (k <= length fid)%nat -> fscanf k fid = None.
Proof. intros Hk. unfold fscanf. case_decide; [lia|done]. Qed.

(** One iteration of the three-body loops reads two numbers. *)
Lemma reads_triple n1 n2 n3 :
  reads 2 (fun _ => True) (fun _ => True)
    (fun st : SW2_Para F * list F =>
       let '(sw2_para, fid) := st in
       '(vs, fid) ← fscanf 2 fid;
       match vs with
       | [vlambda; vcos0] =>
           Some (set_triple sw2_para n1 n2 n3 vlambda vcos0, fid)
       | _ => None
       end).
Proof.
  intros p fid _. case_decide as Hk.
  - destruct (fscanf_Some 2 fid Hk) as [-> L]. rewrite bind_Some_eq.
    destruct (take 2 fid) as [|u [|w [|]]]; try discriminate L. eauto.
  - by rewrite fscanf_None.
Qed.

Lemma reads_three_body nt :
  0 <= nt ->
  reads (Z.to_nat nt * (Z.to_nat nt * (Z.to_nat nt * 2)))
    (fun _ => True) (fun _ => True) (read_three_body (F:=F) nt).
Proof.
  intros Hnt. unfold read_three_body.
  replace (Z.to_nat nt) with (Z.to_nat (nt - 0)) by (f_equal; lia).
  apply (reads_for_range _ (fun _ _ => True)); [done|]. intros n1 _.
  apply (reads_for_range _ (fun _ _ => True)); [done|]. intros n2 _.
  apply (reads_for_range _ (fun _ _ => True)); [done|]. intros n3 _.
  apply reads_triple.
Qed.

Lemma reads_pair n1 n2 :
  reads 5 (fun _ => True) (fun _ => True)
    (fun st : SW2_Para F * F * list F => read_pair n1 n2 st).
Proof.
  intros [p r] fid _. unfold read_pair. case_decide as Hk.
  - destruct (fscanf_Some 5 fid Hk) as [-> L]. rewrite bind_Some_eq.
    destruct (take 5 fid) as [|? [|? [|? [|? [|? [|]]]]]]; try discriminate L.
    eauto.
  - by rewrite fscanf_None.
Qed.

(** The rows [A[n], B[n], a[n], sigma[n], gamma[n]] of the two-element
    reader. *)
Definition rows_read (n : Z) (rows : list (list F)) : Prop :=
  Z.of_nat (length rows) = n /\ Forall (fun r => length r = 5%nat) rows.

Lemma reads_row n :
  reads 5 (rows_read n) (rows_read (n + 1))
    (fun st : list (list F) * list F =>
       let '(rows, fid) := st in
       '(vs, fid) ← fscanf 5 fid; Some (rows ++ [vs], fid)).
Proof.
  intros rows fid [Lr Fr]. case_decide as Hk.
  - destruct (fscanf_Some 5 fid Hk) as [-> L]. rewrite bind_Some_eq.
    eexists. split; [reflexivity|]. split.
    + rewrite length_app. simpl. lia.
    + apply Forall_app. split; [done|]. by constructor.
  - by rewrite fscanf_None.
Qed.

(** With three rows read, the assignment of the two-body tables
    completes. *)
Lemma assign_rows (rows : list (list F)) (p : SW2_Para F) :
  rows_read 3 rows ->
  exists p' r,
    for_range 0 2 (fun n1 =>
      for_range 0 2 (fun n2 '(sw2_para, rc_) =>
        row ← rd rows (n1 + n2);
        match row with
        | [vA; vB; va; vsigma; vgamma] =>
            let sw2_para :=
              set_pair sw2_para n1 n2 vA vB va vsigma vgamma (vsigma *. va) in
            let rc_ := if flt rc_ (rc sw2_para n1 n2)
                       then rc sw2_para n1 n2 else rc_ in
            Some (sw2_para, rc_)
        | _ => None
        end)) (p, ZERO) = Some (p', r).
Proof.
  intros [Lr Fr].
  destruct (for_range_inv (fun _ (_ : SW2_Para F * F) => True) 0 2
    (fun n1 =>
      for_range 0 2 (fun n2 '(sw2_para, rc_) =>
        row ← rd rows (n1 + n2);
        match row with
        | [vA; vB; va; vsigma; vgamma] =>
            let sw2_para :=
              set_pair sw2_para n1 n2 vA vB va vsigma vgamma (vsigma *. va) in
            let rc_ := if flt rc_ (rc sw2_para n1 n2)
                       then rc sw2_para n1 n2 else rc_ in
            Some (sw2_para, rc_)
        | _ => None
        end)) (p, ZERO)) as ([p' r] & E & _); [lia | done | | by eauto].
  intros n1 s1 Hn1 _.
  destruct (for_range_inv (fun _ (_ : SW2_Para F * F) => True) 0 2
    (fun n2 '(sw2_para, rc_) =>
        row ← rd rows (n1 + n2);
        match row with
        | [vA; vB; va; vsigma; vgamma] =>
            let sw2_para :=
              set_pair sw2_para n1 n2 vA vB va vsigma vgamma (vsigma *. va) in
            let rc_ := if flt rc_ (rc sw2_para n1 n2)
                       then rc sw2_para n1 n2 else rc_ in
            Some (sw2_para, rc_)
        | _ => None
        end) s1) as (s2 & E & _); [lia | done | | by eauto].
  intros n2 [q r] Hn2 _.
  destruct (rd_in_range rows (n1 + n2)) as [row Erow]; [lia|].
  rewrite Erow, bind_Some_eq.
  assert (length row = 5%nat) as L.
  { unfold rd in Erow. case_decide; [|done].
    by apply (Forall_lookup_1 _ _ _ _ Fr Erow). }
  destruct row as [|? [|? [|? [|? [|? [|]]]]]]; try discriminate L. eauto.
Qed.

(** The three readers. *)
Lemma initialize_1_reads (p : SW2_Para F) (fid : list F) :
  if decide (8 <= length fid)%nat
  then exists p' r, initialize_sw_1985_1 p fid = Some (p', r, drop 8 fid)
  else initialize_sw_1985_1 p fid = None.
Proof.
  unfold initialize_sw_1985_1. case_decide as Hk.
  - destruct (fscanf_Some 8 fid Hk) as [-> L]. rewrite bind_Some_eq.
    destruct (take 8 fid) as [|? [|? [|? [|? [|? [|? [|? [|? [|]]]]]]]]];
      try discriminate L.
    eauto.
  - by rewrite fscanf_None.
Qed.

Lemma initialize_2_reads (p : SW2_Para F) (fid : list F) :
  if decide (31 <= length fid)%nat
  then exists p' r, initialize_sw_1985_2 p fid = Some (p', r, drop 31 fid)
  else initialize_sw_1985_2 p fid = None.
Proof.
  unfold initialize_sw_1985_2.
  pose proof (reads_for_range 5 rows_read 0 3
    (fun n '(rows, fid) => '(vs, fid) ← fscanf 5 fid; Some (rows ++ [vs], fid))
    ltac:(lia) (fun n _ => reads_row n) [] fid) as H1.
  change (Z.to_nat (3 - 0) * 5)%nat with 15%nat in H1.
  specialize (H1 ltac:(by split)).
  destruct (decide (15 <= length fid)%nat) as [L1|L1].
  2:{ rewrite H1. case_decide; [lia|done]. }
  destruct H1 as (rows & -> & Hrows). rewrite bind_Some_eq.
  destruct (assign_rows rows p Hrows) as (p1 & r & E2). cbv zeta in E2.
  rewrite E2, bind_Some_eq.
  pose proof (reads_three_body 2 ltac:(lia) p1 (drop 15 fid) I) as H3.
  change (Z.to_nat 2 * (Z.to_nat 2 * (Z.to_nat 2 * 2)))%nat with 16%nat in H3.
  rewrite length_drop in H3.
  destruct (decide (16 <= length fid - 15)%nat) as [L3|L3].
  - destruct H3 as (p2 & -> & _). rewrite bind_Some_eq.
    case_decide; [|lia]. rewrite drop_drop. eauto.
  - rewrite H3. case_decide; [lia|done].
Qed.

Lemma initialize_3_reads (p : SW2_Para F) (fid : list F) :
  if decide (99 <= length fid)%nat
  then exists p' r, initialize_sw_1985_3 p fid = Some (p', r, drop 99 fid)
  else initialize_sw_1985_3 p fid = None.
Proof.
  unfold initialize_sw_1985_3.
  assert (reads 45 (fun _ => True) (fun _ => True)
    (for_range 0 3 (fun n1 =>
       for_range 0 3 (fun n2 => read_pair (F:=F) n1 n2)))) as H1.
  { change 45%nat with (Z.to_nat (3 - 0) * (Z.to_nat (3 - 0) * 5))%nat.
    apply (reads_for_range _ (fun _ _ => True)); [done|]. intros n1 _.
    apply (reads_for_range _ (fun _ _ => True)); [done|]. intros n2 _.
    apply reads_pair. }
  specialize (H1 (p, ZERO) fid I).
  destruct (decide (45 <= length fid)%nat) as [L1|L1].
  2:{ rewrite H1. case_decide; [lia|done]. }
  destruct H1 as ([p1 r] & -> & _). rewrite bind_Some_eq.
  pose proof (reads_three_body 3 ltac:(lia) p1 (drop 45 fid) I) as H3.
  change (Z.to_nat 3 * (Z.to_nat 3 * (Z.to_nat 3 * 2)))%nat with 54%nat in H3.
  rewrite length_drop in H3.
  destruct (decide (54 <= length fid - 45)%nat) as [L3|L3].
  - destruct H3 as (p2 & -> & _). rewrite bind_Some_eq.
    case_decide; [|lia]. rewrite drop_drop. eauto.
  - rewrite H3. case_decide; [lia|done].
Qed.

End ReaderTotal.

Section ThreeBodyTables.
Context {F : Type} `{Arith F}.

Lemma get_app_r (pre rest : list F) (n k : Z) :
  Z.of_nat (length pre) = n -> 0 <= k -> get (pre ++ rest) (n + k) = get rest k.
Proof.
  intros L Hk. unfold get, rd. repeat case_decide; try lia. f_equal.
  rewrite lookup_app_r by lia. f_equal. lia.
Qed.

Lemma get_drop (fid : list F) (n : nat) (k : Z) :
  0 <= k -> get (drop n fid) k = get fid (Z.of_nat n + k).
Proof.
  intros Hk. unfold get, rd. repeat case_decide; try lia. f_equal.
  rewrite lookup_drop. f_equal. lia.
Qed.

(** The position of [(i, j, k)] in the order of the three-body loops. *)
Definition triple_index (nt i j k : Z) : Z := (i * nt + j) * nt + k.

Lemma index_inj nt a b a' b' :
  0 <= b < nt -> 0 <= b' < nt -> a * nt + b = a' * nt + b' -> a = a' /\ b = b'.
Proof.
  intros Hb Hb' E.
  destruct (Z.lt_trichotomy a a') as [Hlt | [-> | Hgt]]; [|lia|].
  - assert ((a + 1) * nt <= a' * nt) by (apply Z.mul_le_mono_nonneg_r; lia). lia.
  - assert ((a' + 1) * nt <= a * nt) by (apply Z.mul_le_mono_nonneg_r; lia). lia.
Qed.

Lemma triple_index_inj nt i j k i' j' k' :
  0 <= j < nt -> 0 <= k < nt -> 0 <= j' < nt -> 0 <= k' < nt ->
  triple_index nt i j k = triple_index nt i' j' k' ->
  i = i' /\ j = j' /\ k = k'.
Proof.
  unfold triple_index. intros Hj Hk Hj' Hk' E.
  apply index_inj in E as [E1 ->]; [|done..].
  apply index_inj in E1 as [-> ->]; done.
Qed.

(** The tables after the triples before position [c] were read from
    [fid]: their [lambda] and [cos0] are the numbers at [2 c'] and
    [2 c' + 1], and the stream is at [2 c]. *)
Definition triples_read (nt : Z) (fid : list F) (c : Z)
    (st : SW2_Para F * list F) : Prop :=
  (exists pre, fid = pre ++ st.2 /\ Z.of_nat (length pre) = 2 * c) /\
  forall i j k, 0 <= i < nt -> 0 <= j < nt -> 0 <= k < nt ->
    triple_index nt i j k < c ->
    lambda st.1 i j k = get fid (2 * triple_index nt i j k) /\
    cos0 st.1 i j k = get fid (2 * triple_index nt i j k + 1).

Lemma read_three_body_spec nt (p p' : SW2_Para F) (fid fid' : list F) :
  0 <= nt ->
  read_three_body nt (p, fid) = Some (p', fid') ->
  triples_read nt fid (nt * nt * nt) (p', fid').
Proof.
  intros Hnt E. unfold read_three_body in E.
  replace (nt * nt * nt) with (triple_index nt nt 0 0)
    by (unfold triple_index; lia).
  eapply (for_range_inv_partial
            (fun n1 => triples_read nt fid (triple_index nt n1 0 0)));
    [exact Hnt | exact E | |].
  { split; [exists []; split; [done|]; unfold triple_index; simpl; lia|].
    unfold triple_index. intros i j k Hi Hj Hk Hc. nia. }
  intros n1 s1 s1' Hn1 I1 E1.
  replace (triple_index nt (n1 + 1) 0 0) with (triple_index nt n1 nt 0)
    by (unfold triple_index; lia).
  eapply (for_range_inv_partial
            (fun n2 => triples_read nt fid (triple_index nt n1 n2 0)));
    [exact Hnt | exact E1 | exact I1 |].
  intros n2 s2 s2' Hn2 I2 E2.
  replace (triple_index nt n1 (n2 + 1) 0) with (triple_index nt n1 n2 nt)
    by (unfold triple_index; lia).
  eapply (for_range_inv_partial
            (fun n3 => triples_read nt fid (triple_index nt n1 n2 n3)));
    [exact Hnt | exact E2 | exact I2 |].
  intros n3 [q f] s3' Hn3 [(pre & Ef & Lp) Hv] E3. simpl in Ef, Lp, Hv, E3.
  destruct (fscanf 2 f) as [[vs f']|] eqn:E0; simpl in E3; [|done].
  apply fscanf_inv in E0 as [-> _].
  destruct vs as [|u [|w [|]]]; try done. injection E3 as <-.
  set (c := triple_index nt n1 n2 n3) in * .
  assert (get fid (2 * c) = u) as Gu.
  { rewrite Ef. replace (2 * c) with (2 * c + 0) by lia.
    by rewrite get_app_r by (done || lia). }
  assert (get fid (2 * c + 1) = w) as Gw.
  { rewrite Ef. by rewrite get_app_r by (done || lia). }
  split; simpl.
  - exists (pre ++ [u; w]). split; [by rewrite <- app_assoc|].
    rewrite length_app. simpl. unfold triple_index in * . lia.
  - intros i j k Hi Hj Hk Hc. unfold set3.
    replace (triple_index nt n1 n2 (n3 + 1)) with (c + 1) in Hc
      by (unfold c, triple_index; lia).
    case_decide as Hd.
    + destruct Hd as (-> & -> & ->). fold c. by rewrite Gu, Gw.
    + apply Hv; try done.
      destruct (decide (triple_index nt i j k = c)) as [Ec|]; [|lia].
      apply triple_index_inj in Ec; [tauto|lia..].
Qed.

End ThreeBodyTables.

Section CutoffFacts.

(** [r] is the largest of zero and the cutoffs of the pairs before
    position [c] in the order of the loops. *)
Definition largest_cutoff (nt : Z) (t : table2 R) (c : Z) (r : R) : Prop :=
  (0 <= r)%R /\
  (forall i j, 0 <= i < nt -> 0 <= j < nt -> i * nt + j < c -> (t i j <= r)%R) /\
  (r = 0%R \/
   exists i j, 0 <= i < nt /\ 0 <= j < nt /\ i * nt + j < c /\ r = t i j).

Lemma Rltb_true (u v : R) : (u < v)%R -> Rltb u v = true.
Proof. intros Hn. unfold Rltb. destruct (Rlt_dec u v); [done | lra]. Qed.

Lemma Rltb_false (u v : R) : ~ (u < v)%R -> Rltb u v = false.
Proof. intros Hn. unfold Rltb. destruct (Rlt_dec u v); [lra | done]. Qed.

Lemma largest_cutoff_step nt (t : table2 R) n1 n2 (v r : R) :
  0 <= n1 < nt -> 0 <= n2 < nt ->
  largest_cutoff nt t (n1 * nt + n2) r ->
  largest_cutoff nt (set2 t n1 n2 v) (n1 * nt + n2 + 1)
    (if flt r (set2 t n1 n2 v n1 n2) then set2 t n1 n2 v n1 n2 else r).
Proof.
  intros Hn1 Hn2 (H0 & Hle & Hex). rewrite set2_eq. simpl.
  assert (forall i j, 0 <= i < nt -> 0 <= j < nt -> i * nt + j < n1 * nt + n2 ->
            set2 t n1 n2 v i j = t i j) as Hold.
  { intros i j Hi Hj Hc. apply set2_ne. intros [= -> ->]. lia. }
  assert (forall i j, 0 <= i < nt -> 0 <= j < nt ->
            i * nt + j < n1 * nt + n2 + 1 ->
            i * nt + j < n1 * nt + n2 \/ (i = n1 /\ j = n2)) as Hcase.
  { intros i j Hi Hj Hc.
    destruct (decide (i * nt + j = n1 * nt + n2)) as [E|]; [|lia].
    right. by apply (index_inj nt). }
  destruct (Rlt_dec r v) as [Hlt|Hge].
  - rewrite Rltb_true by done. split; [lra|]. split.
    + intros i j Hi Hj Hc.
      destruct (Hcase i j Hi Hj Hc) as [Hc'|[-> ->]].
      * rewrite Hold by done. specialize (Hle i j Hi Hj Hc'). lra.
      * rewrite set2_eq. lra.
    + right. exists n1, n2. rewrite set2_eq. repeat split; lia.
  - rewrite Rltb_false by done. split; [done|]. split.
    + intros i j Hi Hj Hc.
      destruct (Hcase i j Hi Hj Hc) as [Hc'|[-> ->]].
      * rewrite Hold by done. by apply Hle.
      * rewrite set2_eq. lra.
    + destruct Hex as [->|(i & j & Hi & Hj & Hc & ->)]; [by left|].
      right. exists i, j. rewrite Hold by done. repeat split; lia.
Qed.

Lemma largest_cutoff_start nt (t : table2 R) :
  0 <= nt -> largest_cutoff nt t 0 0%R.
Proof.
  intros Hnt. split; [lra|]. split; [|by left].
  intros i j Hi Hj Hc. nia.
Qed.

(** The double loop of the three-element reader. *)
Lemma read_pair_cutoff n1 n2 (p p' : SW2_Para R) (r r' : R) (fid fid' : list R) :
  read_pair n1 n2 (p, r, fid) = Some (p', r', fid') ->
  exists v, rc p' = set2 (rc p) n1 n2 v /\
            r' = if flt r (set2 (rc p) n1 n2 v n1 n2)
                 then set2 (rc p) n1 n2 v n1 n2 else r.
Proof.
  unfold read_pair. intros E.
  destruct (fscanf 5 fid) as [[vs f]|]; simpl in E; [|done].
  destruct vs as [|? [|? [|? [|? [|? [|]]]]]]; try done.
  injection E as <- <- <-. eexists. split; reflexivity.
Qed.

Lemma initialize_3_cutoff (p0 p : SW2_Para R) (fid fid' : list R) (r : R) :
  initialize_sw_1985_3 p0 fid = Some (p, r, fid') ->
  largest_cutoff 3 (rc p) 9 r.
Proof.
  intros E. unfold initialize_sw_1985_3 in E.
  destruct (for_range 0 3 _ _) as [[[p1 r1] f1]|] eqn:E1; simpl in E; [|done].
  destruct (read_three_body 3 (p1, f1)) as [[p2 f2]|] eqn:E2; simpl in E; [|done].
  injection E as <- <- <-.
  apply read_three_body_two_body in E2 as (_ & _ & _ & _ & _ & ->); [|lia].
  change 9 with (3 * 3 + 0).
  eapply (for_range_inv_partial (fun n1 (st : SW2_Para R * R * list R) =>
            largest_cutoff 3 (rc st.1.1) (n1 * 3 + 0) st.1.2) 0 3 _ _ (p1, r1, f1));
    [lia | exact E1 | by apply largest_cutoff_start |].
  intros n1 s1 s1' Hn1 I1 E1'. simpl.
  replace ((n1 + 1) * 3 + 0) with (n1 * 3 + 3) by lia.
  eapply (for_range_inv_partial (fun n2 (st : SW2_Para R * R * list R) =>
            largest_cutoff 3 (rc st.1.1) (n1 * 3 + n2) st.1.2));
    [ | exact E1' | exact I1 |]; [lia|].
  intros n2 [[q r0] f] [[q' r0'] f'] Hn2 I2 E2. simpl in I2 |- * .
  apply read_pair_cutoff in E2 as (v & -> & ->).
  replace (n1 * 3 + (n2 + 1)) with (n1 * 3 + n2 + 1) by lia.
  by apply largest_cutoff_step.
Qed.

Lemma initialize_2_cutoff (p0 p : SW2_Para R) (fid fid' : list R) (r : R) :
  initialize_sw_1985_2 p0 fid = Some (p, r, fid') ->
  largest_cutoff 2 (rc p) 4 r.
Proof.
  intros E. unfold initialize_sw_1985_2 in E.
  destruct (for_range 0 3 _ _) as [[rows f0]|] eqn:E0; simpl in E; [|done].
  destruct (for_range 0 2 _ _) as [[p1 r1]|] eqn:E1; simpl in E; [|done].
  destruct (read_three_body 2 (p1, f0)) as [[p2 f2]|] eqn:E2; simpl in E; [|done].
  injection E as <- <- <-.
  apply read_three_body_two_body in E2 as (_ & _ & _ & _ & _ & ->); [|lia].
  change 4 with (2 * 2 + 0).
  eapply (for_range_inv_partial (fun n1 (st : SW2_Para R * R) =>
            largest_cutoff 2 (rc st.1) (n1 * 2 + 0) st.2) 0 2 _ _ (p1, r1));
    [lia | exact E1 | by apply largest_cutoff_start |].
  intros n1 s1 s1' Hn1 I1 E1'. simpl.
  replace ((n1 + 1) * 2 + 0) with (n1 * 2 + 2) by lia.
  eapply (for_range_inv_partial (fun n2 (st : SW2_Para R * R) =>
            largest_cutoff 2 (rc st.1) (n1 * 2 + n2) st.2));
    [ | exact E1' | exact I1 |]; [lia|].
  intros n2 [q r0] [q' r0'] Hn2 I2 E2. simpl in I2, E2 |- * .
  destruct (rd rows (n1 + n2)) as [row|]; simpl in E2; [|done].
  destruct row as [|? [|? [|? [|? [|? [|]]]]]]; try done.
  injection E2 as <- <-. simpl.
  replace (n1 * 2 + (n2 + 1)) with (n1 * 2 + n2 + 1) by lia.
  by apply largest_cutoff_step.
Qed.

End CutoffFacts.

Section ConstructorFacts.
Context {F : Type} `{Arith F} {Box : Type} (garbage : Z -> F).

(** How many numbers the constructor reads from the potential file. *)
Definition numbers_read (num_of_types : Z) : nat :=
  if decide (num_of_types = 1) then 8
  else if decide (num_of_types = 2) then 31
  else if decide (num_of_types = 3) then 99
  else 0.

Lemma int_of_size_t_small (n : Z) :
  - 2 ^ 31 <= n < 2 ^ 31 -> int_of_size_t n = n.
Proof.
  intros Hn. unfold int_of_size_t.
  rewrite Z.mod_small by lia. lia.
Qed.

(** The constructor [SW2::SW2] reads 8 numbers for one species, 31 for two
    (three rows of five, eight rows of two) and 99 for three (nine rows of
    five, 27 rows of two), then asks for three buffers of [memory] bytes,
    where [memory] is [8 * N * min(MN, 50)] narrowed to an [int].
    - When [memory] is not negative, the constructor returns with the
      stream advanced by that many numbers when the file holds them, and
      fails with a reading error otherwise; each buffer has [memory / 8]
      entries.  Any other number of species is not rejected: nothing is
      read, and the tables and the cutoff stay as they were.
    - When [memory] is negative the constructor fails, whatever the file.
    - Below [2^28] entries per buffer nothing is lost in the narrowing:
      the buffers have [N * min(MN, 50)] entries. *)
Theorem constructor_reads_the_parameter_block
    (this : SW2 F) (fid : list F) (atom : Atom F Box) (nt : Z) :
  let memory := int_of_size_t (8 * N atom * num_of_neighbors atom) in
  (0 <= memory ->
   ((numbers_read nt <= length fid)%nat ->
      exists sw,
        new_SW2 garbage this fid atom nt
        = Some (sw, drop (numbers_read nt) fid) /\
        (nt <> 1 -> nt <> 2 -> nt <> 3 ->
           sw2_para sw = sw2_para this /\
           potential_rc sw = potential_rc this) /\
        Z.of_nat (length (f12x (sw2_data sw))) = memory `quot` 8 /\
        Z.of_nat (length (f12y (sw2_data sw))) = memory `quot` 8 /\
        Z.of_nat (length (f12z (sw2_data sw))) = memory `quot` 8) /\
   ((length fid < numbers_read nt)%nat ->
      new_SW2 garbage this fid atom nt = None)) /\
  (memory < 0 -> new_SW2 garbage this fid atom nt = None) /\
  (0 <= N atom * num_of_neighbors atom < 2 ^ 28 ->
   memory `quot` 8 = N atom * num_of_neighbors atom).
Proof.
  intros memory. split; [|split].
  - intros Hm.
    assert (forall g : Z -> F,
      Z.of_nat (length (g <$> seqZ 0 (memory `quot` 8))) = memory `quot` 8)
      as Lg.
    { intros g. rewrite length_fmap, length_seqZ.
      pose proof (Z.quot_pos memory 8). lia. }
    unfold new_SW2, cudaMalloc, numbers_read. fold memory.
    destruct (decide (0 <= memory)) as [_|]; [|lia].
    destruct (decide (nt = 1)) as [->|H1];
      [|destruct (decide (nt = 2)) as [->|H2];
        [|destruct (decide (nt = 3)) as [->|H3]]]; simpl.
    + pose proof (initialize_1_reads (sw2_para this) fid) as Hr.
      split; intros Hl.
      * case_decide; [|lia]. destruct Hr as (p & r & ->). simpl.
        eexists. split; [reflexivity|]. simpl. by rewrite !Lg.
      * case_decide; [lia|]. by rewrite Hr.
    + pose proof (initialize_2_reads (sw2_para this) fid) as Hr.
      split; intros Hl.
      * case_decide; [|lia]. destruct Hr as (p & r & ->). simpl.
        eexists. split; [reflexivity|]. simpl. by rewrite !Lg.
      * case_decide; [lia|]. by rewrite Hr.
    + pose proof (initialize_3_reads (sw2_para this) fid) as Hr.
      split; intros Hl.
      * case_decide; [|lia]. destruct Hr as (p & r & ->). simpl.
        eexists. split; [reflexivity|]. simpl. by rewrite !Lg.
      * case_decide; [lia|]. by rewrite Hr.
    + split; intros Hl; [|lia].
      eexists. split; [reflexivity|]. simpl. by rewrite !Lg.
  - intros Hm.
    destruct (new_SW2 garbage this fid atom nt) as [[sw fid']|] eqn:E;
      [|done].
    apply new_SW2_inv in E as (_ & _ & _ & Hb & _).
    unfold buffer_bytes in Hb. fold memory in Hb. lia.
  - intros Hn. unfold memory.
    rewrite int_of_size_t_small by lia.
    replace (8 * N atom * num_of_neighbors atom)
      with (N atom * num_of_neighbors atom * 8) by lia.
    apply Z.quot_mul. lia.
Qed.

(** Where the three-body parameters of a constructed potential come from.
    For one species [lambda] is [epsilon * lambda] of the file and [cos0]
    its eighth number; for two and three species the pairs
    [lambda cos0] follow the 15 (resp. 45) two-body numbers, one pair per
    triple [(n1, n2, n3)] with [n3] running fastest. *)
Theorem three_body_tables_follow_the_file
    (this sw : SW2 F) (fid fid' : list F) (atom : Atom F Box) (nt : Z) :
  new_SW2 garbage this fid atom nt = Some (sw, fid') ->
  (nt = 1 ->
     lambda (sw2_para sw) 0 0 0 = get fid 0 *. get fid 1 /\
     cos0 (sw2_para sw) 0 0 0 = get fid 7) /\
  (nt = 2 ->
     forall i j k, 0 <= i < 2 -> 0 <= j < 2 -> 0 <= k < 2 ->
       lambda (sw2_para sw) i j k = get fid (15 + 2 * triple_index 2 i j k) /\
       cos0 (sw2_para sw) i j k = get fid (15 + 2 * triple_index 2 i j k + 1)) /\
  (nt = 3 ->
     forall i j k, 0 <= i < 3 -> 0 <= j < 3 -> 0 <= k < 3 ->
       lambda (sw2_para sw) i j k = get fid (45 + 2 * triple_index 3 i j k) /\
       cos0 (sw2_para sw) i j k = get fid (45 + 2 * triple_index 3 i j k + 1)).
Proof.
  intros E. apply new_SW2_inv in E as (E1 & E2 & E3 & _). split; [|split].
  - intros ->. specialize (E1 eq_refl). unfold initialize_sw_1985_1 in E1.
    destruct (fscanf 8 fid) as [[vs r]|] eqn:E0; simpl in E1; [|done].
    apply fscanf_inv in E0 as [-> _].
    destruct vs as [|? [|? [|? [|? [|? [|? [|? [|? [|]]]]]]]]]; try done.
    injection E1 as <- _ _. simpl. unfold set3. simpl. done.
  - intros -> i j k Hi Hj Hk. specialize (E2 eq_refl).
      pose proof (initialize_2_reads (sw2_para this) fid) as Hr.
      case_decide as Hl; [|congruence].
      unfold initialize_sw_1985_2 in E2.
      pose proof (reads_for_range 5 rows_read 0 3
        (fun n '(rows, fid) =>
           '(vs, fid) ← fscanf 5 fid; Some (rows ++ [vs], fid))
        ltac:(lia) (fun n _ => reads_row n) [] fid ltac:(by split)) as H1.
      change (Z.to_nat (3 - 0) * 5)%nat with 15%nat in H1.
      case_decide; [|lia]. destruct H1 as (rows & E0 & _).
      rewrite E0, bind_Some_eq in E2.
      destruct (for_range 0 2 _ _) as [[p1 r1]|]; simpl in E2; [|done].
      destruct (read_three_body 2 (p1, drop 15 fid)) as [[p2 f2]|] eqn:E4;
        simpl in E2; [|done].
      injection E2 as <- _ _.
      apply read_three_body_spec in E4 as [_ Hv]; [|lia]. simpl in Hv.
      destruct (Hv i j k Hi Hj Hk) as [-> ->];
        [unfold triple_index; nia|].
      rewrite !get_drop by (unfold triple_index; nia).
      split; f_equal; lia.
  - intros -> i j k Hi Hj Hk. specialize (E3 eq_refl).
      pose proof (initialize_3_reads (sw2_para this) fid) as Hr.
      case_decide as Hl; [|congruence].
      unfold initialize_sw_1985_3 in E3.
      assert (reads 45 (fun _ => True) (fun _ => True)
        (for_range 0 3 (fun n1 =>
           for_range 0 3 (fun n2 => read_pair (F:=F) n1 n2)))) as H1.
      { change 45%nat with (Z.to_nat (3 - 0) * (Z.to_nat (3 - 0) * 5))%nat.
        apply (reads_for_range _ (fun _ _ => True)); [done|]. intros n1 _.
        apply (reads_for_range _ (fun _ _ => True)); [done|]. intros n2 _.
        apply reads_pair. }
      specialize (H1 (sw2_para this, ZERO) fid I).
      case_decide; [|lia]. destruct H1 as ([p1 r1] & E0 & _).
      rewrite E0, bind_Some_eq in E3.
      destruct (read_three_body 3 (p1, drop 45 fid)) as [[p2 f2]|] eqn:E4;
        simpl in E3; [|done].
      injection E3 as <- _ _.
      apply read_three_body_spec in E4 as [_ Hv]; [|lia]. simpl in Hv.
      destruct (Hv i j k Hi Hj Hk) as [-> ->];
        [unfold triple_index; nia|].
      rewrite !get_drop by (unfold triple_index; nia).
      split; f_equal; lia.
Qed.

End ConstructorFacts.

Section ConstructorCutoff.
Context {Box : Type} (garbage : Z -> R).

(** The force cutoff [rc] of a constructed potential, over the reals.
    For one species it is the cutoff [sigma * a] of the only pair, whatever
    its sign.  For two and three species it starts from zero and is raised
    to every pair cutoff that exceeds it: it is not negative, no pair
    cutoff exceeds it, and it is zero or the cutoff of some pair. *)
Theorem force_cutoff_is_largest_pair_cutoff
    (this sw : SW2 R) (fid fid' : list R) (atom : Atom R Box) (nt : Z) :
  new_SW2 garbage this fid atom nt = Some (sw, fid') ->
  (nt = 1 -> potential_rc sw = rc (sw2_para sw) 0 0) /\
  (nt = 2 \/ nt = 3 ->
     (0 <= potential_rc sw)%R /\
     (forall i j, 0 <= i < nt -> 0 <= j < nt ->
        (rc (sw2_para sw) i j <= potential_rc sw)%R) /\
     (potential_rc sw = 0%R \/
      exists i j, 0 <= i < nt /\ 0 <= j < nt /\
                  potential_rc sw = rc (sw2_para sw) i j)).
Proof.
  intros E. apply new_SW2_inv in E as (E1 & E2 & E3 & _). split.
  - intros ->. specialize (E1 eq_refl).
    by apply initialize_1_spec in E1 as (_ & _ & _ & _ & _ & _ & ->).
  - assert (forall nt, 0 < nt ->
      largest_cutoff nt (rc (sw2_para sw)) (nt * nt) (potential_rc sw) ->
      (0 <= potential_rc sw)%R /\
      (forall i j, 0 <= i < nt -> 0 <= j < nt ->
         (rc (sw2_para sw) i j <= potential_rc sw)%R) /\
      (potential_rc sw = 0%R \/
       exists i j, 0 <= i < nt /\ 0 <= j < nt /\
                   potential_rc sw = rc (sw2_para sw) i j)) as Hl.
    { intros n Hn (H0 & Hle & Hex). split; [done|]. split.
      - intros i j Hi Hj. apply Hle; [done..|nia].
      - destruct Hex as [?|(i & j & ? & ? & _ & ?)]; [by left|].
        right. by exists i, j. }
    intros [-> | ->]; apply Hl; try lia.
    + by apply (initialize_2_cutoff _ _ _ _ _ (E2 eq_refl)).
    + by apply (initialize_3_cutoff _ _ _ _ _ (E3 eq_refl)).
Qed.

End ConstructorCutoff.

(** Six million atoms with room for 50 neighbours each: the buffers would
    take 2 400 000 000 bytes, which is -1 894 967 296 as an [int]. *)
Definition six_million_atoms : Atom float unit :=
  {| N := 6000000; MN := 50; NN_local := []; NL_local := [];
     type := []; shift := [0]; x := []; y := []; z := [];
     potential_per_atom := []; box := tt |}.

Lemma two_species_file_is_read :
  (exists sw,
     new_SW2 (fun _ => 0%float) (blank_SW2 0 2) two_species_file two_atoms 2
     = Some (sw, drop 31 two_species_file) /\
     Z.of_nat (length (f12x (sw2_data sw))) = 2 /\
     Z.of_nat (length (f12y (sw2_data sw))) = 2 /\
     Z.of_nat (length (f12z (sw2_data sw))) = 2) /\
  int_of_size_t (8 * N six_million_atoms * num_of_neighbors six_million_atoms)
  = -1894967296 /\
  new_SW2 (fun _ => 0%float) (blank_SW2 0 2) two_species_file
    six_million_atoms 2 = None.
Proof.
  split; [|split; [reflexivity|]].
  - destruct (constructor_reads_the_parameter_block (fun _ => 0%float)
                (blank_SW2 0 2) two_species_file two_atoms 2)
      as [Hr _].
    destruct Hr as [Hr _]; [vm_compute; discriminate|].
    destruct Hr as (sw & E & _ & Lx & Ly & Lz); [vm_compute; lia|].
    exists sw. split; [exact E|]. done.
  - apply (constructor_reads_the_parameter_block (fun _ => 0%float)
             (blank_SW2 0 2) two_species_file six_million_atoms 2).
    reflexivity.
Defined.

Lemma two_species_three_body_tables :
  exists sw fid',
    new_SW2 (fun _ => 0%float) (blank_SW2 0 2) two_species_file two_atoms 2
      = Some (sw, fid') /\
    forall i j k, 0 <= i < 2 -> 0 <= j < 2 -> 0 <= k < 2 ->
      lambda (sw2_para sw) i j k
      = get two_species_file (15 + 2 * triple_index 2 i j k) /\
      cos0 (sw2_para sw) i j k
      = get two_species_file (15 + 2 * triple_index 2 i j k + 1).
Proof.
  destruct (new_SW2 (fun _ => 0%float) (blank_SW2 0 2) two_species_file
              two_atoms 2) as [[sw fid']|] eqn:E.
  - exists sw, fid'. split; [reflexivity|].
    by apply (three_body_tables_follow_the_file _ _ _ _ _ _ _ E).
  - assert (succeeds (new_SW2 (fun _ => 0%float) (blank_SW2 0 2)
                        two_species_file two_atoms 2) = true) as Hs
      by (vm_compute; reflexivity).
    rewrite E in Hs. discriminate Hs.
Defined.

(** A two-species file over the reals whose mixed pair has the largest
    cutoff, [3 * 2]. *)
Definition two_species_file_R : list R :=
  ([7; / 2; 2; 2; 1] ++ [8; / 2; 2; 3; 1] ++ [9; / 2; 2; 2; 1]
   ++ concat (replicate 8 [21; - / 3]))%R.

Lemma two_species_force_cutoff :
  exists sw fid',
    new_SW2 (fun _ => 0%R) blank_SW2_R two_species_file_R two_atoms_R 2
      = Some (sw, fid') /\
    (0 <= potential_rc sw)%R /\
    (forall i j, 0 <= i < 2 -> 0 <= j < 2 ->
       (rc (sw2_para sw) i j <= potential_rc sw)%R) /\
    (potential_rc sw = 0%R \/
     exists i j, 0 <= i < 2 /\ 0 <= j < 2 /\
                 potential_rc sw = rc (sw2_para sw) i j).
Proof.
  destruct (new_SW2 (fun _ => 0%R) blank_SW2_R two_species_file_R
              two_atoms_R 2) as [[sw fid']|] eqn:E.
  - exists sw, fid'. split; [reflexivity|].
    apply (force_cutoff_is_largest_pair_cutoff _ _ _ _ _ _ _ E). by left.
  - assert (succeeds (new_SW2 (fun _ => 0%R) blank_SW2_R two_species_file_R
                        two_atoms_R 2) = true) as Hs by reflexivity.
    rewrite E in Hs. discriminate Hs.
Defined.

(** ** What a step of [SW2::compute] leaves alone *)

Section LaunchPartial.
Context {S : Type}.


End LaunchPartial.

Section Frame.
Context {F : Type} `{Arith F} {Box : Type}.
Variable exp : F -> F.
Variable dev_apply_mic : Box -> F -> F -> F -> F * F * F.

(** The buffers agree outside of the cells in [P]. *)
Definition data_kept (P : Z -> Prop) (d d' : SW2_Data F) : Prop :=
  forall j, ~ P j ->
    rd (f12x d') j = rd (f12x d) j /\ rd (f12y d') j = rd (f12y d) j /\
    rd (f12z d') j = rd (f12z d) j.

Section OneAtom.
Variables (number_of_particles : Z) (box_ : Box) (sw3 : SW2_Para F).
Variables (g_neighbor_list g_type : list Z) (shift_ : Z).
Variables (g_x g_y g_z : list F).

(** The cutoff test of iteration [i1] of atom [n1]: [true] when the
    iteration ends at [continue]. *)
Definition pair_skipped (n1 type1 : Z) (x1 y1 z1 : F) (i1 : Z) : bool :=
  default false (
    n2 ← rd g_neighbor_list (i1 * number_of_particles + n1);
    t2 ← rd g_type n2;
    x2 ← LDG g_x n2; y2 ← LDG g_y n2; z2 ← LDG g_z n2;
    let '(x12, y12, z12) :=
      dev_apply_mic box_ (x2 -. x1) (y2 -. y1) (z2 -. z1) in
    let d12 := fsqrt (x12 *. x12 +. y12 *. y12 +. z12 *. z12) in
    Some (fge d12 (rc sw3 type1 (t2 - shift_)))).

(** An iteration that is skipped changes nothing; one that is not
    changes the energy and cell [i1 * N + n1] of the buffers. *)
Lemma pair_step_frame cnt n1 type1 (x1 y1 z1 : F) i1 (st st' : F * SW2_Data F) :
  pair_step exp dev_apply_mic number_of_particles box_ sw3
    g_neighbor_list g_type shift_ g_x g_y g_z
    cnt n1 type1 x1 y1 z1 i1 st = Some st' ->
  (pair_skipped n1 type1 x1 y1 z1 i1 = true -> st' = st) /\
  data_kept (fun j => j = i1 * number_of_particles + n1) st.2 st'.2.
Proof.
  unfold pair_step, pair_skipped. intros E.
  destruct (rd g_neighbor_list _) as [n2|]; simpl in E |- *; [|done].
  destruct (rd g_type n2) as [t2|]; simpl in E |- *; [|done].
  destruct (LDG g_x n2) as [x2|]; simpl in E |- *; [|done].
  destruct (LDG g_y n2) as [y2|]; simpl in E |- *; [|done].
  destruct (LDG g_z n2) as [z2|]; simpl in E |- *; [|done].
  destruct (dev_apply_mic _ _ _ _) as [[x12 y12] z12]. simpl.
  destruct (fge _ _).
  - injection E as <-. split; [done|]. by intros j _.
  - split; [done|]. destruct st as [pe d]. unfold pair_eval in E.
    destruct (find_p2_and_f2 _ _ _ _ _ _) as [p2 f2].
    destruct (for_range 0 cnt _ _) as [[[[pe1 fx] fy] fz]|]; simpl in E; [|done].
    destruct (wr (f12x d) _ fx) as [bx|] eqn:Ex; simpl in E; [|done].
    destruct (wr (f12y d) _ fy) as [by_|] eqn:Ey; simpl in E; [|done].
    destruct (wr (f12z d) _ fz) as [bz|] eqn:Ez; simpl in E; [|done].
    injection E as <-. intros j Hj. simpl.
    by rewrite (rd_wr_ne _ _ _ _ _ Ex), (rd_wr_ne _ _ _ _ _ Ey),
      (rd_wr_ne _ _ _ _ _ Ez).
Qed.

End OneAtom.





End Frame.

(** ** The sign of the three-body energy, over the real numbers *)

Section ThreeBodyEnergy.
Context {Box : Type} (dev_apply_mic : Box -> R -> R -> R -> R * R * R).
Variables (number_of_particles : Z) (box_ : Box) (sw3 : SW2_Para R).
Variables (g_neighbor_list g_type : list Z) (shift_ : Z).
Variables (g_x g_y g_z : list R).

Lemma three_body_step_energy (l : pair_locals) i2 (st st' : R * R * R * R) :
  (forall i j k, 0 <= lambda sw3 i j k)%R ->
  three_body Rtrigo_def.exp dev_apply_mic number_of_particles box_ sw3
    g_neighbor_list g_type shift_ g_x g_y g_z l i2 st = Some st' ->
  (st.1.1.1 <= st'.1.1.1)%R.
Proof.
  intros Hl E. unfold three_body in E. destruct st as [[[pe fx] fy] fz].
  destruct (rd g_neighbor_list _) as [n3|]; simpl in E; [|done].
  case_decide; [injection E as <-; simpl; lra|].
  destruct (rd g_type n3) as [t3|]; simpl in E; [|done].
  destruct (LDG g_x n3) as [x3|]; simpl in E; [|done].
  destruct (LDG g_y n3) as [y3|]; simpl in E; [|done].
  destruct (LDG g_z n3) as [z3|]; simpl in E; [|done].
  destruct (dev_apply_mic _ _ _ _) as [[x13 y13] z13].
  destruct (Rgeb _ _); [injection E as <-; simpl; lra|].
  injection E as <-. simpl. unfold HALF. simpl.
  match goal with |- (pe <= pe + ?c * (Rtrigo_def.exp ?e * ?c * ?v) * _)%R =>
    pose proof (exp_pos e) as He; pose proof (Hl (l_type1 l) (l_type2 l) (t3 - shift_)) as Hv;
    set (E0 := Rtrigo_def.exp e) in *; set (c0 := c); set (lam := v) in *
  end.
  assert (0 <= c0 * (E0 * c0 * lam) * (1 / 2))%R; [|lra].
  replace (c0 * (E0 * c0 * lam) * (1 / 2))%R
    with ((c0 * c0) * (E0 * lam * (1 / 2)))%R by ring.
  apply Rmult_le_pos; [nra|].
  apply Rmult_le_pos; [|lra]. apply Rmult_le_pos; lra.
Qed.

(** With three-body strengths [lambda] that are not negative, the
    three-body loop of a pair never lowers the energy it accumulates. *)
Theorem three_body_term_is_a_penalty (l : pair_locals) neighbor_number
    (st st' : R * R * R * R) :
  (forall i j k, 0 <= lambda sw3 i j k)%R ->
  for_range 0 neighbor_number
    (three_body Rtrigo_def.exp dev_apply_mic number_of_particles box_ sw3
       g_neighbor_list g_type shift_ g_x g_y g_z l) st = Some st' ->
  (st.1.1.1 <= st'.1.1.1)%R.
Proof.
  intros Hl E.
  destruct (decide (neighbor_number <= 0)) as [Hn|Hn].
  { rewrite for_range_empty in E by lia. injection E as <-. lra. }
  eapply (for_range_inv_partial (fun _ (s : R * R * R * R) =>
            (st.1.1.1 <= s.1.1.1)%R)); [|exact E| |]; [lia|lra|].
  intros k s s' _ Hs Es. apply three_body_step_energy in Es; [|done]. lra.
Qed.

End ThreeBodyEnergy.

(** Tables with unit strengths and cutoff 2 for every pair and triple. *)
Definition unit_tables : SW2_Para R :=
  {| A := fun _ _ => 1%R; B := fun _ _ => 1%R; a := fun _ _ => 2%R;
     sigma := fun _ _ => 1%R; gamma := fun _ _ => 1%R; rc := fun _ _ => 2%R;
     lambda := fun _ _ _ => 1%R; cos0 := fun _ _ _ => (- / 3)%R |}.

(** Atom 0 of the two atoms, paired with a neighbour that is not atom 1. *)
Definition some_pair : pair_locals :=
  {| l_n1 := 0; l_type1 := 0; l_x1 := 0%R; l_y1 := 0%R; l_z1 := 0%R;
     l_n2 := 5; l_type2 := 0; l_x12 := 0%R; l_y12 := 1%R; l_z12 := 0%R;
     l_d12 := 1%R; l_d12inv := 1%R;
     l_gamma12 := 1%R; l_sigma12 := 1%R; l_a12 := 2%R; l_tmp := 1%R |}.

Lemma neighbour_of_some_pair_is_a_penalty :
  exists st',
    for_range 0 1
      (three_body Rtrigo_def.exp no_mic 2 tt unit_tables [1; 0] [0; 0] 0
         [0; 1]%R [0; 0]%R [0; 0]%R some_pair) (0%R, 0%R, 0%R, 0%R)
    = Some st' /\
    (0 <= st'.1.1.1)%R.
Proof.
  destruct (for_range 0 1
      (three_body Rtrigo_def.exp no_mic 2 tt unit_tables [1; 0] [0; 0] 0
         [0; 1]%R [0; 0]%R [0; 0]%R some_pair) (0%R, 0%R, 0%R, 0%R))
    as [st'|] eqn:E.
  - exists st'. split; [reflexivity|].
    apply (three_body_term_is_a_penalty no_mic 2 tt unit_tables [1; 0] [0; 0] 0
             [0; 1]%R [0; 0]%R [0; 0]%R some_pair 1 _ _
             ltac:(intros; simpl; lra) E).
  - exfalso. revert E. unfold for_range. simpl. unfold three_body. simpl.
    destruct (Rgeb _ _); discriminate.
Defined.

(** ** Neighbour counts and the capacity of the buffers *)

Section Capacity.
Context {F : Type} `{Arith F} {Box : Type}.
Variable exp : F -> F.
Variable dev_apply_mic : Box -> F -> F -> F -> F * F * F.





Section OneAtom.
Variables (number_of_particles : Z) (box_ : Box) (sw3 : SW2_Para F).
Variables (g_neighbor_list g_type : list Z) (shift_ : Z).
Variables (g_x g_y g_z : list F).



End OneAtom.




End Capacity.

(** *** Three atoms on a line *)










End SW.

(** * Block reductions

    The kernels [gpu_find_vac], [gpu_reduce_xdotn], [gpu_reduce_jmn] and
    [gpu_bin_reduce] sum [count] terms in one block of [blockDim] threads:
    thread [tid] adds the terms [tid], [tid + blockDim], ... in a private
    accumulator, the accumulators are stored in shared memory, and a tree
    of pairwise additions leaves the total in cell 0. *)

Section Reduction.
Context {F : Type} `{Arith F}.

(** The accumulator of thread [tid] after its rounds (patches). *)
Definition thread_sum (blockDim number_of_rounds count : Z)
    (term : Z -> option F) (tid : Z) : option F :=
  for_range 0 number_of_rounds (fun round acc =>
    let n := tid + round * blockDim in
    if decide (n < count) then v ← term n; Some (acc +. v) else Some acc) ZERO.

(** One level of the tree, between two barriers: the threads
    [tid < offset] do [s[tid] += s[tid + offset]]. *)
Definition tree_level (offset : Z) (s : list F) : option (list F) :=
  for_range 0 offset (fun tid s =>
    u ← rd s tid; w ← rd s (tid + offset); wr s tid (u +. w)) s.

(** [for (offset = blockDim.x >> 1; offset > 0; offset >>= 1)]; the fuel
    bounds the number of levels. *)
Fixpoint tree_reduce (fuel : nat) (offset : Z) (s : list F) : option (list F) :=
  if decide (0 < offset) then
    match fuel with
    | O => None
    | Datatypes.S fuel =>
        s ← tree_level offset s; tree_reduce fuel (Z.shiftr offset 1) s
    end
  else Some s.

(** The value thread 0 finds in [s[0]] after the reduction. *)
Definition block_reduce (blockDim number_of_rounds count : Z)
    (term : Z -> option F) : option F :=
  s ← mapM (thread_sum blockDim number_of_rounds count term) (seqZ 0 blockDim);
  s ← tree_reduce (Z.to_nat blockDim) (Z.shiftr blockDim 1) s;
  rd s 0.

(** [g 0 + g 1 + ... + g (n-1)], added from the left. *)
Definition sumZ (g : Z -> F) (n : Z) : F :=
  foldl (fun acc j => acc +. g j) ZERO (seqZ 0 n).

End Reduction.

Section ReductionFacts.
Context {F : Type} `{AddLaws F}.

Lemma fadd_0_r (u : F) : u +. fzero = u.
Proof. by rewrite fadd_comm, fadd_0_l. Qed.

Lemma sumZ_nonpos (g : Z -> F) n : n <= 0 -> sumZ g n = ZERO.
Proof. intros Hn. unfold sumZ. by rewrite seqZ_nil by lia. Qed.

Lemma sumZ_succ (g : Z -> F) n : 0 <= n -> sumZ g (n + 1) = sumZ g n +. g n.
Proof.
  intros Hn. unfold sumZ. rewrite seqZ_app by lia. rewrite foldl_app.
  simpl. by rewrite Z.add_0_l.
Qed.

(** Induction over the upper bound of a sum. *)
Lemma sumZ_ind (P : Z -> Prop) n :
  0 <= n -> P 0 -> (forall k, 0 <= k < n -> P k -> P (k + 1)) -> P n.
Proof.
  intros Hn Hz Hs.
  assert (forall m : nat, Z.of_nat m <= n -> P (Z.of_nat m)) as Hm.
  { induction m as [|m IH]; intros Hb; [done|].
    replace (Z.of_nat (Datatypes.S m)) with (Z.of_nat m + 1) by lia.
    apply Hs; [lia|]. apply IH. lia. }
  specialize (Hm (Z.to_nat n)). rewrite Z2Nat.id in Hm by lia. apply Hm. lia.
Qed.

Lemma sumZ_ext (g h : Z -> F) n :
  (forall j, 0 <= j < n -> g j = h j) -> sumZ g n = sumZ h n.
Proof.
  destruct (decide (n <= 0)) as [Hn|Hn]; [by rewrite !sumZ_nonpos|].
  intros E. revert E. apply (sumZ_ind (fun k =>
    (forall j, 0 <= j < k -> g j = h j) -> sumZ g k = sumZ h k)); [lia|done|].
  intros k Hk IH E. rewrite !sumZ_succ by lia.
  rewrite IH by (intros; apply E; lia). rewrite E by lia. done.
Qed.

Lemma sumZ_zero n : sumZ (fun _ => fzero) n = (fzero : F).
Proof.
  destruct (decide (n <= 0)) as [Hn|Hn]; [by rewrite sumZ_nonpos|].
  apply (sumZ_ind (fun k => sumZ (fun _ => fzero) k = (fzero : F)) n); [lia|done|].
  intros k Hk IH. rewrite sumZ_succ by lia. rewrite IH. apply fadd_0_l.
Qed.

Lemma sumZ_add (g h : Z -> F) n :
  sumZ (fun j => g j +. h j) n = sumZ g n +. sumZ h n.
Proof.
  destruct (decide (n <= 0)) as [Hn|Hn].
  { rewrite !sumZ_nonpos by done. unfold ZERO. by rewrite fadd_0_l. }
  apply (sumZ_ind (fun k =>
    sumZ (fun j => g j +. h j) k = sumZ g k +. sumZ h k) n); [lia| |].
  { rewrite !sumZ_nonpos by done. unfold ZERO. by rewrite fadd_0_l. }
  intros k Hk IH. rewrite !sumZ_succ by lia. rewrite IH.
  rewrite <- !fadd_assoc. f_equal.
  rewrite !fadd_assoc. f_equal. apply fadd_comm.
Qed.

Lemma sumZ_split (g : Z -> F) m n :
  0 <= m -> 0 <= n ->
  sumZ g (m + n) = sumZ g m +. sumZ (fun j => g (m + j)) n.
Proof.
  intros Hm Hn.
  apply (sumZ_ind (fun k =>
    sumZ g (m + k) = sumZ g m +. sumZ (fun j => g (m + j)) k) n); [lia| |].
  { rewrite Z.add_0_r, (sumZ_nonpos _ 0) by done. unfold ZERO.
    by rewrite fadd_0_r. }
  intros k Hk IH. rewrite Z.add_assoc, !sumZ_succ by lia. rewrite IH.
  by rewrite fadd_assoc.
Qed.

Lemma sumZ_swap (f : Z -> Z -> F) m n :
  sumZ (fun i => sumZ (fun j => f i j) n) m
  = sumZ (fun j => sumZ (fun i => f i j) m) n.
Proof.
  destruct (decide (m <= 0)) as [Hm|Hm].
  { rewrite (sumZ_nonpos _ m) by done.
    rewrite (sumZ_ext _ (fun _ => fzero)); [by rewrite sumZ_zero|].
    intros j _. by rewrite sumZ_nonpos. }
  apply (sumZ_ind (fun k =>
    sumZ (fun i => sumZ (fun j => f i j) n) k
    = sumZ (fun j => sumZ (fun i => f i j) k) n) m); [lia| |].
  { rewrite sumZ_nonpos by done.
    rewrite (sumZ_ext _ (fun _ => fzero)); [by rewrite sumZ_zero|].
    intros j _. by rewrite sumZ_nonpos. }
  intros k Hk IH. rewrite sumZ_succ by lia. rewrite IH, <- sumZ_add.
  apply sumZ_ext. intros j _. by rewrite sumZ_succ by lia.
Qed.

(** Rows of [b] consecutive terms, one after the other. *)
Lemma sumZ_rows (g : Z -> F) b r :
  0 <= b -> 0 <= r ->
  sumZ (fun i => sumZ (fun t => g (t + i * b)) b) r = sumZ g (r * b).
Proof.
  intros Hb Hr.
  apply (sumZ_ind (fun k =>
    sumZ (fun i => sumZ (fun t => g (t + i * b)) b) k = sumZ g (k * b)) r);
    [lia|done|].
  intros k Hk IH. rewrite sumZ_succ by lia. rewrite IH.
  replace ((k + 1) * b) with (k * b + b) by lia.
  rewrite sumZ_split by nia. f_equal.
  apply sumZ_ext. intros j _. f_equal. lia.
Qed.

End ReductionFacts.

Section BlockReduceFacts.
Context {F : Type} `{AddLaws F}.

Lemma mapM_seqZ {X} (f : Z -> option X) (h : Z -> X) n :
  (forall t, 0 <= t < n -> f t = Some (h t)) ->
  mapM f (seqZ 0 n) = Some (h <$> seqZ 0 n).
Proof.
  intros E.
  assert (forall l : list Z, (forall t, t ∈ l -> 0 <= t < n) ->
            mapM f l = Some (h <$> l)) as Hl.
  { induction l as [|t l IH]; intros Hin; [done|].
    simpl. rewrite E by (apply Hin; left). simpl.
    rewrite IH by (intros u Hu; apply Hin; by right). done. }
  apply Hl. intros t Ht. apply elem_of_seqZ in Ht. lia.
Qed.

Lemma get_fmap_seqZ (h : Z -> F) n j :
  0 <= j < n -> get (h <$> seqZ 0 n) j = h j.
Proof.
  intros Hj. apply get_rd. unfold rd. case_decide; [|lia].
  rewrite list_lookup_fmap, lookup_seqZ_lt by lia.
  rewrite Z2Nat.id by lia. reflexivity.
Qed.

(** The accumulator of a thread is the sum of its terms; a term past
    [count] counts as zero. *)
Lemma thread_sum_exact blockDim rounds cnt (term : Z -> option F) (g : Z -> F) tid :
  0 <= blockDim -> 0 <= rounds -> 0 <= tid ->
  (forall n, 0 <= n < cnt -> term n = Some (g n)) ->
  thread_sum blockDim rounds cnt term tid
  = Some (sumZ (fun r => if decide (tid + r * blockDim < cnt)
                         then g (tid + r * blockDim) else fzero) rounds).
Proof.
  intros Hb Hr Ht Hterm. unfold thread_sum.
  destruct (for_range_inv (fun k acc =>
    acc = sumZ (fun r => if decide (tid + r * blockDim < cnt)
                         then g (tid + r * blockDim) else fzero) k)
    0 rounds (fun round acc =>
      let n := tid + round * blockDim in
      if decide (n < cnt) then v ← term n; Some (acc +. v) else Some acc) ZERO)
    as (acc & E & ->); [lia | done | | exact E].
  intros k acc Hk ->. simpl. rewrite sumZ_succ by lia.
  case_decide as Hn.
  - rewrite Hterm by nia. simpl. eauto.
  - rewrite fadd_0_r. eauto.
Qed.

Lemma tree_level_exact offset (s : list F) :
  0 <= offset -> 2 * offset <= Z.of_nat (length s) ->
  exists s', tree_level offset s = Some s' /\
    length s' = length s /\
    (forall j, 0 <= j < offset -> get s' j = get s j +. get s (j + offset)).
Proof.
  intros Ho Hl. unfold tree_level.
  destruct (for_range_inv (fun k s' =>
    updated (fun j => 0 <= j < k) (fun j => get s j +. get s (j + offset)) s s')
    0 offset (fun tid s =>
      u ← rd s tid; w ← rd s (tid + offset); wr s tid (u +. w)) s)
    as (s' & E & L & Hin & _); [lia | | | ].
  - eapply updated_ext; [|apply updated_none]. intros j. split; [done|lia].
  - intros k s1 Hk U. pose proof U as (L1 & _ & Hout).
    rewrite (Hout k), (Hout (k + offset)) by lia.
    rewrite (rd_get s k), (rd_get s (k + offset)) by lia. simpl.
    destruct (updated_wr _ _ _ _ k (get s k +. get s (k + offset)) U)
      as (s2 & -> & U2); [lia | done |].
    exists s2. split; [done|]. eapply updated_ext; [|exact U2].
    intros j. lia.
  - exists s'. split; [exact E|]. split; [exact L|].
    intros j Hj. apply get_rd. by apply Hin.
Qed.

Lemma tree_reduce_step fuel offset (s : list F) :
  0 < offset ->
  tree_reduce (Datatypes.S fuel) offset s
  = s1 ← tree_level offset s; tree_reduce fuel (Z.shiftr offset 1) s1.
Proof. intros Ho. simpl. case_decide; [done|lia]. Qed.

Lemma tree_reduce_done fuel offset (s : list F) :
  offset <= 0 -> tree_reduce fuel offset s = Some s.
Proof. intros Ho. destruct fuel; simpl; case_decide; (done || lia). Qed.

Lemma tree_reduce_exact (k : nat) : forall (fuel : nat) (s : list F),
  (k < fuel)%nat -> 2 * 2 ^ Z.of_nat k <= Z.of_nat (length s) ->
  exists s', tree_reduce fuel (2 ^ Z.of_nat k) s = Some s' /\
    length s' = length s /\
    get s' 0 = sumZ (get s) (2 * 2 ^ Z.of_nat k).
Proof.
  induction k as [|k IH]; intros fuel s Hf Hl.
  - change (2 ^ Z.of_nat 0) with 1 in * .
    destruct fuel as [|fuel]; [lia|]. rewrite tree_reduce_step by lia.
    destruct (tree_level_exact 1 s) as (s1 & -> & L1 & H1); [lia|lia|].
    simpl. change (Z.shiftr 1 1) with 0.
    exists s1. split; [by apply tree_reduce_done|]. split; [done|].
    rewrite H1 by lia. change (2 * 1) with (0 + 1 + 1).
    rewrite !sumZ_succ by lia. rewrite sumZ_nonpos by lia.
    unfold ZERO. by rewrite fadd_0_l.
  - assert (0 < 2 ^ Z.of_nat k) as Hp by (apply Z.pow_pos_nonneg; lia).
    replace (2 ^ Z.of_nat (Datatypes.S k)) with (2 * 2 ^ Z.of_nat k) in *
      by (rewrite Nat2Z.inj_succ, Z.pow_succ_r by lia; done).
    set (o := 2 * 2 ^ Z.of_nat k) in * .
    destruct fuel as [|fuel]; [lia|]. rewrite tree_reduce_step by lia.
    destruct (tree_level_exact o s) as (s1 & -> & L1 & H1); [lia|lia|].
    simpl.
    replace (Z.shiftr o 1) with (2 ^ Z.of_nat k).
    2:{ rewrite Z.shiftr_div_pow2 by lia. unfold o.
        change (2 ^ 1) with 2. rewrite Z.mul_comm, Z.div_mul by lia. done. }
    destruct (IH fuel s1) as (s' & -> & Ls' & Hs'); [lia | lia |].
    exists s'. split; [done|]. split; [congruence|]. rewrite Hs'. fold o.
    rewrite (sumZ_ext _ (fun j => get s j +. get s (j + o))) by (by apply H1).
    rewrite sumZ_add. replace (2 * o) with (o + o) by lia.
    rewrite sumZ_split by lia. f_equal.
    apply sumZ_ext. intros j _. f_equal. lia.
Qed.

(** A block of [2^k] threads computes the plain sum of the terms. *)
Theorem block_reduce_exact (k : nat) rounds cnt
    (term : Z -> option F) (g : Z -> F) :
  0 <= rounds -> 0 <= cnt <= rounds * 2 ^ Z.of_nat k ->
  (forall n, 0 <= n < cnt -> term n = Some (g n)) ->
  block_reduce (2 ^ Z.of_nat k) rounds cnt term = Some (sumZ g cnt).
Proof.
  intros Hr Hc Hterm. unfold block_reduce.
  set (b := 2 ^ Z.of_nat k) in * .
  assert (0 < b) as Hb by (apply Z.pow_pos_nonneg; lia).
  set (g0 := fun n => if decide (n < cnt) then g n else fzero).
  set (h := fun t => sumZ (fun r => g0 (t + r * b)) rounds).
  rewrite (mapM_seqZ _ h).
  2:{ intros t Ht. by apply thread_sum_exact; try lia. }
  simpl.
  assert (sumZ h b = sumZ g cnt) as Htotal.
  { unfold h. rewrite sumZ_swap, sumZ_rows by lia.
    replace (rounds * b) with (cnt + (rounds * b - cnt)) by lia.
    rewrite sumZ_split by lia.
    rewrite (sumZ_ext (fun j => g0 (cnt + j)) (fun _ => fzero)).
    2:{ intros j Hj. unfold g0. case_decide; [lia|done]. }
    rewrite sumZ_zero, fadd_0_r.
    apply sumZ_ext. intros j Hj. unfold g0. case_decide; [done|lia]. }
  assert (sumZ (get (h <$> seqZ 0 b)) b = sumZ h b) as Hget.
  { apply sumZ_ext. intros j Hj. by apply get_fmap_seqZ. }
  assert (Z.of_nat (length (h <$> seqZ 0 b)) = b) as Hlen.
  { rewrite length_fmap, length_seqZ. lia. }
  destruct k as [|k].
  - change (2 ^ Z.of_nat 0) with 1 in b. unfold b in * .
    change (Z.shiftr 1 1) with 0. rewrite tree_reduce_done by lia.
    rewrite <- Htotal. simpl. f_equal.
    change 1 with (0 + 1). rewrite sumZ_succ by lia.
    rewrite sumZ_nonpos by lia. unfold ZERO. by rewrite fadd_0_l.
  - assert (0 < 2 ^ Z.of_nat k) as Hp by (apply Z.pow_pos_nonneg; lia).
    assert (b = 2 * 2 ^ Z.of_nat k) as Eb.
    { unfold b. rewrite Nat2Z.inj_succ, Z.pow_succ_r by lia. done. }
    replace (Z.shiftr b 1) with (2 ^ Z.of_nat k).
    2:{ rewrite Z.shiftr_div_pow2 by lia. rewrite Eb.
        change (2 ^ 1) with 2. rewrite Z.mul_comm, Z.div_mul by lia. done. }
    destruct (tree_reduce_exact k (Z.to_nat b) (h <$> seqZ 0 b))
      as (s' & -> & Ls' & Hs').
    + assert (Z.of_nat k < 2 ^ Z.of_nat k) by (apply Z.pow_gt_lin_r; lia). lia.
    + lia.
    + simpl. rewrite <- Eb in Hs'. rewrite Hget, Htotal in Hs'.
      rewrite <- Hs'. apply rd_get. lia.
Qed.

End BlockReduceFacts.

(** The launch configuration [(n - 1) / b + 1] covers [n] threads. *)
Lemma rounds_cover (n b : Z) :
  0 <= n -> 1 < b ->
  0 < (n - 1) `quot` b + 1 /\ n <= ((n - 1) `quot` b + 1) * b.
Proof.
  intros Hn Hb. destruct (decide (n = 0)) as [->|Hne].
  - replace (0 - 1) with (- (1)) by lia.
    rewrite Z.quot_opp_l by lia. rewrite Z.quot_small by lia. lia.
  - pose proof (Z.quot_rem' (n - 1) b) as E.
    pose proof (Z.rem_bound_pos (n - 1) b) as Hr.
    pose proof (Z.quot_pos (n - 1) b). nia.
Qed.

(** * Velocity autocorrelation ([vac.cu]) *)

Module VAC.

(** How a call that validates its input ends. *)
Inductive outcome (S : Type) : Type :=
| Done (s : S)                 (* the call returned *)
| InputError (msg : string)    (* PRINT_INPUT_ERROR: message, then exit *)
| Fault.                       (* a failed CUDA call or a wild access *)
Arguments Done {S} s.
Arguments InputError {S} msg.
Arguments Fault {S}.

(** A CUDA call inside such a function. *)
Definition checked {X S} (o : option X) (k : X -> outcome S) : outcome S :=
  match o with Some v => k v | None => Fault end.

Section Definitions.
Context {F : Type} `{Arith F}.

(** [PI] and [TIME_UNIT_CONVERSION] are macros of [common.cuh], which is
    not among the sources. *)
Variables (PI TIME_UNIT_CONVERSION : F).

(** The indeterminate contents of freshly allocated memory. *)
Variable garbage : Z -> F.

Definition BLOCK_SIZE : Z := 128.

(** What [vac.cu] reads of [Atom]. *)
Record Group := {
  cpu_size : list Z; cpu_size_sum : list Z; contents : list Z
}.

Record Atom := {
  atom_N : Z;
  time_step : F;
  atom_mass : list F;
  atom_vx : list F; atom_vy : list F; atom_vz : list F;
  atom_group : list Group
}.

(** The class [VAC]: the public members, then the private ones. *)
Record VAC := {
  compute_dos : Z;
  compute_sdc : Z;
  sample_interval : Z;
  grouping_method : Z;
  group : Z;
  Nc : Z;
  num_dos_points : Z;
  omega_max : F;
  N : Z;
  num_time_origins : Z;
  dt : F;
  dt_in_ps : F;
  mass : list F;
  vx : list F; vy : list F; vz : list F;
  vac_x : list F; vac_y : list F; vac_z : list F
}.

(** [cudaMalloc] of [n] doubles. *)
Definition cudaMalloc (n : Z) : option (list F) :=
  if decide (0 <= n) then Some (garbage <$> seqZ 0 n) else None.

(** [cudaMallocManaged] of [n] doubles: it refuses a size of zero. *)
Definition cudaMallocManaged (n : Z) : option (list F) :=
  if decide (0 < n) then Some (garbage <$> seqZ 0 n) else None.

(** [MY_MALLOC(p, double, n)], a macro of [error.cuh] around [malloc]
    that exits when the allocation fails. *)
Definition MY_MALLOC (n : Z) : option (list F) :=
  if decide (0 <= n) then Some (garbage <$> seqZ 0 n) else None.

(** [gpu_initialize_vac]. *)
Definition gpu_initialize_vac (Nc_ : Z) (blockDim bid tid : Z)
    (g_vac : list F * list F * list F) : option (list F * list F * list F) :=
  let '(g_vac_x, g_vac_y, g_vac_z) := g_vac in
  let n := tid + bid * blockDim in
  if decide (n < Nc_) then
    g_vac_x ← wr g_vac_x n ZERO;
    g_vac_y ← wr g_vac_y n ZERO;
    g_vac_z ← wr g_vac_z n ZERO;
    Some (g_vac_x, g_vac_y, g_vac_z)
  else Some g_vac.

(** [gpu_copy_mass]. *)
Definition gpu_copy_mass (N_ offset : Z) (g_group_contents : list Z)
    (g_mass_i : list F) (blockDim bid tid : Z) (g_mass_o : list F)
    : option (list F) :=
  let n := tid + bid * blockDim in
  if decide (n < N_) then
    m ← rd g_group_contents (offset + n);
    v ← rd g_mass_i m;
    wr g_mass_o n v
  else Some g_mass_o.

(** [cudaMemcpy(dst, src, sizeof(double) * n, ...)]. *)
Definition cudaMemcpy (dst src : list F) (n : Z) : option (list F) :=
  if decide (0 <= n <= Z.of_nat (length src) /\ n <= Z.of_nat (length dst))
  then Some (take (Z.to_nat n) src ++ drop (Z.to_nat n) dst) else None.

Definition both_message : string :=
  "Cannot calculate DOS and SDC simultaneously.".
Definition nyquist_message : string :=
  "VAC sampling rate < Nyquist frequency.".

(** [VAC::preprocess]. *)
Definition preprocess (this : VAC) (atom : Atom) : outcome VAC :=
  if decide (compute_dos this = 0 /\ compute_sdc this = 0) then Done this else
  if decide (compute_dos this = compute_sdc this) then InputError both_message
  else
  let dt_ := time_step atom *. of_int (sample_interval this) in
  let dt_in_ps_ := dt_ *. TIME_UNIT_CONVERSION /. of_int 1000 in
  (* initialize the number of time origins *)
  let num_time_origins_ := 0 in
  (* determine the number of atoms in the selected group *)
  checked
    (if decide (-1 = grouping_method this) then Some (atom_N atom)
     else g ← rd (atom_group atom) (grouping_method this);
          rd (cpu_size g) (group this)) (fun N_ =>
  checked (cudaMalloc (N_ * Nc this)) (fun vx_ =>
  checked (cudaMalloc (N_ * Nc this)) (fun vy_ =>
  checked (cudaMalloc (N_ * Nc this)) (fun vz_ =>
  checked (cudaMallocManaged (Nc this)) (fun vac_x_ =>
  checked (cudaMallocManaged (Nc this)) (fun vac_y_ =>
  checked (cudaMallocManaged (Nc this)) (fun vac_z_ =>
  (* initialize the VAC to zero *)
  checked (launch ((Nc this - 1) `quot` BLOCK_SIZE + 1) BLOCK_SIZE
             (gpu_initialize_vac (Nc this) BLOCK_SIZE)
             (vac_x_, vac_y_, vac_z_)) (fun '(vac_x_, vac_y_, vac_z_) =>
  let finish (num_dos_points_ : Z) (mass_ : list F) : outcome VAC :=
    Done {| compute_dos := compute_dos this; compute_sdc := compute_sdc this;
            sample_interval := sample_interval this;
            grouping_method := grouping_method this; group := group this;
            Nc := Nc this; num_dos_points := num_dos_points_;
            omega_max := omega_max this;
            N := N_; num_time_origins := num_time_origins_;
            dt := dt_; dt_in_ps := dt_in_ps_;
            mass := mass_; vx := vx_; vy := vy_; vz := vz_;
            vac_x := vac_x_; vac_y := vac_y_; vac_z := vac_z_ |} in
  if decide (compute_dos this <> 0) then
    (* set default number of DOS points *)
    let num_dos_points_ :=
      if decide (num_dos_points this = -1) then Nc this
      else num_dos_points this in
    (* check if the sampling frequency is large enough *)
    let nu_max :=
      of_int 1000 /. (time_step atom *. of_int (sample_interval this)) in
    if flt nu_max (omega_max this /. PI) then InputError nyquist_message else
    (* need mass for DOS calculations *)
    checked (cudaMalloc N_) (fun mass_ =>
    if decide (grouping_method this >= 0) then
      checked (g ← rd (atom_group atom) (grouping_method this);
               offset ← rd (cpu_size_sum g) (group this);
               launch ((N_ - 1) `quot` BLOCK_SIZE + 1) BLOCK_SIZE
                 (gpu_copy_mass N_ offset (contents g) (atom_mass atom)
                    BLOCK_SIZE) mass_)
        (finish num_dos_points_)
    else
      checked (cudaMemcpy mass_ (atom_mass atom) N_) (finish num_dos_points_))
  else finish (num_dos_points this) (mass this))))))))).

(** [gpu_copy_velocity] with a group; the output pointers are
    [vx + off], [vy + off], [vz + off]. *)
Definition gpu_copy_velocity_group (N_ offset : Z) (g_group_contents : list Z)
    (off : Z) (g_vx_i g_vy_i g_vz_i : list F) (blockDim bid tid : Z)
    (g_v_o : list F * list F * list F) : option (list F * list F * list F) :=
  let '(g_vx_o, g_vy_o, g_vz_o) := g_v_o in
  let n := tid + bid * blockDim in
  if decide (n < N_) then
    m ← rd g_group_contents (offset + n);
    ux ← rd g_vx_i m; g_vx_o ← wr g_vx_o (off + n) ux;
    uy ← rd g_vy_i m; g_vy_o ← wr g_vy_o (off + n) uy;
    uz ← rd g_vz_i m; g_vz_o ← wr g_vz_o (off + n) uz;
    Some (g_vx_o, g_vy_o, g_vz_o)
  else Some g_v_o.

(** [gpu_copy_velocity] without a group. *)
Definition gpu_copy_velocity (N_ : Z) (off : Z) (g_vx_i g_vy_i g_vz_i : list F)
    (blockDim bid tid : Z)
    (g_v_o : list F * list F * list F) : option (list F * list F * list F) :=
  let '(g_vx_o, g_vy_o, g_vz_o) := g_v_o in
  let n := tid + bid * blockDim in
  if decide (n < N_) then
    ux ← rd g_vx_i n; g_vx_o ← wr g_vx_o (off + n) ux;
    uy ← rd g_vy_i n; g_vy_o ← wr g_vy_o (off + n) uy;
    uz ← rd g_vz_i n; g_vz_o ← wr g_vz_o (off + n) uz;
    Some (g_vx_o, g_vy_o, g_vz_o)
  else Some g_v_o.

(** The term of atom [n] in block [bid] of [gpu_find_vac], for one axis:
    [mass * g_v[n] * g_v_all[size_sum + n]]. *)
Definition vac_term (compute_dos_ : Z) (g_mass : list F) (g_v : ptr F)
    (g_v_all : list F) (size_sum n : Z) : option F :=
  mass_ ← (if decide (compute_dos_ <> 0) then rd g_mass n else Some ONE);
  u ← load g_v n;
  w ← rd g_v_all (size_sum + n);
  Some (mass_ *. u *. w).

(** [gpu_find_vac], block [bid] of [gridDim] blocks of [BLOCK_SIZE]
    threads.  The three axes go through the same rounds and the same
    tree; thread 0 adds the block's sums to the bins of the lag. *)
Definition gpu_find_vac (N_ correlation_step compute_dos_ : Z) (g_mass : list F)
    (g_vx g_vy g_vz : ptr F) (g_vx_all g_vy_all g_vz_all : list F)
    (gridDim bid : Z)
    (g_vac : list F * list F * list F) : option (list F * list F * list F) :=
  let '(g_vac_x, g_vac_y, g_vac_z) := g_vac in
  let size_sum := bid * N_ in
  let number_of_rounds := (N_ - 1) `quot` BLOCK_SIZE + 1 in
  sx ← block_reduce BLOCK_SIZE number_of_rounds N_
         (vac_term compute_dos_ g_mass g_vx g_vx_all size_sum);
  sy ← block_reduce BLOCK_SIZE number_of_rounds N_
         (vac_term compute_dos_ g_mass g_vy g_vy_all size_sum);
  sz ← block_reduce BLOCK_SIZE number_of_rounds N_
         (vac_term compute_dos_ g_mass g_vz g_vz_all size_sum);
  let lag := if decide (bid <= correlation_step)
             then correlation_step - bid
             else correlation_step + gridDim - bid in
  g_vac_x ← modify g_vac_x lag (fun v => v +. sx);
  g_vac_y ← modify g_vac_y lag (fun v => v +. sy);
  g_vac_z ← modify g_vac_z lag (fun v => v +. sz);
  Some (g_vac_x, g_vac_y, g_vac_z).

(** The members that [VAC::process] changes. *)
Definition with_buffers (this : VAC) (num_time_origins_ : Z)
    (v : list F * list F * list F) (c : list F * list F * list F) : VAC :=
  {| compute_dos := compute_dos this; compute_sdc := compute_sdc this;
     sample_interval := sample_interval this;
     grouping_method := grouping_method this; group := group this;
     Nc := Nc this; num_dos_points := num_dos_points this;
     omega_max := omega_max this;
     N := N this; num_time_origins := num_time_origins_;
     dt := dt this; dt_in_ps := dt_in_ps this;
     mass := mass this; vx := v.1.1; vy := v.1.2; vz := v.2;
     vac_x := c.1.1; vac_y := c.1.2; vac_z := c.2 |}.

(** [VAC::process].  A division by zero is undefined behaviour. *)
Definition process (step : Z) (atom : Atom) (this : VAC) : option VAC :=
  if decide (compute_dos this = 0 /\ compute_sdc this = 0) then Some this else
  if decide (sample_interval this = 0) then None else
  if decide ((step + 1) `rem` sample_interval this <> 0) then Some this else
  let sample_step := step `quot` sample_interval this in
  if decide (Nc this = 0) then None else
  let correlation_step := sample_step `rem` Nc this in
  let offset := correlation_step * N this in
  (* copy the velocity data at the current step to appropriate place *)
  v ← (if decide (grouping_method this >= 0) then
         g ← rd (atom_group atom) (grouping_method this);
         size_sum ← rd (cpu_size_sum g) (group this);
         launch ((N this - 1) `quot` BLOCK_SIZE + 1) BLOCK_SIZE
           (gpu_copy_velocity_group (N this) size_sum (contents g) offset
              (atom_vx atom) (atom_vy atom) (atom_vz atom) BLOCK_SIZE)
           (vx this, vy this, vz this)
       else
         launch ((N this - 1) `quot` BLOCK_SIZE + 1) BLOCK_SIZE
           (gpu_copy_velocity (N this) offset
              (atom_vx atom) (atom_vy atom) (atom_vz atom) BLOCK_SIZE)
           (vx this, vy this, vz this));
  (* start to calculate the VAC (or MVAC) when we have enough frames *)
  if decide (sample_step >= Nc this - 1) then
    c ← launch_blocks (Nc this)
          (gpu_find_vac (N this) correlation_step (compute_dos this) (mass this)
             (v.1.1, offset) (v.1.2, offset) (v.2, offset)
             v.1.1 v.1.2 v.2 (Nc this))
          (vac_x this, vac_y this, vac_z this);
    Some (with_buffers this (num_time_origins this + 1) v c)
  else
    Some (with_buffers this (num_time_origins this) v
            (vac_x this, vac_y this, vac_z this)).

(** [integrate_vac]; the state is the three [sdc] arrays. *)
Definition integrate_vac (Nc_ : Z) (dt_ : F) (vac_x_ vac_y_ vac_z_ : list F)
    (sdc : list F * list F * list F) : option (list F * list F * list F) :=
  let dt2 := dt_ *. HALF in
  for_range 1 Nc_ (fun nc '(sdc_x, sdc_y, sdc_z) =>
    px ← rd sdc_x (nc - 1); ux ← rd vac_x_ (nc - 1); wx ← rd vac_x_ nc;
    sdc_x ← wr sdc_x nc (px +. (ux +. wx) *. dt2);
    py ← rd sdc_y (nc - 1); uy ← rd vac_y_ (nc - 1); wy ← rd vac_y_ nc;
    sdc_y ← wr sdc_y nc (py +. (uy +. wy) *. dt2);
    pz ← rd sdc_z (nc - 1); uz ← rd vac_z_ (nc - 1); wz ← rd vac_z_ nc;
    sdc_z ← wr sdc_z nc (pz +. (uz +. wz) *. dt2);
    Some (sdc_x, sdc_y, sdc_z)) sdc.

(** A line of [sdc.out]: the time, the VAC and the SDC of the three
    axes, as the numbers handed to [fprintf]. *)
Definition sdc_line : Type := F * (F * F * F) * (F * F * F).

(** [VAC::find_sdc]: the lines appended to [sdc.out]. *)
Definition find_sdc (this : VAC) : option (list sdc_line) :=
  (* initialize the SDC data *)
  sdc_x ← MY_MALLOC (Nc this);
  sdc_y ← MY_MALLOC (Nc this);
  sdc_z ← MY_MALLOC (Nc this);
  sdc ← for_range 0 (Nc this) (fun nc '(sdc_x, sdc_y, sdc_z) =>
    sdc_z ← wr sdc_z nc ZERO;
    sdc_y ← wr sdc_y nc ZERO;
    sdc_x ← wr sdc_x nc ZERO;
    Some (sdc_x, sdc_y, sdc_z)) (sdc_x, sdc_y, sdc_z);
  (* get the SDC from the VAC according to the Green-Kubo relation *)
  '(sdc_x, sdc_y, sdc_z) ←
    integrate_vac (Nc this) (dt this) (vac_x this) (vac_y this) (vac_z this) sdc;
  (* output the VAC and SDC *)
  '(_, lines) ← for_range 0 (Nc this) (fun nc '(arrays, lines) =>
    let '(vac_x_, vac_y_, vac_z_, sdc_x, sdc_y, sdc_z) := arrays in
    let t := of_int nc *. dt_in_ps this in
    (* change to A^2/ps^2 *)
    let k2 := of_int 1000000 /. TIME_UNIT_CONVERSION /. TIME_UNIT_CONVERSION in
    vac_x_ ← modify vac_x_ nc (fun v => v *. k2);
    vac_y_ ← modify vac_y_ nc (fun v => v *. k2);
    vac_z_ ← modify vac_z_ nc (fun v => v *. k2);
    (* change to A^2/ps *)
    let k1 := of_int 1000 /. TIME_UNIT_CONVERSION in
    sdc_x ← modify sdc_x nc (fun v => v *. k1);
    sdc_y ← modify sdc_y nc (fun v => v *. k1);
    sdc_z ← modify sdc_z nc (fun v => v *. k1);
    cx ← rd vac_x_ nc; cy ← rd vac_y_ nc; cz ← rd vac_z_ nc;
    dx ← rd sdc_x nc; dy ← rd sdc_y nc; dz ← rd sdc_z nc;
    Some ((vac_x_, vac_y_, vac_z_, sdc_x, sdc_y, sdc_z),
          lines ++ [(t, (cx, cy, cz), (dx, dy, dz))]))
    ((vac_x this, vac_y this, vac_z this, sdc_x, sdc_y, sdc_z), []);
  Some lines.

(** The branch of [VAC::postprocess] for the SDC ([compute_dos] is zero
    and [compute_sdc] is not): normalize by the number of atoms and the
    number of time origins, then [find_sdc]. *)
Definition postprocess_sdc (this : VAC) : option (list sdc_line) :=
  let norm := of_int (N this) *. of_int (num_time_origins this) in
  c ← for_range 0 (Nc this) (fun nc '(vac_x_, vac_y_, vac_z_) =>
    vac_x_ ← modify vac_x_ nc (fun v => v /. norm);
    vac_y_ ← modify vac_y_ nc (fun v => v /. norm);
    vac_z_ ← modify vac_z_ nc (fun v => v /. norm);
    Some (vac_x_, vac_y_, vac_z_)) (vac_x this, vac_y this, vac_z this);
  find_sdc (with_buffers this (num_time_origins this)
              (vx this, vy this, vz this) c).

End Definitions.

Arguments Group : clear implicits.
Arguments Atom F : clear implicits.
Arguments VAC F : clear implicits.
Arguments sdc_line F : clear implicits.

(** ** Validation of the flags *)

Section PreprocessFacts.
Context {F : Type} `{Arith F}.
Variables (PI TIME_UNIT_CONVERSION : F) (garbage : Z -> F).

Lemma checked_error {X S} (o : option X) (k : X -> outcome S) msg :
  checked o k = InputError msg -> exists v, o = Some v /\ k v = InputError msg.
Proof. destruct o as [v|]; simpl; [eauto | discriminate]. Qed.

(** Past the check of the flags the only input error is the one of the
    Nyquist test, and it needs [compute_dos]. *)
Lemma preprocess_error (this : VAC F) (atom : Atom F) msg :
  preprocess PI TIME_UNIT_CONVERSION garbage this atom = InputError msg ->
  (msg = both_message /\ compute_dos this = compute_sdc this
     /\ compute_dos this <> 0) \/
  (msg = nyquist_message /\ compute_dos this <> compute_sdc this
     /\ compute_dos this <> 0).
Proof.
  unfold preprocess. intros E.
  case_decide as H0; [discriminate E|].
  case_decide as H1.
  { injection E as <-. left. repeat split; [done|lia]. }
  right.
  repeat (apply checked_error in E as (? & _ & E)).
  match type of E with (let '(_, _) := ?p in _) = _ =>
    destruct p as [[? ?] ?] end.
  case_decide as H2; [|discriminate E].
  destruct (flt _ _).
  - injection E as <-. done.
  - apply checked_error in E as (? & _ & E).
    case_decide; apply checked_error in E as (? & _ & E); discriminate E.
Qed.

(** C5, as the code has it.  [VAC::preprocess] raises the error "Cannot
    calculate DOS and SDC simultaneously." exactly when the two flags are
    equal and not zero.  With both flags zero it returns at once and
    changes nothing.  With [compute_sdc] alone it raises no input error;
    with [compute_dos] alone the only input error left is the one of the
    Nyquist test. *)
Theorem preprocess_flag_validation (this : VAC F) (atom : Atom F) :
  (preprocess PI TIME_UNIT_CONVERSION garbage this atom
     = InputError both_message
   <-> compute_dos this = compute_sdc this /\ compute_dos this <> 0) /\
  (compute_dos this = 0 /\ compute_sdc this = 0 ->
   preprocess PI TIME_UNIT_CONVERSION garbage this atom = Done this) /\
  (compute_dos this = 0 /\ compute_sdc this <> 0 ->
   forall msg,
     preprocess PI TIME_UNIT_CONVERSION garbage this atom <> InputError msg) /\
  (compute_dos this <> 0 /\ compute_sdc this = 0 ->
   forall msg,
     preprocess PI TIME_UNIT_CONVERSION garbage this atom = InputError msg ->
     msg = nyquist_message).
Proof.
  split; [split|split; [|split]].
  - intros E. apply preprocess_error in E as [(_ & ? & ?)|(E & _)]; [done|].
    discriminate E.
  - intros [E Hn]. unfold preprocess.
    case_decide; [lia|]. case_decide; [done|lia].
  - intros [E1 E2]. unfold preprocess. case_decide; [done|lia].
  - intros [E1 E2] msg E.
    apply preprocess_error in E as [(_ & ? & ?)|(_ & _ & ?)]; lia.
  - intros [E1 E2] msg E.
    apply preprocess_error in E as [(_ & ? & ?)|(? & _)]; [lia|done].
Qed.

End PreprocessFacts.

(** A run of four atoms in binary64, without groups. *)
Definition four_atoms : Atom float :=
  {| atom_N := 4; time_step := 1%float;
     atom_mass := [1; 1; 2; 2]%float;
     atom_vx := [1; -1; 0.5; -0.5]%float;
     atom_vy := [0; 0; 0; 0]%float;
     atom_vz := [0.25; 0.25; -0.25; -0.25]%float;
     atom_group := [] |}.

(** The object before [preprocess]: only the public members are set. *)
Definition requested (dos sdc nc : Z) : VAC float :=
  {| compute_dos := dos; compute_sdc := sdc; sample_interval := 1;
     grouping_method := -1; group := -1; Nc := nc; num_dos_points := -1;
     omega_max := 400%float;
     N := 0; num_time_origins := 0; dt := 0%float; dt_in_ps := 0%float;
     mass := []; vx := []; vy := []; vz := [];
     vac_x := []; vac_y := []; vac_z := [] |}.

Definition no_garbage (i : Z) : float := 0%float.

(** Values for the two macros: the double nearest to pi, and 10.18051. *)
Definition PI64 : float := 0x1.921fb54442d18p+1%float.
Definition TUC64 : float := 0x1.45c6bce8533b1p+3%float.

Lemma sdc_alone_is_accepted :
  ~ exists msg,
      preprocess PI64 TUC64 no_garbage (requested 0 1 3) four_atoms
      = InputError msg.
Proof.
  intros (msg & E).
  destruct (preprocess_flag_validation PI64 TUC64 no_garbage
              (requested 0 1 3) four_atoms) as (_ & _ & Hsdc & _).
  apply (Hsdc ltac:(simpl; lia) msg E).
Defined.

(** C5 as stated fails: with neither flag set the flags are equal and
    [preprocess] raises nothing. *)
Lemma no_request_is_no_error :
  ~ (forall (PI TUC : float) (this : VAC float) (atom : Atom float),
       (exists msg, preprocess PI TUC no_garbage this atom = InputError msg)
       <-> compute_dos this = compute_sdc this).
Proof.
  intros Hc.
  destruct (Hc PI64 TUC64 (requested 0 0 3)
              four_atoms) as [_ Hc'].
  destruct (Hc' eq_refl) as [msg E]. discriminate E.
Qed.

(** With [compute_dos] alone the Nyquist test can still reject the run:
    a time step of 1 fs samples 1000 THz, below [omega_max / PI] here. *)
Lemma dos_alone_can_be_rejected :
  preprocess PI64 TUC64 no_garbage
    {| compute_dos := 1; compute_sdc := 0; sample_interval := 1;
       grouping_method := -1; group := -1; Nc := 3; num_dos_points := -1;
       omega_max := 4000%float;
       N := 0; num_time_origins := 0; dt := 0%float; dt_in_ps := 0%float;
       mass := []; vx := []; vy := []; vz := [];
       vac_x := []; vac_y := []; vac_z := [] |} four_atoms
  = InputError nyquist_message.
Proof. vm_compute. reflexivity. Qed.

(** ** The self-diffusion coefficient *)

Section Integration.
Context {F : Type} `{Arith F}.

(** The trapezoidal sum of [v] over the lags [0 .. nc], added from the
    left, starting from 0.0. *)
Definition trapezoid (v : Z -> F) (dt_ : F) (nc : Z) : F :=
  foldl (fun acc k => acc +. (v k +. v (k + 1)) *. (dt_ *. HALF))
        ZERO (seqZ 0 nc).

Lemma trapezoid_0 v dt_ : trapezoid v dt_ 0 = ZERO.
Proof. reflexivity. Qed.

Lemma trapezoid_succ v dt_ nc :
  0 <= nc ->
  trapezoid v dt_ (nc + 1)
  = trapezoid v dt_ nc +. (v nc +. v (nc + 1)) *. (dt_ *. HALF).
Proof.
  intros Hn. unfold trapezoid. rewrite seqZ_app by lia. rewrite foldl_app.
  simpl. by rewrite Z.add_0_l.
Qed.

(** Three arrays updated in the same cells. *)
Definition updated3 (P : Z -> Prop) (v : (Z -> F) * (Z -> F) * (Z -> F))
    (t t' : list F * list F * list F) : Prop :=
  updated P v.1.1 t.1.1 t'.1.1 /\ updated P v.1.2 t.1.2 t'.1.2 /\
  updated P v.2 t.2 t'.2.

Lemma updated3_ext P Q v t t' :
  (forall j, P j <-> Q j) -> updated3 P v t t' -> updated3 Q v t t'.
Proof. intros E (X & Y & Z_). repeat split; by eapply updated_ext. Qed.

Lemma updated3_none v t : updated3 (fun _ => False) v t t.
Proof. repeat split; apply updated_none. Qed.

Lemma updated3_lengths P v t t' :
  updated3 P v t t' ->
  length t'.1.1 = length t.1.1 /\ length t'.1.2 = length t.1.2 /\
  length t'.2 = length t.2.
Proof. intros ((? & _) & (? & _) & (? & _)). done. Qed.

(** The cells [0 .. n-1] of an array of length [n] determine it. *)
Lemma updated_full (v : Z -> F) (a a' : list F) n :
  Z.of_nat (length a) = n ->
  updated (fun j => 0 <= j < n) v a a' ->
  a' = v <$> seqZ 0 n.
Proof.
  intros L (L' & Hin & _). apply rd_ext. intros i.
  destruct (decide (0 <= i < n)) as [Hi|Hi].
  - rewrite Hin by done. unfold rd. case_decide; [|lia].
    rewrite list_lookup_fmap, lookup_seqZ_lt by lia.
    rewrite Z2Nat.id by lia. reflexivity.
  - rewrite !rd_None; [done | |].
    + rewrite length_fmap, length_seqZ. lia.
    + lia.
Qed.

(** A loop that applies [f] to the cells [0 .. n-1] of three arrays. *)
Lemma modify3_loop (f : F -> F) (t : list F * list F * list F) n :
  0 <= n ->
  n <= Z.of_nat (length t.1.1) -> n <= Z.of_nat (length t.1.2) ->
  n <= Z.of_nat (length t.2) ->
  exists t',
    for_range 0 n (fun nc '(ax, ay, az) =>
      ax ← modify ax nc f; ay ← modify ay nc f; az ← modify az nc f;
      Some (ax, ay, az)) t = Some t' /\
    updated3 (fun j => 0 <= j < n)
      (fun j => f (get t.1.1 j), fun j => f (get t.1.2 j),
       fun j => f (get t.2 j)) t t'.
Proof.
  intros Hn Lx Ly Lz. destruct t as [[ax ay] az]. simpl in * .
  apply (for_range_inv (fun k t' =>
    updated3 (fun j => 0 <= j < k)
      (fun j => f (get ax j), fun j => f (get ay j), fun j => f (get az j))
      (ax, ay, az) t')); [lia | |].
  { eapply updated3_ext; [|apply updated3_none]. intros j. split; [done|lia]. }
  intros k [[bx by_] bz] Hk (Ux & Uy & Uz). simpl in Ux, Uy, Uz.
  destruct (rd_in_range ax k) as [ux Eux]; [lia|].
  destruct (rd_in_range ay k) as [uy Euy]; [lia|].
  destruct (rd_in_range az k) as [uz Euz]; [lia|].
  destruct (updated_modify _ _ _ _ k f ux Ux) as (cx & -> & Ux');
    [lia | done | by rewrite (get_rd _ _ _ Eux) |].
  destruct (updated_modify _ _ _ _ k f uy Uy) as (cy & -> & Uy');
    [lia | done | by rewrite (get_rd _ _ _ Euy) |].
  destruct (updated_modify _ _ _ _ k f uz Uz) as (cz & -> & Uz');
    [lia | done | by rewrite (get_rd _ _ _ Euz) |].
  simpl. eexists. split; [reflexivity|].
  split; [|split]; simpl; (eapply updated_ext; [|eassumption]);
    intros j; lia.
Qed.

End Integration.

Section IntegrationFacts.
Context {F : Type} `{Arith F}.
Variables (TIME_UNIT_CONVERSION : F) (garbage : Z -> F).

(** One more cell of an in-place map. *)
Lemma map_cell (f : F -> F) (a a' : list F) k :
  0 <= k < Z.of_nat (length a) ->
  updated (fun j => 0 <= j < k) (fun j => f (get a j)) a a' ->
  exists a'', modify a' k f = Some a'' /\
    updated (fun j => 0 <= j < k + 1) (fun j => f (get a j)) a a'' /\
    rd a'' k = Some (f (get a k)).
Proof.
  intros Hk U.
  destruct (updated_modify _ _ _ _ k f (get a k) U) as (a'' & E & U');
    [lia | by apply rd_get | done |].
  exists a''. split; [exact E|]. split.
  - eapply updated_ext; [|exact U']. intros j. lia.
  - destruct U' as (_ & Hin & _). apply Hin. by right.
Qed.

Lemma trapezoid_ext (u v : Z -> F) dt_ nc :
  (forall k, 0 <= k <= nc -> u k = v k) ->
  trapezoid u dt_ nc = trapezoid v dt_ nc.
Proof.
  destruct (decide (nc <= 0)) as [Hn|Hn].
  { intros _. unfold trapezoid. by rewrite !seqZ_nil by lia. }
  assert (forall m : nat, Z.of_nat m <= nc ->
    (forall k, 0 <= k <= nc -> u k = v k) ->
    trapezoid u dt_ (Z.of_nat m) = trapezoid v dt_ (Z.of_nat m)) as Hm.
  { induction m as [|m IH]; intros Hb E; [done|].
    replace (Z.of_nat (Datatypes.S m)) with (Z.of_nat m + 1) by lia.
    rewrite !trapezoid_succ by lia. rewrite IH by (done || lia).
    rewrite !E by lia. done. }
  intros E. specialize (Hm (Z.to_nat nc)).
  rewrite Z2Nat.id in Hm by lia. apply Hm; [lia|done].
Qed.

Definition zeros (n : Z) : list F := (fun _ => ZERO) <$> seqZ 0 n.

Lemma length_zeros n : 0 <= n -> Z.of_nat (length (zeros n)) = n.
Proof. intros Hn. unfold zeros. rewrite length_fmap, length_seqZ. lia. Qed.

Lemma get_zeros n j : get (zeros n) j = ZERO.
Proof.
  unfold get, rd, zeros. case_decide; [|done].
  rewrite list_lookup_fmap. by destruct (seqZ 0 n !! Z.to_nat j).
Qed.

(** [integrate_vac] on arrays of zeros leaves the trapezoidal sums. *)
Lemma integrate_vac_spec n dt_ (ax ay az : list F) :
  0 <= n ->
  Z.of_nat (length ax) = n -> Z.of_nat (length ay) = n ->
  Z.of_nat (length az) = n ->
  integrate_vac n dt_ ax ay az (zeros n, zeros n, zeros n)
  = Some ((fun nc => trapezoid (get ax) dt_ nc) <$> seqZ 0 n,
          (fun nc => trapezoid (get ay) dt_ nc) <$> seqZ 0 n,
          (fun nc => trapezoid (get az) dt_ nc) <$> seqZ 0 n).
Proof.
  intros Hn Lx Ly Lz. unfold integrate_vac.
  set (T := (fun nc => trapezoid (get ax) dt_ nc,
             fun nc => trapezoid (get ay) dt_ nc,
             fun nc => trapezoid (get az) dt_ nc)).
  pose proof (length_zeros n Hn) as Lzero.
  assert (forall (a s : list F) k,
    Z.of_nat (length a) = n -> 1 <= k < n ->
    updated (fun j => 1 <= j < k) (fun nc => trapezoid (get a) dt_ nc)
      (zeros n) s ->
    exists s',
      (px ← rd s (k - 1); u ← rd a (k - 1); w ← rd a k;
       wr s k (px +. (u +. w) *. (dt_ *. HALF))) = Some s' /\
      updated (fun j => 1 <= j < k + 1) (fun nc => trapezoid (get a) dt_ nc)
        (zeros n) s') as Hcell.
  { intros a s k La Hk U. pose proof U as (Ls & Hin & Hout).
    assert (rd s (k - 1) = Some (trapezoid (get a) dt_ (k - 1))) as ->.
    { destruct (decide (k = 1)) as [->|Hk1].
      - rewrite Hout by lia. rewrite rd_get by lia. by rewrite get_zeros.
      - apply Hin. lia. }
    rewrite (rd_get a (k - 1)), (rd_get a k) by lia. simpl.
    destruct (updated_wr _ _ _ _ k
      (trapezoid (get a) dt_ (k - 1)
         +. (get a (k - 1) +. get a k) *. (dt_ *. HALF)) U)
      as (s' & -> & U'); [lia | |].
    { transitivity (trapezoid (get a) dt_ (k - 1 + 1)); [|f_equal; lia].
      rewrite trapezoid_succ by lia. by replace (k - 1 + 1) with k by lia. }
    exists s'. split; [done|]. eapply updated_ext; [|exact U']. intros j. lia. }
  destruct (decide (n <= 1)) as [Hn1|Hn1].
  { rewrite for_range_empty by lia. f_equal.
    assert (zeros n = (fun nc => trapezoid (get ax) dt_ nc) <$> seqZ 0 n /\
            zeros n = (fun nc => trapezoid (get ay) dt_ nc) <$> seqZ 0 n /\
            zeros n = (fun nc => trapezoid (get az) dt_ nc) <$> seqZ 0 n)
      as (<- & <- & <-); [|done].
    unfold zeros. destruct (decide (n = 0)) as [->|]; [done|].
    assert (n = 1) as -> by lia. done. }
  destruct (for_range_inv (fun k s => updated3 (fun j => 1 <= j < k) T
      (zeros n, zeros n, zeros n) s) 1 n
    (fun nc '(sdc_x, sdc_y, sdc_z) =>
      px ← rd sdc_x (nc - 1); ux ← rd ax (nc - 1); wx ← rd ax nc;
      sdc_x ← wr sdc_x nc (px +. (ux +. wx) *. (dt_ *. HALF));
      py ← rd sdc_y (nc - 1); uy ← rd ay (nc - 1); wy ← rd ay nc;
      sdc_y ← wr sdc_y nc (py +. (uy +. wy) *. (dt_ *. HALF));
      pz ← rd sdc_z (nc - 1); uz ← rd az (nc - 1); wz ← rd az nc;
      sdc_z ← wr sdc_z nc (pz +. (uz +. wz) *. (dt_ *. HALF));
      Some (sdc_x, sdc_y, sdc_z)) (zeros n, zeros n, zeros n))
    as ([[sx sy] sz] & -> & Ux & Uy & Uz); [lia | | |].
  - eapply updated3_ext; [|apply updated3_none]. intros j. split; [done|lia].
  - intros k [[sx sy] sz] Hk (Ux & Uy & Uz). simpl in Ux, Uy, Uz.
    destruct (Hcell ax sx k Lx Hk Ux) as (sx' & Ex & Ux').
    destruct (Hcell ay sy k Ly Hk Uy) as (sy' & Ey & Uy').
    destruct (Hcell az sz k Lz Hk Uz) as (sz' & Ez & Uz').
    exists (sx', sy', sz'). split; [|exact (conj Ux' (conj Uy' Uz'))].
    destruct (rd sx (k - 1)) as [px|]; [|discriminate Ex]. simpl in * .
    destruct (rd ax (k - 1)) as [ux|]; [|discriminate Ex]. simpl in * .
    destruct (rd ax k) as [wx|]; [|discriminate Ex]. simpl in * .
    rewrite Ex. simpl.
    destruct (rd sy (k - 1)) as [py|]; [|discriminate Ey]. simpl in * .
    destruct (rd ay (k - 1)) as [uy|]; [|discriminate Ey]. simpl in * .
    destruct (rd ay k) as [wy|]; [|discriminate Ey]. simpl in * .
    rewrite Ey. simpl.
    destruct (rd sz (k - 1)) as [pz|]; [|discriminate Ez]. simpl in * .
    destruct (rd az (k - 1)) as [uz|]; [|discriminate Ez]. simpl in * .
    destruct (rd az k) as [wz|]; [|discriminate Ez]. simpl in * .
    rewrite Ez. done.
  - simpl in Ux, Uy, Uz.
    assert (forall (a s : list F),
      updated (fun j => 1 <= j < n) (fun nc => trapezoid (get a) dt_ nc)
        (zeros n) s ->
      s = (fun nc => trapezoid (get a) dt_ nc) <$> seqZ 0 n) as Hfull.
    { intros a s U. apply (updated_full _ (zeros n)); [done|].
      destruct U as (L & Hin & Hout). split; [done|]. split; [|intros; apply Hout; lia].
      intros j Hj. destruct (decide (j = 0)) as [->|]; [|apply Hin; lia].
      rewrite Hout by lia. rewrite rd_get by lia. by rewrite get_zeros. }
    by rewrite (Hfull ax sx Ux), (Hfull ay sy Uy), (Hfull az sz Uz).
Qed.

End IntegrationFacts.

(** ** The lines of [sdc.out] *)

Section SdcFacts.
Context {F : Type} `{Arith F}.
Variables (TIME_UNIT_CONVERSION : F) (garbage : Z -> F).

(** The loop of [find_sdc] that clears the three arrays. *)
Lemma clear_loop n (sx sy sz : list F) :
  0 <= n ->
  Z.of_nat (length sx) = n -> Z.of_nat (length sy) = n ->
  Z.of_nat (length sz) = n ->
  for_range 0 n (fun nc '(sdc_x, sdc_y, sdc_z) =>
    sdc_z ← wr sdc_z nc ZERO;
    sdc_y ← wr sdc_y nc ZERO;
    sdc_x ← wr sdc_x nc ZERO;
    Some (sdc_x, sdc_y, sdc_z)) (sx, sy, sz)
  = Some (zeros n, zeros n, zeros n).
Proof.
  intros Hn Lx Ly Lz.
  set (Z0 := (fun _ : Z => ZERO, fun _ : Z => ZERO, fun _ : Z => ZERO)
             : (Z -> F) * (Z -> F) * (Z -> F)).
  destruct (for_range_inv
    (fun k s => updated3 (fun j => 0 <= j < k) Z0 (sx, sy, sz) s) 0 n
    (fun nc '(sdc_x, sdc_y, sdc_z) =>
      sdc_z ← wr sdc_z nc ZERO;
      sdc_y ← wr sdc_y nc ZERO;
      sdc_x ← wr sdc_x nc ZERO;
      Some (sdc_x, sdc_y, sdc_z)) (sx, sy, sz))
    as ([[bx by_] bz] & -> & Ux & Uy & Uz); [lia | | |].
  - eapply updated3_ext; [|apply updated3_none]. intros j. split; [done|lia].
  - intros k [[bx by_] bz] Hk (Ux & Uy & Uz). simpl in Ux, Uy, Uz.
    destruct (updated_wr _ _ _ _ k ZERO Uz) as (cz & -> & Uz'); [lia|done|].
    destruct (updated_wr _ _ _ _ k ZERO Uy) as (cy & -> & Uy'); [lia|done|].
    destruct (updated_wr _ _ _ _ k ZERO Ux) as (cx & -> & Ux'); [lia|done|].
    simpl. eexists. split; [reflexivity|].
    split; [|split]; simpl; (eapply updated_ext; [|eassumption]);
      intros j; lia.
  - simpl in Ux, Uy, Uz.
    by rewrite (updated_full _ _ _ _ Lx Ux), (updated_full _ _ _ _ Ly Uy),
               (updated_full _ _ _ _ Lz Uz).
Qed.

(** The line of lag [nc] made of the VAC [c] and the sums [s]. *)
Definition line_of (dtps : F) (c s : (Z -> F) * (Z -> F) * (Z -> F))
    (nc : Z) : sdc_line F :=
  let k2 := of_int 1000000 /. TIME_UNIT_CONVERSION /. TIME_UNIT_CONVERSION in
  let k1 := of_int 1000 /. TIME_UNIT_CONVERSION in
  (of_int nc *. dtps,
   (c.1.1 nc *. k2, c.1.2 nc *. k2, c.2 nc *. k2),
   (s.1.1 nc *. k1, s.1.2 nc *. k1, s.2 nc *. k1)).

(** The loop of [find_sdc] that converts the units and prints. *)
Lemma output_loop n dtps (cx cy cz sx sy sz : list F) :
  0 <= n ->
  Z.of_nat (length cx) = n -> Z.of_nat (length cy) = n ->
  Z.of_nat (length cz) = n ->
  Z.of_nat (length sx) = n -> Z.of_nat (length sy) = n ->
  Z.of_nat (length sz) = n ->
  exists arrays,
    for_range 0 n (fun nc '(arrays, lines) =>
      let '(vac_x_, vac_y_, vac_z_, sdc_x, sdc_y, sdc_z) := arrays in
      let t := of_int nc *. dtps in
      let k2 := of_int 1000000 /. TIME_UNIT_CONVERSION /. TIME_UNIT_CONVERSION in
      vac_x_ ← modify vac_x_ nc (fun v => v *. k2);
      vac_y_ ← modify vac_y_ nc (fun v => v *. k2);
      vac_z_ ← modify vac_z_ nc (fun v => v *. k2);
      let k1 := of_int 1000 /. TIME_UNIT_CONVERSION in
      sdc_x ← modify sdc_x nc (fun v => v *. k1);
      sdc_y ← modify sdc_y nc (fun v => v *. k1);
      sdc_z ← modify sdc_z nc (fun v => v *. k1);
      cx ← rd vac_x_ nc; cy ← rd vac_y_ nc; cz ← rd vac_z_ nc;
      dx ← rd sdc_x nc; dy ← rd sdc_y nc; dz ← rd sdc_z nc;
      Some ((vac_x_, vac_y_, vac_z_, sdc_x, sdc_y, sdc_z),
            lines ++ [(t, (cx, cy, cz), (dx, dy, dz))]))
      ((cx, cy, cz, sx, sy, sz), [])
    = Some (arrays,
            line_of dtps (get cx, get cy, get cz) (get sx, get sy, get sz)
              <$> seqZ 0 n).
Proof.
  intros Hn Lcx Lcy Lcz Lsx Lsy Lsz.
  set (k2 := of_int 1000000 /. TIME_UNIT_CONVERSION /. TIME_UNIT_CONVERSION).
  set (k1 := of_int 1000 /. TIME_UNIT_CONVERSION).
  set (L := line_of dtps (get cx, get cy, get cz) (get sx, get sy, get sz)).
  set (U := fun (k c : F) (a a' : list F) (m : Z) =>
              updated (fun j => 0 <= j < m) (fun j => get a j *. c) a a').
  destruct (for_range_inv
    (fun m (st : (list F * list F * list F * list F * list F * list F)
                 * list (sdc_line F)) =>
       let '((ax, ay, az, bx, by_, bz), lines) := st in
       U k2 k2 cx ax m /\ U k2 k2 cy ay m /\ U k2 k2 cz az m /\
       U k1 k1 sx bx m /\ U k1 k1 sy by_ m /\ U k1 k1 sz bz m /\
       lines = L <$> seqZ 0 m) 0 n
    (fun nc '(arrays, lines) =>
      let '(vac_x_, vac_y_, vac_z_, sdc_x, sdc_y, sdc_z) := arrays in
      let t := of_int nc *. dtps in
      let k2 := of_int 1000000 /. TIME_UNIT_CONVERSION /. TIME_UNIT_CONVERSION in
      vac_x_ ← modify vac_x_ nc (fun v => v *. k2);
      vac_y_ ← modify vac_y_ nc (fun v => v *. k2);
      vac_z_ ← modify vac_z_ nc (fun v => v *. k2);
      let k1 := of_int 1000 /. TIME_UNIT_CONVERSION in
      sdc_x ← modify sdc_x nc (fun v => v *. k1);
      sdc_y ← modify sdc_y nc (fun v => v *. k1);
      sdc_z ← modify sdc_z nc (fun v => v *. k1);
      cx ← rd vac_x_ nc; cy ← rd vac_y_ nc; cz ← rd vac_z_ nc;
      dx ← rd sdc_x nc; dy ← rd sdc_y nc; dz ← rd sdc_z nc;
      Some ((vac_x_, vac_y_, vac_z_, sdc_x, sdc_y, sdc_z),
            lines ++ [(t, (cx, cy, cz), (dx, dy, dz))]))
    ((cx, cy, cz, sx, sy, sz), []))
    as ([arrays lines] & E & HP); [lia | | |].
  - unfold U. repeat split; try done;
      try (intros j Hj; exfalso; lia).
  - intros m [[[[[[ax ay] az] bx] by_] bz] lines] Hm
           (Uax & Uay & Uaz & Ubx & Uby & Ubz & ->).
    unfold U in * . cbv beta iota zeta. fold k2 k1.
    destruct (map_cell (fun v => v *. k2) cx ax m) as (ax' & -> & Uax' & Rax);
      [lia | done |].
    destruct (map_cell (fun v => v *. k2) cy ay m) as (ay' & -> & Uay' & Ray);
      [lia | done |].
    destruct (map_cell (fun v => v *. k2) cz az m) as (az' & -> & Uaz' & Raz);
      [lia | done |].
    destruct (map_cell (fun v => v *. k1) sx bx m) as (bx' & -> & Ubx' & Rbx);
      [lia | done |].
    destruct (map_cell (fun v => v *. k1) sy by_ m) as (by' & -> & Uby' & Rby);
      [lia | done |].
    destruct (map_cell (fun v => v *. k1) sz bz m) as (bz' & -> & Ubz' & Rbz);
      [lia | done |].
    simpl. rewrite Rax, Ray, Raz, Rbx, Rby, Rbz. simpl.
    eexists. split; [reflexivity|].
    repeat (split; [assumption|]).
    rewrite (seqZ_app 0 m 1) by lia. by rewrite fmap_app.
  - destruct arrays as [[[[[ax ay] az] bx] by_] bz].
    destruct HP as (_ & _ & _ & _ & _ & _ & ->).
    eexists. exact E.
Qed.

End SdcFacts.

Section SdcClaim.
Context {F : Type} `{Arith F}.
Variables (TIME_UNIT_CONVERSION : F) (garbage : Z -> F).

Lemma MY_MALLOC_Some n :
  0 <= n ->
  MY_MALLOC garbage n = Some (garbage <$> seqZ 0 n) /\
  Z.of_nat (length (garbage <$> seqZ 0 n)) = n.
Proof.
  intros Hn. unfold MY_MALLOC. case_decide; [|lia]. split; [done|].
  rewrite length_fmap, length_seqZ. lia.
Qed.

(** [find_sdc] on a VAC of [Nc] lags: line [nc] holds the VAC and its
    trapezoidal sums up to lag [nc], in the units of the file. *)
Lemma find_sdc_spec (this : VAC F) :
  0 <= Nc this ->
  Z.of_nat (length (vac_x this)) = Nc this ->
  Z.of_nat (length (vac_y this)) = Nc this ->
  Z.of_nat (length (vac_z this)) = Nc this ->
  find_sdc TIME_UNIT_CONVERSION garbage this
  = Some (line_of TIME_UNIT_CONVERSION (dt_in_ps this)
            (get (vac_x this), get (vac_y this), get (vac_z this))
            (trapezoid (get (vac_x this)) (dt this),
             trapezoid (get (vac_y this)) (dt this),
             trapezoid (get (vac_z this)) (dt this))
          <$> seqZ 0 (Nc this)).
Proof.
  intros Hn Lx Ly Lz. unfold find_sdc.
  destruct (MY_MALLOC_Some (Nc this) Hn) as [-> Lg].
  rewrite !bind_Some_eq.
  rewrite clear_loop by done. rewrite bind_Some_eq.
  rewrite integrate_vac_spec by done. rewrite bind_Some_eq.
  set (tx := (fun nc => trapezoid (get (vac_x this)) (dt this) nc)
             <$> seqZ 0 (Nc this)).
  set (ty := (fun nc => trapezoid (get (vac_y this)) (dt this) nc)
             <$> seqZ 0 (Nc this)).
  set (tz := (fun nc => trapezoid (get (vac_z this)) (dt this) nc)
             <$> seqZ 0 (Nc this)).
  assert (forall a : Z -> F,
            Z.of_nat (length (a <$> seqZ 0 (Nc this))) = Nc this) as Lt.
  { intros a. rewrite length_fmap, length_seqZ. lia. }
  destruct (output_loop TIME_UNIT_CONVERSION (Nc this) (dt_in_ps this)
              (vac_x this) (vac_y this) (vac_z this) tx ty tz)
    as (arrays & E); try done; try apply Lt.
  etransitivity; [exact (f_equal (fun o => '(_, lines) ← o; Some lines) E)|].
  simpl. f_equal. apply list_fmap_ext. intros i nc Hi.
  apply lookup_seqZ in Hi as [-> Hi]. rewrite Z.add_0_l.
  unfold line_of, tx, ty, tz. simpl.
  rewrite !get_fmap_seqZ by lia. done.
Qed.

(** C6, as the code has it: after the normalisation by
    [N * num_time_origins], line [nc] of [sdc.out] holds, for each axis
    separately, the normalised VAC at lag [nc] and its trapezoidal sum over
    the lags [0 .. nc] (0 at lag 0, then [(vac[k-1] + vac[k]) * dt / 2] more
    at each lag), converted to the units of the file.  No factor 1/3
    enters, and the three axes are not added. *)
Theorem sdc_is_trapezoid_sum_per_axis (this : VAC F) :
  0 <= Nc this ->
  Z.of_nat (length (vac_x this)) = Nc this ->
  Z.of_nat (length (vac_y this)) = Nc this ->
  Z.of_nat (length (vac_z this)) = Nc this ->
  let norm := of_int (N this) *. of_int (num_time_origins this) in
  let cx j := get (vac_x this) j /. norm in
  let cy j := get (vac_y this) j /. norm in
  let cz j := get (vac_z this) j /. norm in
  postprocess_sdc TIME_UNIT_CONVERSION garbage this
  = Some (line_of TIME_UNIT_CONVERSION (dt_in_ps this) (cx, cy, cz)
            (trapezoid cx (dt this), trapezoid cy (dt this),
             trapezoid cz (dt this))
          <$> seqZ 0 (Nc this)).
Proof.
  intros Hn Lx Ly Lz norm cx cy cz. unfold postprocess_sdc. fold norm.
  destruct (modify3_loop (fun v => v /. norm)
              (vac_x this, vac_y this, vac_z this) (Nc this))
    as ([[ax ay] az] & E & Ux & Uy & Uz); simpl; try lia.
  etransitivity;
    [exact (f_equal (fun o => c ← o;
              find_sdc TIME_UNIT_CONVERSION garbage
                (with_buffers this (num_time_origins this)
                   (vx this, vy this, vz this) c)) E)|].
  rewrite bind_Some_eq. simpl in Ux, Uy, Uz.
  apply (updated_full _ _ _ _ Lx) in Ux.
  apply (updated_full _ _ _ _ Ly) in Uy.
  apply (updated_full _ _ _ _ Lz) in Uz.
  fold cx in Ux. fold cy in Uy. fold cz in Uz.
  assert (forall a : Z -> F,
            Z.of_nat (length (a <$> seqZ 0 (Nc this))) = Nc this) as Lt.
  { intros a. rewrite length_fmap, length_seqZ. lia. }
  rewrite find_sdc_spec; simpl; subst ax ay az; try done; try apply Lt.
  f_equal. apply list_fmap_ext. intros i nc Hi.
  apply lookup_seqZ in Hi as [-> Hi]. rewrite Z.add_0_l.
  unfold line_of. simpl.
  rewrite !get_fmap_seqZ by lia.
  rewrite !(trapezoid_ext (get (_ <$> seqZ 0 (Nc this))) _ (dt this)
              (Z.of_nat i) (fun k Hk => get_fmap_seqZ _ (Nc this) k
                 ltac:(lia))).
  done.
Qed.

End SdcClaim.

(** A VAC of two lags that is constant along x and vanishes along y and
    z, accumulated over one time origin for one atom. *)
Definition constant_vac : VAC float :=
  {| compute_dos := 0; compute_sdc := 1; sample_interval := 1;
     grouping_method := -1; group := -1; Nc := 2; num_dos_points := -1;
     omega_max := 0%float;
     N := 1; num_time_origins := 1; dt := 1%float; dt_in_ps := 1%float;
     mass := []; vx := []; vy := []; vz := [];
     vac_x := [3%float; 3%float]; vac_y := [0%float; 0%float];
     vac_z := [0%float; 0%float] |}.

Lemma sdc_of_constant_vac :
  postprocess_sdc TUC64 no_garbage constant_vac
  = Some (line_of TUC64 1%float
            (fun j => get [3%float; 3%float] j /. (of_int 1 *. of_int 1),
             fun j => get [0%float; 0%float] j /. (of_int 1 *. of_int 1),
             fun j => get [0%float; 0%float] j /. (of_int 1 *. of_int 1))
            (trapezoid
               (fun j => get [3%float; 3%float] j /. (of_int 1 *. of_int 1))
               1%float,
             trapezoid
               (fun j => get [0%float; 0%float] j /. (of_int 1 *. of_int 1))
               1%float,
             trapezoid
               (fun j => get [0%float; 0%float] j /. (of_int 1 *. of_int 1))
               1%float)
          <$> seqZ 0 2).
Proof.
  apply (sdc_is_trapezoid_sum_per_axis TUC64 no_garbage constant_vac);
    [simpl; lia | reflexivity | reflexivity | reflexivity].
Defined.

(** C6 in its own words: every coefficient of line [nc] is a third of the
    trapezoidal sum of the normalised VAC of its axis up to lag [nc], in
    the units of the file. *)
Definition third_of_integral {F : Type} `{Arith F}
    (TIME_UNIT_CONVERSION : F) (garbage : Z -> F) (this : VAC F) : Prop :=
  let norm := of_int (N this) *. of_int (num_time_origins this) in
  let k1 := of_int 1000 /. TIME_UNIT_CONVERSION in
  let D (vac : list F) (nc : Z) :=
    trapezoid (fun j => get vac j /. norm) (dt this) nc /. of_int 3 *. k1 in
  exists lines,
    postprocess_sdc TIME_UNIT_CONVERSION garbage this = Some lines /\
    forall nc t c dx dy dz,
      rd lines nc = Some (t, c, (dx, dy, dz)) ->
      dx = D (vac_x this) nc /\ dy = D (vac_y this) nc /\
      dz = D (vac_z this) nc.

(** It fails: for the constant VAC the sum along x up to lag 1 is 3, and
    the file holds 3 * 1000 / TIME_UNIT_CONVERSION, not a third of it. *)
Lemma sdc_is_not_a_third_of_the_integral :
  ~ (forall this : VAC float,
       0 <= Nc this ->
       Z.of_nat (length (vac_x this)) = Nc this ->
       Z.of_nat (length (vac_y this)) = Nc this ->
       Z.of_nat (length (vac_z this)) = Nc this ->
       third_of_integral TUC64 no_garbage this).
Proof.
  intros Hc.
  destruct (Hc constant_vac ltac:(simpl; lia) eq_refl eq_refl eq_refl)
    as (lines & E & Hl).
  assert (exists (t : float) (c : float * float * float) (dy dz : float)
                 (l0 : sdc_line float),
    postprocess_sdc TUC64 no_garbage constant_vac
    = Some [l0; (t, c, (3%float *. (of_int 1000 /. TUC64), dy, dz))])
    as (t & c & dy & dz & l0 & E').
  { do 5 eexists. vm_compute. reflexivity. }
  rewrite E' in E. injection E as <-.
  destruct (Hl 1 t c _ dy dz eq_refl) as (Hx & _).
  apply (f_equal
           (fun u => PrimFloat.eqb u (3%float *. (of_int 1000 /. TUC64))))
    in Hx.
  vm_compute in Hx. discriminate Hx.
Qed.

(** ** The frames of velocity and the lag bins *)

Section CopyFacts.
Context {F : Type} `{Arith F}.

(** What the two copy kernels share: entry [n] of the frame at [off]
    receives the velocity of atom [index n]. *)
Definition copy_thread (index : Z -> option Z) (N_ off : Z)
    (g_vx_i g_vy_i g_vz_i : list F) (blockDim bid tid : Z)
    (g_v_o : list F * list F * list F) : option (list F * list F * list F) :=
  let '(g_vx_o, g_vy_o, g_vz_o) := g_v_o in
  let n := tid + bid * blockDim in
  if decide (n < N_) then
    m ← index n;
    ux ← rd g_vx_i m; g_vx_o ← wr g_vx_o (off + n) ux;
    uy ← rd g_vy_i m; g_vy_o ← wr g_vy_o (off + n) uy;
    uz ← rd g_vz_i m; g_vz_o ← wr g_vz_o (off + n) uz;
    Some (g_vx_o, g_vy_o, g_vz_o)
  else Some g_v_o.

Lemma gpu_copy_velocity_group_thread N_ offset contents_ off vxi vyi vzi :
  gpu_copy_velocity_group N_ offset contents_ off vxi vyi vzi
  = copy_thread (fun n => rd contents_ (offset + n)) N_ off vxi vyi vzi.
Proof. reflexivity. Qed.

Lemma gpu_copy_velocity_thread N_ off (vxi vyi vzi : list F) :
  gpu_copy_velocity N_ off vxi vyi vzi = copy_thread Some N_ off vxi vyi vzi.
Proof. reflexivity. Qed.

(** A launch of a copy kernel fills the frame at [off] and nothing else. *)
Lemma copy_launch (index : Z -> option Z) (member : Z -> Z) N_ off
    (vxi vyi vzi vx_ vy_ vz_ : list F) :
  0 <= N_ -> 0 <= off ->
  off + N_ <= Z.of_nat (length vx_) -> off + N_ <= Z.of_nat (length vy_) ->
  off + N_ <= Z.of_nat (length vz_) ->
  (forall n, 0 <= n < N_ ->
     index n = Some (member n) /\
     0 <= member n < Z.of_nat (length vxi) /\
     0 <= member n < Z.of_nat (length vyi) /\
     0 <= member n < Z.of_nat (length vzi)) ->
  exists v,
    launch ((N_ - 1) `quot` BLOCK_SIZE + 1) BLOCK_SIZE
      (copy_thread index N_ off vxi vyi vzi BLOCK_SIZE) (vx_, vy_, vz_)
    = Some v /\
    updated3 (fun j => off <= j < off + N_)
      (fun j => get vxi (member (j - off)),
       fun j => get vyi (member (j - off)),
       fun j => get vzi (member (j - off))) (vx_, vy_, vz_) v.
Proof.
  intros HN Hoff Lx Ly Lz Hidx.
  destruct (rounds_cover N_ BLOCK_SIZE HN ltac:(done)) as [Hg Hcover].
  set (V := (fun j => get vxi (member (j - off)),
             fun j => get vyi (member (j - off)),
             fun j => get vzi (member (j - off)))).
  destruct (launch_inv
    (fun g s => updated3 (fun j => off <= j < off + Z.min g N_) V
                  (vx_, vy_, vz_) s)
    ((N_ - 1) `quot` BLOCK_SIZE + 1) BLOCK_SIZE
    (copy_thread index N_ off vxi vyi vzi BLOCK_SIZE) (vx_, vy_, vz_))
    as (v & E & U); [done | done | | |].
  - eapply updated3_ext; [|apply updated3_none]. intros j. split; [done|lia].
  - intros bid tid [[ax ay] az] Hbid Htid (Ux & Uy & Uz).
    simpl in Ux, Uy, Uz. unfold copy_thread.
    replace (tid + bid * BLOCK_SIZE) with (bid * BLOCK_SIZE + tid) by lia.
    set (n := bid * BLOCK_SIZE + tid) in * .
    assert (0 <= n) as Hn0 by (unfold n, BLOCK_SIZE in * ; lia).
    case_decide as Hn.
    + destruct (Hidx n) as (-> & Mx & My & Mz); [lia|].
      rewrite bind_Some_eq.
      rewrite (rd_get vxi), (rd_get vyi), (rd_get vzi) by done.
      rewrite bind_Some_eq.
      destruct (updated_wr _ _ _ _ (off + n) (get vxi (member n)) Ux)
        as (bx & -> & Ux'); [lia | simpl; do 2 f_equal; lia |].
      rewrite !bind_Some_eq.
      destruct (updated_wr _ _ _ _ (off + n) (get vyi (member n)) Uy)
        as (by_ & -> & Uy'); [lia | simpl; do 2 f_equal; lia |].
      rewrite !bind_Some_eq.
      destruct (updated_wr _ _ _ _ (off + n) (get vzi (member n)) Uz)
        as (bz & -> & Uz'); [lia | simpl; do 2 f_equal; lia |].
      rewrite bind_Some_eq. eexists. split; [reflexivity|].
      split; [|split]; simpl; (eapply updated_ext; [|eassumption]);
        intros j; cbv beta; lia.
    + eexists. split; [reflexivity|].
      split; [|split]; simpl; (eapply updated_ext; [|eassumption]);
        intros j; cbv beta; lia.
  - exists v. split; [done|].
    eapply updated3_ext; [|exact U]. intros j. cbv beta.
    rewrite Z.min_r by done. done.
Qed.

End CopyFacts.

(** The bin of block [b]: the lag between frame [b] and the current one. *)
Definition lag_of (cs Nc_ b : Z) : Z :=
  if decide (b <= cs) then cs - b else cs + Nc_ - b.

Lemma lag_of_mod cs Nc_ b :
  0 <= cs < Nc_ -> 0 <= b < Nc_ -> lag_of cs Nc_ b = (cs - b) `mod` Nc_.
Proof.
  intros Hc Hb. unfold lag_of. case_decide.
  - by rewrite Z.mod_small by lia.
  - rewrite <- (Z_mod_plus_full (cs - b) 1 Nc_).
    rewrite Z.mod_small by lia. lia.
Qed.

Lemma lag_of_range cs Nc_ b :
  0 <= cs < Nc_ -> 0 <= b < Nc_ -> 0 <= lag_of cs Nc_ b < Nc_.
Proof. intros Hc Hb. unfold lag_of. case_decide; lia. Qed.

Lemma lag_of_lag cs Nc_ b :
  0 <= cs < Nc_ -> 0 <= b < Nc_ -> lag_of cs Nc_ (lag_of cs Nc_ b) = b.
Proof. intros Hc Hb. unfold lag_of. repeat case_decide; lia. Qed.

Section Correlation.
Context {F : Type} `{Arith F}.

(** The factor of atom [n]: its mass for the DOS, 1 for the SDC. *)
Definition mass_factor (compute_dos_ : Z) (mass_ : list F) (n : Z) : F :=
  if decide (compute_dos_ <> 0) then get mass_ n else ONE.

(** The sum over the atoms of [mass * v(current) * v(b)] for the frames
    [cur] and [b] of the buffer [v]. *)
Definition frame_product (compute_dos_ : Z) (mass_ v : list F) (N_ cur b : Z)
    : F :=
  sumZ (fun n => mass_factor compute_dos_ mass_ n
                 *. get v (cur * N_ + n) *. get v (b * N_ + n)) N_.

Lemma vac_term_Some dos (mass_ v : list F) N_ Nc_ cs b n :
  0 <= cs < Nc_ -> 0 <= b < Nc_ -> 0 <= n < N_ ->
  Z.of_nat (length v) = N_ * Nc_ ->
  (dos <> 0 -> N_ <= Z.of_nat (length mass_)) ->
  vac_term dos mass_ (v, cs * N_) v (b * N_) n
  = Some (mass_factor dos mass_ n
          *. get v (cs * N_ + n) *. get v (b * N_ + n)).
Proof.
  intros Hc Hb Hn L Lm. unfold vac_term, mass_factor, load. simpl.
  assert (0 <= cs * N_ + n < Z.of_nat (length v)) by nia.
  assert (0 <= b * N_ + n < Z.of_nat (length v)) by nia.
  case_decide.
  - rewrite (rd_get mass_) by lia. rewrite bind_Some_eq.
    by rewrite !(rd_get v) by done.
  - rewrite bind_Some_eq. by rewrite !(rd_get v) by done.
Qed.

End Correlation.

Section CorrelationFacts.
Context {F : Type} `{AddLaws F}.

(** The launch of [gpu_find_vac]: every bin [j] receives the product of
    the current frame with the frame at lag [j]. *)
Lemma find_vac_launch dos (mass_ vx_ vy_ vz_ cx cy cz : list F) N_ Nc_ cs :
  0 <= N_ -> 0 <= cs < Nc_ ->
  Z.of_nat (length vx_) = N_ * Nc_ -> Z.of_nat (length vy_) = N_ * Nc_ ->
  Z.of_nat (length vz_) = N_ * Nc_ ->
  Z.of_nat (length cx) = Nc_ -> Z.of_nat (length cy) = Nc_ ->
  Z.of_nat (length cz) = Nc_ ->
  (dos <> 0 -> N_ <= Z.of_nat (length mass_)) ->
  exists c,
    launch_blocks Nc_
      (gpu_find_vac N_ cs dos mass_ (vx_, cs * N_) (vy_, cs * N_)
         (vz_, cs * N_) vx_ vy_ vz_ Nc_) (cx, cy, cz) = Some c /\
    updated3 (fun j => 0 <= j < Nc_)
      (fun j => get cx j
                +. frame_product dos mass_ vx_ N_ cs (lag_of cs Nc_ j),
       fun j => get cy j
                +. frame_product dos mass_ vy_ N_ cs (lag_of cs Nc_ j),
       fun j => get cz j
                +. frame_product dos mass_ vz_ N_ cs (lag_of cs Nc_ j))
      (cx, cy, cz) c.
Proof.
  intros HN Hcs Lvx Lvy Lvz Lcx Lcy Lcz Lm.
  destruct (rounds_cover N_ BLOCK_SIZE HN ltac:(done)) as [Hg Hcover].
  set (V := (fun j => get cx j
                +. frame_product dos mass_ vx_ N_ cs (lag_of cs Nc_ j),
             fun j => get cy j
                +. frame_product dos mass_ vy_ N_ cs (lag_of cs Nc_ j),
             fun j => get cz j
                +. frame_product dos mass_ vz_ N_ cs (lag_of cs Nc_ j))).
  destruct (launch_blocks_inv
    (fun bid s => updated3
       (fun j => exists b, 0 <= b < bid /\ j = lag_of cs Nc_ b) V
       (cx, cy, cz) s) Nc_
    (gpu_find_vac N_ cs dos mass_ (vx_, cs * N_) (vy_, cs * N_)
       (vz_, cs * N_) vx_ vy_ vz_ Nc_) (cx, cy, cz))
    as (c & E & U); [lia | | |].
  - eapply updated3_ext; [|apply updated3_none].
    intros j. split; [done|]. intros (b & Hb & _). lia.
  - intros bid [[ax ay] az] Hbid (Ux & Uy & Uz). simpl in Ux, Uy, Uz.
    assert (forall v : list F, Z.of_nat (length v) = N_ * Nc_ ->
      block_reduce BLOCK_SIZE ((N_ - 1) `quot` BLOCK_SIZE + 1) N_
        (vac_term dos mass_ (v, cs * N_) v (bid * N_))
      = Some (frame_product dos mass_ v N_ cs bid)) as Hsum.
    { intros v Lv. apply (block_reduce_exact 7); [lia | split; [lia|exact Hcover] |].
      intros n Hn. by apply (vac_term_Some _ _ _ _ Nc_). }
    unfold gpu_find_vac. cbv beta iota zeta.
    rewrite (Hsum vx_ Lvx), (Hsum vy_ Lvy), (Hsum vz_ Lvz).
    rewrite !bind_Some_eq.
    change (if decide (bid <= cs) then cs - bid else cs + Nc_ - bid)
      with (lag_of cs Nc_ bid).
    pose proof (lag_of_range cs Nc_ bid Hcs Hbid) as Hr.
    assert (~ (exists b, 0 <= b < bid /\ lag_of cs Nc_ bid = lag_of cs Nc_ b))
      as Hfresh.
    { intros (b & Hb & Eb). apply (f_equal (lag_of cs Nc_)) in Eb.
      rewrite !lag_of_lag in Eb by lia. lia. }
    destruct (updated_modify _ _ _ _ (lag_of cs Nc_ bid)
                (fun v => v +. frame_product dos mass_ vx_ N_ cs bid)
                (get cx (lag_of cs Nc_ bid)) Ux)
      as (bx & -> & Ux');
      [done | by apply rd_get; lia | simpl; by rewrite lag_of_lag |].
    rewrite bind_Some_eq.
    destruct (updated_modify _ _ _ _ (lag_of cs Nc_ bid)
                (fun v => v +. frame_product dos mass_ vy_ N_ cs bid)
                (get cy (lag_of cs Nc_ bid)) Uy)
      as (by_ & -> & Uy');
      [done | by apply rd_get; lia | simpl; by rewrite lag_of_lag |].
    rewrite bind_Some_eq.
    destruct (updated_modify _ _ _ _ (lag_of cs Nc_ bid)
                (fun v => v +. frame_product dos mass_ vz_ N_ cs bid)
                (get cz (lag_of cs Nc_ bid)) Uz)
      as (bz & -> & Uz');
      [done | by apply rd_get; lia | simpl; by rewrite lag_of_lag |].
    rewrite bind_Some_eq. eexists. split; [reflexivity|].
    assert (forall j, (exists b, 0 <= b < bid /\ j = lag_of cs Nc_ b)
                      \/ j = lag_of cs Nc_ bid
                      <-> exists b, 0 <= b < bid + 1 /\ j = lag_of cs Nc_ b)
      as Hext.
    { intros j. split.
      - intros [(b & Hb & ->) | ->]; [exists b | exists bid]; split; (done || lia).
      - intros (b & Hb & ->). destruct (decide (b = bid)) as [->|];
          [by right | left; exists b; split; (done || lia)]. }
    split; [|split]; simpl; (eapply updated_ext; [exact Hext | assumption]).
  - exists c. split; [done|].
    eapply updated3_ext; [|exact U]. intros j. cbv beta. split.
    + intros (b & Hb & ->). by apply lag_of_range.
    + intros Hj. exists (lag_of cs Nc_ j).
      split; [by apply lag_of_range | by rewrite lag_of_lag].
Qed.

End CorrelationFacts.

Section ProcessFacts.
Context {F : Type} `{Arith F}.

(** The copy of [VAC::process], with or without a group: the frame at
    [off] receives the velocities of the selected atoms. *)
Lemma copy_step (atom : Atom F) (this : VAC F) (member : Z -> Z) off :
  0 <= N this -> 0 <= off ->
  off + N this <= Z.of_nat (length (vx this)) ->
  off + N this <= Z.of_nat (length (vy this)) ->
  off + N this <= Z.of_nat (length (vz this)) ->
  (grouping_method this >= 0 ->
   exists g size_sum,
     rd (atom_group atom) (grouping_method this) = Some g /\
     rd (cpu_size_sum g) (group this) = Some size_sum /\
     forall n, 0 <= n < N this ->
       rd (contents g) (size_sum + n) = Some (member n)) ->
  (grouping_method this < 0 -> forall n, 0 <= n < N this -> member n = n) ->
  (forall n, 0 <= n < N this ->
     0 <= member n < Z.of_nat (length (atom_vx atom)) /\
     0 <= member n < Z.of_nat (length (atom_vy atom)) /\
     0 <= member n < Z.of_nat (length (atom_vz atom))) ->
  exists v,
    (if decide (grouping_method this >= 0) then
       g ← rd (atom_group atom) (grouping_method this);
       size_sum ← rd (cpu_size_sum g) (group this);
       launch ((N this - 1) `quot` BLOCK_SIZE + 1) BLOCK_SIZE
         (gpu_copy_velocity_group (N this) size_sum (contents g) off
            (atom_vx atom) (atom_vy atom) (atom_vz atom) BLOCK_SIZE)
         (vx this, vy this, vz this)
     else
       launch ((N this - 1) `quot` BLOCK_SIZE + 1) BLOCK_SIZE
         (gpu_copy_velocity (N this) off
            (atom_vx atom) (atom_vy atom) (atom_vz atom) BLOCK_SIZE)
         (vx this, vy this, vz this)) = Some v /\
    updated3 (fun j => off <= j < off + N this)
      (fun j => get (atom_vx atom) (member (j - off)),
       fun j => get (atom_vy atom) (member (j - off)),
       fun j => get (atom_vz atom) (member (j - off)))
      (vx this, vy this, vz this) v.
Proof.
  intros HN Hoff Lx Ly Lz Hgrp Hnog Hm. case_decide as Hg.
  - destruct (Hgrp Hg) as (g & size_sum & Eg & Es & Hc).
    rewrite Eg, bind_Some_eq, Es, bind_Some_eq.
    rewrite gpu_copy_velocity_group_thread.
    apply copy_launch; try done.
    intros n Hn. split; [by apply Hc | by apply Hm].
  - rewrite gpu_copy_velocity_thread.
    apply copy_launch; try done.
    intros n Hn. split; [|by apply Hm]. f_equal. symmetry. apply Hnog; lia.
Qed.

End ProcessFacts.

Section ProcessClaim.
Context {F : Type} `{AddLaws F}.

(** C1: a call of [VAC::process] at a sampled step writes the velocities
    of the selected atoms into frame [s mod Nc] of the buffer, where
    [s = step / sample_interval], and leaves the other frames alone.
    Before the window is full ([s < Nc - 1]) the bins and the count of
    time origins stay as they are.  From [s = Nc - 1] on the count grows by
    one and, for every frame [b] of the buffer, the bin of the lag
    [(s mod Nc - b) mod Nc] grows by the sum over the atoms of
    [mass * v(current) * v(b)] (the factor is 1 for the SDC); every bin is
    the lag of one frame, lag 0 that of the current frame with itself.
    Sums are those of an arithmetic without rounding. *)
Theorem process_fills_frame_and_lag_bins (step : Z) (atom : Atom F)
    (this : VAC F) (member : Z -> Z) :
  compute_dos this <> 0 \/ compute_sdc this <> 0 ->
  0 < sample_interval this -> 0 <= step ->
  (step + 1) `rem` sample_interval this = 0 ->
  0 < Nc this -> 0 <= N this ->
  Z.of_nat (length (vx this)) = N this * Nc this ->
  Z.of_nat (length (vy this)) = N this * Nc this ->
  Z.of_nat (length (vz this)) = N this * Nc this ->
  Z.of_nat (length (vac_x this)) = Nc this ->
  Z.of_nat (length (vac_y this)) = Nc this ->
  Z.of_nat (length (vac_z this)) = Nc this ->
  (compute_dos this <> 0 -> N this <= Z.of_nat (length (mass this))) ->
  (grouping_method this >= 0 ->
   exists g size_sum,
     rd (atom_group atom) (grouping_method this) = Some g /\
     rd (cpu_size_sum g) (group this) = Some size_sum /\
     forall n, 0 <= n < N this ->
       rd (contents g) (size_sum + n) = Some (member n)) ->
  (grouping_method this < 0 -> forall n, 0 <= n < N this -> member n = n) ->
  (forall n, 0 <= n < N this ->
     0 <= member n < Z.of_nat (length (atom_vx atom)) /\
     0 <= member n < Z.of_nat (length (atom_vy atom)) /\
     0 <= member n < Z.of_nat (length (atom_vz atom))) ->
  let s := step `quot` sample_interval this in
  let cs := s `mod` Nc this in
  exists this',
    process step atom this = Some this' /\
    updated3 (fun j => cs * N this <= j < cs * N this + N this)
      (fun j => get (atom_vx atom) (member (j - cs * N this)),
       fun j => get (atom_vy atom) (member (j - cs * N this)),
       fun j => get (atom_vz atom) (member (j - cs * N this)))
      (vx this, vy this, vz this) (vx this', vy this', vz this') /\
    (s < Nc this - 1 ->
       num_time_origins this' = num_time_origins this /\
       vac_x this' = vac_x this /\ vac_y this' = vac_y this /\
       vac_z this' = vac_z this) /\
    (Nc this - 1 <= s ->
       num_time_origins this' = num_time_origins this + 1 /\
       forall b, 0 <= b < Nc this ->
         let lag := (cs - b) `mod` Nc this in
         let sum v :=
           frame_product (compute_dos this) (mass this) v (N this) cs b in
         rd (vac_x this') lag
           = Some (get (vac_x this) lag +. sum (vx this')) /\
         rd (vac_y this') lag
           = Some (get (vac_y this) lag +. sum (vy this')) /\
         rd (vac_z this') lag
           = Some (get (vac_z this) lag +. sum (vz this'))).
Proof.
  intros Hreq Hsi Hstep Hrem HNc HN Lvx Lvy Lvz Lcx Lcy Lcz Lm Hgrp Hnog Hm
         s cs.
  assert (0 <= s) as Hs by (apply Z.quot_pos; lia).
  assert (0 <= cs < Nc this) as Hcs by (apply Z.mod_pos_bound; lia).
  assert (s `rem` Nc this = cs) as Erem by (apply Z.rem_mod_nonneg; lia).
  clearbody cs.
  unfold process.
  case_decide; [lia|]. case_decide; [lia|]. case_decide; [done|].
  case_decide; [lia|]. cbv zeta. fold s. rewrite Erem.
  destruct (copy_step atom this member (cs * N this))
    as ([[ax ay] az] & Ev & Uv); try done; try nia.
  rewrite Ev, bind_Some_eq.
  destruct (updated3_lengths _ _ _ _ Uv) as (Lax & Lay & Laz).
  simpl in Lax, Lay, Laz.
  destruct (decide (s >= Nc this - 1)) as [Hfull|Hfull].
  - destruct (find_vac_launch (compute_dos this) (mass this) ax ay az
                (vac_x this) (vac_y this) (vac_z this) (N this) (Nc this) cs)
      as ([[bx by_] bz] & Ec & Ux & Uy & Uz); try done; try lia.
    simpl. rewrite Ec, bind_Some_eq. eexists. split; [reflexivity|].
    simpl. split; [exact Uv|]. split; [lia|]. intros _. split; [done|].
    intros b Hb.
    rewrite <- (lag_of_mod cs (Nc this) b) by done.
    pose proof (lag_of_range cs (Nc this) b Hcs Hb) as Hr.
    destruct Ux as (_ & Hx & _), Uy as (_ & Hy & _), Uz as (_ & Hz & _).
    simpl in Hx, Hy, Hz.
    rewrite (Hx _ Hr), (Hy _ Hr), (Hz _ Hr).
    by rewrite lag_of_lag.
  - eexists. split; [reflexivity|]. simpl.
    split; [exact Uv|]. split; [done|]. lia.
Qed.

End ProcessClaim.

(** One atom, a window of two frames, no group; the second sampled step
    fills the window. *)
Definition one_atom : Atom R :=
  {| atom_N := 1; time_step := 1%R; atom_mass := [1%R];
     atom_vx := [2%R]; atom_vy := [0%R]; atom_vz := [0%R];
     atom_group := [] |}.

Definition window_of_two : VAC R :=
  {| compute_dos := 0; compute_sdc := 1; sample_interval := 1;
     grouping_method := -1; group := -1; Nc := 2; num_dos_points := -1;
     omega_max := 0%R;
     N := 1; num_time_origins := 0; dt := 1%R; dt_in_ps := 1%R;
     mass := []; vx := [0%R; 0%R]; vy := [0%R; 0%R]; vz := [0%R; 0%R];
     vac_x := [0%R; 0%R]; vac_y := [0%R; 0%R]; vac_z := [0%R; 0%R] |}.

Lemma second_sample_is_a_time_origin :
  exists this',
    process 1 one_atom window_of_two = Some this' /\
    num_time_origins this' = 1 /\
    rd (vac_x this') 0
    = Some (get [0%R; 0%R] 0
            +. frame_product 0 [] (vx this') 1 (1 `mod` 2) 1).
Proof.
  destruct (process_fills_frame_and_lag_bins 1 one_atom window_of_two
              (fun n => n))
    as (this' & E & _ & _ & Hk).
  - right. simpl. lia.
  - simpl. lia.
  - lia.
  - reflexivity.
  - simpl. lia.
  - simpl. lia.
  - reflexivity.
  - reflexivity.
  - reflexivity.
  - reflexivity.
  - reflexivity.
  - reflexivity.
  - intros Hd. simpl in Hd. lia.
  - intros Hg. simpl in Hg. lia.
  - reflexivity.
  - intros n Hn. simpl in * . change (Z.of_nat 1) with 1. lia.
  - exists this'. split; [exact E|].
    destruct (Hk ltac:(vm_compute; discriminate)) as (Hn & Hb).
    split; [exact Hn|]. exact (proj1 (Hb 1 ltac:(simpl; lia))).
Defined.

(** ** What [VAC::preprocess] sets up *)

Section PreprocessSetup.
Context {F : Type} `{Arith F}.
Variables (PI TIME_UNIT_CONVERSION : F) (garbage : Z -> F).

(** The launch of [gpu_initialize_vac] clears the three arrays. *)
Lemma initialize_vac_launch n (gx gy gz : list F) :
  0 <= n ->
  Z.of_nat (length gx) = n -> Z.of_nat (length gy) = n ->
  Z.of_nat (length gz) = n ->
  launch ((n - 1) `quot` BLOCK_SIZE + 1) BLOCK_SIZE
    (gpu_initialize_vac n BLOCK_SIZE) (gx, gy, gz)
  = Some (zeros n, zeros n, zeros n).
Proof.
  intros Hn Lx Ly Lz.
  destruct (rounds_cover n BLOCK_SIZE Hn ltac:(done)) as [Hg Hcover].
  set (Z0 := (fun _ : Z => ZERO, fun _ : Z => ZERO, fun _ : Z => ZERO)
             : (Z -> F) * (Z -> F) * (Z -> F)).
  destruct (launch_inv
    (fun g s => updated3 (fun j => 0 <= j < Z.min g n) Z0 (gx, gy, gz) s)
    ((n - 1) `quot` BLOCK_SIZE + 1) BLOCK_SIZE
    (gpu_initialize_vac n BLOCK_SIZE) (gx, gy, gz))
    as ([[bx by_] bz] & E & Ux & Uy & Uz); [done | done | | |].
  - eapply updated3_ext; [|apply updated3_none]. intros j. cbv beta. lia.
  - intros bid tid [[bx by_] bz] Hbid Htid (Ux & Uy & Uz).
    simpl in Ux, Uy, Uz. unfold gpu_initialize_vac. cbv zeta.
    replace (tid + bid * BLOCK_SIZE) with (bid * BLOCK_SIZE + tid) by lia.
    set (g := bid * BLOCK_SIZE + tid) in * .
    assert (0 <= g) by (unfold g, BLOCK_SIZE in * ; lia).
    case_decide as Hg'.
    + destruct (updated_wr _ _ _ _ g ZERO Ux) as (cx & -> & Ux'); [lia|done|].
      destruct (updated_wr _ _ _ _ g ZERO Uy) as (cy & -> & Uy'); [lia|done|].
      destruct (updated_wr _ _ _ _ g ZERO Uz) as (cz & -> & Uz'); [lia|done|].
      simpl. eexists. split; [reflexivity|].
      split; [|split]; simpl; (eapply updated_ext; [|eassumption]);
        intros j; cbv beta; lia.
    + eexists. split; [reflexivity|].
      split; [|split]; simpl; (eapply updated_ext; [|eassumption]);
        intros j; cbv beta; lia.
  - rewrite E. simpl in Ux, Uy, Uz.
    assert (forall a b : list F, Z.of_nat (length a) = n ->
      updated (fun j => 0 <= j < Z.min (((n - 1) `quot` BLOCK_SIZE + 1)
                                          * BLOCK_SIZE) n)
        (fun _ => ZERO) a b -> b = zeros n) as Hfull.
    { intros a b La U. apply (updated_full _ a b n La).
      eapply updated_ext; [|exact U]. intros j. cbv beta.
      rewrite Z.min_r by done. done. }
    by rewrite (Hfull _ _ Lx Ux), (Hfull _ _ Ly Uy), (Hfull _ _ Lz Uz).
Qed.

(** The number of atoms [VAC::preprocess] selects. *)
Definition selected_atoms (this : VAC F) (atom : Atom F) : option Z :=
  if decide (-1 = grouping_method this) then Some (atom_N atom)
  else g ← rd (atom_group atom) (grouping_method this);
       rd (cpu_size g) (group this).

Lemma cudaMalloc_Some n :
  0 <= n ->
  cudaMalloc garbage n = Some (garbage <$> seqZ 0 n) /\
  Z.of_nat (length (garbage <$> seqZ 0 n)) = n.
Proof.
  intros Hn. unfold cudaMalloc. case_decide; [|lia]. split; [done|].
  rewrite length_fmap, length_seqZ. lia.
Qed.

Lemma cudaMallocManaged_Some n :
  0 < n ->
  cudaMallocManaged garbage n = Some (garbage <$> seqZ 0 n) /\
  Z.of_nat (length (garbage <$> seqZ 0 n)) = n.
Proof.
  intros Hn. unfold cudaMallocManaged. case_decide; [|lia]. split; [done|].
  rewrite length_fmap, length_seqZ. lia.
Qed.

(** The common part of [VAC::preprocess]: the allocations and the clearing
    of the VAC. *)
Lemma preprocess_prefix (this : VAC F) (atom : Atom F) (N_ : Z) :
  compute_dos this <> compute_sdc this ->
  selected_atoms this atom = Some N_ ->
  0 <= N_ -> 0 < Nc this ->
  preprocess PI TIME_UNIT_CONVERSION garbage this atom
  = let dt_ := time_step atom *. of_int (sample_interval this) in
    let dt_in_ps_ := dt_ *. TIME_UNIT_CONVERSION /. of_int 1000 in
    let buffer := garbage <$> seqZ 0 (N_ * Nc this) in
    let finish (num_dos_points_ : Z) (mass_ : list F) : outcome (VAC F) :=
      Done {| compute_dos := compute_dos this; compute_sdc := compute_sdc this;
              sample_interval := sample_interval this;
              grouping_method := grouping_method this; group := group this;
              Nc := Nc this; num_dos_points := num_dos_points_;
              omega_max := omega_max this;
              N := N_; num_time_origins := 0;
              dt := dt_; dt_in_ps := dt_in_ps_;
              mass := mass_; vx := buffer; vy := buffer; vz := buffer;
              vac_x := zeros (Nc this); vac_y := zeros (Nc this);
              vac_z := zeros (Nc this) |} in
    if decide (compute_dos this <> 0) then
      let num_dos_points_ :=
        if decide (num_dos_points this = -1) then Nc this
        else num_dos_points this in
      let nu_max :=
        of_int 1000 /. (time_step atom *. of_int (sample_interval this)) in
      if flt nu_max (omega_max this /. PI) then InputError nyquist_message else
      checked (cudaMalloc garbage N_) (fun mass_ =>
      if decide (grouping_method this >= 0) then
        checked (g ← rd (atom_group atom) (grouping_method this);
                 offset ← rd (cpu_size_sum g) (group this);
                 launch ((N_ - 1) `quot` BLOCK_SIZE + 1) BLOCK_SIZE
                   (gpu_copy_mass N_ offset (contents g) (atom_mass atom)
                      BLOCK_SIZE) mass_)
          (finish num_dos_points_)
      else
        checked (cudaMemcpy mass_ (atom_mass atom) N_) (finish num_dos_points_))
    else finish (num_dos_points this) (mass this).
Proof.
  intros Hreq Hsel HN HNc. unfold preprocess.
  case_decide; [lia|]. case_decide; [done|].
  fold (selected_atoms this atom). rewrite Hsel. simpl.
  destruct (cudaMalloc_Some (N_ * Nc this)) as [-> _]; [nia|]. simpl.
  destruct (cudaMallocManaged_Some (Nc this) HNc) as [-> Lg]. simpl.
  rewrite initialize_vac_launch by (done || lia). simpl. reflexivity.
Qed.

End PreprocessSetup.

Section PreprocessClaims.
Context {F : Type} `{Arith F}.
Variables (PI TIME_UNIT_CONVERSION : F) (garbage : Z -> F).

(** [VAC::preprocess] for the SDC ([compute_sdc] alone), with [N] atoms
    selected (all of them, or the size of the group) and a window of
    [Nc > 0] frames.  It returns with what [VAC::process] relies on: no
    time origin counted, the sampling interval [dt] and its value in ps,
    frame buffers of [N * Nc] entries each, and a VAC of [Nc] zeros per
    axis; the request itself is unchanged. *)
Theorem preprocess_sets_up_the_window (this : VAC F) (atom : Atom F) (N_ : Z) :
  compute_dos this = 0 -> compute_sdc this <> 0 ->
  selected_atoms this atom = Some N_ ->
  0 <= N_ -> 0 < Nc this ->
  exists this',
    preprocess PI TIME_UNIT_CONVERSION garbage this atom = Done this' /\
    N this' = N_ /\ num_time_origins this' = 0 /\
    dt this' = time_step atom *. of_int (sample_interval this) /\
    dt_in_ps this' = dt this' *. TIME_UNIT_CONVERSION /. of_int 1000 /\
    Z.of_nat (length (vx this')) = N_ * Nc this /\
    Z.of_nat (length (vy this')) = N_ * Nc this /\
    Z.of_nat (length (vz this')) = N_ * Nc this /\
    vac_x this' = zeros (Nc this) /\ vac_y this' = zeros (Nc this) /\
    vac_z this' = zeros (Nc this) /\
    compute_dos this' = 0 /\ compute_sdc this' = compute_sdc this /\
    sample_interval this' = sample_interval this /\
    grouping_method this' = grouping_method this /\
    group this' = group this /\ Nc this' = Nc this.
Proof.
  intros Hd Hs Hsel HN HNc.
  rewrite (preprocess_prefix PI TIME_UNIT_CONVERSION garbage this atom N_)
    by (done || lia).
  cbv zeta. case_decide; [done|].
  eexists. split; [reflexivity|]. simpl.
  assert (Z.of_nat (length (garbage <$> seqZ 0 (N_ * Nc this)))
          = N_ * Nc this) as L by (rewrite length_fmap, length_seqZ; nia).
  repeat split; done.
Qed.

(** The Nyquist test of [VAC::preprocess] for the DOS ([compute_dos]
    alone), with [N] atoms selected and a window of [Nc > 0] frames: the
    error "VAC sampling rate < Nyquist frequency." is raised exactly when
    [1000 / (time_step * sample_interval) < omega_max / PI].  Otherwise,
    and without a group, the masses of the first [N] atoms are copied,
    [num_dos_points] defaults to [Nc] when it was -1, and the window is
    set up as for the SDC. *)
Theorem nyquist_test_of_preprocess (this : VAC F) (atom : Atom F) (N_ : Z) :
  compute_dos this <> 0 -> compute_sdc this = 0 ->
  selected_atoms this atom = Some N_ ->
  0 <= N_ -> 0 < Nc this ->
  let nu_max :=
    of_int 1000 /. (time_step atom *. of_int (sample_interval this)) in
  (preprocess PI TIME_UNIT_CONVERSION garbage this atom
     = InputError nyquist_message
   <-> flt nu_max (omega_max this /. PI) = true) /\
  (flt nu_max (omega_max this /. PI) = false ->
   grouping_method this < 0 -> N_ <= Z.of_nat (length (atom_mass atom)) ->
   exists this',
     preprocess PI TIME_UNIT_CONVERSION garbage this atom = Done this' /\
     N this' = N_ /\ num_time_origins this' = 0 /\
     mass this' = take (Z.to_nat N_) (atom_mass atom) /\
     num_dos_points this'
     = (if decide (num_dos_points this = -1) then Nc this
        else num_dos_points this) /\
     Z.of_nat (length (vx this')) = N_ * Nc this /\
     vac_x this' = zeros (Nc this) /\ vac_y this' = zeros (Nc this) /\
     vac_z this' = zeros (Nc this)).
Proof.
  intros Hd Hs Hsel HN HNc nu_max.
  rewrite (preprocess_prefix PI TIME_UNIT_CONVERSION garbage this atom N_)
    by (done || lia).
  cbv zeta. fold nu_max. case_decide; [|done].
  destruct (cudaMalloc_Some garbage N_ HN) as [-> Lm].
  destruct (flt nu_max (omega_max this /. PI)) eqn:Ef.
  - split; [done|]. discriminate.
  - split.
    + split; [|discriminate]. simpl. intros E.
      case_decide; apply checked_error in E as (? & _ & E); discriminate E.
    + intros _ Hg Lmass. simpl. case_decide; [lia|].
      unfold cudaMemcpy. case_decide; [|lia]. simpl.
      eexists. split; [reflexivity|]. simpl.
      assert (Z.of_nat (length (garbage <$> seqZ 0 (N_ * Nc this)))
              = N_ * Nc this) as L by (rewrite length_fmap, length_seqZ; nia).
      repeat split; try done.
      rewrite drop_ge; [apply app_nil_r|]. lia.
Qed.

(** A window without frames ([Nc <= 0]) is not an input error: the
    allocations or the clearing launch fail, whatever the rest of the
    request. *)
Theorem empty_window_is_a_fault (this : VAC F) (atom : Atom F) (N_ : Z) :
  compute_dos this <> compute_sdc this ->
  selected_atoms this atom = Some N_ ->
  0 <= N_ -> Nc this <= 0 ->
  preprocess PI TIME_UNIT_CONVERSION garbage this atom = Fault.
Proof.
  intros Hreq Hsel HN HNc. unfold preprocess.
  case_decide; [lia|]. case_decide; [done|].
  fold (selected_atoms this atom). rewrite Hsel. simpl.
  unfold cudaMalloc. case_decide; [|done]. simpl.
  unfold cudaMallocManaged. case_decide; [lia|done].
Qed.

End PreprocessClaims.

Lemma four_atoms_window_of_three :
  exists this',
    preprocess PI64 TUC64 no_garbage (requested 0 1 3) four_atoms = Done this' /\
    N this' = 4 /\ num_time_origins this' = 0 /\
    Z.of_nat (length (vx this')) = 4 * 3 /\
    vac_x this' = zeros 3 /\ vac_y this' = zeros 3 /\ vac_z this' = zeros 3.
Proof.
  destruct (preprocess_sets_up_the_window PI64 TUC64 no_garbage
              (requested 0 1 3) four_atoms 4)
    as (this' & E & HN & Ho & _ & _ & Lx & _ & _ & Cx & Cy & Cz & _).
  - reflexivity.
  - simpl. lia.
  - reflexivity.
  - lia.
  - simpl. lia.
  - exists this'. repeat split; done.
Defined.

Lemma four_atoms_nyquist_test :
  let nu_max := of_int 1000 /. (1%float *. of_int 1) in
  (preprocess PI64 TUC64 no_garbage (requested 1 0 3) four_atoms
     = InputError nyquist_message
   <-> flt nu_max (400%float /. PI64) = true).
Proof.
  exact (proj1 (nyquist_test_of_preprocess PI64 TUC64 no_garbage
                  (requested 1 0 3) four_atoms 4
                  ltac:(simpl; lia) eq_refl eq_refl ltac:(lia)
                  ltac:(simpl; lia))).
Defined.

Lemma window_of_no_frames_is_a_fault :
  preprocess PI64 TUC64 no_garbage (requested 0 1 0) four_atoms = Fault.
Proof.
  apply (empty_window_is_a_fault PI64 TUC64 no_garbage (requested 0 1 0)
           four_atoms 4).
  - simpl. lia.
  - reflexivity.
  - lia.
  - simpl. lia.
Defined.

(** ** The density of states *)

Section DosDefinitions.
Context {F : Type} `{Arith F}.
Variables (PI TIME_UNIT_CONVERSION : F) (garbage : Z -> F).

(** [cos] of the C math library. *)
Variable cos : F -> F.

(** [perform_dft]; the state is the three [vac] arrays, which are
    windowed in place, and the three [dos] arrays. *)
Definition perform_dft (N_ Nc_ num_dos_points_ : Z)
    (delta_t omega_0 d_omega : F)
    (st : (list F * list F * list F) * (list F * list F * list F))
    : option ((list F * list F * list F) * (list F * list F * list F)) :=
  let '(vac, dos) := st in
  (* Apply Hann window and normalize by the correct factor *)
  vac ← for_range 0 Nc_ (fun nc '(vac_x_, vac_y_, vac_z_) =>
    let hann_window := (cos ((PI *. of_int nc) /. of_int Nc_) +. ONE) *. HALF in
    let multiply_factor := TWO *. hann_window in
    let multiply_factor :=
      if decide (nc = 0) then ONE *. hann_window else multiply_factor in
    vac_x_ ← modify vac_x_ nc (fun v => v *. multiply_factor);
    vac_y_ ← modify vac_y_ nc (fun v => v *. multiply_factor);
    vac_z_ ← modify vac_z_ nc (fun v => v *. multiply_factor);
    Some (vac_x_, vac_y_, vac_z_)) vac;
  (* Calculate DOS by discrete Fourier transform *)
  dos ← for_range 0 num_dos_points_ (fun nw dos =>
    let omega := omega_0 +. of_int nw *. d_omega in
    '(dos_x, dos_y, dos_z) ← for_range 0 Nc_ (fun nc '(dos_x, dos_y, dos_z) =>
      let cos_factor := cos (omega *. of_int nc *. delta_t) in
      ux ← rd vac.1.1 nc;
      dos_x ← modify dos_x nw (fun d => d +. ux *. cos_factor);
      uy ← rd vac.1.2 nc;
      dos_y ← modify dos_y nw (fun d => d +. uy *. cos_factor);
      uz ← rd vac.2 nc;
      dos_z ← modify dos_z nw (fun d => d +. uz *. cos_factor);
      Some (dos_x, dos_y, dos_z)) dos;
    dos_x ← modify dos_x nw (fun d => d *. (delta_t *. TWO *. of_int N_));
    dos_y ← modify dos_y nw (fun d => d *. (delta_t *. TWO *. of_int N_));
    dos_z ← modify dos_z nw (fun d => d *. (delta_t *. TWO *. of_int N_));
    Some (dos_x, dos_y, dos_z)) dos;
  Some (vac, dos).

(** A line of [dos.out] or [mvac.out]: the abscissa and the values of the
    three axes, as the numbers handed to [fprintf]. *)
Definition axes_line : Type := F * F * F * F.

(** [VAC::find_dos]: the lines appended to [dos.out]. *)
Definition find_dos (this : VAC F) : option (list axes_line) :=
  let d_omega := omega_max this /. of_int (num_dos_points this) in
  let omega_0 := d_omega in
  (* initialize DOS data *)
  dos_x ← MY_MALLOC garbage (num_dos_points this);
  dos_y ← MY_MALLOC garbage (num_dos_points this);
  dos_z ← MY_MALLOC garbage (num_dos_points this);
  dos ← for_range 0 (num_dos_points this) (fun nw '(dos_x, dos_y, dos_z) =>
    dos_z ← wr dos_z nw ZERO;
    dos_y ← wr dos_y nw ZERO;
    dos_x ← wr dos_x nw ZERO;
    Some (dos_x, dos_y, dos_z)) (dos_x, dos_y, dos_z);
  (* perform DFT to get DOS from normalized MVAC *)
  '(_, (dos_x, dos_y, dos_z)) ←
    perform_dft (N this) (Nc this) (num_dos_points this) (dt_in_ps this)
      omega_0 d_omega ((vac_x this, vac_y this, vac_z this), dos);
  (* output DOS *)
  for_range 0 (num_dos_points this) (fun nw lines =>
    let omega := omega_0 +. d_omega *. of_int nw in
    dx ← rd dos_x nw; dy ← rd dos_y nw; dz ← rd dos_z nw;
    Some (lines ++ [(omega, dx, dy, dz)])) [].

(** What [VAC::postprocess] appends to [mvac.out], [dos.out] and
    [sdc.out]. *)
Record output := {
  mvac_out : list axes_line;
  dos_out : list axes_line;
  sdc_out : list (sdc_line F)
}.

(** [VAC::postprocess]. *)
Definition postprocess (this : VAC F) : option output :=
  if decide (~ (compute_dos this <> 0 \/ compute_sdc this <> 0))
  then Some {| mvac_out := []; dos_out := []; sdc_out := [] |} else
  (* calculate DOS or SDC *)
  if decide (compute_dos this <> 0) then
    (* normalize to vac_x[0] = vac_y[0] = vac_z[0] = 1 *)
    vac_x_0 ← rd (vac_x this) 0;
    vac_y_0 ← rd (vac_y this) 0;
    vac_z_0 ← rd (vac_z this) 0;
    c ← for_range 0 (Nc this) (fun nc '(vac_x_, vac_y_, vac_z_) =>
      vac_x_ ← modify vac_x_ nc (fun v => v /. vac_x_0);
      vac_y_ ← modify vac_y_ nc (fun v => v /. vac_y_0);
      vac_z_ ← modify vac_z_ nc (fun v => v /. vac_z_0);
      Some (vac_x_, vac_y_, vac_z_)) (vac_x this, vac_y this, vac_z this);
    (* output normalized MVAC *)
    mvac ← for_range 0 (Nc this) (fun nc lines =>
      let t := of_int nc *. dt_in_ps this in
      cx ← rd c.1.1 nc; cy ← rd c.1.2 nc; cz ← rd c.2 nc;
      Some (lines ++ [(t, cx, cy, cz)])) [];
    (* calculate and output DOS *)
    dos ← find_dos (with_buffers this (num_time_origins this)
                      (vx this, vy this, vz this) c);
    Some {| mvac_out := mvac; dos_out := dos; sdc_out := [] |}
  else
    sdc ← postprocess_sdc TIME_UNIT_CONVERSION garbage this;
    Some {| mvac_out := []; dos_out := []; sdc_out := sdc |}.

End DosDefinitions.

Section CellFacts.
Context {A : Type}.

(** One cell modified again. *)
Lemma updated_cell_modify (d0 d : list A) i (f : A -> A) (x : A) :
  0 <= i < Z.of_nat (length d0) ->
  updated (fun j => j = i) (fun _ => x) d0 d ->
  exists d', modify d i f = Some d' /\
             updated (fun j => j = i) (fun _ => f x) d0 d'.
Proof.
  intros Hi (L & Hin & Hout). unfold modify. rewrite (Hin i eq_refl).
  rewrite bind_Some_eq.
  assert (wr d i (f x) = Some (<[Z.to_nat i := f x]> d)) as E
    by (apply wr_Some; lia).
  eexists. split; [exact E|]. split; [|split].
  - by rewrite (wr_length _ _ _ _ E).
  - intros j ->. by apply (rd_wr_eq _ _ _ _ E).
  - intros j Hj. rewrite (rd_wr_ne _ _ _ _ _ E) by done. by apply Hout.
Qed.

Lemma updated_cell_start (d : list A) i (x : A) :
  rd d i = Some x -> updated (fun j => j = i) (fun _ => x) d d.
Proof. intros E. split; [done|]. split; [by intros j -> | done]. Qed.

(** A prefix of final values extended by the next cell. *)
Lemma updated_next (v : Z -> A) (d0 d d' : list A) (k : Z) (x : A) :
  updated (fun j => 0 <= j < k) v d0 d ->
  updated (fun j => j = k) (fun _ => x) d d' ->
  0 <= k -> x = v k ->
  updated (fun j => 0 <= j < k + 1) v d0 d'.
Proof.
  intros (L & Hin & Hout) (L' & Hin' & Hout') Hk ->. split; [congruence|]. split.
  - intros j Hj. destruct (decide (j = k)) as [->|Hne]; [by apply Hin'|].
    rewrite Hout' by done. apply Hin. lia.
  - intros j Hj. rewrite Hout' by lia. apply Hout. lia.
Qed.

(** A loop that prints one line per index from three arrays. *)
Lemma print_loop {L : Type} (h : Z -> A -> A -> A -> L) (x y z : list A)
    (gx gy gz : Z -> A) n :
  0 <= n ->
  (forall i, 0 <= i < n ->
     rd x i = Some (gx i) /\ rd y i = Some (gy i) /\ rd z i = Some (gz i)) ->
  for_range 0 n (fun i lines =>
    a ← rd x i; b ← rd y i; c ← rd z i;
    Some (lines ++ [h i a b c])) []
  = Some ((fun i => h i (gx i) (gy i) (gz i)) <$> seqZ 0 n).
Proof.
  intros Hn Hr.
  destruct (for_range_inv (fun k (lines : list L) =>
    lines = (fun i => h i (gx i) (gy i) (gz i)) <$> seqZ 0 k) 0 n
    (fun i lines =>
       a ← rd x i; b ← rd y i; c ← rd z i;
       Some (lines ++ [h i a b c])) []) as (lines & E & ->); [lia|done| |done].
  intros k lines Hk ->. destruct (Hr k Hk) as (-> & -> & ->).
  rewrite !bind_Some_eq. eexists. split; [reflexivity|].
  rewrite (seqZ_app 0 k 1) by lia. by rewrite fmap_app.
Qed.

End CellFacts.

Section DosFacts.
Context {F : Type} `{Arith F}.
Variables (PI : F) (garbage : Z -> F) (cos : F -> F).

(** The factor of lag [nc]: the Hann window, doubled except at lag 0. *)
Definition hann_factor (Nc_ nc : Z) : F :=
  let hann_window := (cos ((PI *. of_int nc) /. of_int Nc_) +. ONE) *. HALF in
  if decide (nc = 0) then ONE *. hann_window else TWO *. hann_window.

(** The cosine sum of [perform_dft] over the lags below [k], added from
    the left to [d0]. *)
Definition cosine_sum (delta_t omega : F) (w : Z -> F) (d0 : F) (k : Z) : F :=
  foldl (fun acc nc => acc +. w nc *. cos (omega *. of_int nc *. delta_t))
        d0 (seqZ 0 k).

Lemma cosine_sum_succ delta_t omega w d0 k :
  0 <= k ->
  cosine_sum delta_t omega w d0 (k + 1)
  = cosine_sum delta_t omega w d0 k
    +. w k *. cos (omega *. of_int k *. delta_t).
Proof.
  intros Hk. unfold cosine_sum. rewrite seqZ_app by lia. rewrite foldl_app.
  simpl. by rewrite Z.add_0_l.
Qed.

(** The value [perform_dft] leaves in [dos[nw]] for the windowed values
    [w], when the cell held zero. *)
Definition dft (N_ Nc_ : Z) (delta_t omega : F) (w : Z -> F) : F :=
  sumZ (fun nc => w nc *. cos (omega *. of_int nc *. delta_t)) Nc_
  *. (delta_t *. TWO *. of_int N_).

(** Iteration [nw] of the outer loop of [perform_dft]. *)
Lemma dft_row (N_ Nc_ nw : Z) (delta_t omega : F)
    (w d : list F * list F * list F) :
  0 <= Nc_ -> sized3 Nc_ w ->
  0 <= nw < Z.of_nat (length d.1.1) -> 0 <= nw < Z.of_nat (length d.1.2) ->
  0 <= nw < Z.of_nat (length d.2) ->
  let fin (a b : list F) :=
    cosine_sum delta_t omega (get a) (get b nw) Nc_
    *. (delta_t *. TWO *. of_int N_) in
  exists d',
    ('(dos_x, dos_y, dos_z) ← for_range 0 Nc_ (fun nc '(dos_x, dos_y, dos_z) =>
        let cos_factor := cos (omega *. of_int nc *. delta_t) in
        ux ← rd w.1.1 nc;
        dos_x ← modify dos_x nw (fun d => d +. ux *. cos_factor);
        uy ← rd w.1.2 nc;
        dos_y ← modify dos_y nw (fun d => d +. uy *. cos_factor);
        uz ← rd w.2 nc;
        dos_z ← modify dos_z nw (fun d => d +. uz *. cos_factor);
        Some (dos_x, dos_y, dos_z)) d;
      dos_x ← modify dos_x nw (fun d => d *. (delta_t *. TWO *. of_int N_));
      dos_y ← modify dos_y nw (fun d => d *. (delta_t *. TWO *. of_int N_));
      dos_z ← modify dos_z nw (fun d => d *. (delta_t *. TWO *. of_int N_));
      Some (dos_x, dos_y, dos_z)) = Some d' /\
    updated (fun j => j = nw) (fun _ => fin w.1.1 d.1.1) d.1.1 d'.1.1 /\
    updated (fun j => j = nw) (fun _ => fin w.1.2 d.1.2) d.1.2 d'.1.2 /\
    updated (fun j => j = nw) (fun _ => fin w.2 d.2) d.2 d'.2.
Proof.
  intros HNc (Lwx & Lwy & Lwz) Hx Hy Hz fin.
  destruct w as [[wx wy] wz], d as [[dx dy] dz]. simpl in * .
  destruct (for_range_inv (fun k (s : list F * list F * list F) =>
    updated (fun j => j = nw)
      (fun _ => cosine_sum delta_t omega (get wx) (get dx nw) k) dx s.1.1 /\
    updated (fun j => j = nw)
      (fun _ => cosine_sum delta_t omega (get wy) (get dy nw) k) dy s.1.2 /\
    updated (fun j => j = nw)
      (fun _ => cosine_sum delta_t omega (get wz) (get dz nw) k) dz s.2) 0 Nc_
    (fun nc '(dos_x, dos_y, dos_z) =>
        let cos_factor := cos (omega *. of_int nc *. delta_t) in
        ux ← rd wx nc;
        dos_x ← modify dos_x nw (fun d => d +. ux *. cos_factor);
        uy ← rd wy nc;
        dos_y ← modify dos_y nw (fun d => d +. uy *. cos_factor);
        uz ← rd wz nc;
        dos_z ← modify dos_z nw (fun d => d +. uz *. cos_factor);
        Some (dos_x, dos_y, dos_z)) (dx, dy, dz))
    as ([[ex ey] ez] & E & Ux & Uy & Uz); [lia | | |].
  - simpl. repeat split; try done; try (by intros j ->; apply rd_get).
  - intros k [[ex ey] ez] Hk (Ux & Uy & Uz). simpl in Ux, Uy, Uz.
    cbv zeta.
    rewrite (rd_get wx) by lia. rewrite bind_Some_eq.
    destruct (updated_cell_modify dx ex nw
      (fun d => d +. get wx k *. cos (omega *. of_int k *. delta_t)) _ Hx Ux)
      as (ex' & -> & Ux'). rewrite bind_Some_eq.
    rewrite (rd_get wy) by lia. rewrite bind_Some_eq.
    destruct (updated_cell_modify dy ey nw
      (fun d => d +. get wy k *. cos (omega *. of_int k *. delta_t)) _ Hy Uy)
      as (ey' & -> & Uy'). rewrite bind_Some_eq.
    rewrite (rd_get wz) by lia. rewrite bind_Some_eq.
    destruct (updated_cell_modify dz ez nw
      (fun d => d +. get wz k *. cos (omega *. of_int k *. delta_t)) _ Hz Uz)
      as (ez' & -> & Uz'). rewrite bind_Some_eq.
    eexists. split; [reflexivity|]. simpl.
    rewrite !cosine_sum_succ by lia. done.
  - cbv zeta in E. rewrite E, bind_Some_eq. simpl in Ux, Uy, Uz.
    destruct (updated_cell_modify dx ex nw
      (fun d => d *. (delta_t *. TWO *. of_int N_)) _ Hx Ux)
      as (ex' & -> & Ux'). rewrite bind_Some_eq.
    destruct (updated_cell_modify dy ey nw
      (fun d => d *. (delta_t *. TWO *. of_int N_)) _ Hy Uy)
      as (ey' & -> & Uy'). rewrite bind_Some_eq.
    destruct (updated_cell_modify dz ez nw
      (fun d => d *. (delta_t *. TWO *. of_int N_)) _ Hz Uz)
      as (ez' & -> & Uz'). rewrite bind_Some_eq.
    eexists. split; [reflexivity|]. done.
Qed.

Lemma cosine_sum_ext delta_t omega (w w' : Z -> F) d0 k :
  0 <= k -> (forall nc, 0 <= nc < k -> w nc = w' nc) ->
  cosine_sum delta_t omega w d0 k = cosine_sum delta_t omega w' d0 k.
Proof.
  intros Hk. pattern k. apply sumZ_ind; [done|done|].
  intros j Hj IH E. rewrite !cosine_sum_succ by lia.
  rewrite IH by (intros; apply E; lia). by rewrite E by lia.
Qed.

Lemma dft_ext N_ Nc_ delta_t omega (w w' : Z -> F) :
  0 <= Nc_ -> (forall nc, 0 <= nc < Nc_ -> w nc = w' nc) ->
  dft N_ Nc_ delta_t omega w = dft N_ Nc_ delta_t omega w'.
Proof.
  intros Hn E. unfold dft. f_equal.
  exact (cosine_sum_ext delta_t omega w w' ZERO Nc_ Hn E).
Qed.

(** [perform_dft] on [dos] arrays that hold zeros: the [vac] arrays are
    windowed and [dos[nw]] is the cosine sum at [omega_0 + nw d_omega]. *)
Lemma perform_dft_spec (N_ Nc_ P : Z) (delta_t omega_0 d_omega : F)
    (c : list F * list F * list F) :
  0 <= Nc_ -> 0 <= P -> sized3 Nc_ c ->
  let w (a : list F) nc := get a nc *. hann_factor Nc_ nc in
  let D (a : list F) nw :=
    dft N_ Nc_ delta_t (omega_0 +. of_int nw *. d_omega) (w a) in
  exists c',
    perform_dft PI cos N_ Nc_ P delta_t omega_0 d_omega
      (c, (zeros P, zeros P, zeros P))
    = Some (c', (D c.1.1 <$> seqZ 0 P, D c.1.2 <$> seqZ 0 P,
                 D c.2 <$> seqZ 0 P)) /\
    rewritten Nc_ (w c.1.1) (w c.1.2) (w c.2) c c'.
Proof.
  intros HNc HP Sc w D. unfold perform_dft.
  destruct (modify_loop (fun nc v => v *. hann_factor Nc_ nc)
              (fun nc v => v *. hann_factor Nc_ nc)
              (fun nc v => v *. hann_factor Nc_ nc) c Nc_)
    as (c' & Ec & Uc); [done..|].
  assert (for_range 0 Nc_ (fun nc '(vac_x_, vac_y_, vac_z_) =>
      let hann_window :=
        (cos ((PI *. of_int nc) /. of_int Nc_) +. ONE) *. HALF in
      let multiply_factor := TWO *. hann_window in
      let multiply_factor :=
        if decide (nc = 0) then ONE *. hann_window else multiply_factor in
      vac_x_ ← modify vac_x_ nc (fun v => v *. multiply_factor);
      vac_y_ ← modify vac_y_ nc (fun v => v *. multiply_factor);
      vac_z_ ← modify vac_z_ nc (fun v => v *. multiply_factor);
      Some (vac_x_, vac_y_, vac_z_)) c = Some c') as Ec'.
  { rewrite <- Ec. apply for_range_ext. intros k [[ax ay] az] Hk.
    unfold hann_factor. cbv zeta. by case_decide. }
  cbv zeta in Ec'. rewrite Ec', bind_Some_eq. clear Ec Ec'.
  assert (sized3 Nc_ c') as Sc' by (by eapply rewritten_sized).
  assert (forall (a a' : list F) nw,
    (forall j, 0 <= j < Nc_ -> get a' j = w a j) ->
    cosine_sum delta_t (omega_0 +. of_int nw *. d_omega) (get a') ZERO Nc_
    *. (delta_t *. TWO *. of_int N_) = D a nw) as HD.
  { intros a a' nw Ea. unfold D, dft. f_equal.
    rewrite (cosine_sum_ext _ _ (get a') (w a)) by done. reflexivity. }
  destruct (for_range_inv (fun nw (d : list F * list F * list F) =>
    updated (fun j => 0 <= j < nw) (D c.1.1) (zeros P) d.1.1 /\
    updated (fun j => 0 <= j < nw) (D c.1.2) (zeros P) d.1.2 /\
    updated (fun j => 0 <= j < nw) (D c.2) (zeros P) d.2) 0 P
    (fun nw dos =>
      let omega := omega_0 +. of_int nw *. d_omega in
      '(dos_x, dos_y, dos_z) ← for_range 0 Nc_ (fun nc '(dos_x, dos_y, dos_z) =>
        let cos_factor := cos (omega *. of_int nc *. delta_t) in
        ux ← rd c'.1.1 nc;
        dos_x ← modify dos_x nw (fun d => d +. ux *. cos_factor);
        uy ← rd c'.1.2 nc;
        dos_y ← modify dos_y nw (fun d => d +. uy *. cos_factor);
        uz ← rd c'.2 nc;
        dos_z ← modify dos_z nw (fun d => d +. uz *. cos_factor);
        Some (dos_x, dos_y, dos_z)) dos;
      dos_x ← modify dos_x nw (fun d => d *. (delta_t *. TWO *. of_int N_));
      dos_y ← modify dos_y nw (fun d => d *. (delta_t *. TWO *. of_int N_));
      dos_z ← modify dos_z nw (fun d => d *. (delta_t *. TWO *. of_int N_));
      Some (dos_x, dos_y, dos_z)) (zeros P, zeros P, zeros P))
    as ([[ex ey] ez] & E & Ux & Uy & Uz); [lia | | |].
  - simpl. repeat split; try done; intros j Hj; lia.
  - intros nw [[dx dy] dz] Hnw (Ux & Uy & Uz). simpl in Ux, Uy, Uz.
    assert (Z.of_nat (length dx) = P /\ Z.of_nat (length dy) = P /\
            Z.of_nat (length dz) = P) as (Lx & Ly & Lz).
    { destruct Ux as (-> & _), Uy as (-> & _), Uz as (-> & _).
      by rewrite !length_zeros. }
    destruct (dft_row N_ Nc_ nw delta_t (omega_0 +. of_int nw *. d_omega)
                c' (dx, dy, dz)) as ([[fx fy] fz] & Er & Rx & Ry & Rz);
      [done | done | simpl; lia.. |].
    cbv zeta in Er |- * . rewrite Er. simpl in Rx, Ry, Rz.
    eexists. split; [reflexivity|].
    assert (forall (v0 : Z -> F) (d : list F),
      updated (fun j => 0 <= j < nw) v0 (zeros P) d -> get d nw = ZERO) as Hz.
    { intros v0 d (_ & _ & Ho). unfold get. rewrite Ho by lia.
      fold (get (zeros P) nw). apply get_zeros. }
    simpl. split; [|split].
    + eapply updated_next; [exact Ux | exact Rx | lia |].
      rewrite (Hz _ _ Ux). apply HD. intros j Hj.
      by destruct (rewritten_get _ _ _ _ _ _ j Uc Hj) as (-> & _).
    + eapply updated_next; [exact Uy | exact Ry | lia |].
      rewrite (Hz _ _ Uy). apply HD. intros j Hj.
      by destruct (rewritten_get _ _ _ _ _ _ j Uc Hj) as (_ & -> & _).
    + eapply updated_next; [exact Uz | exact Rz | lia |].
      rewrite (Hz _ _ Uz). apply HD. intros j Hj.
      by destruct (rewritten_get _ _ _ _ _ _ j Uc Hj) as (_ & _ & ->).
  - exists c'. split; [|exact Uc].
    cbv zeta in E. rewrite E, bind_Some_eq. simpl in Ux, Uy, Uz.
    rewrite (updated_full _ _ _ P (length_zeros P HP) Ux),
      (updated_full _ _ _ P (length_zeros P HP) Uy),
      (updated_full _ _ _ P (length_zeros P HP) Uz). done.
Qed.

End DosFacts.

Section DosSpec.
Context {F : Type} `{Arith F}.
Variables (PI TIME_UNIT_CONVERSION : F) (garbage : Z -> F) (cos : F -> F).

(** Line [nw] of [dos.out] for the VAC [c]. *)
Definition dos_line (this : VAC F) (c : (Z -> F) * (Z -> F) * (Z -> F))
    (nw : Z) : axes_line :=
  let d_omega := omega_max this /. of_int (num_dos_points this) in
  let omega_0 := d_omega in
  let D (a : Z -> F) :=
    dft cos (N this) (Nc this) (dt_in_ps this)
      (omega_0 +. of_int nw *. d_omega)
      (fun nc => a nc *. hann_factor PI cos (Nc this) nc) in
  (omega_0 +. d_omega *. of_int nw, D c.1.1, D c.1.2, D c.2).

Lemma rd_fmap_seqZ (h : Z -> F) n j :
  0 <= j < n -> rd (h <$> seqZ 0 n) j = Some (h j).
Proof.
  intros Hj. rewrite rd_get by (rewrite length_fmap, length_seqZ; lia).
  by rewrite get_fmap_seqZ.
Qed.

Lemma find_dos_spec (this : VAC F) :
  0 <= Nc this -> 0 <= num_dos_points this ->
  sized3 (Nc this) (vac_x this, vac_y this, vac_z this) ->
  find_dos PI garbage cos this
  = Some (dos_line this (get (vac_x this), get (vac_y this), get (vac_z this))
          <$> seqZ 0 (num_dos_points this)).
Proof.
  intros HNc HP Sc. unfold find_dos.
  destruct (MY_MALLOC_Some garbage (num_dos_points this) HP) as [-> Lg].
  rewrite !bind_Some_eq.
  rewrite clear_loop by done. rewrite bind_Some_eq.
  destruct (perform_dft_spec PI cos (N this) (Nc this) (num_dos_points this)
              (dt_in_ps this)
              (omega_max this /. of_int (num_dos_points this))
              (omega_max this /. of_int (num_dos_points this))
              (vac_x this, vac_y this, vac_z this) HNc HP Sc) as (c' & -> & _).
  rewrite bind_Some_eq. cbv beta iota.
  erewrite (print_loop
    (fun nw dx dy dz =>
       (omega_max this /. of_int (num_dos_points this)
        +. omega_max this /. of_int (num_dos_points this) *. of_int nw,
        dx, dy, dz)) _ _ _ _ _ _ (num_dos_points this) HP).
  - reflexivity.
  - intros i Hi. rewrite !rd_fmap_seqZ by done. repeat split; reflexivity.
Qed.

(** The DOS branch of [VAC::postprocess]. *)
Lemma postprocess_dos_spec (this : VAC F) :
  compute_dos this <> 0 ->
  0 < Nc this -> 0 <= num_dos_points this ->
  sized3 (Nc this) (vac_x this, vac_y this, vac_z this) ->
  let c := (fun j => get (vac_x this) j /. get (vac_x this) 0,
            fun j => get (vac_y this) j /. get (vac_y this) 0,
            fun j => get (vac_z this) j /. get (vac_z this) 0) in
  postprocess PI TIME_UNIT_CONVERSION garbage cos this
  = Some {| mvac_out :=
              (fun nc => (of_int nc *. dt_in_ps this, c.1.1 nc, c.1.2 nc, c.2 nc))
              <$> seqZ 0 (Nc this);
            dos_out := dos_line this c <$> seqZ 0 (num_dos_points this);
            sdc_out := [] |}.
Proof.
  intros Hd HNc HP Sc c. pose proof Sc as (Lx & Ly & Lz). simpl in Lx, Ly, Lz.
  unfold postprocess.
  case_decide; [tauto|]. case_decide; [|done].
  rewrite (rd_get (vac_x this)), (rd_get (vac_y this)), (rd_get (vac_z this))
    by lia.
  rewrite !bind_Some_eq.
  destruct (modify_loop (fun _ v => v /. get (vac_x this) 0)
              (fun _ v => v /. get (vac_y this) 0)
              (fun _ v => v /. get (vac_z this) 0)
              (vac_x this, vac_y this, vac_z this) (Nc this))
    as ([[ax ay] az] & -> & Ux & Uy & Uz); [lia | done |].
  rewrite bind_Some_eq. simpl in Ux, Uy, Uz.
  apply (updated_full _ _ _ _ Lx) in Ux.
  apply (updated_full _ _ _ _ Ly) in Uy.
  apply (updated_full _ _ _ _ Lz) in Uz.
  fold (c.1.1) in Ux. fold (c.1.2) in Uy. fold (c.2) in Uz. subst ax ay az.
  cbv beta iota. simpl fst. simpl snd.
  rewrite (print_loop
    (fun nc cx cy cz => (of_int nc *. dt_in_ps this, cx, cy, cz))
    _ _ _ c.1.1 c.1.2 c.2 (Nc this) ltac:(lia))
    by (intros i Hi; by rewrite !rd_fmap_seqZ by done).
  rewrite ?bind_Some_eq.
  rewrite find_dos_spec;
    [ | simpl; lia | simpl; done
      | repeat split; simpl; rewrite length_fmap, length_seqZ; lia].
  rewrite bind_Some_eq. f_equal. f_equal.
  apply list_fmap_ext. intros i nw Hi.
  apply lookup_seqZ in Hi as [-> Hi]. rewrite Z.add_0_l.
  unfold dos_line. simpl.
  f_equal; [f_equal; [f_equal|]|]; (apply dft_ext; [lia|]);
    intros nc Hnc; by rewrite get_fmap_seqZ.
Qed.

End DosSpec.

Section DosClaims.
Context {F : Type} `{Arith F}.
Variables (PI TIME_UNIT_CONVERSION : F) (garbage : Z -> F) (cos : F -> F).

(** [VAC::find_dos] on a VAC of [Nc] lags.  Line [nw] of [dos.out] holds
    the frequency [omega_0 + d_omega nw] with
    [omega_0 = d_omega = omega_max / num_dos_points] (so the first
    frequency is [d_omega], not zero, and the last is [omega_max]) and,
    for each axis, the sum over the lags, added from the left, of
    [vac[nc] * f(nc) * cos(omega * nc * dt_in_ps)], times
    [dt_in_ps * 2 * N]; [f] is the Hann window
    [(cos(PI nc / Nc) + 1) / 2], doubled except at lag 0.  This holds for
    any arithmetic, rounding included. *)
Theorem dos_is_windowed_cosine_transform (this : VAC F) :
  0 <= Nc this -> 0 <= num_dos_points this ->
  sized3 (Nc this) (vac_x this, vac_y this, vac_z this) ->
  find_dos PI garbage cos this
  = Some (dos_line PI cos this
            (get (vac_x this), get (vac_y this), get (vac_z this))
          <$> seqZ 0 (num_dos_points this)).
Proof. apply find_dos_spec. Qed.

(** The DOS branch of [VAC::postprocess] ([compute_dos] is not zero).
    Each axis of the VAC is divided by its own value at lag 0, not by
    [N * num_time_origins] as in the SDC branch; [mvac.out] receives one
    line per lag with the time [nc * dt_in_ps] and the three quotients;
    [dos.out] receives the transform of the quotients; nothing goes to
    [sdc.out]. *)
Theorem mvac_is_normalised_by_lag_zero (this : VAC F) :
  compute_dos this <> 0 ->
  0 < Nc this -> 0 <= num_dos_points this ->
  sized3 (Nc this) (vac_x this, vac_y this, vac_z this) ->
  let c := (fun j => get (vac_x this) j /. get (vac_x this) 0,
            fun j => get (vac_y this) j /. get (vac_y this) 0,
            fun j => get (vac_z this) j /. get (vac_z this) 0) in
  postprocess PI TIME_UNIT_CONVERSION garbage cos this
  = Some {| mvac_out :=
              (fun nc => (of_int nc *. dt_in_ps this, c.1.1 nc, c.1.2 nc, c.2 nc))
              <$> seqZ 0 (Nc this);
            dos_out := dos_line PI cos this c <$> seqZ 0 (num_dos_points this);
            sdc_out := [] |}.
Proof. apply postprocess_dos_spec. Qed.

End DosClaims.

(** Over the reals, and when no axis of the VAC vanishes at lag 0, the
    first line of [mvac.out] is [0 1 1 1]. *)
Theorem mvac_starts_at_one (PI TIME_UNIT_CONVERSION : R) (garbage : Z -> R)
    (cos : R -> R) (this : VAC R) :
  compute_dos this <> 0 ->
  0 < Nc this -> 0 <= num_dos_points this ->
  sized3 (Nc this) (vac_x this, vac_y this, vac_z this) ->
  get (vac_x this) 0 <> 0%R -> get (vac_y this) 0 <> 0%R ->
  get (vac_z this) 0 <> 0%R ->
  exists out,
    postprocess PI TIME_UNIT_CONVERSION garbage cos this = Some out /\
    Z.of_nat (length (mvac_out out)) = Nc this /\
    mvac_out out !! 0%nat = Some (0%R, 1%R, 1%R, 1%R).
Proof.
  intros Hd HNc HP Sc Hx Hy Hz.
  rewrite (postprocess_dos_spec PI TIME_UNIT_CONVERSION garbage cos this)
    by done.
  eexists. split; [reflexivity|]. simpl. split.
  - rewrite length_fmap, length_seqZ. lia.
  - rewrite list_lookup_fmap, lookup_seqZ_lt by lia. simpl.
    change (0 + Z.of_nat 0) with 0.
    f_equal. repeat (apply pair_equal_spec; split); simpl;
      (ring || (field; done)).
Qed.

(** The first two terms of the cosine series, standing for [cos]. *)
Definition cos_series (x : float) : float := (1 - x * x / 2)%float.

(** A mass-weighted VAC of two lags. *)
Definition two_lags : VAC float :=
  {| compute_dos := 1; compute_sdc := 0; sample_interval := 1;
     grouping_method := -1; group := -1; Nc := 2; num_dos_points := 2;
     omega_max := 400%float;
     N := 1; num_time_origins := 1; dt := 1%float; dt_in_ps := 1%float;
     mass := [1%float]; vx := []; vy := []; vz := [];
     vac_x := [4%float; 2%float]; vac_y := [2%float; 1%float];
     vac_z := [1%float; 0%float] |}.

Lemma dos_of_two_lags :
  find_dos PI64 no_garbage cos_series two_lags
  = Some (dos_line PI64 cos_series two_lags
            (get [4%float; 2%float], get [2%float; 1%float],
             get [1%float; 0%float])
          <$> seqZ 0 2).
Proof.
  apply (dos_is_windowed_cosine_transform PI64 no_garbage cos_series two_lags).
  - simpl. lia.
  - simpl. lia.
  - repeat split.
Defined.

Lemma mvac_of_two_lags :
  let c := (fun j => get [4%float; 2%float] j /. get [4%float; 2%float] 0,
            fun j => get [2%float; 1%float] j /. get [2%float; 1%float] 0,
            fun j => get [1%float; 0%float] j /. get [1%float; 0%float] 0) in
  postprocess PI64 TUC64 no_garbage cos_series two_lags
  = Some {| mvac_out :=
              (fun nc => (of_int nc *. 1%float, c.1.1 nc, c.1.2 nc, c.2 nc))
              <$> seqZ 0 2;
            dos_out := dos_line PI64 cos_series two_lags c <$> seqZ 0 2;
            sdc_out := [] |}.
Proof.
  apply (mvac_is_normalised_by_lag_zero PI64 TUC64 no_garbage cos_series
           two_lags).
  - simpl. lia.
  - simpl. lia.
  - simpl. lia.
  - repeat split.
Defined.

(** The same VAC over the reals. *)
Definition two_lags_R : VAC R :=
  {| compute_dos := 1; compute_sdc := 0; sample_interval := 1;
     grouping_method := -1; group := -1; Nc := 2; num_dos_points := 2;
     omega_max := 400%R;
     N := 1; num_time_origins := 1; dt := 1%R; dt_in_ps := 1%R;
     mass := [1%R]; vx := []; vy := []; vz := [];
     vac_x := [4%R; 2%R]; vac_y := [2%R; 1%R]; vac_z := [1%R; 0%R] |}.

Lemma mvac_of_two_lags_starts_at_one :
  exists out,
    postprocess PI 1%R (fun _ => 0%R) Rtrigo_def.cos two_lags_R = Some out /\
    Z.of_nat (length (mvac_out out)) = 2 /\
    mvac_out out !! 0%nat = Some (0%R, 1%R, 1%R, 1%R).
Proof.
  apply (mvac_starts_at_one PI 1%R (fun _ => 0%R) Rtrigo_def.cos two_lags_R).
  - simpl. lia.
  - simpl. lia.
  - simpl. lia.
  - repeat split.
  - unfold get. simpl. lra.
  - unfold get. simpl. lra.
  - unfold get. simpl. lra.
Defined.

End VAC.

(** * Modal analysis ([modal_analysis.cu]) *)

(** The functions of the C++ library that the set-up of the bins applies to
    a [double]. *)
Class MathLib (F : Type) := {
  ffloor : F -> F;            (* floor *)
  fabs : F -> F;              (* abs, the overload for double *)
  fcopysign : F -> F -> F;    (* copysign *)
  to_int : F -> option Z      (* conversion to int: truncation; undefined
                                 when the result does not fit *)
}.

(** [floor] on a binary64: a number [m * 2^e] with [e >= 0] is an integer;
    otherwise the shift to the right floors the signed mantissa, which has
    fewer than 54 bits. *)
Definition b64_floor (x : float) : float :=
  match Prim2SF x with
  | S754_finite s m e =>
      if (0 <=? e)%Z then x
      else b64_of_Z (Z.shiftr (if s then Z.neg m else Z.pos m) (- e))
  | _ => x
  end.

Definition b64_copysign (x y : float) : float :=
  if PrimFloat.get_sign y then PrimFloat.opp (PrimFloat.abs x)
  else PrimFloat.abs x.

Definition b64_to_int (x : float) : option Z :=
  match Prim2SF x with
  | S754_zero _ => Some 0
  | S754_finite s m e =>
      let a := if (0 <=? e)%Z then Z.shiftl (Z.pos m) e
               else Z.shiftr (Z.pos m) (- e) in
      let z := if s then - a else a in
      if decide (- 2 ^ 31 <= z < 2 ^ 31) then Some z else None
  | _ => None
  end.

#[export] Instance binary64_lib : MathLib float := {|
  ffloor := b64_floor; fabs := PrimFloat.abs;
  fcopysign := b64_copysign; to_int := b64_to_int |}.

Module MODAL.

Definition NUM_OF_HEAT_COMPONENTS : Z := 5.
Definition BLOCK_SIZE : Z := 128.
Definition ACCUM_BLOCK : Z := 1024.
Definition BIN_BLOCK : Z := 128.
Definition BLOCK_SIZE_FORCE : Z := 64.
Definition BLOCK_SIZE_GK : Z := 16.

Definition NO_METHOD : Z := -1.
Definition GKMA_METHOD : Z := 0.
Definition HNEMA_METHOD : Z := 1.

(** [cudaMallocManaged] of [n] elements: it refuses a size of zero. *)
Definition cudaMallocManaged {A} (garbage : Z -> A) (n : Z) : option (list A) :=
  if decide (0 < n) then Some (garbage <$> seqZ 0 n) else None.

(** [ss >> x] on the numbers of a line: the next number, or nothing at the
    end of the line (and [x] keeps its value). *)
Definition extract {A} (ss : list A) : option A * list A :=
  match ss with
  | [] => (None, [])
  | v :: ss => (Some v, ss)
  end.

(** ** The set-up of the bins in [MODAL_ANALYSIS::preprocess] *)

Section Binning.
Context {D : Type} `{Arith D} `{MathLib D}.

(** [PI] is a macro of [common.cuh]. *)
Variable PI : D.

(** The contents of fresh memory, and of the local [temp]. *)
Variables (garbage : Z -> D) (garbage_int : Z -> Z) (temp0 : D).

(** The frequency of an eigenvalue:
    [copysign(sqrt(abs(temp))/(2.0*PI), temp)]. *)
Definition frequency (temp : D) : D :=
  fcopysign (fsqrt (fabs temp) /. (TWO *. PI)) temp.

(** [shift] and [num_bins] from the first and the last frequency. *)
Definition bin_range (f_bin_size first last : D) : option (Z * Z) :=
  let fmax := (ffloor (fabs last /. f_bin_size) +. ONE) *. f_bin_size in
  let fmin := ffloor (fabs first /. f_bin_size) *. f_bin_size in
  shift ← to_int (ffloor (fabs fmin /. f_bin_size));
  num_bins ← to_int (ffloor ((fmax -. fmin) /. f_bin_size));
  Some (shift, num_bins).

(** The bin of a frequency: [int(abs(f[i]/f_bin_size))-shift]. *)
Definition bin_index (f_bin_size : D) (shift : Z) (v : D) : option Z :=
  k ← to_int (fabs (v /. f_bin_size)); Some (k - shift).

(** The block [// Setup binning]: the new values of [num_bins],
    [bin_count] and [bin_sum].  [line] holds the numbers of the first line
    of [eigenvector.out]. *)
Definition setup_binning (f_flag first_mode num_modes bin_size : Z)
    (f_bin_size : D) (line : list D) (bin_count bin_sum : list Z)
    : option (Z * list Z * list Z) :=
  if decide (f_flag <> 0) then
    f ← cudaMallocManaged garbage num_modes;
    '(ss, f) ← for_range 0 (first_mode - 1) (fun i '(ss, f) =>
      match extract ss with
      | (Some v, ss) => f ← wr f 0 v; Some (ss, f)
      | (None, ss) => Some (ss, f)
      end) (line, f);
    '(_, _, f) ← for_range 0 num_modes (fun i '(ss, temp, f) =>
      let '(v, ss) := extract ss in
      let temp := default temp v in
      f ← wr f i (frequency temp);
      Some (ss, temp, f)) (ss, temp0, f);
    (* freq are in ascending order in file *)
    last ← rd f (num_modes - 1);
    first ← rd f 0;
    '(shift, num_bins) ← bin_range f_bin_size first last;
    bin_count ← cudaMallocManaged garbage_int num_bins;
    bin_count ← for_range 0 num_bins (fun i_ bin_count =>
      wr bin_count i_ 0) bin_count;
    bin_count ← for_range 0 num_modes (fun i bin_count =>
      v ← rd f i;
      k ← bin_index f_bin_size shift v;
      modify bin_count k (fun c => c + 1)) bin_count;
    bin_sum ← cudaMallocManaged garbage_int num_bins;
    bin_sum ← for_range 0 num_bins (fun i_ bin_sum =>
      wr bin_sum i_ 0) bin_sum;
    bin_sum ← for_range 1 num_bins (fun i bin_sum =>
      s ← rd bin_sum (i - 1);
      c ← rd bin_count (i - 1);
      wr bin_sum i (s + c)) bin_sum;
    Some (num_bins, bin_count, bin_sum)
  else
    if decide (bin_size = 0) then None
    else Some (num_modes `quot` bin_size, bin_count, bin_sum).

End Binning.

(** *** Frequency bins in double precision *)

(** A bin width of 0.1 THz, and the eigenvalues of two modes of about 0.15
    and 1.25 THz. *)
Definition tenth : float := 0x1.999999999999ap-4%float.
Definition two_modes : list float :=
  [0x1.c6cf41f212d77p-1%float; 0x1.ed7ae147ae148p+5%float].

(** An imaginary mode (negative eigenvalue) before two real ones: the
    frequencies are about -1.55, 0.55 and 3.55 THz, in ascending order. *)
Definition with_imaginary_mode : list float :=
  [(-0x1.7b63394e77202p+6)%float; 0x1.7e26ad563ab96p+3%float;
   0x1.f186d99a60f2dp+8%float].

Definition no_garbage (i : Z) : float := 0%float.
Definition no_garbage_int (i : Z) : Z := 0.

(** C8 fails on the code in double precision.  With a bin width of 0.1 and
    two modes of about 0.15 and 1.25 THz, [(fmax - fmin) / f_bin_size] is
    rounded below 12: [num_bins] is 11 and the last mode has index 11, so
    the increment of its counter lies outside [bin_count].  With an
    imaginary mode first, [shift] comes from the largest magnitude, and a
    real mode below it has index -1. *)
Theorem frequency_bins_overrun :
  (bin_range tenth (frequency VAC.PI64 0x1.c6cf41f212d77p-1%float)
     (frequency VAC.PI64 0x1.ed7ae147ae148p+5%float) = Some (1, 11) /\
   bin_index tenth 1 (frequency VAC.PI64 0x1.ed7ae147ae148p+5%float)
   = Some 11 /\
   setup_binning VAC.PI64 no_garbage no_garbage_int 0%float 1 1 2 1 tenth
     two_modes [] [] = None) /\
  (bin_range 1%float (frequency VAC.PI64 (-0x1.7b63394e77202p+6)%float)
     (frequency VAC.PI64 0x1.f186d99a60f2dp+8%float) = Some (1, 3) /\
   bin_index 1%float 1 (frequency VAC.PI64 0x1.7e26ad563ab96p+3%float)
   = Some (-1) /\
   setup_binning VAC.PI64 no_garbage no_garbage_int 0%float 1 1 3 1 1%float
     with_imaginary_mode [] [] = None).
Proof. vm_compute. repeat split; reflexivity. Qed.

(** Away from those cases the set-up does what C8 says: three modes of
    about 0.55, 3.55 and 3.55 THz with a bin width of 1. *)
Lemma frequency_bins_of_three_modes :
  setup_binning VAC.PI64 no_garbage no_garbage_int 0%float 1 1 3 1 1%float
    [0x1.7e26ad563ab96p+3%float; 0x1.f186d99a60f2dp+8%float;
     0x1.f186d99a60f2dp+8%float] [] []
  = Some (4, [1; 0; 0; 2], [0; 1; 1; 1]).
Proof. vm_compute. reflexivity. Qed.

(** *** What the set-up guarantees when it completes *)

(** The sum of a list of counters. *)
Definition total (l : list Z) : Z := foldr Z.add 0 l.

Lemma total_app l1 l2 : total (l1 ++ l2) = total l1 + total l2.
Proof. induction l1 as [|x l1 IH]; simpl; [done|]. unfold total in * . simpl. lia. Qed.

Lemma total_insert (l : list Z) (k : nat) x y :
  l !! k = Some x -> total (<[k := y]> l) = total l - x + y.
Proof.
  intros E. pose proof (lookup_lt_Some _ _ _ E) as Hk.
  rewrite insert_take_drop by done.
  rewrite <- (take_drop_middle l k x E) at 3.
  rewrite !total_app. unfold total. simpl. lia.
Qed.

Lemma total_modify (l l' : list Z) k :
  modify l k (fun c => c + 1) = Some l' ->
  length l' = length l /\ total l' = total l + 1.
Proof.
  intros (v & Ev & Ew)%modify_inv.
  pose proof (wr_length _ _ _ _ Ew) as L. split; [done|].
  apply wr_inv in Ew as [Hk ->].
  unfold rd in Ev. case_decide; [|done].
  rewrite (total_insert _ _ v) by done. lia.
Qed.

Lemma total_zeros n : total ((fun _ : Z => 0) <$> seqZ 0 n) = 0.
Proof.
  destruct (decide (n <= 0)) as [Hn|Hn]; [by rewrite seqZ_nil by lia|].
  assert (forall m : nat, total ((fun _ : Z => 0) <$> seqZ 0 (Z.of_nat m)) = 0)
    as Hm.
  { induction m as [|m IH]; [done|].
    replace (Z.of_nat (Datatypes.S m)) with (Z.of_nat m + 1) by lia.
    rewrite seqZ_app by lia. rewrite fmap_app, total_app, IH. done. }
  specialize (Hm (Z.to_nat n)). by rewrite Z2Nat.id in Hm by lia.
Qed.

Lemma total_take_succ (l : list Z) (k : nat) x :
  l !! k = Some x -> total (take (Datatypes.S k) l) = total (take k l) + x.
Proof.
  intros E. rewrite (take_S_r _ _ _ E), total_app. unfold total. simpl. lia.
Qed.

(** A loop that clears an array of [n] counters. *)
Lemma clear_counters (a a' : list Z) n :
  0 <= n -> Z.of_nat (length a) = n ->
  for_range 0 n (fun i_ a => wr a i_ 0) a = Some a' ->
  a' = (fun _ : Z => 0) <$> seqZ 0 n.
Proof.
  intros Hn L E.
  assert (updated (fun j => 0 <= j < n) (fun _ => 0) a a') as U.
  { apply (for_range_inv_partial
             (fun k s => updated (fun j => 0 <= j < k) (fun _ => 0) a s)
             0 n (fun i_ a => wr a i_ 0) a a'); [done | done | |].
    - eapply updated_ext; [|apply updated_none]. intros j. cbv beta. lia.
    - intros k s s' Hk U Es.
      destruct (updated_wr _ _ _ _ k 0 U) as (s'' & Es' & U'); [lia|done|].
      assert (s'' = s') as -> by congruence.
      eapply updated_ext; [|exact U']. intros j. cbv beta. lia. }
  destruct U as (L' & Hin & _). apply rd_ext. intros i.
  destruct (decide (0 <= i < n)) as [Hi|Hi].
  - rewrite Hin by done. unfold rd. case_decide; [|lia].
    rewrite list_lookup_fmap, lookup_seqZ_lt by lia. done.
  - rewrite !rd_None; [done| |lia].
    rewrite length_fmap, length_seqZ. lia.
Qed.

Section BinningFacts.
Context {D : Type} `{Arith D} `{MathLib D}.
Variables (PI : D) (garbage : Z -> D) (garbage_int : Z -> Z) (temp0 : D).

(** When the set-up of the frequency bins completes, every mode has been
    counted once and [bin_sum] holds the running sums of [bin_count]. *)
Lemma frequency_bins_when_complete first_mode M bin_size_ (f_bin_size_ : D)
    (header : list D) (bc0 bs0 : list Z) nb (bc bs : list Z) :
  setup_binning PI garbage garbage_int temp0 1 first_mode M bin_size_
    f_bin_size_ header bc0 bs0 = Some (nb, bc, bs) ->
  Z.of_nat (length bc) = nb /\ Z.of_nat (length bs) = nb /\
  total bc = M /\
  forall i, 0 <= i < nb -> rd bs i = Some (total (take (Z.to_nat i) bc)).
Proof.
  unfold setup_binning. rewrite decide_True by done.
  destruct (cudaMallocManaged garbage M) as [f0|] eqn:EM; [|discriminate].
  unfold cudaMallocManaged in EM. case_decide as HM; [|discriminate EM].
  clear EM. rewrite bind_Some_eq.
  destruct (for_range 0 (first_mode - 1) _ _) as [[ss f]|];
    [|discriminate]. rewrite bind_Some_eq.
  destruct (for_range 0 M _ (ss, temp0, f)) as [[[ss' t'] f']|];
    [|discriminate]. rewrite bind_Some_eq.
  destruct (rd f' (M - 1)) as [last|]; [|discriminate].
  rewrite bind_Some_eq.
  destruct (rd f' 0) as [first|]; [|discriminate].
  rewrite bind_Some_eq.
  destruct (bin_range f_bin_size_ first last) as [[shift nb']|];
    [|discriminate]. rewrite bind_Some_eq.
  destruct (cudaMallocManaged garbage_int nb') as [a0|] eqn:Enb;
    [|discriminate].
  unfold cudaMallocManaged in Enb. case_decide as Hnb; [|discriminate Enb].
  injection Enb as <-. rewrite !bind_Some_eq.
  assert (forall g : Z -> Z, Z.of_nat (length (g <$> seqZ 0 nb')) = nb')
    as Lg by (intros g; rewrite length_fmap, length_seqZ; lia).
  destruct (for_range 0 nb' _ (garbage_int <$> seqZ 0 nb')) as [bc1|] eqn:E1;
    [|discriminate]. rewrite bind_Some_eq.
  apply clear_counters in E1; [|lia|done]. subst bc1.
  destruct (for_range 0 M _ ((fun _ : Z => 0) <$> seqZ 0 nb')) as [bc2|] eqn:E2;
    [|discriminate]. rewrite !bind_Some_eq.
  destruct (for_range 0 nb' _ (garbage_int <$> seqZ 0 nb')) as [bs1|] eqn:E3;
    [|discriminate]. rewrite bind_Some_eq.
  apply clear_counters in E3; [|lia|done]. subst bs1.
  destruct (for_range 1 nb' _ ((fun _ : Z => 0) <$> seqZ 0 nb')) as [bs2|] eqn:E4;
    [|discriminate].
  rewrite bind_Some_eq. intros [= <- <- <-].
  (* the counters *)
  assert (Z.of_nat (length bc2) = nb' /\ total bc2 = M) as [Lbc Tbc].
  { pose proof (for_range_inv_partial
      (fun k (s : list Z) => Z.of_nat (length s) = nb' /\ total s = k)
      0 M _ _ bc2 ltac:(lia) E2) as Hinv.
    apply Hinv.
    - split; [done|]. apply total_zeros.
    - intros k s s' Hk [Ls Ts] Es.
      destruct (rd f' k) as [v|]; [|discriminate Es].
      rewrite bind_Some_eq in Es.
      destruct (bin_index f_bin_size_ shift v) as [idx|]; [|discriminate Es].
      rewrite bind_Some_eq in Es.
      apply total_modify in Es as [L' T']. split; lia. }
  (* the running sums *)
  assert (Z.of_nat (length bs2) = nb' /\
          forall i, 0 <= i < nb' ->
            rd bs2 i = Some (total (take (Z.to_nat i) bc2))) as [Lbs Hbs].
  { pose proof (for_range_inv_partial
      (fun k (s : list Z) =>
         Z.of_nat (length s) = nb' /\
         (forall i, 0 <= i < k ->
            rd s i = Some (total (take (Z.to_nat i) bc2))))
      1 nb' _ _ bs2 ltac:(lia) E4) as Hinv.
    destruct Hinv as [L Hs]; [| |split; [done|]; intros i Hi; apply Hs; lia].
    - split; [done|]. intros i Hi. assert (i = 0) as -> by lia.
      unfold rd. rewrite decide_True by lia.
      rewrite list_lookup_fmap, lookup_seqZ_lt by lia. done.
    - intros k s s' Hk [Ls Hs] Es.
      rewrite (Hs (k - 1)) in Es by lia. rewrite bind_Some_eq in Es.
      destruct (rd bc2 (k - 1)) as [c|] eqn:Ec; [|discriminate Es].
      rewrite bind_Some_eq in Es.
      split; [by rewrite (wr_length _ _ _ _ Es)|].
      intros i Hi. destruct (decide (i = k)) as [->|Hne].
      + rewrite (rd_wr_eq _ _ _ _ Es). f_equal.
        unfold rd in Ec. rewrite decide_True in Ec by lia.
        replace (Z.to_nat k) with (Datatypes.S (Z.to_nat (k - 1))) by lia.
        by rewrite (total_take_succ _ _ _ Ec).
      + rewrite (rd_wr_ne _ _ _ _ _ Es) by done. apply Hs. lia. }
  done.
Qed.

End BinningFacts.

(** ** The kernels *)

Section Definitions.
Context {F D : Type} {AF : Arith F} {AD : Arith D}.

(** [__double2float_rn], the promotion of a [float] to [double], and the
    device function [rsqrt]. *)
Variables (double2float : D -> F) (float2double : F -> D) (rsqrt : F -> F).

(** A macro of [common.cuh]. *)
Variable KAPPA_UNIT_CONVERSION : D.

(** [LDG(a, n)], a macro of [common.cuh] that loads [a[n]]. *)
Definition LDG {A} (a : list A) (n : Z) : option A := rd a n.

Definition gpu_reset_data (num_elements : Z) (blockDim bid tid : Z)
    (data : list F) : option (list F) :=
  let n := bid * blockDim + tid in
  if decide (n < num_elements) then wr data n ZERO else Some data.

Definition gpu_scale_jm (num_elements : Z) (factor : F) (blockDim bid tid : Z)
    (jm : list F) : option (list F) :=
  let n := bid * blockDim + tid in
  if decide (n < num_elements) then modify jm n (fun v => v *. factor)
  else Some jm.

(** [gpu_reduce_xdotn], block [bid] of [ACCUM_BLOCK] threads: the three
    shared arrays go through the same patches and the same tree. *)
Definition gpu_reduce_xdotn (num_participating num_modes : Z)
    (data_n : list F) (bid : Z) (data : list F) : option (list F) :=
  let number_of_patches := (num_participating - 1) `quot` ACCUM_BLOCK + 1 in
  x ← block_reduce ACCUM_BLOCK number_of_patches num_participating
         (fun n => rd data_n (n + bid * num_participating));
  y ← block_reduce ACCUM_BLOCK number_of_patches num_participating
         (fun n => rd data_n (n + (bid + num_modes) * num_participating));
  z ← block_reduce ACCUM_BLOCK number_of_patches num_participating
         (fun n => rd data_n (n + (bid + 2 * num_modes) * num_participating));
  data ← wr data bid x;
  data ← wr data (bid + num_modes) y;
  wr data (bid + 2 * num_modes) z.

Definition gpu_calc_xdotn (num_participating N1 N2 num_modes : Z)
    (g_vx g_vy g_vz g_mass : list D) (g_eig : list F)
    (blockDim_x blockDim_y bid_x bid_y tid_x tid_y : Z)
    (g_xdotn : list F) : option (list F) :=
  let neig := bid_x * blockDim_x + tid_x in
  let nglobal := neig + N1 in
  let nm := bid_y * blockDim_y + tid_y in
  if decide (nglobal >= N1 /\ nglobal < N2 /\ nm < num_modes) then
    vx1 ← double2float <$> LDG g_vx nglobal;
    vy1 ← double2float <$> LDG g_vy nglobal;
    vz1 ← double2float <$> LDG g_vz nglobal;
    m ← LDG g_mass nglobal;
    let sqrtmass := fsqrt (double2float m) in
    e ← rd g_eig (neig + nm * 3 * num_participating);
    g_xdotn ← wr g_xdotn (neig + nm * num_participating)
                (sqrtmass *. e *. vx1);
    e ← rd g_eig (neig + (1 + nm * 3) * num_participating);
    g_xdotn ← wr g_xdotn (neig + (nm + num_modes) * num_participating)
                (sqrtmass *. e *. vy1);
    e ← rd g_eig (neig + (2 + nm * 3) * num_participating);
    wr g_xdotn (neig + (nm + 2 * num_modes) * num_participating)
       (sqrtmass *. e *. vz1)
  else Some g_xdotn.

(** [gpu_bin_reduce] for block [bid] of [BIN_BLOCK] threads. *)
Definition gpu_bin_reduce (num_modes bin_size shift num_bins bid
    number_of_patches : Z) (g_jm : list F) (bin_out : list F)
    : option (list F) :=
  xin ← block_reduce BIN_BLOCK number_of_patches bin_size
          (fun n => rd g_jm (n + shift));
  xout ← block_reduce BIN_BLOCK number_of_patches bin_size
          (fun n => rd g_jm (n + shift + num_modes));
  yin ← block_reduce BIN_BLOCK number_of_patches bin_size
          (fun n => rd g_jm (n + shift + 2 * num_modes));
  yout ← block_reduce BIN_BLOCK number_of_patches bin_size
          (fun n => rd g_jm (n + shift + 3 * num_modes));
  z ← block_reduce BIN_BLOCK number_of_patches bin_size
          (fun n => rd g_jm (n + shift + 4 * num_modes));
  bin_out ← wr bin_out bid xin;
  bin_out ← wr bin_out (bid + num_bins) xout;
  bin_out ← wr bin_out (bid + 2 * num_bins) yin;
  bin_out ← wr bin_out (bid + 3 * num_bins) yout;
  wr bin_out (bid + 4 * num_bins) z.

Definition gpu_bin_modes (num_modes bin_size num_bins : Z) (g_jm : list F)
    (bid : Z) (bin_out : list F) : option (list F) :=
  let number_of_patches := (bin_size - 1) `quot` BIN_BLOCK + 1 in
  let shift := bid * bin_size in
  gpu_bin_reduce num_modes bin_size shift num_bins bid number_of_patches
    g_jm bin_out.

Definition gpu_bin_frequencies (num_modes : Z) (bin_count bin_sum : list Z)
    (num_bins : Z) (g_jm : list F) (bid : Z) (bin_out : list F)
    : option (list F) :=
  bin_size ← rd bin_count bid;
  shift ← rd bin_sum bid;
  let number_of_patches := (bin_size - 1) `quot` BIN_BLOCK + 1 in
  gpu_bin_reduce num_modes bin_size shift num_bins bid number_of_patches
    g_jm bin_out.

(** The nine components of the per-atom virial handed to the two kernels
    below, as pointers into [virial_per_atom]. *)
Record stress := {
  sxx : ptr D; sxy : ptr D; sxz : ptr D;
  syx : ptr D; syy : ptr D; syz : ptr D;
  szx : ptr D; szy : ptr D; szz : ptr D
}.

(** [gpu_set_jmn] and [gpu_accumulate_jmn] are the same text, but for the
    assignment to [g_jmn]: [=] in the former, [+=] in the latter.
    [assign] is that assignment. *)
Definition jmn_thread (assign : list F -> Z -> F -> option (list F))
    (num_participating N1 N2 : Z) (s : stress) (g_mass : list D)
    (g_eig g_xdot : list F) (num_modes : Z)
    (blockDim_x blockDim_y bid_x bid_y tid_x tid_y : Z)
    (g_jmn : list F) : option (list F) :=
  let neig := bid_x * blockDim_x + tid_x in
  let nglobal := neig + N1 in
  let nm := bid_y * blockDim_y + tid_y in
  if decide (nglobal >= N1 /\ nglobal < N2 /\ nm < num_modes) then
    m ← LDG g_mass nglobal;
    let rsqrtmass := rsqrt (double2float m) in
    e ← rd g_eig (neig + nm * 3 * num_participating);
    x ← rd g_xdot nm;
    let vx_ma := rsqrtmass *. e *. double2float (float2double x) in
    e ← rd g_eig (neig + (1 + nm * 3) * num_participating);
    x ← rd g_xdot (nm + num_modes);
    let vy_ma := rsqrtmass *. e *. double2float (float2double x) in
    e ← rd g_eig (neig + (2 + nm * 3) * num_participating);
    x ← rd g_xdot (nm + 2 * num_modes);
    let vz_ma := rsqrtmass *. e *. double2float (float2double x) in
    (* x-in *)
    a ← load (sxx s) nglobal; b ← load (sxy s) nglobal;
    g_jmn ← assign g_jmn (neig + nm * num_participating)
              (double2float a *. vx_ma +. double2float b *. vy_ma);
    (* x-out *)
    a ← load (sxz s) nglobal;
    g_jmn ← assign g_jmn (neig + (nm + num_modes) * num_participating)
              (double2float a *. vz_ma);
    (* y-in *)
    a ← load (syx s) nglobal; b ← load (syy s) nglobal;
    g_jmn ← assign g_jmn (neig + (nm + 2 * num_modes) * num_participating)
              (double2float a *. vx_ma +. double2float b *. vy_ma);
    (* y-out *)
    a ← load (syz s) nglobal;
    g_jmn ← assign g_jmn (neig + (nm + 3 * num_modes) * num_participating)
              (double2float a *. vz_ma);
    (* z-all *)
    a ← load (szx s) nglobal; b ← load (szy s) nglobal;
    c ← load (szz s) nglobal;
    assign g_jmn (neig + (nm + 4 * num_modes) * num_participating)
      (double2float a *. vx_ma +. double2float b *. vy_ma
       +. double2float c *. vz_ma)
  else Some g_jmn.

Definition gpu_set_jmn := jmn_thread wr.

Definition gpu_accumulate_jmn :=
  jmn_thread (fun g_jmn i v => modify g_jmn i (fun old => old +. v)).

Definition gpu_reduce_jmn (num_participating num_modes : Z)
    (data_n : list F) (bid : Z) (data : list F) : option (list F) :=
  let number_of_patches := (num_participating - 1) `quot` ACCUM_BLOCK + 1 in
  xin ← block_reduce ACCUM_BLOCK number_of_patches num_participating
          (fun n => rd data_n (n + bid * num_participating));
  xout ← block_reduce ACCUM_BLOCK number_of_patches num_participating
          (fun n => rd data_n (n + (bid + num_modes) * num_participating));
  yin ← block_reduce ACCUM_BLOCK number_of_patches num_participating
          (fun n => rd data_n (n + (bid + 2 * num_modes) * num_participating));
  yout ← block_reduce ACCUM_BLOCK number_of_patches num_participating
          (fun n => rd data_n (n + (bid + 3 * num_modes) * num_participating));
  z ← block_reduce ACCUM_BLOCK number_of_patches num_participating
          (fun n => rd data_n (n + (bid + 4 * num_modes) * num_participating));
  data ← wr data bid xin;
  data ← wr data (bid + num_modes) xout;
  data ← wr data (bid + 2 * num_modes) yin;
  data ← wr data (bid + 3 * num_modes) yout;
  wr data (bid + 4 * num_modes) z.

End Definitions.

(** ** [MODAL_ANALYSIS::process] *)

Section Driver.
Context {F D : Type} {AF : Arith F} {AD : Arith D}.
Variables (double2float : D -> F) (float2double : F -> D) (rsqrt : F -> F).
Variable KAPPA_UNIT_CONVERSION : D.

(** What [modal_analysis.cu] reads of [Atom]; [box_volume] is the value of
    [atom->box.get_volume()]. *)
Record Atom := {
  atom_N : Z;
  atom_vx : list D; atom_vy : list D; atom_vz : list D;
  atom_mass : list D;
  virial_per_atom : list D;
  box_volume : D
}.

(** The class [MODAL_ANALYSIS]: the public members, then the private
    ones. *)
Record MODAL_ANALYSIS := {
  compute : Z;
  method : Z;
  output_interval : Z;
  sample_interval : Z;
  first_mode : Z;
  last_mode : Z;
  bin_size : Z;
  f_bin_size : D;
  f_flag : Z;
  num_modes : Z;
  atom_begin : Z;
  atom_end : Z;
  eig : list F;
  xdotn : list F;
  xdot : list F;
  jmn : list F;
  jm : list F;
  bin_out : list F;
  bin_count : list Z;
  bin_sum : list Z;
  samples_per_output : Z;
  num_bins : Z;
  N1 : Z;
  N2 : Z;
  num_participating : Z;
  num_heat_stored : Z
}.

(** The buffers that [process] writes. *)
Definition with_buffers (this : MODAL_ANALYSIS)
    (xdotn_ xdot_ jmn_ jm_ bin_out_ : list F) : MODAL_ANALYSIS :=
  {| compute := compute this; method := method this;
     output_interval := output_interval this;
     sample_interval := sample_interval this;
     first_mode := first_mode this; last_mode := last_mode this;
     bin_size := bin_size this; f_bin_size := f_bin_size this;
     f_flag := f_flag this; num_modes := num_modes this;
     atom_begin := atom_begin this; atom_end := atom_end this;
     eig := eig this; xdotn := xdotn_; xdot := xdot_; jmn := jmn_;
     jm := jm_; bin_out := bin_out_;
     bin_count := bin_count this; bin_sum := bin_sum this;
     samples_per_output := samples_per_output this;
     num_bins := num_bins this; N1 := N1 this; N2 := N2 this;
     num_participating := num_participating this;
     num_heat_stored := num_heat_stored this |}.

(** The arguments [atom->virial_per_atom + atom->N * k] of the two heat
    kernels, in the order of the call. *)
Definition virial (atom : Atom) : stress :=
  let p k := (virial_per_atom atom, atom_N atom * k) in
  {| sxx := (virial_per_atom atom, 0); sxy := p 3; sxz := p 4;
     syx := p 6; syy := p 1; syz := p 5;
     szx := p 7; szy := p 8; szz := p 2 |}.

(** [MODAL_ANALYSIS::compute_heat]. *)
Definition compute_heat (atom : Atom) (this : MODAL_ANALYSIS)
    : option MODAL_ANALYSIS :=
  let gk_grid_size := (num_modes this - 1) `quot` BLOCK_SIZE_GK + 1 in
  let grid_size := (N2 this - N1 this - 1) `quot` BLOCK_SIZE_FORCE + 1 in
  xdotn_ ← launch2 grid_size gk_grid_size BLOCK_SIZE_FORCE BLOCK_SIZE_GK
              (gpu_calc_xdotn double2float (num_participating this)
                 (N1 this) (N2 this) (num_modes this)
                 (atom_vx atom) (atom_vy atom) (atom_vz atom)
                 (atom_mass atom) (eig this) BLOCK_SIZE_FORCE BLOCK_SIZE_GK)
              (xdotn this);
  xdot_ ← launch_blocks (num_modes this)
             (gpu_reduce_xdotn (num_participating this) (num_modes this)
                xdotn_) (xdot this);
  jmn_ ← (if decide (method this = GKMA_METHOD) then
            launch2 grid_size gk_grid_size BLOCK_SIZE_FORCE BLOCK_SIZE_GK
              (gpu_set_jmn double2float float2double rsqrt
                 (num_participating this) (N1 this) (N2 this) (virial atom)
                 (atom_mass atom) (eig this) xdot_ (num_modes this)
                 BLOCK_SIZE_FORCE BLOCK_SIZE_GK) (jmn this)
          else if decide (method this = HNEMA_METHOD) then
            launch2 grid_size gk_grid_size BLOCK_SIZE_FORCE BLOCK_SIZE_GK
              (gpu_accumulate_jmn double2float float2double rsqrt
                 (num_participating this) (N1 this) (N2 this) (virial atom)
                 (atom_mass atom) (eig this) xdot_ (num_modes this)
                 BLOCK_SIZE_FORCE BLOCK_SIZE_GK) (jmn this)
          else Some (jmn this));
  Some (with_buffers this xdotn_ xdot_ jmn_ (jm this) (bin_out this)).

(** A line of [heatmode.out] or [kappamode.out]: the five numbers handed
    to [fprintf]. *)
Definition line : Type := F * F * F * F * F.

(** The launch that bins [jm] into [bin_out]. *)
Definition bin_launch (this : MODAL_ANALYSIS) (jm_ : list F)
    : option (list F) :=
  if decide (f_flag this <> 0) then
    launch_blocks (num_bins this)
      (gpu_bin_frequencies (num_modes this) (bin_count this) (bin_sum this)
         (num_bins this) jm_) (bin_out this)
  else
    launch_blocks (num_bins this)
      (gpu_bin_modes (num_modes this) (bin_size this) (num_bins this) jm_)
      (bin_out this).

(** The loop that prints [bin_out]. *)
Definition print_bins (num_bins_ : Z) (bin_out_ : list F)
    : option (list line) :=
  for_range 0 num_bins_ (fun i lines =>
    a ← rd bin_out_ i;
    b ← rd bin_out_ (i + num_bins_);
    c ← rd bin_out_ (i + 2 * num_bins_);
    d ← rd bin_out_ (i + 3 * num_bins_);
    e ← rd bin_out_ (i + 4 * num_bins_);
    Some (lines ++ [(a, b, c, d, e)])) [].

(** [MODAL_ANALYSIS::process]; [temperature] is
    [integrate->ensemble->temperature], and the state is the object with
    the contents of the output file. *)
Definition process (step : Z) (atom : Atom) (temperature fe : D)
    (st : MODAL_ANALYSIS * list line) : option (MODAL_ANALYSIS * list line) :=
  let '(this, file) := st in
  if decide (compute this = 0) then Some st else
  if decide (sample_interval this = 0) then None else
  if decide ((step + 1) `rem` sample_interval this <> 0) then Some st else
  this ← compute_heat atom this;
  skip ← (if decide (method this = HNEMA_METHOD) then
            if decide (output_interval this = 0) then None
            else Some (bool_decide ((step + 1) `rem` output_interval this <> 0))
          else Some false);
  if skip : bool then Some (this, file) else
  jm_ ← launch_blocks (num_modes this)
           (gpu_reduce_jmn (num_participating this) (num_modes this)
              (jmn this)) (jm this);
  jm_ ← (if decide (method this = HNEMA_METHOD) then
           let volume := double2float (box_volume atom) in
           let factor :=
             double2float
               (KAPPA_UNIT_CONVERSION
                /. (float2double volume *. temperature *. fe
                    *. float2double (of_int (samples_per_output this)))) in
           launch ((num_heat_stored this - 1) `quot` BLOCK_SIZE + 1) BLOCK_SIZE
             (gpu_scale_jm (num_heat_stored this) factor BLOCK_SIZE) jm_
         else Some jm_);
  bin_out_ ← bin_launch this jm_;
  (* Compute thermal conductivity and output *)
  lines ← print_bins (num_bins this) bin_out_;
  jmn_ ← (if decide (method this = HNEMA_METHOD) then
            launch ((num_heat_stored this * num_participating this - 1)
                      `quot` BLOCK_SIZE + 1) BLOCK_SIZE
              (gpu_reset_data (num_heat_stored this * num_participating this)
                 BLOCK_SIZE) (jmn this)
          else Some (jmn this));
  Some (with_buffers this (xdotn this) (xdot this) jmn_ jm_ bin_out_,
        file ++ lines).

End Driver.

Arguments Atom D : clear implicits.
Arguments MODAL_ANALYSIS F D : clear implicits.
Arguments stress D : clear implicits.
Arguments line F : clear implicits.

(** ** Cells of the per-atom and per-mode buffers *)

(** Entry [neig] of row [nm + c * M], in rows of [np] entries. *)
Definition cell (np M neig nm c : Z) : Z := neig + (nm + c * M) * np.

Lemma cell_range np M C neig nm c :
  0 <= neig < np -> 0 <= nm < M -> 0 <= c < C ->
  0 <= cell np M neig nm c < C * M * np.
Proof.
  unfold cell. intros Hn Hm Hc.
  assert (c * M <= (C - 1) * M) by (apply Z.mul_le_mono_nonneg_r; lia).
  assert (0 <= c * M) by (apply Z.mul_nonneg_nonneg; lia).
  assert ((nm + c * M) * np <= (C * M - 1) * np)
    by (apply Z.mul_le_mono_nonneg_r; lia).
  assert (0 <= (nm + c * M) * np) by (apply Z.mul_nonneg_nonneg; lia).
  lia.
Qed.

Lemma row_inj n a b a' b' :
  0 <= a < n -> 0 <= a' < n -> a + b * n = a' + b' * n -> a = a' /\ b = b'.
Proof. intros Ha Ha' E. assert (b = b') by nia. subst. lia. Qed.

Lemma cell_inj np M neig nm c neig' nm' c' :
  0 <= neig < np -> 0 <= nm < M -> 0 <= neig' < np -> 0 <= nm' < M ->
  cell np M neig nm c = cell np M neig' nm' c' ->
  neig = neig' /\ nm = nm' /\ c = c'.
Proof.
  unfold cell. intros Hn Hm Hn' Hm' E.
  destruct (row_inj np neig (nm + c * M) neig' (nm' + c' * M)) as [-> E'];
    [done | done | done |].
  destruct (row_inj M nm c nm' c') as [-> ->]; done.
Qed.

(** Every entry of a buffer of [C * M * np] entries is a cell. *)
Lemma cell_decode np M C j :
  0 < np -> 0 < M -> 0 <= j < C * M * np ->
  exists neig nm c,
    0 <= neig < np /\ 0 <= nm < M /\ 0 <= c < C /\ j = cell np M neig nm c.
Proof.
  intros Hnp HM Hj.
  exists (j `mod` np), ((j `div` np) `mod` M), ((j `div` np) `div` M).
  pose proof (Z.mod_pos_bound j np Hnp).
  pose proof (Z.mod_pos_bound (j `div` np) M HM).
  pose proof (Z.div_mod j np ltac:(lia)) as E1.
  pose proof (Z.div_mod (j `div` np) M ltac:(lia)) as E2.
  assert (0 <= j `div` np) by (apply Z.div_pos; lia).
  assert (0 <= (j `div` np) `div` M) by (apply Z.div_pos; lia).
  assert ((j `div` np) `div` M < C).
  { apply Z.div_lt_upper_bound; [lia|].
    apply Z.div_lt_upper_bound; [lia|]. nia. }
  unfold cell. repeat split; try lia.
Qed.

(** *** Two-dimensional launches *)

(** The atoms [neig] and modes [nm] whose thread has run when the loops
    of [launch2] stand at block [(b1, b2)] and thread [(t1, t2)]. *)
Definition done4 (bx by_ b1 b2 t1 t2 neig nm : Z) : Prop :=
  neig < b1 * bx \/
  (b1 * bx <= neig < b1 * bx + bx /\ nm < b2 * by_) \/
  (b1 * bx <= neig < b1 * bx + t1 /\ b2 * by_ <= nm < b2 * by_ + by_) \/
  (neig = b1 * bx + t1 /\ b2 * by_ <= nm < b2 * by_ + t2).

Section Launch2Facts.
Context {S : Type}.

(** The invariant rule for a two-dimensional launch: [I d s] holds when
    the threads of the pairs in [d] have run. *)
Lemma launch2_inv (I : (Z -> Z -> Prop) -> S -> Prop) gx gy bx by_
    (kernel : Z -> Z -> Z -> Z -> S -> option S) s :
  0 < gx -> 0 < gy -> 0 < bx -> 0 < by_ ->
  (forall (d d' : Z -> Z -> Prop) s,
     (forall neig nm, 0 <= neig < gx * bx -> 0 <= nm < gy * by_ ->
        (d neig nm <-> d' neig nm)) ->
     I d s -> I d' s) ->
  I (fun _ _ => False) s ->
  (forall b1 b2 t1 t2 s,
     0 <= b1 < gx -> 0 <= b2 < gy -> 0 <= t1 < bx -> 0 <= t2 < by_ ->
     I (done4 bx by_ b1 b2 t1 t2) s ->
     exists s', kernel b1 b2 t1 t2 s = Some s'
                /\ I (done4 bx by_ b1 b2 t1 (t2 + 1)) s') ->
  exists s', launch2 gx gy bx by_ kernel s = Some s' /\ I (fun _ _ => True) s'.
Proof.
  intros Hgx Hgy Hbx Hby Iext I0 Hstep. unfold launch2.
  case_decide; [|lia].
  destruct (for_range_inv (fun b1 => I (done4 bx by_ b1 0 0 0)) 0 gx
    (fun bidx => for_range 0 gy (fun bidy =>
       for_range 0 bx (fun tidx => for_range 0 by_ (fun tidy =>
         kernel bidx bidy tidx tidy)))) s) as (s' & E & HI); [lia | | |].
  - eapply Iext; [|exact I0]. intros neig nm Hn Hm. unfold done4. lia.
  - intros b1 s1 Hb1 I1.
    destruct (for_range_inv (fun b2 => I (done4 bx by_ b1 b2 0 0)) 0 gy
      (fun bidy => for_range 0 bx (fun tidx => for_range 0 by_ (fun tidy =>
         kernel b1 bidy tidx tidy))) s1) as (s2 & E2 & I2); [lia | done | |].
    + intros b2 s2 Hb2 I2.
      destruct (for_range_inv (fun t1 => I (done4 bx by_ b1 b2 t1 0)) 0 bx
        (fun tidx => for_range 0 by_ (fun tidy => kernel b1 b2 tidx tidy)) s2)
        as (s3 & E3 & I3); [lia | done | |].
      * intros t1 s3 Ht1 I3.
        destruct (for_range_inv (fun t2 => I (done4 bx by_ b1 b2 t1 t2)) 0 by_
          (fun tidy => kernel b1 b2 t1 tidy) s3)
          as (s4 & E4 & I4); [lia | done | |].
        -- intros t2 s4 Ht2 I4. by apply Hstep.
        -- exists s4. split; [done|]. eapply Iext; [|exact I4].
           intros neig nm Hn Hm. unfold done4. lia.
      * exists s3. split; [done|]. eapply Iext; [|exact I3].
        intros neig nm Hn Hm. unfold done4. lia.
    + exists s2. split; [done|]. eapply Iext; [|exact I2].
      intros neig nm Hn Hm. unfold done4. lia.
  - exists s'. split; [done|]. eapply Iext; [|exact HI].
    intros neig nm Hn Hm. unfold done4. lia.
Qed.

End Launch2Facts.

Section CellFacts.
Context {F : Type} `{Arith F}.

(** What a thread of a kernel over atoms and modes does to its buffer:
    the thread of atom [neig] and mode [nm] gives each of its [C] cells
    the value [new], computed from the contents of the cell, and touches
    nothing else; a thread outside of the range does nothing. *)
Definition cell_writer (C np M bx by_ : Z) (new : Z -> Z -> Z -> F -> F)
    (kernel : Z -> Z -> Z -> Z -> list F -> option (list F)) (L : nat)
    : Prop :=
  forall b1 b2 t1 t2 s,
    0 <= b1 -> 0 <= b2 -> 0 <= t1 < bx -> 0 <= t2 < by_ -> length s = L ->
    if decide (b1 * bx + t1 < np /\ b2 * by_ + t2 < M) then
      exists s',
        kernel b1 b2 t1 t2 s = Some s' /\ length s' = L /\
        (forall c, 0 <= c < C ->
           rd s' (cell np M (b1 * bx + t1) (b2 * by_ + t2) c)
           = Some (new (b1 * bx + t1) (b2 * by_ + t2) c
                     (get s (cell np M (b1 * bx + t1) (b2 * by_ + t2) c)))) /\
        (forall j,
           (forall c, 0 <= c < C ->
              j <> cell np M (b1 * bx + t1) (b2 * by_ + t2) c) ->
           rd s' j = rd s j)
    else kernel b1 b2 t1 t2 s = Some s.

Lemma done4_next bx by_ b1 b2 t1 t2 neig nm :
  0 <= t2 ->
  done4 bx by_ b1 b2 t1 (t2 + 1) neig nm
  <-> done4 bx by_ b1 b2 t1 t2 neig nm
      \/ (neig = b1 * bx + t1 /\ nm = b2 * by_ + t2).
Proof. unfold done4. lia. Qed.

Lemma done4_not_self bx by_ b1 b2 t1 t2 :
  0 <= t1 -> 0 <= t2 ->
  ~ done4 bx by_ b1 b2 t1 t2 (b1 * bx + t1) (b2 * by_ + t2).
Proof. unfold done4. lia. Qed.

Lemma get_eq (s s' : list F) j j' : rd s j = rd s' j' -> get s j = get s' j'.
Proof. unfold get. by intros ->. Qed.

(** The launch of such a kernel on a grid that covers atoms and modes. *)
Lemma launch2_cells C np M gx gy bx by_ new kernel (s0 : list F) :
  0 < gx -> 0 < gy -> 0 < bx -> 0 < by_ ->
  np <= gx * bx -> M <= gy * by_ ->
  cell_writer C np M bx by_ new kernel (length s0) ->
  exists s',
    launch2 gx gy bx by_ kernel s0 = Some s' /\ length s' = length s0 /\
    (forall neig nm c, 0 <= neig < np -> 0 <= nm < M -> 0 <= c < C ->
       rd s' (cell np M neig nm c)
       = Some (new neig nm c (get s0 (cell np M neig nm c)))) /\
    (forall j,
       (forall neig nm c, 0 <= neig < np -> 0 <= nm < M -> 0 <= c < C ->
          j <> cell np M neig nm c) ->
       rd s' j = rd s0 j).
Proof.
  intros Hgx Hgy Hbx Hby Cx Cy Hk.
  set (I := fun (d : Z -> Z -> Prop) (s : list F) =>
    length s = length s0 /\
    (forall neig nm c, 0 <= neig < np -> 0 <= nm < M -> 0 <= c < C ->
       (d neig nm -> rd s (cell np M neig nm c)
                     = Some (new neig nm c (get s0 (cell np M neig nm c)))) /\
       (~ d neig nm -> rd s (cell np M neig nm c)
                       = rd s0 (cell np M neig nm c))) /\
    (forall j,
       (forall neig nm c, 0 <= neig < np -> 0 <= nm < M -> 0 <= c < C ->
          j <> cell np M neig nm c) ->
       rd s j = rd s0 j)).
  destruct (launch2_inv I gx gy bx by_ kernel s0) as (s' & E & L & Hc & Ho);
    try done.
  - intros d d' s Hd (L & Hc & Ho). unfold I. split; [done|]. split; [|done].
    intros neig nm c Hn Hm Hcc. destruct (Hc neig nm c) as [H1 H2]; try done.
    assert (d neig nm <-> d' neig nm) as Hdd by (apply Hd; lia).
    split; intros ?; [apply H1 | apply H2]; tauto.
  - intros b1 b2 t1 t2 s Hb1 Hb2 Ht1 Ht2 (L & Hc & Ho).
    pose proof (Hk b1 b2 t1 t2 s ltac:(lia) ltac:(lia) Ht1 Ht2 L) as Hthread.
    set (neig0 := b1 * bx + t1) in * . set (nm0 := b2 * by_ + t2) in * .
    assert (0 <= neig0) as Hn0 by (unfold neig0; nia).
    assert (0 <= nm0) as Hm0 by (unfold nm0; nia).
    pose proof (done4_not_self bx by_ b1 b2 t1 t2 ltac:(lia) ltac:(lia))
      as Hself.
    fold neig0 nm0 in Hself.
    case_decide as Hv.
    + destruct Hthread as (s' & E & L' & Hnew & Hold).
      exists s'. split; [done|]. unfold I. split; [congruence|]. split.
      * intros neig nm c Hn Hm Hcc.
        rewrite done4_next by lia. fold neig0 nm0.
        destruct (decide (neig = neig0 /\ nm = nm0)) as [[-> ->]|Hne].
        -- split; [|tauto]. intros _. rewrite Hnew by done.
           do 2 f_equal. apply get_eq.
           by apply (Hc neig0 nm0 c Hn Hm Hcc).
        -- assert (rd s' (cell np M neig nm c) = rd s (cell np M neig nm c))
             as ->.
           { apply Hold. intros c' Hc' Ecell.
             apply cell_inj in Ecell; [|lia..]. tauto. }
           destruct (Hc neig nm c Hn Hm Hcc) as [H1 H2].
           split; intros ?; [apply H1 | apply H2]; tauto.
      * intros j Hj. rewrite Hold; [by apply Ho|].
        intros c Hcc. apply Hj; lia.
    + exists s. split; [done|]. unfold I. split; [done|]. split; [|done].
      intros neig nm c Hn Hm Hcc. rewrite done4_next by lia.
      fold neig0 nm0. destruct (Hc neig nm c Hn Hm Hcc) as [H1 H2].
      split; intros ?; [apply H1 | apply H2]; intuition lia.
  - exists s'. split; [done|]. split; [done|]. split; [|done].
    intros neig nm c Hn Hm Hcc. by apply (Hc neig nm c).
Qed.

End CellFacts.

(** ** What the kernels compute *)

Section Values.
Context {F D : Type} {AF : Arith F} {AD : Arith D}.
Variables (double2float : D -> F) (float2double : F -> D) (rsqrt : F -> F).

Definition velocity (atom : Atom D) (d : Z) : list D :=
  match d with
  | 0 => atom_vx atom
  | 1 => atom_vy atom
  | _ => atom_vz atom
  end.

(** The cell of [xdotn] for atom [neig], mode [nm] and direction [d]. *)
Definition xdotn_value (atom : Atom D) (eig_ : list F) (np N1_ : Z)
    (neig nm d : Z) : F :=
  fsqrt (double2float (get (atom_mass atom) (neig + N1_)))
  *. get eig_ (neig + (d + nm * 3) * np)
  *. double2float (get (velocity atom d) (neig + N1_)).

(** [vx_ma], [vy_ma] and [vz_ma] of the heat kernels. *)
Definition ma_velocity (atom : Atom D) (eig_ xdot_ : list F) (np M N1_ : Z)
    (neig nm d : Z) : F :=
  rsqrt (double2float (get (atom_mass atom) (neig + N1_)))
  *. get eig_ (neig + (d + nm * 3) * np)
  *. double2float (float2double (get xdot_ (nm + d * M))).

(** The heat current of atom [neig] in mode [nm]: component [c] is x-in,
    x-out, y-in, y-out or z-all. *)
Definition heat_value (atom : Atom D) (eig_ xdot_ : list F) (np M N1_ : Z)
    (neig nm c : Z) : F :=
  let v := ma_velocity atom eig_ xdot_ np M N1_ neig nm in
  let s k := double2float
               (get (virial_per_atom atom) (atom_N atom * k + (neig + N1_))) in
  match c with
  | 0 => s 0 *. v 0 +. s 3 *. v 1
  | 1 => s 4 *. v 2
  | 2 => s 6 *. v 0 +. s 1 *. v 1
  | 3 => s 5 *. v 2
  | _ => s 7 *. v 0 +. s 8 *. v 1 +. s 2 *. v 2
  end.

End Values.

Lemma row_range np R neig r :
  0 <= neig < np -> 0 <= r < R -> 0 <= neig + r * np < R * np.
Proof.
  intros Hn Hr.
  assert (r * np <= (R - 1) * np) by (apply Z.mul_le_mono_nonneg_r; lia).
  assert (0 <= r * np) by (apply Z.mul_nonneg_nonneg; lia).
  lia.
Qed.

Section ThreadFacts.
Context {F D : Type} {AF : Arith F} {AD : Arith D}.
Variables (double2float : D -> F) (float2double : F -> D) (rsqrt : F -> F).

(** The buffers of a run are as large as [preprocess] makes them, and the
    atoms [N1 .. N2 - 1] exist. *)
Record sized (atom : Atom D) (this : MODAL_ANALYSIS F D) : Prop := {
  sized_N1 : 0 <= N1 this;
  sized_np : num_participating this = N2 this - N1 this;
  sized_atoms : 0 < num_participating this;
  sized_N2 : N2 this <= atom_N atom;
  sized_modes : 0 < num_modes this;
  sized_vx : Z.of_nat (length (atom_vx atom)) = atom_N atom;
  sized_vy : Z.of_nat (length (atom_vy atom)) = atom_N atom;
  sized_vz : Z.of_nat (length (atom_vz atom)) = atom_N atom;
  sized_mass : Z.of_nat (length (atom_mass atom)) = atom_N atom;
  sized_virial : Z.of_nat (length (virial_per_atom atom)) = atom_N atom * 9;
  sized_eig :
    Z.of_nat (length (eig this))
    = 3 * num_modes this * num_participating this;
  sized_xdotn :
    Z.of_nat (length (xdotn this))
    = 3 * num_modes this * num_participating this;
  sized_xdot : Z.of_nat (length (xdot this)) = 3 * num_modes this;
  sized_jmn :
    Z.of_nat (length (jmn this))
    = 5 * num_modes this * num_participating this;
  sized_jm : Z.of_nat (length (jm this)) = 5 * num_modes this;
  sized_heat :
    num_heat_stored this = num_modes this * NUM_OF_HEAT_COMPONENTS
}.

End ThreadFacts.

Section KernelFacts.
Context {F D : Type} {AF : Arith F} {AD : Arith D}.
Variables (double2float : D -> F) (float2double : F -> D) (rsqrt : F -> F).

(** A thread of [gpu_calc_xdotn] writes the three cells of its atom and
    mode. *)
Lemma calc_xdotn_writer (atom : Atom D) (eig_ : list F) np N1_ N2_ M :
  0 <= N1_ -> np = N2_ - N1_ -> 0 < np -> 0 < M ->
  N2_ <= Z.of_nat (length (atom_vx atom)) ->
  N2_ <= Z.of_nat (length (atom_vy atom)) ->
  N2_ <= Z.of_nat (length (atom_vz atom)) ->
  N2_ <= Z.of_nat (length (atom_mass atom)) ->
  Z.of_nat (length eig_) = 3 * M * np ->
  cell_writer 3 np M BLOCK_SIZE_FORCE BLOCK_SIZE_GK
    (fun neig nm d _ => xdotn_value double2float atom eig_ np N1_ neig nm d)
    (gpu_calc_xdotn double2float np N1_ N2_ M
       (atom_vx atom) (atom_vy atom) (atom_vz atom) (atom_mass atom) eig_
       BLOCK_SIZE_FORCE BLOCK_SIZE_GK)
    (Z.to_nat (3 * M * np)).
Proof.
  intros HN1 Enp Hnp HM Lvx Lvy Lvz Lmass Leig b1 b2 t1 t2 s Hb1 Hb2 Ht1 Ht2 Ls.
  unfold gpu_calc_xdotn. cbv zeta.
  set (neig := b1 * BLOCK_SIZE_FORCE + t1).
  set (nm := b2 * BLOCK_SIZE_GK + t2).
  assert (0 <= neig) as Hn0 by (unfold neig, BLOCK_SIZE_FORCE; lia).
  assert (0 <= nm) as Hm0 by (unfold nm, BLOCK_SIZE_GK; lia).
  assert (0 < M * np) as HK by nia.
  destruct (decide (neig < np /\ nm < M)) as [[Hn Hm]|Hv];
    [|case_decide; [lia|done]].
  case_decide; [|lia].
  pose proof (row_range np (3 * M) neig (nm * 3) ltac:(lia) ltac:(lia)).
  pose proof (row_range np (3 * M) neig (1 + nm * 3) ltac:(lia) ltac:(lia)).
  pose proof (row_range np (3 * M) neig (2 + nm * 3) ltac:(lia) ltac:(lia)).
  pose proof (cell_range np M 3 neig nm 0 ltac:(lia) ltac:(lia) ltac:(lia)).
  pose proof (cell_range np M 3 neig nm 1 ltac:(lia) ltac:(lia) ltac:(lia)).
  pose proof (cell_range np M 3 neig nm 2 ltac:(lia) ltac:(lia) ltac:(lia)).
  unfold cell in * .
  unfold LDG.
  rewrite (rd_get (atom_vx atom)), (rd_get (atom_vy atom)),
          (rd_get (atom_vz atom)), (rd_get (atom_mass atom)) by lia.
  rewrite !(rd_get eig_) by lia.
  cbn [fmap option_fmap option_map mbind option_bind].
  set (v := fun j : Z =>
    if decide (j = neig + nm * np) then
      xdotn_value double2float atom eig_ np N1_ neig nm 0
    else if decide (j = neig + (nm + M) * np) then
      xdotn_value double2float atom eig_ np N1_ neig nm 1
    else xdotn_value double2float atom eig_ np N1_ neig nm 2).
  pose proof (updated_none v s) as U0.
  destruct (updated_wr _ v s s (neig + nm * np)
              (fsqrt (double2float (get (atom_mass atom) (neig + N1_)))
               *. get eig_ (neig + nm * 3 * np)
               *. double2float (get (atom_vx atom) (neig + N1_))) U0)
    as (s1 & -> & U1); [lia | |].
  { unfold v. rewrite decide_True by done. reflexivity. }
  cbn [mbind option_bind].
  destruct (updated_wr _ v s s1 (neig + (nm + M) * np)
              (fsqrt (double2float (get (atom_mass atom) (neig + N1_)))
               *. get eig_ (neig + (1 + nm * 3) * np)
               *. double2float (get (atom_vy atom) (neig + N1_))) U1)
    as (s2 & -> & U2); [lia | |].
  { unfold v. rewrite decide_False by lia. rewrite decide_True by done.
    reflexivity. }
  cbn [mbind option_bind].
  destruct (updated_wr _ v s s2 (neig + (nm + 2 * M) * np)
              (fsqrt (double2float (get (atom_mass atom) (neig + N1_)))
               *. get eig_ (neig + (2 + nm * 3) * np)
               *. double2float (get (atom_vz atom) (neig + N1_))) U2)
    as (s3 & E3 & U3); [lia | |].
  { unfold v. rewrite !decide_False by lia. reflexivity. }
  exists s3. split; [exact E3|].
  destruct U3 as (L3 & Hin & Hout). split; [congruence|]. split.
  - intros c Hc.
    assert (c = 0 \/ c = 1 \/ c = 2) as [-> | [-> | ->]] by lia.
    + rewrite Hin by (left; left; right; lia). unfold v.
      rewrite decide_True by lia. done.
    + rewrite Hin by (left; right; lia). unfold v.
      rewrite decide_False by lia. rewrite decide_True by lia. done.
    + rewrite Hin by (right; lia). unfold v.
      rewrite !decide_False by lia. done.
  - intros j Hj. apply Hout.
    pose proof (Hj 0 ltac:(lia)). pose proof (Hj 1 ltac:(lia)).
    pose proof (Hj 2 ltac:(lia)). lia.
Qed.

(** The assignment of the heat kernels: [upd old t] is the new content of
    a cell that held [old] and is assigned [t]. *)
Definition assign_ok (upd : F -> F -> F)
    (assign : list F -> Z -> F -> option (list F)) : Prop :=
  forall (P : Z -> Prop) (v : Z -> F) (a a' : list F) i t,
    updated P v a a' -> ~ P i -> 0 <= i < Z.of_nat (length a) ->
    upd (get a i) t = v i ->
    exists a'', assign a' i t = Some a''
                /\ updated (fun j => P j \/ j = i) v a a''.

Lemma wr_assign_ok : assign_ok (fun _ t => t) wr.
Proof. intros P v a a' i t U _ Hi E. by apply updated_wr. Qed.

Lemma modify_assign_ok :
  assign_ok (fun old t => old +. t)
    (fun g_jmn i v => modify g_jmn i (fun old => old +. v)).
Proof.
  intros P v a a' i t U Hn Hi E.
  apply (updated_modify P v a a' i _ (get a i)); try done.
  by apply rd_get.
Qed.

(** A thread of [gpu_set_jmn] or [gpu_accumulate_jmn] assigns the five
    cells of its atom and mode. *)
Lemma jmn_writer upd assign (atom : Atom D) (eig_ xdot_ : list F)
    np N1_ N2_ M :
  assign_ok upd assign ->
  0 <= N1_ -> np = N2_ - N1_ -> 0 < np -> 0 < M -> N2_ <= atom_N atom ->
  Z.of_nat (length (atom_mass atom)) = atom_N atom ->
  Z.of_nat (length (virial_per_atom atom)) = atom_N atom * 9 ->
  Z.of_nat (length eig_) = 3 * M * np ->
  Z.of_nat (length xdot_) = 3 * M ->
  cell_writer 5 np M BLOCK_SIZE_FORCE BLOCK_SIZE_GK
    (fun neig nm c old =>
       upd old (heat_value double2float float2double rsqrt atom eig_ xdot_
                  np M N1_ neig nm c))
    (jmn_thread double2float float2double rsqrt assign np N1_ N2_
       (virial atom) (atom_mass atom) eig_ xdot_ M
       BLOCK_SIZE_FORCE BLOCK_SIZE_GK)
    (Z.to_nat (5 * M * np)).
Proof.
  intros Hassign HN1 Enp Hnp HM HN2 Lmass Lvir Leig Lxdot
         b1 b2 t1 t2 s Hb1 Hb2 Ht1 Ht2 Ls.
  unfold jmn_thread. cbv zeta.
  set (neig := b1 * BLOCK_SIZE_FORCE + t1).
  set (nm := b2 * BLOCK_SIZE_GK + t2).
  assert (0 <= neig) as Hn0 by (unfold neig, BLOCK_SIZE_FORCE; lia).
  assert (0 <= nm) as Hm0 by (unfold nm, BLOCK_SIZE_GK; lia).
  assert (0 < M * np) as HK by nia.
  destruct (decide (neig < np /\ nm < M)) as [[Hn Hm]|Hv];
    [|case_decide; [lia|done]].
  case_decide; [|lia].
  pose proof (row_range np (3 * M) neig (nm * 3) ltac:(lia) ltac:(lia)).
  pose proof (row_range np (3 * M) neig (1 + nm * 3) ltac:(lia) ltac:(lia)).
  pose proof (row_range np (3 * M) neig (2 + nm * 3) ltac:(lia) ltac:(lia)).
  pose proof (cell_range np M 5 neig nm 0 ltac:(lia) ltac:(lia) ltac:(lia)).
  pose proof (cell_range np M 5 neig nm 1 ltac:(lia) ltac:(lia) ltac:(lia)).
  pose proof (cell_range np M 5 neig nm 2 ltac:(lia) ltac:(lia) ltac:(lia)).
  pose proof (cell_range np M 5 neig nm 3 ltac:(lia) ltac:(lia) ltac:(lia)).
  pose proof (cell_range np M 5 neig nm 4 ltac:(lia) ltac:(lia) ltac:(lia)).
  unfold cell in * .
  unfold LDG, load, virial. cbn [sxx sxy sxz syx syy syz szx szy szz fst snd].
  rewrite (rd_get (atom_mass atom)) by lia.
  rewrite !(rd_get eig_), !(rd_get xdot_) by lia.
  rewrite !(rd_get (virial_per_atom atom)) by lia.
  cbn [mbind option_bind].
  set (h := heat_value double2float float2double rsqrt atom eig_ xdot_
              np M N1_ neig nm).
  set (v := fun j : Z =>
    if decide (j = neig + nm * np) then upd (get s j) (h 0)
    else if decide (j = neig + (nm + M) * np) then upd (get s j) (h 1)
    else if decide (j = neig + (nm + 2 * M) * np) then upd (get s j) (h 2)
    else if decide (j = neig + (nm + 3 * M) * np) then upd (get s j) (h 3)
    else upd (get s j) (h 4)).
  assert (forall c, 0 <= c < 5 ->
            v (neig + (nm + c * M) * np)
            = upd (get s (neig + (nm + c * M) * np)) (h c)) as Hv.
  { intros c Hc. unfold v.
    assert (c = 0 \/ c = 1 \/ c = 2 \/ c = 3 \/ c = 4)
      as [-> | [-> | [-> | [-> | ->]]]] by lia;
      repeat (rewrite decide_False by lia);
      try (rewrite decide_True by lia); done. }
  pose proof (updated_none v s) as U0.
  pose proof (Hv 0 ltac:(lia)) as Hv0. pose proof (Hv 1 ltac:(lia)) as Hv1.
  pose proof (Hv 2 ltac:(lia)) as Hv2. pose proof (Hv 3 ltac:(lia)) as Hv3.
  pose proof (Hv 4 ltac:(lia)) as Hv4.
  replace (neig + (nm + 0 * M) * np) with (neig + nm * np) in Hv0 by lia.
  replace (neig + (nm + 1 * M) * np) with (neig + (nm + M) * np) in Hv1 by lia.
  match goal with |- context [assign ?a ?i ?t] =>
    destruct (Hassign _ v s a i t U0) as (s1 & E1 & U1);
      [tauto | lia | rewrite Hv0; f_equal; unfold h, heat_value, ma_velocity;
                    cbv zeta; repeat (f_equal; try lia) |]
  end.
  rewrite E1. cbn [mbind option_bind]. clear E1.
  match goal with |- context [assign ?a ?i ?t] =>
    destruct (Hassign _ v s a i t U1) as (s2 & E2 & U2);
      [lia | lia | rewrite Hv1; f_equal; unfold h, heat_value, ma_velocity;
                    cbv zeta; repeat (f_equal; try lia) |]
  end.
  rewrite E2. cbn [mbind option_bind]. clear E2.
  match goal with |- context [assign ?a ?i ?t] =>
    destruct (Hassign _ v s a i t U2) as (s3 & E3 & U3);
      [lia | lia | rewrite Hv2; f_equal; unfold h, heat_value, ma_velocity;
                    cbv zeta; repeat (f_equal; try lia) |]
  end.
  rewrite E3. cbn [mbind option_bind]. clear E3.
  match goal with |- context [assign ?a ?i ?t] =>
    destruct (Hassign _ v s a i t U3) as (s4 & E4 & U4);
      [lia | lia | rewrite Hv3; f_equal; unfold h, heat_value, ma_velocity;
                    cbv zeta; repeat (f_equal; try lia) |]
  end.
  rewrite E4. cbn [mbind option_bind]. clear E4.
  match goal with |- context [assign ?a ?i ?t] =>
    destruct (Hassign _ v s a i t U4) as (s5 & E5 & U5);
      [lia | lia | rewrite Hv4; f_equal; unfold h, heat_value, ma_velocity;
                    cbv zeta; repeat (f_equal; try lia) |]
  end.
  exists s5. split; [exact E5|].
  destruct U5 as (L5 & Hin & Hout). split; [congruence|]. split.
  - intros c Hc. rewrite <- Hv by done. apply Hin.
    assert (c = 0 \/ c = 1 \/ c = 2 \/ c = 3 \/ c = 4)
      as [-> | [-> | [-> | [-> | ->]]]] by lia; lia.
  - intros j Hj. apply Hout.
    pose proof (Hj 0 ltac:(lia)). pose proof (Hj 1 ltac:(lia)).
    pose proof (Hj 2 ltac:(lia)). pose proof (Hj 3 ltac:(lia)).
    pose proof (Hj 4 ltac:(lia)). lia.
Qed.

End KernelFacts.

(** ** Reductions over atoms and over modes *)

Section BlockFacts.
Context {F : Type} `{AddLaws F}.

(** A block of [2^k] threads that sums [cnt] terms in patches. *)
Lemma block_sum (k : nat) B cnt (term : Z -> option F) (g : Z -> F) :
  B = 2 ^ Z.of_nat k -> 1 < B -> 0 <= cnt ->
  (forall n, 0 <= n < cnt -> term n = Some (g n)) ->
  block_reduce B ((cnt - 1) `quot` B + 1) cnt term = Some (sumZ g cnt).
Proof.
  intros -> HB Hc Hterm.
  destruct (rounds_cover cnt (2 ^ Z.of_nat k) Hc HB) as [Hr Hcover].
  apply block_reduce_exact; [lia | lia | done].
Qed.

(** What a block of a reduction kernel does to its output: block [bid]
    gives the cells [bid + c * K] the values [val bid c] and touches
    nothing else. *)
Definition block_writer (C K : Z) (val : Z -> Z -> F)
    (block : Z -> list F -> option (list F)) (L : nat) : Prop :=
  forall bid s, 0 <= bid < K -> length s = L ->
    exists s',
      block bid s = Some s' /\ length s' = L /\
      (forall c, 0 <= c < C -> rd s' (bid + c * K) = Some (val bid c)) /\
      (forall j, (forall c, 0 <= c < C -> j <> bid + c * K) ->
         rd s' j = rd s j).

Lemma launch_blocks_cells C K val block (s0 : list F) :
  0 < K ->
  block_writer C K val block (length s0) ->
  exists s',
    launch_blocks K block s0 = Some s' /\ length s' = length s0 /\
    forall bid c, 0 <= bid < K -> 0 <= c < C ->
      rd s' (bid + c * K) = Some (val bid c).
Proof.
  intros HK Hb.
  destruct (launch_blocks_inv
    (fun b s => length s = length s0 /\
       forall bid c, 0 <= bid < b -> bid < K -> 0 <= c < C ->
         rd s (bid + c * K) = Some (val bid c)) K block s0)
    as (s' & E & L & Hc); [done | | |].
  - split; [done|]. intros bid c Hbid. lia.
  - intros b s Hb0 (L & Hc).
    destruct (Hb b s Hb0 L) as (s' & E & L' & Hnew & Hold).
    exists s'. split; [done|]. split; [done|].
    intros bid c Hbid HbK Hcc.
    destruct (decide (bid = b)) as [->|Hne]; [by apply Hnew|].
    rewrite Hold; [apply Hc; lia|].
    intros c' Hc' Ecell.
    destruct (row_inj K bid c b c'); [lia | lia | done | done].
  - exists s'. split; [done|]. split; [done|].
    intros bid c Hbid Hcc. apply Hc; lia.
Qed.

End BlockFacts.

Section WriteFacts.
Context {F : Type} `{Arith F}.

(** Thread 0 of a block stores three or five sums, [K] cells apart. *)
Lemma three_writes K bid (x0 x1 x2 : F) (s : list F) :
  0 <= bid < K -> Z.of_nat (length s) = 3 * K ->
  exists s',
    (data ← wr s bid x0;
     data ← wr data (bid + K) x1;
     wr data (bid + 2 * K) x2) = Some s' /\
    length s' = length s /\
    (forall c, 0 <= c < 3 ->
       rd s' (bid + c * K)
       = Some (match c with 0 => x0 | 1 => x1 | _ => x2 end)) /\
    (forall j, (forall c, 0 <= c < 3 -> j <> bid + c * K) -> rd s' j = rd s j).
Proof.
  intros Hb L.
  set (v := fun j : Z =>
    if decide (j = bid) then x0
    else if decide (j = bid + K) then x1 else x2).
  pose proof (updated_none v s) as U0.
  destruct (updated_wr _ v s s bid x0 U0) as (s1 & -> & U1);
    [lia | unfold v; by rewrite decide_True |].
  cbn [mbind option_bind].
  destruct (updated_wr _ v s s1 (bid + K) x1 U1) as (s2 & -> & U2);
    [lia | unfold v; rewrite decide_False by lia; by rewrite decide_True |].
  cbn [mbind option_bind].
  destruct (updated_wr _ v s s2 (bid + 2 * K) x2 U2) as (s3 & -> & U3);
    [lia | unfold v; by rewrite !decide_False by lia |].
  exists s3. split; [done|]. destruct U3 as (L3 & Hin & Hout).
  split; [done|]. split.
  - intros c Hc.
    assert (c = 0 \/ c = 1 \/ c = 2) as [-> | [-> | ->]] by lia;
      (rewrite Hin by lia); unfold v;
      repeat (rewrite decide_False by lia);
      try (rewrite decide_True by lia); done.
  - intros j Hj. apply Hout.
    pose proof (Hj 0 ltac:(lia)). pose proof (Hj 1 ltac:(lia)).
    pose proof (Hj 2 ltac:(lia)). lia.
Qed.

Lemma five_writes K bid (x0 x1 x2 x3 x4 : F) (s : list F) :
  0 <= bid < K -> Z.of_nat (length s) = 5 * K ->
  exists s',
    (data ← wr s bid x0;
     data ← wr data (bid + K) x1;
     data ← wr data (bid + 2 * K) x2;
     data ← wr data (bid + 3 * K) x3;
     wr data (bid + 4 * K) x4) = Some s' /\
    length s' = length s /\
    (forall c, 0 <= c < 5 ->
       rd s' (bid + c * K)
       = Some (match c with
               | 0 => x0 | 1 => x1 | 2 => x2 | 3 => x3 | _ => x4
               end)) /\
    (forall j, (forall c, 0 <= c < 5 -> j <> bid + c * K) -> rd s' j = rd s j).
Proof.
  intros Hb L.
  set (v := fun j : Z =>
    if decide (j = bid) then x0
    else if decide (j = bid + K) then x1
    else if decide (j = bid + 2 * K) then x2
    else if decide (j = bid + 3 * K) then x3 else x4).
  pose proof (updated_none v s) as U0.
  destruct (updated_wr _ v s s bid x0 U0) as (s1 & -> & U1);
    [lia | unfold v; by rewrite decide_True |].
  cbn [mbind option_bind].
  destruct (updated_wr _ v s s1 (bid + K) x1 U1) as (s2 & -> & U2);
    [lia | unfold v; rewrite decide_False by lia; by rewrite decide_True |].
  cbn [mbind option_bind].
  destruct (updated_wr _ v s s2 (bid + 2 * K) x2 U2) as (s3 & -> & U3);
    [lia | unfold v; rewrite !decide_False by lia; by rewrite decide_True |].
  cbn [mbind option_bind].
  destruct (updated_wr _ v s s3 (bid + 3 * K) x3 U3) as (s4 & -> & U4);
    [lia | unfold v; rewrite !decide_False by lia; by rewrite decide_True |].
  cbn [mbind option_bind].
  destruct (updated_wr _ v s s4 (bid + 4 * K) x4 U4) as (s5 & -> & U5);
    [lia | unfold v; by rewrite !decide_False by lia |].
  exists s5. split; [done|]. destruct U5 as (L5 & Hin & Hout).
  split; [done|]. split.
  - intros c Hc.
    assert (c = 0 \/ c = 1 \/ c = 2 \/ c = 3 \/ c = 4)
      as [-> | [-> | [-> | [-> | ->]]]] by lia;
      (rewrite Hin by lia); unfold v;
      repeat (rewrite decide_False by lia);
      try (rewrite decide_True by lia); done.
  - intros j Hj. apply Hout.
    pose proof (Hj 0 ltac:(lia)). pose proof (Hj 1 ltac:(lia)).
    pose proof (Hj 2 ltac:(lia)). pose proof (Hj 3 ltac:(lia)).
    pose proof (Hj 4 ltac:(lia)). lia.
Qed.

End WriteFacts.

Section ReduceFacts.
Context {F : Type} `{AddLaws F}.

(** A block that sums the cells [idx 0 .. idx (cnt - 1)] of an array. *)
Lemma row_sum (k : nat) B cnt (a : list F) (idx idx' : Z -> Z) :
  B = 2 ^ Z.of_nat k -> 1 < B -> 0 <= cnt ->
  (forall n, 0 <= n < cnt ->
     idx n = idx' n /\ 0 <= idx n < Z.of_nat (length a)) ->
  block_reduce B ((cnt - 1) `quot` B + 1) cnt (fun n => rd a (idx n))
  = Some (sumZ (fun n => get a (idx' n)) cnt).
Proof.
  intros EB HB Hc Hidx. apply (block_sum k); try done.
  intros n Hn. destruct (Hidx n Hn) as [<- Hr]. by apply rd_get.
Qed.

(** The sum over the atoms of row [bid + c * M] of a per-atom buffer. *)
Definition atom_sum (data_n : list F) (np M bid c : Z) : F :=
  sumZ (fun n => get data_n (cell np M n bid c)) np.

Lemma gpu_reduce_xdotn_writer (data_n : list F) np M :
  0 < np -> 0 < M -> Z.of_nat (length data_n) = 3 * M * np ->
  block_writer 3 M (atom_sum data_n np M) (gpu_reduce_xdotn np M data_n)
    (Z.to_nat (3 * M)).
Proof.
  intros Hnp HM Ln bid s Hbid Ls. unfold gpu_reduce_xdotn. cbv zeta.
  assert (forall c, 0 <= c < 3 -> forall n, 0 <= n < np ->
            0 <= cell np M n bid c < Z.of_nat (length data_n)) as Hr.
  { intros c Hc n Hn. rewrite Ln. by apply cell_range. }
  unfold cell in Hr.
  rewrite (row_sum 10 ACCUM_BLOCK np data_n (fun n => n + bid * np)
             (fun n => cell np M n bid 0));
    [|done|done|lia|].
  2:{ intros n Hn. cbv beta. split; [unfold cell; lia|].
      specialize (Hr 0 ltac:(lia) n Hn).
      by replace (n + (bid + 0 * M) * np) with (n + bid * np) in Hr by lia. }
  rewrite (row_sum 10 ACCUM_BLOCK np data_n (fun n => n + (bid + M) * np)
             (fun n => cell np M n bid 1));
    [|done|done|lia|].
  2:{ intros n Hn. cbv beta. split; [unfold cell; lia|].
      specialize (Hr 1 ltac:(lia) n Hn).
      by replace (n + (bid + 1 * M) * np) with (n + (bid + M) * np) in Hr
        by lia. }
  rewrite (row_sum 10 ACCUM_BLOCK np data_n (fun n => n + (bid + 2 * M) * np)
             (fun n => cell np M n bid 2));
    [|done|done|lia|].
  2:{ intros n Hn. cbv beta. split; [unfold cell; lia|]. by apply (Hr 2). }
  cbn [mbind option_bind].
  destruct (three_writes M bid (atom_sum data_n np M bid 0)
              (atom_sum data_n np M bid 1) (atom_sum data_n np M bid 2) s)
    as (s' & E & L' & Hnew & Hold); [done | lia |].
  exists s'. split; [exact E|]. split; [congruence|]. split; [|done].
  intros c Hc. rewrite Hnew by done. f_equal.
  assert (c = 0 \/ c = 1 \/ c = 2) as [-> | [-> | ->]] by lia; done.
Qed.

Lemma gpu_reduce_jmn_writer (data_n : list F) np M :
  0 < np -> 0 < M -> Z.of_nat (length data_n) = 5 * M * np ->
  block_writer 5 M (atom_sum data_n np M) (gpu_reduce_jmn np M data_n)
    (Z.to_nat (5 * M)).
Proof.
  intros Hnp HM Ln bid s Hbid Ls. unfold gpu_reduce_jmn. cbv zeta.
  assert (forall c, 0 <= c < 5 -> forall n, 0 <= n < np ->
            0 <= cell np M n bid c < Z.of_nat (length data_n)) as Hr.
  { intros c Hc n Hn. rewrite Ln. by apply cell_range. }
  unfold cell in Hr.
  rewrite (row_sum 10 ACCUM_BLOCK np data_n (fun n => n + bid * np)
             (fun n => cell np M n bid 0));
    [|done|done|lia|].
  2:{ intros n Hn. cbv beta. split; [unfold cell; lia|].
      specialize (Hr 0 ltac:(lia) n Hn).
      by replace (n + (bid + 0 * M) * np) with (n + bid * np) in Hr by lia. }
  rewrite (row_sum 10 ACCUM_BLOCK np data_n (fun n => n + (bid + M) * np)
             (fun n => cell np M n bid 1));
    [|done|done|lia|].
  2:{ intros n Hn. cbv beta. split; [unfold cell; lia|].
      specialize (Hr 1 ltac:(lia) n Hn).
      by replace (n + (bid + 1 * M) * np) with (n + (bid + M) * np) in Hr
        by lia. }
  rewrite (row_sum 10 ACCUM_BLOCK np data_n (fun n => n + (bid + 2 * M) * np)
             (fun n => cell np M n bid 2));
    [|done|done|lia|].
  2:{ intros n Hn. cbv beta. split; [unfold cell; lia|]. by apply (Hr 2). }
  rewrite (row_sum 10 ACCUM_BLOCK np data_n (fun n => n + (bid + 3 * M) * np)
             (fun n => cell np M n bid 3));
    [|done|done|lia|].
  2:{ intros n Hn. cbv beta. split; [unfold cell; lia|]. by apply (Hr 3). }
  rewrite (row_sum 10 ACCUM_BLOCK np data_n (fun n => n + (bid + 4 * M) * np)
             (fun n => cell np M n bid 4));
    [|done|done|lia|].
  2:{ intros n Hn. cbv beta. split; [unfold cell; lia|]. by apply (Hr 4). }
  cbn [mbind option_bind].
  destruct (five_writes M bid (atom_sum data_n np M bid 0)
              (atom_sum data_n np M bid 1) (atom_sum data_n np M bid 2)
              (atom_sum data_n np M bid 3) (atom_sum data_n np M bid 4) s)
    as (s' & E & L' & Hnew & Hold); [done | lia |].
  exists s'. split; [exact E|]. split; [congruence|]. split; [|done].
  intros c Hc. rewrite Hnew by done. f_equal.
  assert (c = 0 \/ c = 1 \/ c = 2 \/ c = 3 \/ c = 4)
    as [-> | [-> | [-> | [-> | ->]]]] by lia; done.
Qed.

(** The sum of component [c] over the modes [shift .. shift + size - 1]. *)
Definition mode_sum (jm_ : list F) (M shift size c : Z) : F :=
  sumZ (fun n => get jm_ (n + shift + c * M)) size.

(** [gpu_bin_reduce] for a bin inside the modes. *)
Lemma gpu_bin_reduce_spec (jm_ : list F) M size shift num_bins_ bid
    (s : list F) :
  0 < M -> Z.of_nat (length jm_) = 5 * M ->
  0 <= size -> 0 <= shift -> shift + size <= M ->
  0 <= bid < num_bins_ -> Z.of_nat (length s) = 5 * num_bins_ ->
  exists s',
    gpu_bin_reduce M size shift num_bins_ bid
      ((size - 1) `quot` BIN_BLOCK + 1) jm_ s = Some s' /\
    length s' = length s /\
    (forall c, 0 <= c < 5 ->
       rd s' (bid + c * num_bins_) = Some (mode_sum jm_ M shift size c)) /\
    (forall j, (forall c, 0 <= c < 5 -> j <> bid + c * num_bins_) ->
       rd s' j = rd s j).
Proof.
  intros HM Lj Hsize Hshift Hfit Hbid Ls. unfold gpu_bin_reduce.
  rewrite (row_sum 7 BIN_BLOCK size jm_ (fun n => n + shift)
             (fun n => n + shift + 0 * M));
    [|done|done|lia|intros n Hn; cbv beta; lia].
  rewrite (row_sum 7 BIN_BLOCK size jm_ (fun n => n + shift + M)
             (fun n => n + shift + 1 * M));
    [|done|done|lia|intros n Hn; cbv beta; lia].
  rewrite (row_sum 7 BIN_BLOCK size jm_ (fun n => n + shift + 2 * M)
             (fun n => n + shift + 2 * M));
    [|done|done|lia|intros n Hn; cbv beta; lia].
  rewrite (row_sum 7 BIN_BLOCK size jm_ (fun n => n + shift + 3 * M)
             (fun n => n + shift + 3 * M));
    [|done|done|lia|intros n Hn; cbv beta; lia].
  rewrite (row_sum 7 BIN_BLOCK size jm_ (fun n => n + shift + 4 * M)
             (fun n => n + shift + 4 * M));
    [|done|done|lia|intros n Hn; cbv beta; lia].
  cbn [mbind option_bind].
  destruct (five_writes num_bins_ bid (mode_sum jm_ M shift size 0)
              (mode_sum jm_ M shift size 1) (mode_sum jm_ M shift size 2)
              (mode_sum jm_ M shift size 3) (mode_sum jm_ M shift size 4) s)
    as (s' & E & L' & Hnew & Hold); [done | lia |].
  exists s'. split; [exact E|]. split; [done|]. split; [|done].
  intros c Hc. rewrite Hnew by done. f_equal.
  assert (c = 0 \/ c = 1 \/ c = 2 \/ c = 3 \/ c = 4)
    as [-> | [-> | [-> | [-> | ->]]]] by lia; done.
Qed.

End ReduceFacts.

Section LinearFacts.
Context {F : Type} `{Arith F}.

(** The launch of [gpu_scale_jm] multiplies every entry by [factor]. *)
Lemma scale_launch (jm_ : list F) n factor :
  0 <= n -> n <= Z.of_nat (length jm_) ->
  exists s',
    launch ((n - 1) `quot` BLOCK_SIZE + 1) BLOCK_SIZE
      (gpu_scale_jm n factor BLOCK_SIZE) jm_ = Some s' /\
    updated (fun j => 0 <= j < n) (fun j => get jm_ j *. factor) jm_ s'.
Proof.
  intros Hn L.
  destruct (rounds_cover n BLOCK_SIZE Hn ltac:(done)) as [Hg Hcover].
  destruct (launch_inv
    (fun g s => updated (fun j => 0 <= j < Z.min g n)
                  (fun j => get jm_ j *. factor) jm_ s)
    ((n - 1) `quot` BLOCK_SIZE + 1) BLOCK_SIZE
    (gpu_scale_jm n factor BLOCK_SIZE) jm_) as (s' & E & U);
    [done | done | | |].
  - eapply updated_ext; [|apply updated_none]. intros j. cbv beta. lia.
  - intros bid tid s Hbid Htid U. unfold gpu_scale_jm. cbv zeta.
    set (g := bid * BLOCK_SIZE + tid) in * .
    assert (0 <= g) by (unfold g, BLOCK_SIZE in * ; lia).
    case_decide as Hg'.
    + destruct (updated_modify _ _ _ _ g (fun v => v *. factor)
                  (get jm_ g) U) as (s' & -> & U');
        [lia | by apply rd_get; lia | done |].
      eexists. split; [done|]. eapply updated_ext; [|exact U'].
      intros j. cbv beta. lia.
    + eexists. split; [done|]. eapply updated_ext; [|exact U].
      intros j. cbv beta. lia.
  - exists s'. split; [done|]. eapply updated_ext; [|exact U].
    intros j. cbv beta. rewrite Z.min_r by done. done.
Qed.

(** The launch of [gpu_reset_data] clears the entries below
    [num_elements]. *)
Lemma reset_data_launch (data : list F) n :
  0 <= n -> n <= Z.of_nat (length data) ->
  exists s',
    launch ((n - 1) `quot` BLOCK_SIZE + 1) BLOCK_SIZE
      (gpu_reset_data n BLOCK_SIZE) data = Some s' /\
    updated (fun j => 0 <= j < n) (fun _ => ZERO) data s'.
Proof.
  intros Hn L.
  destruct (rounds_cover n BLOCK_SIZE Hn ltac:(done)) as [Hg Hcover].
  destruct (launch_inv
    (fun g s => updated (fun j => 0 <= j < Z.min g n)
                  (fun _ => ZERO) data s)
    ((n - 1) `quot` BLOCK_SIZE + 1) BLOCK_SIZE
    (gpu_reset_data n BLOCK_SIZE) data) as (s' & E & U);
    [done | done | | |].
  - eapply updated_ext; [|apply updated_none]. intros j. cbv beta. lia.
  - intros bid tid s Hbid Htid U. unfold gpu_reset_data. cbv zeta.
    set (g := bid * BLOCK_SIZE + tid) in * .
    assert (0 <= g) by (unfold g, BLOCK_SIZE in * ; lia).
    case_decide as Hg'.
    + destruct (updated_wr _ _ _ _ g ZERO U) as (s' & -> & U');
        [lia | done |].
      eexists. split; [done|]. eapply updated_ext; [|exact U'].
      intros j. cbv beta. lia.
    + eexists. split; [done|]. eapply updated_ext; [|exact U].
      intros j. cbv beta. lia.
  - exists s'. split; [done|]. eapply updated_ext; [|exact U].
    intros j. cbv beta. rewrite Z.min_r by done. done.
Qed.

End LinearFacts.

(** ** [compute_heat] *)

Section HeatFacts.
Context {F D : Type} {AF : Arith F} {AD : Arith D} `{!AddLaws F}.
Variables (double2float : D -> F) (float2double : F -> D) (rsqrt : F -> F).

(** The modal velocity of mode [nm] in direction [d]: the sum over the
    atoms of their cells of [xdotn]. *)
Definition modal_velocity (atom : Atom D) (eig_ : list F) (np N1_ : Z)
    (nm d : Z) : F :=
  sumZ (fun n => xdotn_value double2float atom eig_ np N1_ n nm d) np.

Lemma length_to_nat {A} (l : list A) n :
  Z.of_nat (length l) = n -> length l = Z.to_nat n.
Proof. lia. Qed.

(** [compute_heat] fills [xdotn] and [xdot], and then either sets every
    cell of [jmn] or adds to it. *)
Lemma compute_heat_spec (atom : Atom D) (this : MODAL_ANALYSIS F D) :
  sized atom this ->
  let np := num_participating this in
  let M := num_modes this in
  exists xdotn_ xdot_ jmn_,
    compute_heat double2float float2double rsqrt atom this
    = Some (with_buffers this xdotn_ xdot_ jmn_ (jm this) (bin_out this)) /\
    length xdot_ = length (xdot this) /\
    length jmn_ = length (jmn this) /\
    (forall nm d, 0 <= nm < M -> 0 <= d < 3 ->
       rd xdot_ (nm + d * M)
       = Some (modal_velocity atom (eig this) np (N1 this) nm d)) /\
    (method this = GKMA_METHOD ->
     forall neig nm c, 0 <= neig < np -> 0 <= nm < M -> 0 <= c < 5 ->
       rd jmn_ (cell np M neig nm c)
       = Some (heat_value double2float float2double rsqrt atom (eig this)
                 xdot_ np M (N1 this) neig nm c)) /\
    (method this = HNEMA_METHOD ->
     forall neig nm c, 0 <= neig < np -> 0 <= nm < M -> 0 <= c < 5 ->
       rd jmn_ (cell np M neig nm c)
       = Some (get (jmn this) (cell np M neig nm c)
               +. heat_value double2float float2double rsqrt atom (eig this)
                    xdot_ np M (N1 this) neig nm c)).
Proof.
  intros Hs np M. subst np M. destruct Hs.
  unfold compute_heat. cbv zeta.
  set (np := num_participating this) in * . set (M := num_modes this) in * .
  assert (N2 this - N1 this = np) as EN by lia.
  destruct (rounds_cover np BLOCK_SIZE_FORCE ltac:(lia) ltac:(done))
    as [Hgx Hcx].
  destruct (rounds_cover M BLOCK_SIZE_GK ltac:(lia) ltac:(done))
    as [Hgy Hcy].
  rewrite EN.
  (* the per-atom modal velocities *)
  destruct (launch2_cells 3 np M
              ((np - 1) `quot` BLOCK_SIZE_FORCE + 1)
              ((M - 1) `quot` BLOCK_SIZE_GK + 1)
              BLOCK_SIZE_FORCE BLOCK_SIZE_GK
              (fun neig nm d _ =>
                 xdotn_value double2float atom (eig this) np (N1 this)
                   neig nm d)
              (gpu_calc_xdotn double2float np (N1 this) (N2 this) M
                 (atom_vx atom) (atom_vy atom) (atom_vz atom)
                 (atom_mass atom) (eig this) BLOCK_SIZE_FORCE BLOCK_SIZE_GK)
              (xdotn this))
    as (xdotn_ & -> & Lxn & Hxn & _); try done.
  { rewrite (length_to_nat _ _ sized_xdotn0).
    apply calc_xdotn_writer; lia. }
  cbn [mbind option_bind].
  (* the modal velocities *)
  destruct (launch_blocks_cells 3 M (atom_sum xdotn_ np M)
              (gpu_reduce_xdotn np M xdotn_) (xdot this))
    as (xdot_ & -> & Lxd & Hxd); [done | |].
  { rewrite (length_to_nat _ _ sized_xdot0).
    apply gpu_reduce_xdotn_writer; lia. }
  cbn [mbind option_bind].
  assert (forall nm d, 0 <= nm < M -> 0 <= d < 3 ->
            rd xdot_ (nm + d * M)
            = Some (modal_velocity atom (eig this) np (N1 this) nm d))
    as Hxdot.
  { intros nm d Hnm Hd. rewrite Hxd by done. f_equal.
    unfold atom_sum, modal_velocity. apply sumZ_ext. intros n Hn.
    apply get_rd. by apply Hxn. }
  (* the heat currents *)
  destruct (decide (method this = GKMA_METHOD)) as [Eg|Ng].
  - destruct (launch2_cells 5 np M
                ((np - 1) `quot` BLOCK_SIZE_FORCE + 1)
                ((M - 1) `quot` BLOCK_SIZE_GK + 1)
                BLOCK_SIZE_FORCE BLOCK_SIZE_GK
                (fun neig nm c old =>
                   (fun _ t : F => t) old
                     (heat_value double2float float2double rsqrt atom
                        (eig this) xdot_ np M (N1 this) neig nm c))
                (gpu_set_jmn double2float float2double rsqrt np (N1 this)
                   (N2 this) (virial atom) (atom_mass atom) (eig this) xdot_
                   M BLOCK_SIZE_FORCE BLOCK_SIZE_GK)
                (jmn this))
      as (jmn_ & -> & Lj & Hj & _); try done.
    { rewrite (length_to_nat _ _ sized_jmn0).
      apply (jmn_writer double2float float2double rsqrt (fun _ t : F => t) wr);
        try lia. apply wr_assign_ok. }
    cbn [mbind option_bind].
    exists xdotn_, xdot_, jmn_. repeat split; try done.
    intros Eh. rewrite Eg in Eh. discriminate Eh.
  - destruct (decide (method this = HNEMA_METHOD)) as [Eh|Nh].
    + destruct (launch2_cells 5 np M
                  ((np - 1) `quot` BLOCK_SIZE_FORCE + 1)
                  ((M - 1) `quot` BLOCK_SIZE_GK + 1)
                  BLOCK_SIZE_FORCE BLOCK_SIZE_GK
                  (fun neig nm c old =>
                     (fun old t : F => old +. t) old
                       (heat_value double2float float2double rsqrt atom
                          (eig this) xdot_ np M (N1 this) neig nm c))
                  (gpu_accumulate_jmn double2float float2double rsqrt np
                     (N1 this) (N2 this) (virial atom) (atom_mass atom)
                     (eig this) xdot_ M BLOCK_SIZE_FORCE BLOCK_SIZE_GK)
                  (jmn this))
        as (jmn_ & -> & Lj & Hj & _); try done.
      { rewrite (length_to_nat _ _ sized_jmn0).
        apply (jmn_writer double2float float2double rsqrt
                 (fun old t : F => old +. t)
                 (fun g_jmn i v => modify g_jmn i (fun old => old +. v)));
          try lia. apply modify_assign_ok. }
      cbn [mbind option_bind].
      exists xdotn_, xdot_, jmn_. repeat split; try done.
    + exists xdotn_, xdot_, (jmn this). repeat split; try done.
Qed.

End HeatFacts.

(** ** Bins and output *)

Section BinFacts.
Context {F D : Type} {AF : Arith F} {AD : Arith D} `{!AddLaws F}.

(** The modes of bin [b]: [size] modes from [shift] on. *)
Definition bin_size_of (this : MODAL_ANALYSIS F D) (b : Z) : Z :=
  if decide (f_flag this <> 0) then default 0 (rd (bin_count this) b)
  else bin_size this.

Definition bin_shift_of (this : MODAL_ANALYSIS F D) (b : Z) : Z :=
  if decide (f_flag this <> 0) then default 0 (rd (bin_sum this) b)
  else b * bin_size this.

(** The bins lie inside the modes, and [bin_out] has five rows of
    [num_bins] entries. *)
Record bins_ok (this : MODAL_ANALYSIS F D) : Prop := {
  bins_some : 0 < num_bins this;
  bins_out : Z.of_nat (length (bin_out this)) = 5 * num_bins this;
  bins_count :
    f_flag this <> 0 -> num_bins this <= Z.of_nat (length (bin_count this));
  bins_sum :
    f_flag this <> 0 -> num_bins this <= Z.of_nat (length (bin_sum this));
  bins_inside : forall b, 0 <= b < num_bins this ->
    0 <= bin_size_of this b /\ 0 <= bin_shift_of this b /\
    bin_shift_of this b + bin_size_of this b <= num_modes this
}.

(** Component [c] of output bin [i], and the line of bin [i]. *)
Definition binned (this : MODAL_ANALYSIS F D) (jm_ : list F) (i c : Z) : F :=
  mode_sum jm_ (num_modes this) (bin_shift_of this i) (bin_size_of this i) c.

Definition bin_line (this : MODAL_ANALYSIS F D) (jm_ : list F) (i : Z)
    : line F :=
  (binned this jm_ i 0, binned this jm_ i 1, binned this jm_ i 2,
   binned this jm_ i 3, binned this jm_ i 4).

Lemma bin_launch_spec (this : MODAL_ANALYSIS F D) (jm_ : list F) :
  bins_ok this -> 0 < num_modes this ->
  Z.of_nat (length jm_) = 5 * num_modes this ->
  exists out,
    bin_launch this jm_ = Some out /\
    length out = length (bin_out this) /\
    forall i c, 0 <= i < num_bins this -> 0 <= c < 5 ->
      rd out (i + c * num_bins this) = Some (binned this jm_ i c).
Proof.
  intros [Hnb Lout Lcount Lsum Hin] HM Lj. unfold bin_launch.
  destruct (decide (f_flag this <> 0)) as [Hf|Hf].
  - apply (launch_blocks_cells 5 (num_bins this) (binned this jm_));
      [done|].
    intros bid s Hbid Ls. unfold gpu_bin_frequencies.
    destruct (Hin bid Hbid) as (H1 & H2 & H3).
    unfold binned. unfold bin_size_of, bin_shift_of in * .
    rewrite !decide_True in * by done.
    destruct (rd_in_range (bin_count this) bid) as [size Esize];
      [specialize (Lcount Hf); lia|].
    destruct (rd_in_range (bin_sum this) bid) as [shift Eshift];
      [specialize (Lsum Hf); lia|].
    rewrite Esize, Eshift in * . cbn [mbind option_bind default] in * .
    destruct (gpu_bin_reduce_spec jm_ (num_modes this) size shift
                (num_bins this) bid s)
      as (s' & E & L' & Hnew & Hold); try done; try lia.
    exists s'. split; [done|]. split; [congruence|]. done.
  - apply (launch_blocks_cells 5 (num_bins this) (binned this jm_));
      [done|].
    intros bid s Hbid Ls. unfold gpu_bin_modes. cbv zeta.
    destruct (Hin bid Hbid) as (H1 & H2 & H3).
    unfold binned. unfold bin_size_of, bin_shift_of in * .
    rewrite !decide_False in * by done.
    destruct (gpu_bin_reduce_spec jm_ (num_modes this) (bin_size this)
                (bid * bin_size this) (num_bins this) bid s)
      as (s' & E & L' & Hnew & Hold); try done; try lia.
    exists s'. split; [done|]. split; [congruence|]. done.
Qed.

Lemma print_bins_spec nb (out : list F) (val : Z -> Z -> F) :
  0 <= nb ->
  (forall i c, 0 <= i < nb -> 0 <= c < 5 ->
     rd out (i + c * nb) = Some (val i c)) ->
  print_bins nb out
  = Some ((fun i => (val i 0, val i 1, val i 2, val i 3, val i 4))
          <$> seqZ 0 nb).
Proof.
  intros Hnb Hout. unfold print_bins.
  destruct (for_range_inv
    (fun k lines =>
       lines = (fun i => (val i 0, val i 1, val i 2, val i 3, val i 4))
               <$> seqZ 0 k) 0 nb
    (fun i lines =>
       a ← rd out i;
       b ← rd out (i + nb);
       c ← rd out (i + 2 * nb);
       d ← rd out (i + 3 * nb);
       e ← rd out (i + 4 * nb);
       Some (lines ++ [(a, b, c, d, e)])) [])
    as (lines & -> & ->); [done | done | | done].
  intros k lines Hk ->.
  pose proof (Hout k 0 Hk ltac:(lia)) as E0.
  pose proof (Hout k 1 Hk ltac:(lia)) as E1.
  replace (k + 0 * nb) with k in E0 by lia.
  replace (k + 1 * nb) with (k + nb) in E1 by lia.
  rewrite E0, E1, (Hout k 2), (Hout k 3), (Hout k 4) by lia.
  cbn [mbind option_bind]. eexists. split; [reflexivity|].
  rewrite (seqZ_app 0 k 1) by lia. by rewrite fmap_app.
Qed.

End BinFacts.

(** ** Bins of consecutive modes *)

Section IndexBins.
Context {F D : Type} {AF : Arith F} {AD : Arith D} `{!AddLaws F}
        `{!MathLib D}.

(** The sum of component [c] of [jm] over the modes
    [i * size .. (i + 1) * size - 1]. *)
Definition index_bin (jm_ : list F) (M size i c : Z) : F :=
  sumZ (fun n => get jm_ (n + i * size + c * M)) size.

Lemma index_bins_ok (this : MODAL_ANALYSIS F D) :
  f_flag this = 0 -> 1 <= bin_size this <= num_modes this ->
  num_bins this = num_modes this `quot` bin_size this ->
  Z.of_nat (length (bin_out this)) = 5 * num_bins this ->
  bins_ok this /\ num_bins this * bin_size this <= num_modes this.
Proof.
  intros Hf Hbs Enb Lout.
  rewrite Z.quot_div_nonneg in Enb by lia.
  assert (1 <= num_bins this)
    by (rewrite Enb; apply Z.div_le_lower_bound; lia).
  assert (num_bins this * bin_size this <= num_modes this).
  { rewrite Enb, Z.mul_comm. apply Z.mul_div_le. lia. }
  split; [|done]. split; try done; try lia.
  intros b Hb. unfold bin_size_of, bin_shift_of.
  rewrite !decide_False by lia.
  assert ((b + 1) * bin_size this <= num_bins this * bin_size this)
    by (apply Z.mul_le_mono_nonneg_r; lia).
  assert (0 <= b * bin_size this) by (apply Z.mul_nonneg_nonneg; lia).
  lia.
Qed.

(** C10: with [f_flag = 0] the set-up gives [num_modes / bin_size] bins
    (rounded toward zero); the launch of [gpu_bin_modes] and the output
    loop print, for bin [i], the sums of the five components over the
    modes [i * bin_size .. (i + 1) * bin_size - 1]; and the
    [num_modes mod bin_size] modes after the last bin do not enter the
    output: any two [jm] that agree on the modes below
    [num_bins * bin_size] give the same lines.  Sums are those of an
    arithmetic without rounding. *)
Theorem bins_by_mode_index (PI : D) (garbage : Z -> D)
    (garbage_int : Z -> Z) (temp0 : D) (header : list D)
    (this : MODAL_ANALYSIS F D) (jm_ : list F) :
  f_flag this = 0 ->
  1 <= bin_size this <= num_modes this ->
  setup_binning PI garbage garbage_int temp0 (f_flag this) (first_mode this)
    (num_modes this) (bin_size this) (f_bin_size this) header
    (bin_count this) (bin_sum this)
  = Some (num_bins this, bin_count this, bin_sum this) ->
  Z.of_nat (length (bin_out this)) = 5 * num_bins this ->
  Z.of_nat (length jm_) = 5 * num_modes this ->
  let lines :=
    (fun i =>
       (index_bin jm_ (num_modes this) (bin_size this) i 0,
        index_bin jm_ (num_modes this) (bin_size this) i 1,
        index_bin jm_ (num_modes this) (bin_size this) i 2,
        index_bin jm_ (num_modes this) (bin_size this) i 3,
        index_bin jm_ (num_modes this) (bin_size this) i 4))
    <$> seqZ 0 (num_bins this) in
  num_bins this = num_modes this `quot` bin_size this /\
  num_modes this - num_bins this * bin_size this
  = num_modes this `rem` bin_size this /\
  (exists out,
     bin_launch this jm_ = Some out /\
     print_bins (num_bins this) out = Some lines) /\
  (forall jm2 : list F,
     length jm2 = length jm_ ->
     (forall m c, 0 <= m < num_bins this * bin_size this -> 0 <= c < 5 ->
        get jm2 (m + c * num_modes this) = get jm_ (m + c * num_modes this)) ->
     exists out,
       bin_launch this jm2 = Some out /\
       print_bins (num_bins this) out = Some lines).
Proof.
  intros Hf Hbs Hsetup Lout Lj lines.
  assert (num_bins this = num_modes this `quot` bin_size this) as Enb.
  { unfold setup_binning in Hsetup. rewrite decide_False in Hsetup by lia.
    rewrite decide_False in Hsetup by lia. congruence. }
  destruct (index_bins_ok this Hf Hbs Enb Lout) as [Hok Hfit].
  assert (forall (a : list F),
    Z.of_nat (length a) = 5 * num_modes this ->
    exists out,
      bin_launch this a = Some out /\
      print_bins (num_bins this) out
      = Some ((fun i =>
                 (index_bin a (num_modes this) (bin_size this) i 0,
                  index_bin a (num_modes this) (bin_size this) i 1,
                  index_bin a (num_modes this) (bin_size this) i 2,
                  index_bin a (num_modes this) (bin_size this) i 3,
                  index_bin a (num_modes this) (bin_size this) i 4))
              <$> seqZ 0 (num_bins this))) as Hrun.
  { intros a La.
    destruct (bin_launch_spec this a Hok ltac:(lia) La)
      as (out & E & L & Hcells).
    exists out. split; [done|].
    apply (print_bins_spec (num_bins this) out
             (fun i c => index_bin a (num_modes this) (bin_size this) i c));
      [destruct Hok; lia|].
    intros i c Hi Hc. rewrite Hcells by done. f_equal.
    unfold binned, bin_size_of, bin_shift_of. by rewrite !decide_False by lia. }
  split; [done|]. split.
  { pose proof (Z.quot_rem' (num_modes this) (bin_size this)). lia. }
  split; [by apply Hrun|].
  intros jm2 L2 Hagree.
  destruct (Hrun jm2 ltac:(lia)) as (out & E & Ep).
  exists out. split; [done|]. rewrite Ep. f_equal.
  apply list_fmap_ext. intros k i Hk.
  apply lookup_seqZ in Hk as [-> Hk]. rewrite Z.add_0_l.
  assert (forall c, 0 <= c < 5 ->
    index_bin jm2 (num_modes this) (bin_size this) (Z.of_nat k) c
    = index_bin jm_ (num_modes this) (bin_size this) (Z.of_nat k) c) as Hsum.
  { intros c Hc. unfold index_bin. apply sumZ_ext. intros n Hn.
    apply Hagree; [|done].
    assert ((Z.of_nat k + 1) * bin_size this
            <= num_bins this * bin_size this)
      by (apply Z.mul_le_mono_nonneg_r; lia).
    assert (0 <= Z.of_nat k * bin_size this)
      by (apply Z.mul_nonneg_nonneg; lia).
    lia. }
  by rewrite !Hsum by lia.
Qed.

End IndexBins.

(** ** The life of the accumulator [jmn] *)

Section Lifecycle.
Context {F D : Type} {AF : Arith F} {AD : Arith D} `{!AddLaws F}.
Variables (double2float : D -> F) (float2double : F -> D) (rsqrt : F -> F).
Variable KAPPA_UNIT_CONVERSION : D.

(** The factor of the HNEMA output. *)
Definition scale_factor (atom : Atom D) (temperature fe : D)
    (this : MODAL_ANALYSIS F D) : F :=
  double2float
    (KAPPA_UNIT_CONVERSION
     /. (float2double (double2float (box_volume atom)) *. temperature *. fe
         *. float2double (of_int (samples_per_output this)))).

Lemma bins_ok_with_buffers (this : MODAL_ANALYSIS F D) a b c d :
  bins_ok this -> bins_ok (with_buffers this a b c d (bin_out this)).
Proof. intros [H1 H2 H3 H4 H5]. by split. Qed.

(** The reduction over the atoms, the scaling, the bins and the output
    loop of [process], for the accumulator [acc]. *)
Lemma output_spec (this : MODAL_ANALYSIS F D) (acc jm0 : list F)
    (scale : option F) :
  bins_ok this ->
  0 < num_participating this -> 0 < num_modes this ->
  num_heat_stored this = num_modes this * NUM_OF_HEAT_COMPONENTS ->
  Z.of_nat (length acc) = 5 * num_modes this * num_participating this ->
  Z.of_nat (length jm0) = 5 * num_modes this ->
  exists jm1 jm_ out,
    launch_blocks (num_modes this)
      (gpu_reduce_jmn (num_participating this) (num_modes this) acc) jm0
    = Some jm1 /\
    match scale with
    | Some factor =>
        launch ((num_heat_stored this - 1) `quot` BLOCK_SIZE + 1) BLOCK_SIZE
          (gpu_scale_jm (num_heat_stored this) factor BLOCK_SIZE) jm1
    | None => Some jm1
    end = Some jm_ /\
    length jm_ = length jm0 /\
    (forall nm c, 0 <= nm < num_modes this -> 0 <= c < 5 ->
       rd jm_ (nm + c * num_modes this)
       = Some (match scale with
               | Some factor =>
                   atom_sum acc (num_participating this) (num_modes this) nm c
                   *. factor
               | None =>
                   atom_sum acc (num_participating this) (num_modes this) nm c
               end)) /\
    bin_launch this jm_ = Some out /\
    length out = length (bin_out this) /\
    print_bins (num_bins this) out
    = Some (bin_line this jm_ <$> seqZ 0 (num_bins this)).
Proof.
  intros Hok Hnp HM Hheat Lacc Ljm.
  set (np := num_participating this) in * . set (M := num_modes this) in * .
  destruct (launch_blocks_cells 5 M (atom_sum acc np M)
              (gpu_reduce_jmn np M acc) jm0) as (jm1 & E1 & L1 & H1);
    [done | |].
  { rewrite (length_to_nat _ _ Ljm). by apply gpu_reduce_jmn_writer. }
  assert (exists jm_,
    match scale with
    | Some factor =>
        launch ((num_heat_stored this - 1) `quot` BLOCK_SIZE + 1) BLOCK_SIZE
          (gpu_scale_jm (num_heat_stored this) factor BLOCK_SIZE) jm1
    | None => Some jm1
    end = Some jm_ /\
    length jm_ = length jm0 /\
    forall nm c, 0 <= nm < M -> 0 <= c < 5 ->
      rd jm_ (nm + c * M)
      = Some (match scale with
              | Some factor => atom_sum acc np M nm c *. factor
              | None => atom_sum acc np M nm c
              end)) as (jm_ & E2 & L2 & H2).
  { destruct scale as [factor|]; [|by exists jm1].
    destruct (scale_launch jm1 (num_heat_stored this) factor)
      as (jm_ & E & L & Hin & _);
      [unfold NUM_OF_HEAT_COMPONENTS in * ; lia
      |unfold NUM_OF_HEAT_COMPONENTS in * ; lia|].
    exists jm_. split; [done|]. split; [congruence|].
    intros nm c Hnm Hc.
    assert (0 <= nm + c * M < 5 * M) as Hr by nia.
    rewrite Hin by (unfold NUM_OF_HEAT_COMPONENTS in * ; lia).
    by rewrite (get_rd _ _ _ (H1 nm c Hnm Hc)). }
  destruct (bin_launch_spec this jm_ Hok HM ltac:(lia))
    as (out & E & Lo & Ho).
  exists jm1, jm_, out. split; [done|]. split; [done|]. split; [done|].
  split; [done|]. split; [done|]. split; [done|].
  apply (print_bins_spec (num_bins this) out (binned this jm_));
    [destruct Hok; lia | done].
Qed.

End Lifecycle.

Section LifecycleClaim.
Context {F D : Type} {AF : Arith F} {AD : Arith D} `{!AddLaws F}.
Variables (double2float : D -> F) (float2double : F -> D) (rsqrt : F -> F).
Variable KAPPA_UNIT_CONVERSION : D.

(** C2: a sampled call of [process].
    - GKMA: every cell of [jmn] is set to the heat current of its atom and
      mode, computed from the modal velocities of this call, whatever the
      cell held; the sums over the atoms are binned and printed.
    - HNEMA, not an output step: the heat current is added to every cell
      and nothing is printed.
    - HNEMA, output step: the accumulated cells are summed over the atoms,
      multiplied by the factor, binned and printed, and then every cell
      of [jmn] is zero. *)
Theorem accumulator_lifecycle (step : Z) (atom : Atom D)
    (temperature fe : D) (this : MODAL_ANALYSIS F D) (file : list (line F)) :
  compute this <> 0 ->
  sample_interval this <> 0 ->
  (step + 1) `rem` sample_interval this = 0 ->
  sized atom this -> bins_ok this ->
  (method this = HNEMA_METHOD -> output_interval this <> 0) ->
  let np := num_participating this in
  let M := num_modes this in
  let heat xdot_ neig nm c :=
    heat_value double2float float2double rsqrt atom (eig this) xdot_
      np M (N1 this) neig nm c in
  exists this' file',
    process double2float float2double rsqrt KAPPA_UNIT_CONVERSION
      step atom temperature fe (this, file) = Some (this', file') /\
    length (jmn this') = length (jmn this) /\
    (forall nm d, 0 <= nm < M -> 0 <= d < 3 ->
       rd (xdot this') (nm + d * M)
       = Some (modal_velocity double2float atom (eig this) np (N1 this)
                 nm d)) /\
    (method this = GKMA_METHOD ->
     (forall neig nm c, 0 <= neig < np -> 0 <= nm < M -> 0 <= c < 5 ->
        rd (jmn this') (cell np M neig nm c)
        = Some (heat (xdot this') neig nm c)) /\
     exists jm_,
       (forall nm c, 0 <= nm < M -> 0 <= c < 5 ->
          rd jm_ (nm + c * M) = Some (atom_sum (jmn this') np M nm c)) /\
       file' = file ++ (bin_line this jm_ <$> seqZ 0 (num_bins this))) /\
    (method this = HNEMA_METHOD ->
     (step + 1) `rem` output_interval this <> 0 ->
     file' = file /\
     forall neig nm c, 0 <= neig < np -> 0 <= nm < M -> 0 <= c < 5 ->
       rd (jmn this') (cell np M neig nm c)
       = Some (get (jmn this) (cell np M neig nm c)
               +. heat (xdot this') neig nm c)) /\
    (method this = HNEMA_METHOD ->
     (step + 1) `rem` output_interval this = 0 ->
     (forall j, 0 <= j < 5 * M * np -> rd (jmn this') j = Some ZERO) /\
     exists acc jm_,
       (forall neig nm c, 0 <= neig < np -> 0 <= nm < M -> 0 <= c < 5 ->
          rd acc (cell np M neig nm c)
          = Some (get (jmn this) (cell np M neig nm c)
                  +. heat (xdot this') neig nm c)) /\
       (forall nm c, 0 <= nm < M -> 0 <= c < 5 ->
          rd jm_ (nm + c * M)
          = Some (atom_sum acc np M nm c
                  *. scale_factor double2float float2double
                       KAPPA_UNIT_CONVERSION atom temperature fe this)) /\
       file' = file ++ (bin_line this jm_ <$> seqZ 0 (num_bins this))).
Proof.
  intros Hc Hsi Hrem Hsized Hok Hoi np M heat.
  destruct (compute_heat_spec double2float float2double rsqrt atom this
              Hsized) as (xdotn_ & xdot_ & jmn_ & Eh & Lxd & Lj & Hxd & Hg & Hh).
  fold np M in Hxd, Hg, Hh.
  unfold process. rewrite decide_False by done. rewrite decide_False by done.
  rewrite decide_False by (intros Hn; apply Hn; exact Hrem).
  rewrite Eh. cbn [mbind option_bind].
  set (this1 := with_buffers this xdotn_ xdot_ jmn_ (jm this) (bin_out this)).
  change (method this1) with (method this).
  change (output_interval this1) with (output_interval this).
  change (num_modes this1) with (num_modes this).
  change (num_participating this1) with (num_participating this).
  change (jmn this1) with jmn_.
  change (jm this1) with (jm this).
  change (num_heat_stored this1) with (num_heat_stored this).
  change (samples_per_output this1) with (samples_per_output this).
  change (num_bins this1) with (num_bins this).
  change (xdotn this1) with xdotn_.
  change (xdot this1) with xdot_.
  change (bin_launch this1) with (bin_launch this).
  change (with_buffers this1) with (with_buffers this).
  subst this1.
  destruct Hsized.
  assert (Z.of_nat (length jmn_) = 5 * M * np) as Lj' by (unfold M, np; lia).
  destruct (decide (method this = HNEMA_METHOD)) as [Em|Nm].
  - rewrite decide_False by (by apply Hoi). cbn [mbind option_bind].
    destruct (decide ((step + 1) `rem` output_interval this <> 0)) as [Ho|Ho].
    + rewrite bool_decide_true by done.
      eexists _, _. split; [reflexivity|]. cbn [jmn xdot with_buffers].
      split; [done|]. split; [done|]. split.
      { intros Eg. rewrite Em in Eg. discriminate Eg. }
      split; [|done]. intros _ _. split; [done|]. by apply Hh.
    + rewrite bool_decide_false by done.
      destruct (output_spec this jmn_ (jm this)
                  (Some (scale_factor double2float float2double
                           KAPPA_UNIT_CONVERSION atom temperature fe this)))
        as (jm1 & jm_ & out & E1 & E2 & Lm & Hm & E3 & Lo & E4); try done.
      rewrite E1. cbn [mbind option_bind].
      unfold scale_factor in E2. rewrite E2. cbn [mbind option_bind].
      rewrite E3. cbn [mbind option_bind]. rewrite E4.
      cbn [mbind option_bind].
      destruct (reset_data_launch jmn_
                  (num_heat_stored this * num_participating this))
        as (zero & -> & Lz & Hz & _).
      { rewrite sized_heat0. unfold NUM_OF_HEAT_COMPONENTS. nia. }
      { rewrite sized_heat0. unfold NUM_OF_HEAT_COMPONENTS.
        fold M np. lia. }
      cbn [mbind option_bind].
      eexists _, _. split; [reflexivity|]. cbn [jmn xdot with_buffers].
      split; [congruence|]. split; [done|]. split.
      { intros Eg. rewrite Em in Eg. discriminate Eg. }
      split; [done|]. intros _ _. split.
      { intros j Hj. apply Hz. rewrite sized_heat0.
        unfold NUM_OF_HEAT_COMPONENTS. fold M np. lia. }
      exists jmn_, jm_. split; [by apply Hh|]. split; [|done].
      intros nm c Hnm Hcc. by rewrite Hm.
  - cbn [mbind option_bind].
    destruct (output_spec this jmn_ (jm this) None)
      as (jm1 & jm_ & out & E1 & E2 & Lm & Hm & E3 & Lo & E4); try done.
    injection E2 as ->.
    rewrite E1. cbn [mbind option_bind].
    rewrite E3. cbn [mbind option_bind]. rewrite E4.
    cbn [mbind option_bind].
    eexists _, _. split; [reflexivity|]. cbn [jmn xdot with_buffers].
    split; [done|]. split; [done|]. split; [|done].
    intros Eg. split; [by apply Hg|].
    exists jm_. split; [|done]. intros nm c Hnm Hcc. by rewrite Hm.
Qed.

End LifecycleClaim.

(** One atom and one mode, sampled at every step, with one bin of one
    mode; all numbers are reals. *)
Definition one_atom : Atom R :=
  {| atom_N := 1;
     atom_vx := [1%R]; atom_vy := [0%R]; atom_vz := [0%R];
     atom_mass := [1%R];
     virial_per_atom := [1%R; 0%R; 0%R; 0%R; 0%R; 0%R; 0%R; 0%R; 0%R];
     box_volume := 1%R |}.

Definition one_mode (method_ : Z) : MODAL_ANALYSIS R R :=
  {| compute := 1; method := method_; output_interval := 2;
     sample_interval := 1; first_mode := 1; last_mode := 1;
     bin_size := 1; f_bin_size := 1%R; f_flag := 0; num_modes := 1;
     atom_begin := 0; atom_end := 0;
     eig := [1%R; 0%R; 0%R];
     xdotn := [0%R; 0%R; 0%R];
     xdot := [0%R; 0%R; 0%R];
     jmn := [7%R; 7%R; 7%R; 7%R; 7%R];
     jm := [0%R; 0%R; 0%R; 0%R; 0%R];
     bin_out := [0%R; 0%R; 0%R; 0%R; 0%R];
     bin_count := []; bin_sum := [];
     samples_per_output := 2; num_bins := 1; N1 := 0; N2 := 1;
     num_participating := 1; num_heat_stored := 5 |}.

Lemma one_mode_sized method_ : sized one_atom (one_mode method_).
Proof. split; simpl; (reflexivity || lia). Qed.

Lemma one_mode_bins method_ : bins_ok (one_mode method_).
Proof.
  split; simpl; try (reflexivity || lia).
  intros b Hb. unfold bin_size_of, bin_shift_of. simpl. lia.
Qed.

Lemma hnema_output_step_resets :
  exists this' file',
    process (fun x : R => x) (fun x : R => x)
      (fun x : R => (1 / R_sqrt.sqrt x)%R) 1%R 1 one_atom 1%R 1%R
      (one_mode HNEMA_METHOD, []) = Some (this', file') /\
    forall j, 0 <= j < 5 -> rd (jmn this') j = Some 0%R.
Proof.
  destruct (accumulator_lifecycle (fun x : R => x) (fun x : R => x)
              (fun x : R => (1 / R_sqrt.sqrt x)%R) 1%R 1 one_atom 1%R 1%R
              (one_mode HNEMA_METHOD) [])
    as (this' & file' & E & _ & _ & _ & _ & Hout).
  - simpl. lia.
  - simpl. lia.
  - reflexivity.
  - apply one_mode_sized.
  - apply one_mode_bins.
  - intros _. simpl. lia.
  - exists this', file'. split; [exact E|].
    destruct (Hout eq_refl eq_refl) as [Hz _]. exact Hz.
Defined.

(** Five modes in bins of two: two bins, and the fifth mode is left
    over. *)
Definition five_modes : MODAL_ANALYSIS R float :=
  {| compute := 1; method := GKMA_METHOD; output_interval := 1;
     sample_interval := 1; first_mode := 1; last_mode := 5;
     bin_size := 2; f_bin_size := 1%float; f_flag := 0; num_modes := 5;
     atom_begin := 0; atom_end := 0;
     eig := []; xdotn := []; xdot := []; jmn := []; jm := [];
     bin_out := replicate 10 0%R;
     bin_count := []; bin_sum := [];
     samples_per_output := 1; num_bins := 2; N1 := 0; N2 := 1;
     num_participating := 1; num_heat_stored := 25 |}.

Lemma five_modes_in_two_bins :
  num_bins five_modes = 5 `quot` 2 /\
  5 - num_bins five_modes * 2 = 5 `rem` 2 /\
  exists out, bin_launch five_modes (replicate 25 1%R) = Some out.
Proof.
  destruct (bins_by_mode_index VAC.PI64 no_garbage no_garbage_int 0%float []
              five_modes (replicate 25 1%R))
    as (E1 & E2 & (out & E3 & _) & _).
  - reflexivity.
  - simpl. lia.
  - reflexivity.
  - reflexivity.
  - reflexivity.
  - split; [exact E1|]. split; [exact E2|]. exists out. exact E3.
Defined.

(** ** The atoms that take part: [MODAL_ANALYSIS::setN] *)

(** [MODAL_ANALYSIS::setN]: the new [N1], [N2] and [num_participating];
    [cpu_type_size] is [atom->cpu_type_size]. *)
Definition setN (cpu_type_size : list Z) (atom_begin atom_end : Z)
    : option (Z * Z * Z) :=
  N1 ← for_range 0 atom_begin (fun n N1 =>
          s ← rd cpu_type_size n; Some (N1 + s)) 0;
  N2 ← for_range atom_begin (atom_end + 1) (fun n N2 =>
          s ← rd cpu_type_size n; Some (N2 + s)) 0;
  Some (N1, N2, N2 - N1).

(** The number of atoms of the types [lo .. hi-1]. *)
Definition atoms_of_types (cpu_type_size : list Z) (lo hi : Z) : Z :=
  total (take (Z.to_nat (hi - lo)) (drop (Z.to_nat lo) cpu_type_size)).

Lemma atoms_of_types_succ (l : list Z) lo k v :
  0 <= lo <= k -> rd l k = Some v ->
  atoms_of_types l lo (k + 1) = atoms_of_types l lo k + v.
Proof.
  intros Hk E. unfold atoms_of_types.
  replace (Z.to_nat (k + 1 - lo)) with (Datatypes.S (Z.to_nat (k - lo))) by lia.
  apply total_take_succ. rewrite lookup_drop.
  unfold rd in E. case_decide; [|done].
  by replace (Z.to_nat lo + Z.to_nat (k - lo))%nat with (Z.to_nat k) by lia.
Qed.

Lemma count_loop (l : list Z) lo hi :
  0 <= lo <= hi -> hi <= Z.of_nat (length l) ->
  for_range lo hi (fun n s => v ← rd l n; Some (s + v)) 0
  = Some (atoms_of_types l lo hi).
Proof.
  intros Hlo Hhi.
  destruct (for_range_inv (fun k s => s = atoms_of_types l lo k) lo hi
    (fun n s => v ← rd l n; Some (s + v)) 0) as (s & E & ->);
    [lia | | | done].
  - unfold atoms_of_types. by rewrite Z.sub_diag.
  - intros k s Hk ->. destruct (rd_in_range l k) as [v Ev]; [lia|].
    rewrite Ev, bind_Some_eq. eexists. split; [reflexivity|].
    by rewrite (atoms_of_types_succ l lo k v) by (done || lia).
Qed.

Lemma count_loop_overrun (l : list Z) lo hi :
  0 <= lo < hi -> Z.of_nat (length l) < hi ->
  for_range lo hi (fun n s => v ← rd l n; Some (s + v)) 0 = None.
Proof.
  intros Hlo Hhi.
  destruct (for_range lo hi _ 0) as [s|] eqn:E; [|done]. exfalso.
  set (len := Z.of_nat (length l)) in * .
  destruct (decide (len < lo)) as [Hlt|Hge].
  - rewrite for_range_first in E by lia.
    rewrite rd_None in E by lia. done.
  - assert (for_range lo (len + 1) (fun n s => v ← rd l n; Some (s + v)) 0
            = None) as En.
    { rewrite for_range_last by lia.
      destruct (for_range lo len _ 0); [|done]. simpl.
      by rewrite rd_None by lia. }
    unfold for_range in E, En.
    replace (hi - lo) with ((len + 1 - lo) + (hi - (len + 1))) in E by lia.
    rewrite seqZ_app, foldM_app, En in E by lia. done.
Qed.

(** [setN] on types that exist: [N1] is the number of atoms of the types
    before [atom_begin], [N2] the number of atoms of the types
    [atom_begin .. atom_end], and [num_participating] their difference.
    [N2] does not include the atoms before [atom_begin]: it is the end of
    the index range of the selected atoms only when [atom_begin] is 0,
    and then [num_participating] is the number of selected atoms.  A type
    beyond the array is read outside of it. *)
Theorem setN_counts_types (cpu_type_size : list Z) (atom_begin atom_end : Z) :
  0 <= atom_begin <= atom_end ->
  (atom_end < Z.of_nat (length cpu_type_size) ->
   let before := atoms_of_types cpu_type_size 0 atom_begin in
   let selected := atoms_of_types cpu_type_size atom_begin (atom_end + 1) in
   setN cpu_type_size atom_begin atom_end
   = Some (before, selected, selected - before) /\
   (atom_begin = 0 -> before = 0)) /\
  (Z.of_nat (length cpu_type_size) <= atom_end ->
   setN cpu_type_size atom_begin atom_end = None).
Proof.
  intros Hb. unfold setN. split.
  - intros He. cbv zeta. rewrite !count_loop by lia.
    split; [done|]. by intros ->.
  - intros He. rewrite (count_loop_overrun _ atom_begin) by lia.
    by destruct (for_range 0 atom_begin _ 0).
Qed.

Lemma three_types_second_and_third :
  (2 < Z.of_nat (length [10; 20; 30]) ->
   let before := atoms_of_types [10; 20; 30] 0 1 in
   let selected := atoms_of_types [10; 20; 30] 1 (2 + 1) in
   setN [10; 20; 30] 1 2 = Some (before, selected, selected - before) /\
   (1 = 0 -> before = 0)) /\
  (Z.of_nat (length [10; 20; 30]) <= 2 -> setN [10; 20; 30] 1 2 = None).
Proof. apply (setN_counts_types [10; 20; 30] 1 2). lia. Defined.

(** ** The frequency bins partition the modes *)

Lemma total_nonneg (l : list Z) : Forall (fun c => 0 <= c) l -> 0 <= total l.
Proof.
  induction 1 as [|x l Hx Hl IH]; unfold total in * ; simpl; lia.
Qed.

Lemma total_take_le (l : list Z) (k : nat) :
  Forall (fun c => 0 <= c) l -> 0 <= total (take k l) <= total l.
Proof.
  intros Hl. rewrite <- (take_drop k l) at 3. rewrite total_app.
  pose proof (total_nonneg (take k l) (Forall_take _ _ _ Hl)).
  pose proof (total_nonneg (drop k l) (Forall_drop _ _ _ Hl)). lia.
Qed.

Lemma nonneg_modify (l l' : list Z) k :
  Forall (fun c => 0 <= c) l ->
  modify l k (fun c => c + 1) = Some l' ->
  Forall (fun c => 0 <= c) l'.
Proof.
  intros Hl (v & Ev & Ew)%modify_inv.
  apply wr_inv in Ew as [Hk ->].
  unfold rd in Ev. case_decide; [|done].
  apply Forall_insert; [done|].
  pose proof (proj1 (Forall_lookup _ l) Hl _ _ Ev) as Hv. cbv beta in Hv. lia.
Qed.

Lemma nonneg_zeros n : Forall (fun c => 0 <= c) ((fun _ : Z => 0) <$> seqZ 0 n).
Proof. apply Forall_fmap, Forall_forall. intros x _. simpl. lia. Qed.

Section PartitionFacts.
Context {D : Type} `{Arith D} `{MathLib D}.
Variables (PI : D) (garbage : Z -> D) (garbage_int : Z -> Z) (temp0 : D).

(** A set-up of frequency bins that completes had modes and bins to
    allocate, and no counter went below zero. *)
Lemma frequency_bins_sizes first_mode M bin_size_ (f_bin_size_ : D)
    (header : list D) (bc0 bs0 : list Z) nb (bc bs : list Z) :
  setup_binning PI garbage garbage_int temp0 1 first_mode M bin_size_
    f_bin_size_ header bc0 bs0 = Some (nb, bc, bs) ->
  0 < M /\ 0 < nb /\ Forall (fun c => 0 <= c) bc.
Proof.
  unfold setup_binning. rewrite decide_True by done.
  destruct (cudaMallocManaged garbage M) as [f0|] eqn:EM; [|discriminate].
  unfold cudaMallocManaged in EM. case_decide as HM; [|discriminate EM].
  clear EM. rewrite bind_Some_eq.
  destruct (for_range 0 (first_mode - 1) _ _) as [[ss f]|];
    [|discriminate]. rewrite bind_Some_eq.
  destruct (for_range 0 M _ (ss, temp0, f)) as [[[ss' t'] f']|];
    [|discriminate]. rewrite bind_Some_eq.
  destruct (rd f' (M - 1)) as [last|]; [|discriminate].
  rewrite bind_Some_eq.
  destruct (rd f' 0) as [first|]; [|discriminate].
  rewrite bind_Some_eq.
  destruct (bin_range f_bin_size_ first last) as [[shift nb']|];
    [|discriminate]. rewrite bind_Some_eq.
  destruct (cudaMallocManaged garbage_int nb') as [a0|] eqn:Enb;
    [|discriminate].
  unfold cudaMallocManaged in Enb. case_decide as Hnb; [|discriminate Enb].
  injection Enb as <-. rewrite !bind_Some_eq.
  destruct (for_range 0 nb' _ (garbage_int <$> seqZ 0 nb')) as [bc1|] eqn:E1;
    [|discriminate]. rewrite bind_Some_eq.
  apply clear_counters in E1;
    [|lia|by rewrite length_fmap, length_seqZ; lia]. subst bc1.
  destruct (for_range 0 M _ ((fun _ : Z => 0) <$> seqZ 0 nb')) as [bc2|] eqn:E2;
    [|discriminate]. rewrite !bind_Some_eq.
  destruct (for_range 0 nb' _ (garbage_int <$> seqZ 0 nb')) as [bs1|];
    [|discriminate]. rewrite bind_Some_eq.
  destruct (for_range 1 nb' _ bs1) as [bs2|]; [|discriminate].
  rewrite bind_Some_eq. intros [= <- <- <-].
  split; [done|]. split; [done|].
  apply (for_range_inv_partial
      (fun _ (s : list Z) => Forall (fun c => 0 <= c) s)
      0 M _ _ bc2 ltac:(lia) E2).
  - apply nonneg_zeros.
  - intros k s s' Hk Hs Es.
    destruct (rd f' k) as [v|]; [|discriminate Es].
    rewrite bind_Some_eq in Es.
    destruct (bin_index f_bin_size_ shift v) as [idx|]; [|discriminate Es].
    rewrite bind_Some_eq in Es. by eapply nonneg_modify.
Qed.

Lemma setup_binning_flag f_flag first_mode M bin_size_ (f_bin_size_ : D)
    (header : list D) (bc0 bs0 : list Z) :
  f_flag <> 0 ->
  setup_binning PI garbage garbage_int temp0 f_flag first_mode M bin_size_
    f_bin_size_ header bc0 bs0
  = setup_binning PI garbage garbage_int temp0 1 first_mode M bin_size_
      f_bin_size_ header bc0 bs0.
Proof. intros Hf. unfold setup_binning. by rewrite !decide_True by done. Qed.

(** What the bins of a completed set-up look like. *)
Definition partition_of (M nb : Z) (bc bs : list Z) : Prop :=
  0 < M /\ 0 < nb /\
  Z.of_nat (length bc) = nb /\ Z.of_nat (length bs) = nb /\
  total bc = M /\
  forall i, 0 <= i < nb ->
    exists c s, rd bc i = Some c /\ rd bs i = Some s /\
      0 <= c /\ 0 <= s /\ s + c <= M /\
      (i = 0 -> s = 0) /\
      (i + 1 < nb -> rd bs (i + 1) = Some (s + c)) /\
      (i + 1 = nb -> s + c = M).

Lemma frequency_bins_partition f_flag first_mode M bin_size_ (f_bin_size_ : D)
    (header : list D) (bc0 bs0 : list Z) nb (bc bs : list Z) :
  f_flag <> 0 ->
  setup_binning PI garbage garbage_int temp0 f_flag first_mode M bin_size_
    f_bin_size_ header bc0 bs0 = Some (nb, bc, bs) ->
  partition_of M nb bc bs.
Proof.
  intros Hf E. rewrite setup_binning_flag in E by done.
  destruct (frequency_bins_sizes _ _ _ _ _ _ _ _ _ _ E) as (HM & Hnb & Hpos).
  destruct (frequency_bins_when_complete PI garbage garbage_int temp0
              _ _ _ _ _ _ _ _ _ _ E)
    as (Lbc & Lbs & Tbc & Hbs).
  repeat (split; [done|]). intros i Hi.
  destruct (rd_in_range bc i) as [c Ec]; [lia|].
  exists c, (total (take (Z.to_nat i) bc)).
  assert (total (take (Z.to_nat (i + 1)) bc)
          = total (take (Z.to_nat i) bc) + c) as Hnext.
  { replace (Z.to_nat (i + 1)) with (Datatypes.S (Z.to_nat i)) by lia.
    apply total_take_succ. unfold rd in Ec. by case_decide. }
  pose proof (total_take_le bc (Z.to_nat i) Hpos).
  pose proof (total_take_le bc (Z.to_nat (i + 1)) Hpos).
  split; [done|]. split; [by apply Hbs|].
  assert (0 <= c).
  { unfold rd in Ec. case_decide; [|done].
    by apply (proj1 (Forall_lookup _ bc) Hpos _ _ Ec). }
  repeat (split; [lia|]). split; [by intros ->|]. split.
  - intros Hlt. rewrite Hbs by lia. by rewrite Hnext.
  - intros Hlast. rewrite <- Hnext, <- Tbc. f_equal.
    rewrite firstn_all2; [done|]. lia.
Qed.

(** A set-up of the frequency bins that completes splits the modes
    into consecutive bins.  There is at least one mode and one bin; bin
    [i] holds [bin_count[i] >= 0] modes that start at mode [bin_sum[i]];
    the first bin starts at mode 0, every bin starts where the one before
    it ends, and the last bin ends at the last mode, so that every mode is
    in one bin and no bin reaches beyond the modes. *)
Theorem frequency_bins_partition_the_modes f_flag first_mode M bin_size_
    (f_bin_size_ : D) (header : list D) (bc0 bs0 : list Z) nb
    (bin_count bin_sum : list Z) :
  f_flag <> 0 ->
  setup_binning PI garbage garbage_int temp0 f_flag first_mode M bin_size_
    f_bin_size_ header bc0 bs0 = Some (nb, bin_count, bin_sum) ->
  0 < M /\ 0 < nb /\
  Z.of_nat (length bin_count) = nb /\ Z.of_nat (length bin_sum) = nb /\
  total bin_count = M /\
  forall i, 0 <= i < nb ->
    exists c s, rd bin_count i = Some c /\ rd bin_sum i = Some s /\
      0 <= c /\ 0 <= s /\ s + c <= M /\
      (i = 0 -> s = 0) /\
      (i + 1 < nb -> rd bin_sum (i + 1) = Some (s + c)) /\
      (i + 1 = nb -> s + c = M).
Proof. apply frequency_bins_partition. Qed.

End PartitionFacts.

(** ** [MODAL_ANALYSIS::preprocess] *)

Section Preprocess.
Context {F D : Type} {AF : Arith F} {AD : Arith D} `{!MathLib D}.
Variables (PI : D) (garbage : Z -> D) (garbage_int : Z -> Z) (temp0 : D).

(** The contents of the six buffers when they are allocated, and of the
    local [floatval]. *)
Variables (eig0 xdot0 xdotn0 jm0 jmn0 bin_out0 : Z -> F) (floatval0 : F).

(** [FLT_MAX] of [<cfloat>], the largest [float]. *)
Variable FLT_MAX : F.

(** What [eigfile >> floatval] finds after the white space: a number that
    [float] holds, text that is no number, or a number beyond the range of
    [float]. *)
Inductive token :=
  | number (v : F)
  | text
  | out_of_range (negative : bool).

(** [eigenvector.out] as the streams read it: the numbers of the first
    line, and the tokens of each line after it. *)
Record eigenvector_out := {
  header : list D;
  rows : list (list token)
}.

(** [eigfile] while it is read: the tokens that are left, and whether an
    operation on it has failed. *)
Record ifstream := {
  ahead : list token;
  failbit : bool
}.

(** [eigfile] after [n] calls of [getline]: the lines are skipped, and the
    call that finds no line fails. *)
Definition skip_lines (n : Z) (lines : list (list token)) : ifstream :=
  {| ahead := concat (drop (Z.to_nat n) lines);
     failbit := bool_decide (Z.of_nat (length lines) < n) |}.

(** [eigfile >> floatval], as C++11 has it: a stream that has failed is left
    alone, and so is [floatval]; at the end of the file the stream fails
    and [floatval] keeps its value; text that is no number stores zero, a
    number out of range the largest [float] with its sign, and the stream
    fails in both cases. *)
Definition extract_float (eigfile : ifstream) (floatval : F)
    : ifstream * F :=
  if failbit eigfile then (eigfile, floatval) else
  match ahead eigfile with
  | [] => ({| ahead := []; failbit := true |}, floatval)
  | number v :: rest => ({| ahead := rest; failbit := false |}, v)
  | text :: rest => ({| ahead := text :: rest; failbit := true |}, ZERO)
  | out_of_range negative :: rest =>
      ({| ahead := rest; failbit := true |},
       if negative then -. FLT_MAX else FLT_MAX)
  end.

(** The loops that fill [eig]. *)
Definition read_eig (num_modes_ num_participating_ : Z)
    (st : ifstream * F * list F) : option (ifstream * F * list F) :=
  for_range 0 num_modes_ (fun j st =>
    for_range 0 (3 * num_participating_) (fun i '(eigfile, floatval, eig_) =>
      let '(eigfile, floatval) := extract_float eigfile floatval in
      eig_ ← wr eig_ (i + 3 * num_participating_ * j) floatval;
      Some (eigfile, floatval, eig_)) st) st.

(** [MODAL_ANALYSIS::preprocess]; [eigfile] is nothing when the file cannot
    be opened.  The names of the files are left out. *)
Definition preprocess (cpu_type_size : list Z)
    (eigfile : option eigenvector_out) (this : MODAL_ANALYSIS F D)
    : VAC.outcome (MODAL_ANALYSIS F D) :=
  if decide (compute this = 0) then VAC.Done this else
  let num_modes_ := last_mode this - first_mode this + 1 in
  if decide (sample_interval this = 0) then VAC.Fault else
  let samples_per_output_ :=
    output_interval this `quot` sample_interval this in
  VAC.checked (setN cpu_type_size (atom_begin this) (atom_end this))
    (fun '(N1_, N2_, num_participating_) =>
  VAC.checked (cudaMallocManaged eig0 (num_participating_ * num_modes_ * 3))
    (fun eig_ =>
  (* initialize eigenvector data structures *)
  match eigfile with
  | None => VAC.InputError "Cannot open eigenvector.out file."
  | Some eigfile =>
  (* Setup binning *)
  VAC.checked
    (setup_binning PI garbage garbage_int temp0 (f_flag this)
       (first_mode this) num_modes_ (bin_size this) (f_bin_size this)
       (header eigfile) (bin_count this) (bin_sum this))
    (fun '(num_bins_, bin_count_, bin_sum_) =>
  (* skips modes up to first_mode *)
  let eigfile := skip_lines (first_mode this - 1) (rows eigfile) in
  VAC.checked
    (read_eig num_modes_ num_participating_ (eigfile, floatval0, eig_))
    (fun '(_, _, eig_) =>
  (* Allocate modal velocities *)
  VAC.checked (cudaMallocManaged xdot0 (num_modes_ * 3)) (fun xdot_ =>
  VAC.checked (cudaMallocManaged xdotn0 (num_modes_ * 3 * num_participating_))
    (fun xdotn_ =>
  (* Allocate modal measured quantities *)
  VAC.checked (cudaMallocManaged jm0 (num_modes_ * NUM_OF_HEAT_COMPONENTS))
    (fun jm_ =>
  VAC.checked
    (cudaMallocManaged jmn0
       (num_modes_ * NUM_OF_HEAT_COMPONENTS * num_participating_))
    (fun jmn_ =>
  VAC.checked (cudaMallocManaged bin_out0 (num_bins_ * NUM_OF_HEAT_COMPONENTS))
    (fun bin_out_ =>
  let num_heat_stored_ := num_modes_ * NUM_OF_HEAT_COMPONENTS in
  VAC.checked
    (if decide (method this = HNEMA_METHOD) then
       (* Initialize modal measured quantities *)
       launch ((num_heat_stored_ * num_participating_ - 1) `quot` BLOCK_SIZE + 1)
         BLOCK_SIZE
         (gpu_reset_data (num_heat_stored_ * num_participating_) BLOCK_SIZE)
         jmn_
     else Some jmn_)
    (fun jmn_ =>
  VAC.Done
    {| compute := compute this; method := method this;
       output_interval := output_interval this;
       sample_interval := sample_interval this;
       first_mode := first_mode this; last_mode := last_mode this;
       bin_size := bin_size this; f_bin_size := f_bin_size this;
       f_flag := f_flag this; num_modes := num_modes_;
       atom_begin := atom_begin this; atom_end := atom_end this;
       eig := eig_; xdotn := xdotn_; xdot := xdot_; jmn := jmn_;
       jm := jm_; bin_out := bin_out_;
       bin_count := bin_count_; bin_sum := bin_sum_;
       samples_per_output := samples_per_output_;
       num_bins := num_bins_; N1 := N1_; N2 := N2_;
       num_participating := num_participating_;
       num_heat_stored := num_heat_stored_ |}))))))))
  end)).

End Preprocess.

Section ReadEig.
Context {F : Type} {AF : Arith F}.
Variable FLT_MAX : F.

(** The numbers that the extractions read before one of them fails. *)
Fixpoint leading_numbers (tokens : list (token (F:=F))) : list F :=
  match tokens with
  | number v :: tokens => v :: leading_numbers tokens
  | _ => []
  end.

(** What a token leaves in [floatval]. *)
Definition stored (t : token (F:=F)) : F :=
  match t with
  | number v => v
  | text => ZERO
  | out_of_range negative => if negative then -. FLT_MAX else FLT_MAX
  end.

(** What the [k]-th extraction leaves in [floatval]: the [k]-th number
    when the extractions before it have succeeded; otherwise what the
    extraction that failed has left, which is what the token that stopped
    it stores or, at the end of the file, the last number read (what
    [floatval] held, when there is none). *)
Definition extracted (tokens : list token) (floatval0 : F) (k : Z) : F :=
  let numbers := leading_numbers tokens in
  match numbers !! Z.to_nat k with
  | Some v => v
  | None =>
      match tokens !! length numbers with
      | Some t => stored t
      | None => default floatval0 (last numbers)
      end
  end.

(** [n] extractions in a row. *)
Fixpoint extractions (n : nat) (eigfile : ifstream) (floatval : F)
    : ifstream * F :=
  match n with
  | O => (eigfile, floatval)
  | Datatypes.S n =>
      let '(eigfile, floatval) := extract_float FLT_MAX eigfile floatval in
      extractions n eigfile floatval
  end.

Lemma extractions_S n eigfile floatval :
  extractions (Datatypes.S n) eigfile floatval
  = extract_float FLT_MAX (extractions n eigfile floatval).1
      (extractions n eigfile floatval).2.
Proof.
  revert eigfile floatval.
  induction n as [|n IH]; intros eigfile floatval.
  - simpl. by destruct (extract_float FLT_MAX eigfile floatval).
  - change (extractions (Datatypes.S (Datatypes.S n)) eigfile floatval)
      with (let '(e, f) := extract_float FLT_MAX eigfile floatval in
            extractions (Datatypes.S n) e f).
    change (extractions (Datatypes.S n) eigfile floatval)
      with (let '(e, f) := extract_float FLT_MAX eigfile floatval in
            extractions n e f).
    destruct (extract_float FLT_MAX eigfile floatval) as [e f]. apply IH.
Qed.

Lemma extractions_failed n eigfile floatval :
  failbit eigfile = true ->
  extractions n eigfile floatval = (eigfile, floatval).
Proof.
  intros Hf. induction n as [|n IH]; [done|].
  simpl. unfold extract_float. by rewrite Hf.
Qed.

Lemma extracted_number v tokens (floatval0 : F) (k : nat) :
  extracted (number v :: tokens) floatval0 (Z.of_nat (Datatypes.S k))
  = extracted tokens v (Z.of_nat k).
Proof.
  unfold extracted. rewrite !Nat2Z.id. simpl.
  destruct (leading_numbers tokens !! k) as [w|]; [done|].
  destruct (tokens !! length (leading_numbers tokens)); [done|].
  rewrite last_cons. by destruct (last (leading_numbers tokens)).
Qed.

Lemma extractions_extracted (k : nat) eigfile floatval :
  failbit eigfile = false \/ ahead eigfile = [] ->
  (extractions (Datatypes.S k) eigfile floatval).2
  = extracted (ahead eigfile) floatval (Z.of_nat k).
Proof.
  destruct eigfile as [tokens failed]. simpl.
  revert k floatval failed.
  induction tokens as [|t tokens IH]; intros k floatval failed Hf.
  - unfold extract_float. simpl.
    destruct failed; by rewrite extractions_failed.
  - destruct Hf as [->|[=]]. unfold extract_float. simpl.
    destruct t as [v| |negative].
    + destruct k as [|k]; [done|].
      rewrite extracted_number. apply (IH k v false). by left.
    + by rewrite extractions_failed.
    + by rewrite extractions_failed.
Qed.

Lemma skip_lines_ready n (lines : list (list (token (F:=F)))) :
  failbit (skip_lines n lines) = false \/ ahead (skip_lines n lines) = [].
Proof.
  unfold skip_lines. simpl. case_bool_decide as Hn; [right|by left].
  by rewrite drop_ge by lia.
Qed.

Lemma extracted_inside tokens (floatval0 : F) k v :
  leading_numbers tokens !! Z.to_nat k = Some v ->
  extracted tokens floatval0 k = v.
Proof. intros E. unfold extracted. by rewrite E. Qed.

Lemma extracted_beyond tokens (floatval0 : F) k :
  Z.of_nat (length (leading_numbers tokens)) <= k ->
  extracted tokens floatval0 k
  = match tokens !! length (leading_numbers tokens) with
    | Some t => stored t
    | None => default floatval0 (last (leading_numbers tokens))
    end.
Proof.
  intros Hk. unfold extracted.
  by rewrite (lookup_ge_None_2 (leading_numbers tokens)) by lia.
Qed.

(** The state of the reading loops before the extraction number [k]. *)
Definition read_upto (eigfile : ifstream) (floatval0 : F) (eig_ : list F)
    (k : Z) (st : ifstream * F * list F) : Prop :=
  st.1 = extractions (Z.to_nat k) eigfile floatval0 /\
  updated (fun j => 0 <= j < k) (extracted (ahead eigfile) floatval0)
    eig_ st.2.

Lemma read_eig_spec (eigfile : ifstream) (floatval0 : F) (eig_ : list F)
    M np :
  failbit eigfile = false \/ ahead eigfile = [] ->
  0 <= M -> 0 <= np -> Z.of_nat (length eig_) = 3 * np * M ->
  exists st,
    read_eig FLT_MAX M np (eigfile, floatval0, eig_) = Some st /\
    updated (fun j => 0 <= j < 3 * np * M)
      (extracted (ahead eigfile) floatval0) eig_ st.2.
Proof.
  intros Hready HM Hnp L. unfold read_eig.
  destruct (for_range_inv
    (fun j st => read_upto eigfile floatval0 eig_ (3 * np * j) st) 0 M
    (fun j st =>
       for_range 0 (3 * np) (fun i '(eigfile, floatval, eig_) =>
         let '(eigfile, floatval) := extract_float FLT_MAX eigfile floatval in
         eig_ ← wr eig_ (i + 3 * np * j) floatval;
         Some (eigfile, floatval, eig_)) st)
    (eigfile, floatval0, eig_)) as (st & E & Hst); [done| | |].
  - rewrite Z.mul_0_r. split; [done|]. simpl.
    eapply updated_ext; [|apply updated_none]. intros j. cbv beta. lia.
  - intros j st Hj Hst.
    assert (3 * np * (j + 1) <= 3 * np * M) as Hjm
      by (apply Z.mul_le_mono_nonneg_l; lia).
    assert (0 <= 3 * np * j) as Hj0 by (apply Z.mul_nonneg_nonneg; lia).
    destruct (for_range_inv
      (fun i st => read_upto eigfile floatval0 eig_ (i + 3 * np * j) st)
      0 (3 * np)
      (fun i '(eigfile, floatval, eig_) =>
         let '(eigfile, floatval) := extract_float FLT_MAX eigfile floatval in
         eig_ ← wr eig_ (i + 3 * np * j) floatval;
         Some (eigfile, floatval, eig_)) st) as (st' & E & Hst');
      [lia | done | |].
    + intros i [[e fv] a] Hi (Hs & U). simpl in Hs, U.
      set (k := i + 3 * np * j) in * .
      pose proof (extractions_extracted (Z.to_nat k) eigfile floatval0 Hready)
        as EV.
      rewrite extractions_S, <- Hs, Z2Nat.id in EV by lia. simpl in EV.
      destruct (extract_float FLT_MAX e fv) as [e' fv'] eqn:Ex.
      simpl in EV.
      destruct (updated_wr _ _ _ _ k fv' U) as (a' & Ea & U');
        [lia | exact EV |].
      rewrite Ea, bind_Some_eq. eexists. split; [reflexivity|].
      replace (i + 1 + 3 * np * j) with (k + 1) by lia.
      split; simpl.
      * replace (Z.to_nat (k + 1)) with (Datatypes.S (Z.to_nat k)) by lia.
        by rewrite extractions_S, <- Hs.
      * eapply updated_ext; [|exact U']. intros j'. cbv beta. lia.
    + exists st'. split; [done|].
      replace (3 * np * (j + 1)) with (3 * np + 3 * np * j) by lia. done.
  - exists st. split; [done|]. by destruct Hst as (_ & U).
Qed.

End ReadEig.


Lemma atoms_of_types_bounds (l : list Z) lo hi :
  Forall (fun c => 0 <= c) l -> 0 <= atoms_of_types l lo hi <= total l.
Proof.
  intros Hl. unfold atoms_of_types.
  pose proof (total_take_le (drop (Z.to_nat lo) l) (Z.to_nat (hi - lo))
                (Forall_drop _ _ _ Hl)).
  pose proof (total_take_le l (Z.to_nat lo) Hl).
  rewrite <- (take_drop (Z.to_nat lo) l) at 3. rewrite total_app. lia.
Qed.

Lemma setN_Some (l : list Z) b e :
  0 <= b <= e -> e < Z.of_nat (length l) ->
  setN l b e
  = Some (atoms_of_types l 0 b, atoms_of_types l b (e + 1),
          atoms_of_types l b (e + 1) - atoms_of_types l 0 b).
Proof. intros Hb He. unfold setN. by rewrite !count_loop by lia. Qed.

Lemma cudaMallocManaged_fresh {A} (g : Z -> A) n :
  0 < n -> cudaMallocManaged g n = Some (g <$> seqZ 0 n).
Proof. intros Hn. unfold cudaMallocManaged. by rewrite decide_True. Qed.

Lemma cudaMallocManaged_refuses {A} (g : Z -> A) n :
  n <= 0 -> cudaMallocManaged g n = None.
Proof. intros Hn. unfold cudaMallocManaged. by rewrite decide_False by lia. Qed.

Lemma length_fresh {A} (g : Z -> A) n :
  0 <= n -> Z.of_nat (length (g <$> seqZ 0 n)) = n.
Proof. intros Hn. rewrite length_fmap, length_seqZ. lia. Qed.

Section PreprocessFacts.
Context {F D : Type} {AF : Arith F} {AD : Arith D} `{!MathLib D}.
Variables (PI : D) (garbage : Z -> D) (garbage_int : Z -> Z) (temp0 : D).
Variables (eig0 xdot0 xdotn0 jm0 jmn0 bin_out0 : Z -> F) (floatval0 : F).
Variable FLT_MAX : F.

(** What the reading loops meet: the tokens of the lines after the first
    [first_mode - 1] lines of eigenvectors. *)
Definition tokens_after (eigfile : eigenvector_out (F:=F) (D:=D))
    (first_mode_ : Z) : list token :=
  concat (drop (Z.to_nat (first_mode_ - 1)) (rows eigfile)).

Lemma preprocess_spec (cpu_type_size : list Z)
    (eigfile : eigenvector_out (F:=F) (D:=D)) (this : MODAL_ANALYSIS F D)
    nb bc bs :
  let M := last_mode this - first_mode this + 1 in
  let before := atoms_of_types cpu_type_size 0 (atom_begin this) in
  let selected :=
    atoms_of_types cpu_type_size (atom_begin this) (atom_end this + 1) in
  let np := selected - before in
  compute this <> 0 -> sample_interval this <> 0 ->
  0 <= atom_begin this <= atom_end this ->
  atom_end this < Z.of_nat (length cpu_type_size) ->
  0 < np -> 0 < M ->
  setup_binning PI garbage garbage_int temp0 (f_flag this) (first_mode this)
    M (bin_size this) (f_bin_size this) (header eigfile)
    (bin_count this) (bin_sum this) = Some (nb, bc, bs) ->
  0 < nb ->
  exists eig_ jmn_,
    preprocess PI garbage garbage_int temp0 eig0 xdot0 xdotn0 jm0 jmn0
      bin_out0 floatval0 FLT_MAX cpu_type_size (Some eigfile) this
    = VAC.Done
        {| compute := compute this; method := method this;
           output_interval := output_interval this;
           sample_interval := sample_interval this;
           first_mode := first_mode this; last_mode := last_mode this;
           bin_size := bin_size this; f_bin_size := f_bin_size this;
           f_flag := f_flag this; num_modes := M;
           atom_begin := atom_begin this; atom_end := atom_end this;
           eig := eig_; xdotn := xdotn0 <$> seqZ 0 (M * 3 * np);
           xdot := xdot0 <$> seqZ 0 (M * 3); jmn := jmn_;
           jm := jm0 <$> seqZ 0 (M * NUM_OF_HEAT_COMPONENTS);
           bin_out := bin_out0 <$> seqZ 0 (nb * NUM_OF_HEAT_COMPONENTS);
           bin_count := bc; bin_sum := bs;
           samples_per_output :=
             output_interval this `quot` sample_interval this;
           num_bins := nb; N1 := before; N2 := selected;
           num_participating := np;
           num_heat_stored := M * NUM_OF_HEAT_COMPONENTS |} /\
    updated (fun j => 0 <= j < 3 * np * M)
      (extracted FLT_MAX (tokens_after eigfile (first_mode this)) floatval0)
      (eig0 <$> seqZ 0 (np * M * 3)) eig_ /\
    Z.of_nat (length jmn_) = 5 * M * np /\
    (method this = HNEMA_METHOD ->
     forall j, 0 <= j < 5 * M * np -> rd jmn_ j = Some ZERO).
Proof.
  intros M before selected np Hc Hs Hb He Hnp HM Ebin Hnb.
  assert (0 < np * M) by (apply Z.mul_pos_pos; lia).
  destruct (read_eig_spec FLT_MAX
              (skip_lines (first_mode this - 1) (rows eigfile))
              floatval0 (eig0 <$> seqZ 0 (np * M * 3)) M np)
    as ([[ss fv] eig_] & Eeig & Ueig);
    [apply skip_lines_ready | lia | lia | |].
  { rewrite length_fresh by lia. lia. }
  simpl in Ueig.
  assert (exists jmn_,
    (if decide (method this = HNEMA_METHOD) then
       launch ((M * NUM_OF_HEAT_COMPONENTS * np - 1) `quot` BLOCK_SIZE + 1)
         BLOCK_SIZE
         (gpu_reset_data (M * NUM_OF_HEAT_COMPONENTS * np) BLOCK_SIZE)
         (jmn0 <$> seqZ 0 (M * NUM_OF_HEAT_COMPONENTS * np))
     else Some (jmn0 <$> seqZ 0 (M * NUM_OF_HEAT_COMPONENTS * np)))
    = Some jmn_ /\
    Z.of_nat (length jmn_) = 5 * M * np /\
    (method this = HNEMA_METHOD ->
     forall j, 0 <= j < 5 * M * np -> rd jmn_ j = Some ZERO))
    as (jmn_ & Ejmn & Ljmn & Zjmn).
  { assert (0 < M * NUM_OF_HEAT_COMPONENTS * np)
      by (unfold NUM_OF_HEAT_COMPONENTS; lia).
    assert (M * NUM_OF_HEAT_COMPONENTS * np = 5 * M * np) as E5
      by (unfold NUM_OF_HEAT_COMPONENTS; lia).
    case_decide as Hm.
    - destruct (reset_data_launch
                  (jmn0 <$> seqZ 0 (M * NUM_OF_HEAT_COMPONENTS * np))
                  (M * NUM_OF_HEAT_COMPONENTS * np))
        as (s' & Es & (L & Hin & _)); [lia | rewrite length_fresh; lia |].
      exists s'. split; [done|]. split.
      + rewrite L, length_fresh; lia.
      + intros _ j Hj. apply Hin. lia.
    - eexists. split; [done|]. split; [rewrite length_fresh; lia | done]. }
  exists eig_, jmn_. split; [|done].
  unfold preprocess.
  rewrite (decide_False (P := compute this = 0)) by done.
  rewrite (decide_False (P := sample_interval this = 0)) by done.
  cbv zeta. rewrite setN_Some by done. unfold VAC.checked at 1.
  fold before selected. fold np. fold M.
  rewrite (cudaMallocManaged_fresh eig0) by lia. unfold VAC.checked at 1.
  rewrite Ebin. unfold VAC.checked at 1.
  rewrite Eeig. unfold VAC.checked at 1.
  rewrite (cudaMallocManaged_fresh xdot0) by lia. unfold VAC.checked at 1.
  rewrite (cudaMallocManaged_fresh xdotn0) by lia. unfold VAC.checked at 1.
  rewrite (cudaMallocManaged_fresh jm0)
    by (unfold NUM_OF_HEAT_COMPONENTS; lia). unfold VAC.checked at 1.
  rewrite (cudaMallocManaged_fresh jmn0)
    by (unfold NUM_OF_HEAT_COMPONENTS; lia). unfold VAC.checked at 1.
  rewrite (cudaMallocManaged_fresh bin_out0)
    by (unfold NUM_OF_HEAT_COMPONENTS; lia). unfold VAC.checked at 1.
  rewrite Ejmn. done.
Qed.

End PreprocessFacts.

Section PreprocessClaims.
Context {F D : Type} {AF : Arith F} {AD : Arith D} `{!MathLib D}.
Variables (PI : D) (garbage : Z -> D) (garbage_int : Z -> Z) (temp0 : D).
Variables (eig0 xdot0 xdotn0 jm0 jmn0 bin_out0 : Z -> F) (floatval0 : F).
Variable FLT_MAX : F.

(** The set-up of the bins of a run completes: by frequency when it is
    known to, by index when the bin size is at least 1 and at most the
    number of modes. *)
Lemma binning_completes (eigfile : eigenvector_out (F:=F) (D:=D))
    (this : MODAL_ANALYSIS F D) :
  let M := last_mode this - first_mode this + 1 in
  0 < M ->
  (f_flag this = 0 -> 1 <= bin_size this <= M) ->
  (f_flag this <> 0 ->
   is_Some (setup_binning PI garbage garbage_int temp0 (f_flag this)
              (first_mode this) M (bin_size this) (f_bin_size this)
              (header eigfile) (bin_count this) (bin_sum this))) ->
  exists nb bc bs,
    setup_binning PI garbage garbage_int temp0 (f_flag this)
      (first_mode this) M (bin_size this) (f_bin_size this)
      (header eigfile) (bin_count this) (bin_sum this) = Some (nb, bc, bs) /\
    0 < nb /\
    (f_flag this <> 0 -> partition_of M nb bc bs) /\
    (f_flag this = 0 -> nb = M `quot` bin_size this).
Proof.
  intros M HM Hidx Hfreq.
  destruct (decide (f_flag this = 0)) as [Hf|Hf].
  - specialize (Hidx Hf). exists (M `quot` bin_size this), (bin_count this), (bin_sum this).
    unfold setup_binning. rewrite decide_False by lia.
    rewrite decide_False by lia. split; [done|]. split; [|done].
    rewrite Z.quot_div_nonneg by lia.
    assert (1 <= M `div` bin_size this)
      by (apply Z.div_le_lower_bound; lia). lia.
  - destruct (Hfreq Hf) as [[[nb bc] bs] E]. exists nb, bc, bs.
    pose proof (frequency_bins_partition _ _ _ _ _ _ _ _ _ _ _ _ _ _ _ Hf E)
      as HP.
    split; [done|]. split; [by destruct HP as (_ & ? & _)|]. done.
Qed.

(** A run that analyses modes ([compute] set, a sampling interval, types
    that exist, more selected atoms than atoms before them, at least one
    mode, an [eigenvector.out] that opens, bins that can be set up) is
    prepared by [preprocess] for [process]: the buffers have the sizes
    that the kernels index, the atoms [N1 .. N2 - 1] exist, the bins lie
    inside the modes, and with the HNEMA method the accumulator starts
    from zero. *)
Theorem preprocess_prepares_process (cpu_type_size : list Z)
    (eigfile : eigenvector_out (F:=F) (D:=D)) (atom : Atom D)
    (this : MODAL_ANALYSIS F D) :
  compute this <> 0 -> sample_interval this <> 0 ->
  0 <= atom_begin this <= atom_end this ->
  atom_end this < Z.of_nat (length cpu_type_size) ->
  Forall (fun c => 0 <= c) cpu_type_size ->
  total cpu_type_size = atom_N atom ->
  Z.of_nat (length (atom_vx atom)) = atom_N atom ->
  Z.of_nat (length (atom_vy atom)) = atom_N atom ->
  Z.of_nat (length (atom_vz atom)) = atom_N atom ->
  Z.of_nat (length (atom_mass atom)) = atom_N atom ->
  Z.of_nat (length (virial_per_atom atom)) = atom_N atom * 9 ->
  atoms_of_types cpu_type_size 0 (atom_begin this)
  < atoms_of_types cpu_type_size (atom_begin this) (atom_end this + 1) ->
  first_mode this <= last_mode this ->
  (f_flag this = 0 ->
   1 <= bin_size this <= last_mode this - first_mode this + 1) ->
  (f_flag this <> 0 ->
   is_Some (setup_binning PI garbage garbage_int temp0 (f_flag this)
              (first_mode this) (last_mode this - first_mode this + 1)
              (bin_size this) (f_bin_size this)
              (header eigfile) (bin_count this) (bin_sum this))) ->
  exists this',
    preprocess PI garbage garbage_int temp0 eig0 xdot0 xdotn0 jm0 jmn0
      bin_out0 floatval0 FLT_MAX cpu_type_size (Some eigfile) this
    = VAC.Done this' /\
    sized atom this' /\ bins_ok this' /\
    compute this' = compute this /\ method this' = method this /\
    sample_interval this' = sample_interval this /\
    output_interval this' = output_interval this /\
    num_modes this' = last_mode this - first_mode this + 1 /\
    N1 this' = atoms_of_types cpu_type_size 0 (atom_begin this) /\
    N2 this'
    = atoms_of_types cpu_type_size (atom_begin this) (atom_end this + 1) /\
    samples_per_output this'
    = output_interval this `quot` sample_interval this /\
    (method this = HNEMA_METHOD ->
     forall j, 0 <= j < Z.of_nat (length (jmn this')) ->
       rd (jmn this') j = Some ZERO).
Proof.
  intros Hc Hs Hb He Hpos Htot Lx Ly Lz Lm Lv Hnp Hmodes Hidx Hfreq.
  destruct (binning_completes eigfile this) as (nb & bc & bs & Ebin & Hnb & Hp & Hq);
    [lia | done | done |].
  destruct (preprocess_spec PI garbage garbage_int temp0 eig0 xdot0 xdotn0
              jm0 jmn0 bin_out0 floatval0 FLT_MAX cpu_type_size eigfile this
              nb bc bs)
    as (eig_ & jmn_ & E & (Leig & _) & Ljmn & Zjmn);
    [done | done | done | done | lia | lia | done | done |].
  pose proof (atoms_of_types_bounds cpu_type_size 0 (atom_begin this) Hpos).
  pose proof (atoms_of_types_bounds cpu_type_size (atom_begin this)
                (atom_end this + 1) Hpos).
  eexists. split; [exact E|].
  split; [|split].
  - split; simpl; try done; try lia.
    + rewrite Leig, length_fresh; lia.
    + rewrite length_fresh; lia.
    + rewrite length_fresh; lia.
    + rewrite length_fresh; unfold NUM_OF_HEAT_COMPONENTS; lia.
  - destruct (decide (f_flag this = 0)) as [Hf|Hf].
    + apply index_bins_ok; simpl; [done | by apply Hidx | by apply Hq |].
      rewrite length_fresh; unfold NUM_OF_HEAT_COMPONENTS; lia.
    + destruct (Hp Hf) as (_ & _ & Lbc & Lbs & _ & Hin).
      split; simpl; [done | | lia | lia |].
      * rewrite length_fresh; unfold NUM_OF_HEAT_COMPONENTS; lia.
      * intros b Hb'. unfold bin_size_of, bin_shift_of. simpl.
        rewrite !decide_True by done.
        destruct (Hin b Hb') as (c & s & -> & -> & ? & ? & ? & _). simpl. lia.
  - simpl. repeat (split; [done|]). intros Hm j Hj. apply Zjmn; [done|lia].
Qed.

(** In a run that analyses modes [eig] holds what the extractions
    [eigfile >> floatval] leave in [floatval], one after the other, from
    the line of mode [first_mode] on: component [i] of mode [j] comes from
    extraction [i + 3 * num_participating * j].  As long as the file gives
    numbers, the entries are these numbers in the order of the file.  The
    first extraction that fails decides all the entries from its own on:
    at the end of the file they hold the last number that was read (what
    [floatval] held before, when no number was read), after text that is no
    number they hold zero, and after a number out of the range of [float]
    the largest [float] with the sign of that number. *)
Theorem eigenvectors_follow_the_file (cpu_type_size : list Z)
    (eigfile : eigenvector_out (F:=F) (D:=D)) (this : MODAL_ANALYSIS F D) :
  compute this <> 0 -> sample_interval this <> 0 ->
  0 <= atom_begin this <= atom_end this ->
  atom_end this < Z.of_nat (length cpu_type_size) ->
  atoms_of_types cpu_type_size 0 (atom_begin this)
  < atoms_of_types cpu_type_size (atom_begin this) (atom_end this + 1) ->
  first_mode this <= last_mode this ->
  (f_flag this = 0 ->
   1 <= bin_size this <= last_mode this - first_mode this + 1) ->
  (f_flag this <> 0 ->
   is_Some (setup_binning PI garbage garbage_int temp0 (f_flag this)
              (first_mode this) (last_mode this - first_mode this + 1)
              (bin_size this) (f_bin_size this)
              (header eigfile) (bin_count this) (bin_sum this))) ->
  let tokens :=
    concat (drop (Z.to_nat (first_mode this - 1)) (rows eigfile)) in
  let numbers := leading_numbers tokens in
  exists this',
    preprocess PI garbage garbage_int temp0 eig0 xdot0 xdotn0 jm0 jmn0
      bin_out0 floatval0 FLT_MAX cpu_type_size (Some eigfile) this
    = VAC.Done this' /\
    num_modes this' = last_mode this - first_mode this + 1 /\
    num_participating this'
    = atoms_of_types cpu_type_size (atom_begin this) (atom_end this + 1)
      - atoms_of_types cpu_type_size 0 (atom_begin this) /\
    Z.of_nat (length (eig this'))
    = 3 * num_participating this' * num_modes this' /\
    forall j i, 0 <= j < num_modes this' ->
      0 <= i < 3 * num_participating this' ->
      let k := i + 3 * num_participating this' * j in
      (forall v, numbers !! Z.to_nat k = Some v ->
         rd (eig this') k = Some v) /\
      (Z.of_nat (length numbers) <= k ->
         (tokens !! length numbers = None ->
          rd (eig this') k = Some (default floatval0 (last numbers))) /\
         (tokens !! length numbers = Some text ->
          rd (eig this') k = Some ZERO) /\
         (forall negative,
            tokens !! length numbers = Some (out_of_range negative) ->
            rd (eig this') k
            = Some (if negative then -. FLT_MAX else FLT_MAX))).
Proof.
  intros Hc Hs Hb He Hnp Hmodes Hidx Hfreq tokens numbers.
  destruct (binning_completes eigfile this) as (nb & bc & bs & Ebin & Hnb & _);
    [lia | done | done |].
  destruct (preprocess_spec PI garbage garbage_int temp0 eig0 xdot0 xdotn0
              jm0 jmn0 bin_out0 floatval0 FLT_MAX cpu_type_size eigfile this
              nb bc bs)
    as (eig_ & jmn_ & E & (Leig & Hin & _) & _);
    [done | done | done | done | lia | lia | done | done |].
  eexists. split; [exact E|]. simpl.
  set (np := atoms_of_types cpu_type_size (atom_begin this) (atom_end this + 1)
             - atoms_of_types cpu_type_size 0 (atom_begin this)) in * .
  set (M := last_mode this - first_mode this + 1) in * .
  assert (0 < np * M) by (apply Z.mul_pos_pos; lia).
  split; [done|]. split; [done|].
  split; [rewrite Leig, length_fresh; lia|].
  intros j i Hj Hi.
  assert (0 <= 3 * np * j) by (apply Z.mul_nonneg_nonneg; lia).
  assert (3 * np * (j + 1) <= 3 * np * M)
    by (apply Z.mul_le_mono_nonneg_l; lia).
  split.
  - intros v Ev. rewrite Hin by lia. f_equal.
    by apply extracted_inside.
  - intros Hk. rewrite Hin by lia.
    unfold tokens_after. fold tokens.
    rewrite (extracted_beyond FLT_MAX tokens floatval0) by done.
    fold numbers.
    split; [|split].
    + by intros ->.
    + by intros ->.
    + by intros negative ->.
Qed.

(** How [preprocess] fails before it reads the file.  Without modes or
    selected atoms to allocate [eig] for, the allocation fails, whether or
    not [eigenvector.out] exists; the missing file is reported only after
    that allocation; and a sampling interval of zero is a division by
    zero. *)
Theorem preprocess_failures (cpu_type_size : list Z)
    (eigfile : option (eigenvector_out (F:=F) (D:=D)))
    (this : MODAL_ANALYSIS F D) :
  compute this <> 0 ->
  0 <= atom_begin this <= atom_end this ->
  atom_end this < Z.of_nat (length cpu_type_size) ->
  let run := preprocess PI garbage garbage_int temp0 eig0 xdot0 xdotn0 jm0
               jmn0 bin_out0 floatval0 FLT_MAX cpu_type_size in
  let M := last_mode this - first_mode this + 1 in
  let np :=
    atoms_of_types cpu_type_size (atom_begin this) (atom_end this + 1)
    - atoms_of_types cpu_type_size 0 (atom_begin this) in
  (sample_interval this = 0 -> run eigfile this = VAC.Fault) /\
  (sample_interval this <> 0 -> np * M <= 0 ->
   run eigfile this = VAC.Fault) /\
  (sample_interval this <> 0 -> 0 < np * M ->
   run None this = VAC.InputError "Cannot open eigenvector.out file.").
Proof.
  intros Hc Hb He run M np. unfold run, preprocess. cbv zeta.
  split; [|split].
  - intros Hs. destruct (decide (compute this = 0)); [done|].
    by rewrite decide_True.
  - intros Hs Hz. destruct (decide (compute this = 0)); [done|].
    destruct (decide (sample_interval this = 0)); [done|].
    rewrite setN_Some by done. unfold VAC.checked at 1.
    fold np. fold M. by rewrite (cudaMallocManaged_refuses eig0) by lia.
  - intros Hs Hz. destruct (decide (compute this = 0)); [done|].
    destruct (decide (sample_interval this = 0)); [done|].
    rewrite setN_Some by done. unfold VAC.checked at 1.
    fold np. fold M. by rewrite (cudaMallocManaged_fresh eig0) by lia.
Qed.

End PreprocessClaims.

(** *** A run of three modes *)

(** Two atoms of one type, three modes of about 0.55, 3.55 and 3.55 THz
    binned by frequency with a bin width of 1, and a file that ends after
    the eigenvector of the second mode. *)
Definition three_modes_run : MODAL_ANALYSIS float float :=
  {| compute := 1; method := HNEMA_METHOD; output_interval := 10;
     sample_interval := 2; first_mode := 1; last_mode := 3;
     bin_size := 1; f_bin_size := 1%float; f_flag := 1; num_modes := 0;
     atom_begin := 0; atom_end := 0;
     eig := []; xdotn := []; xdot := []; jmn := []; jm := []; bin_out := [];
     bin_count := []; bin_sum := [];
     samples_per_output := 0; num_bins := 0; N1 := 0; N2 := 0;
     num_participating := 0; num_heat_stored := 0 |}.

Definition three_modes_file : eigenvector_out (F:=float) (D:=float) :=
  {| header := [0x1.7e26ad563ab96p+3%float; 0x1.f186d99a60f2dp+8%float;
                0x1.f186d99a60f2dp+8%float];
     rows := [number <$> [1; 0; 0; 0; 0; 0]%float;
              number <$> [0; 1; 0; 0; 0; 5]%float] |}.

(** The file with [abc] in the place of the third number, and with a
    negative number that [float] cannot hold in the place of the second. *)
Definition file_with_text : eigenvector_out (F:=float) (D:=float) :=
  {| header := header three_modes_file;
     rows := [[number 1%float; number 2%float; text; number 4%float;
               number 5%float; number 6%float];
              number <$> [0; 1; 0; 0; 0; 5]%float] |}.

Definition file_with_overflow : eigenvector_out (F:=float) (D:=float) :=
  {| header := header three_modes_file;
     rows := [[number 1%float; out_of_range true; number 3%float;
               number 4%float; number 5%float; number 6%float];
              number <$> [0; 1; 0; 0; 0; 5]%float] |}.

Definition two_atoms_of_one_type : Atom float :=
  {| atom_N := 2;
     atom_vx := [0; 0]%float; atom_vy := [0; 0]%float;
     atom_vz := [0; 0]%float; atom_mass := [1; 1]%float;
     virial_per_atom := (fun _ : Z => 0%float) <$> seqZ 0 18;
     box_volume := 1%float |}.

Definition FLT_MAX64 : float := 0x1.fffffep+127%float.

Definition preprocess64 :=
  preprocess VAC.PI64 no_garbage no_garbage_int 0%float
    no_garbage no_garbage no_garbage no_garbage no_garbage no_garbage
    0%float FLT_MAX64.

Lemma three_modes_in_four_bins :
  0 < 3 /\ 0 < 4 /\
  Z.of_nat (length [1; 0; 0; 2]) = 4 /\ Z.of_nat (length [0; 1; 1; 1]) = 4 /\
  total [1; 0; 0; 2] = 3 /\
  forall i, 0 <= i < 4 ->
    exists c s, rd [1; 0; 0; 2] i = Some c /\ rd [0; 1; 1; 1] i = Some s /\
      0 <= c /\ 0 <= s /\ s + c <= 3 /\
      (i = 0 -> s = 0) /\
      (i + 1 < 4 -> rd [0; 1; 1; 1] (i + 1) = Some (s + c)) /\
      (i + 1 = 4 -> s + c = 3).
Proof.
  apply (frequency_bins_partition_the_modes VAC.PI64 no_garbage
           no_garbage_int 0%float 1 1 3 1 1%float (header three_modes_file)
           [] []).
  - done.
  - vm_compute. reflexivity.
Defined.

Lemma three_modes_run_is_prepared :
  exists this',
    preprocess64 [2] (Some three_modes_file) three_modes_run = VAC.Done this' /\
    sized two_atoms_of_one_type this' /\ bins_ok this' /\
    N1 this' = 0 /\ N2 this' = 2 /\ samples_per_output this' = 5 /\
    forall j, 0 <= j < Z.of_nat (length (jmn this')) ->
      rd (jmn this') j = Some 0%float.
Proof.
  destruct (preprocess_prepares_process VAC.PI64 no_garbage no_garbage_int
              0%float no_garbage no_garbage no_garbage no_garbage no_garbage
              no_garbage 0%float FLT_MAX64 [2] three_modes_file two_atoms_of_one_type
              three_modes_run)
    as (this' & E & Hs & Hb & _ & _ & _ & _ & _ & E1 & E2 & Es & Hz).
  - done.
  - done.
  - simpl. lia.
  - simpl. lia.
  - repeat constructor; lia.
  - reflexivity.
  - reflexivity.
  - reflexivity.
  - reflexivity.
  - reflexivity.
  - reflexivity.
  - vm_compute. reflexivity.
  - simpl. lia.
  - simpl. intros [=].
  - intros _. eexists. vm_compute. reflexivity.
  - exists this'. split; [exact E|]. repeat (split; [done|]).
    by apply Hz.
Defined.

Lemma files_that_end_or_fail :
  (exists this',
     preprocess64 [2] (Some three_modes_file) three_modes_run
     = VAC.Done this' /\
     rd (eig this') (1 + 3 * 2 * 1) = Some 1%float /\
     rd (eig this') (5 + 3 * 2 * 2) = Some 5%float) /\
  (exists this',
     preprocess64 [2] (Some file_with_text) three_modes_run
     = VAC.Done this' /\
     rd (eig this') (1 + 3 * 2 * 0) = Some 2%float /\
     rd (eig this') (2 + 3 * 2 * 0) = Some 0%float /\
     rd (eig this') (3 + 3 * 2 * 0) = Some 0%float /\
     rd (eig this') (5 + 3 * 2 * 2) = Some 0%float) /\
  (exists this',
     preprocess64 [2] (Some file_with_overflow) three_modes_run
     = VAC.Done this' /\
     rd (eig this') (0 + 3 * 2 * 0) = Some 1%float /\
     rd (eig this') (1 + 3 * 2 * 0) = Some (- FLT_MAX64)%float /\
     rd (eig this') (2 + 3 * 2 * 0) = Some (- FLT_MAX64)%float).
Proof.
  split; [|split].
  - destruct (eigenvectors_follow_the_file VAC.PI64 no_garbage no_garbage_int
                0%float no_garbage no_garbage no_garbage no_garbage no_garbage
                no_garbage 0%float FLT_MAX64 [2] three_modes_file
                three_modes_run)
      as (this' & E & EM & Enp & _ & H).
    + done.
    + done.
    + simpl. lia.
    + simpl. lia.
    + vm_compute. reflexivity.
    + simpl. lia.
    + simpl. intros [=].
    + intros _. eexists. vm_compute. reflexivity.
    + exists this'. split; [exact E|].
      change (num_participating this' = 2) in Enp.
      change (num_modes this' = 3) in EM.
      rewrite Enp, EM in H. split.
      * apply (proj1 (H 1 1 ltac:(lia) ltac:(lia))). reflexivity.
      * apply (proj1 (proj2 (H 2 5 ltac:(lia) ltac:(lia))
                 ltac:(simpl; lia))). reflexivity.
  - destruct (eigenvectors_follow_the_file VAC.PI64 no_garbage no_garbage_int
                0%float no_garbage no_garbage no_garbage no_garbage no_garbage
                no_garbage 0%float FLT_MAX64 [2] file_with_text
                three_modes_run)
      as (this' & E & EM & Enp & _ & H).
    + done.
    + done.
    + simpl. lia.
    + simpl. lia.
    + vm_compute. reflexivity.
    + simpl. lia.
    + simpl. intros [=].
    + intros _. eexists. vm_compute. reflexivity.
    + exists this'. split; [exact E|].
      change (num_participating this' = 2) in Enp.
      change (num_modes this' = 3) in EM.
      rewrite Enp, EM in H. split; [|split; [|split]].
      * apply (proj1 (H 0 1 ltac:(lia) ltac:(lia))). reflexivity.
      * apply (proj1 (proj2 (proj2 (H 0 2 ltac:(lia) ltac:(lia))
                 ltac:(simpl; lia)))). reflexivity.
      * apply (proj1 (proj2 (proj2 (H 0 3 ltac:(lia) ltac:(lia))
                 ltac:(simpl; lia)))). reflexivity.
      * apply (proj1 (proj2 (proj2 (H 2 5 ltac:(lia) ltac:(lia))
                 ltac:(simpl; lia)))). reflexivity.
  - destruct (eigenvectors_follow_the_file VAC.PI64 no_garbage no_garbage_int
                0%float no_garbage no_garbage no_garbage no_garbage no_garbage
                no_garbage 0%float FLT_MAX64 [2] file_with_overflow
                three_modes_run)
      as (this' & E & EM & Enp & _ & H).
    + done.
    + done.
    + simpl. lia.
    + simpl. lia.
    + vm_compute. reflexivity.
    + simpl. lia.
    + simpl. intros [=].
    + intros _. eexists. vm_compute. reflexivity.
    + exists this'. split; [exact E|].
      change (num_participating this' = 2) in Enp.
      change (num_modes this' = 3) in EM.
      rewrite Enp, EM in H. split; [|split].
      * apply (proj1 (H 0 0 ltac:(lia) ltac:(lia))). reflexivity.
      * apply (proj2 (proj2 (proj2 (H 0 1 ltac:(lia) ltac:(lia))
                 ltac:(simpl; lia))) true). reflexivity.
      * apply (proj2 (proj2 (proj2 (H 0 2 ltac:(lia) ltac:(lia))
                 ltac:(simpl; lia))) true). reflexivity.
Defined.

Lemma missing_file_is_reported :
  preprocess64 [2] None three_modes_run
  = VAC.InputError "Cannot open eigenvector.out file.".
Proof.
  refine (proj2 (proj2 (preprocess_failures VAC.PI64 no_garbage
           no_garbage_int 0%float no_garbage no_garbage no_garbage
           no_garbage no_garbage no_garbage 0%float FLT_MAX64 [2] None
           three_modes_run _ _ _)) _ _).
  - done.
  - simpl. lia.
  - simpl. lia.
  - done.
  - vm_compute. reflexivity.
Defined.

End MODAL.

(** * Initial velocities ([velocity.cu]) *)

Module VELOCITY.

Section Definitions.
Context {F : Type} `{Arith F}.

(** Boltzmann's constant [K_B] of [common.cuh] and [RAND_MAX] of
    [<cstdlib>]; neither header is among the sources. *)
Variable K_B : F.
Variable RAND_MAX : Z.

(** [rand()]: the value returned by call number [k] since the generator
    was seeded.  The number of calls made so far is part of the state. *)
Variable rand_value : Z -> Z.

(** The members of [Atom] that [velocity.cu] uses. *)
Record Atom := {
  N : Z;
  has_velocity_in_xyz : Z;
  initial_temperature : F;
  cpu_mass : list F;
  cpu_x : list F; cpu_y : list F; cpu_z : list F;
  cpu_vx : list F; cpu_vy : list F; cpu_vz : list F;
  vx : list F; vy : list F; vz : list F
}.

(** Three arrays [vx], [vy], [vz]. *)
Definition arrays : Type := list F * list F * list F.

(** A [double[3]]. *)
Definition vec3 : Type := F * F * F.

(** A [double[3][3]]. *)
Record mat3 := {
  m00 : F; m01 : F; m02 : F;
  m10 : F; m11 : F; m12 : F;
  m20 : F; m21 : F; m22 : F
}.

Definition with_cpu_velocity (atom : Atom) (v : arrays) : Atom :=
  {| N := N atom; has_velocity_in_xyz := has_velocity_in_xyz atom;
     initial_temperature := initial_temperature atom;
     cpu_mass := cpu_mass atom;
     cpu_x := cpu_x atom; cpu_y := cpu_y atom; cpu_z := cpu_z atom;
     cpu_vx := v.1.1; cpu_vy := v.1.2; cpu_vz := v.2;
     vx := vx atom; vy := vy atom; vz := vz atom |}.

Definition with_velocity (atom : Atom) (v : arrays) : Atom :=
  {| N := N atom; has_velocity_in_xyz := has_velocity_in_xyz atom;
     initial_temperature := initial_temperature atom;
     cpu_mass := cpu_mass atom;
     cpu_x := cpu_x atom; cpu_y := cpu_y atom; cpu_z := cpu_z atom;
     cpu_vx := cpu_vx atom; cpu_vy := cpu_vy atom; cpu_vz := cpu_vz atom;
     vx := v.1.1; vy := v.1.2; vz := v.2 |}.

(** [Atom::scale_velocity]. *)
Definition scale_velocity (atom : Atom) : option Atom :=
  temperature ← for_range 0 (N atom) (fun n temperature =>
    ux ← rd (cpu_vx atom) n; uy ← rd (cpu_vy atom) n; uz ← rd (cpu_vz atom) n;
    let v2 := ux *. ux +. uy *. uy +. uz *. uz in
    m ← rd (cpu_mass atom) n;
    Some (temperature +. m *. v2)) ZERO;
  let temperature := temperature /. (of_int 3 *. K_B *. of_int (N atom)) in
  let factor := fsqrt (initial_temperature atom /. temperature) in
  v ← for_range 0 (N atom) (fun n '(ax, ay, az) =>
    ax ← modify ax n (fun u => u *. factor);
    ay ← modify ay n (fun u => u *. factor);
    az ← modify az n (fun u => u *. factor);
    Some (ax, ay, az)) (cpu_vx atom, cpu_vy atom, cpu_vz atom);
  Some (with_cpu_velocity atom v).

(** [-1.0 + (rand() * 2.0) / RAND_MAX] for call number [k] of [rand]. *)
Definition random_component (k : Z) : F :=
  -. ONE +. (of_int (rand_value k) *. TWO) /. of_int RAND_MAX.

(** [get_random_velocities]; [k] counts the calls of [rand]. *)
Definition get_random_velocities (N_ : Z) (st : Z * arrays)
    : option (Z * arrays) :=
  for_range 0 N_ (fun n '(k, (ax, ay, az)) =>
    ax ← wr ax n (random_component k);
    ay ← wr ay n (random_component (k + 1));
    az ← wr az n (random_component (k + 2));
    Some (k + 3, (ax, ay, az))) st.

(** [zero_linear_momentum]. *)
Definition zero_linear_momentum (N_ : Z) (m : list F) (v : arrays)
    : option arrays :=
  (* linear momentum *)
  '(p0, p1, p2) ← for_range 0 N_ (fun n '(p0, p1, p2) =>
    mn ← rd m n;
    ux ← rd v.1.1 n; uy ← rd v.1.2 n; uz ← rd v.2 n;
    Some (p0 +. mn *. ux /. of_int N_,
          p1 +. mn *. uy /. of_int N_,
          p2 +. mn *. uz /. of_int N_)) (ZERO, ZERO, ZERO);
  for_range 0 N_ (fun n '(ax, ay, az) =>
    mn ← rd m n;
    ax ← modify ax n (fun u => u -. p0 /. mn);
    ay ← modify ay n (fun u => u -. p1 /. mn);
    az ← modify az n (fun u => u -. p2 /. mn);
    Some (ax, ay, az)) v.

(** [get_center]; [r0] is accumulated into and returned. *)
Definition get_center (N_ : Z) (r0 : vec3) (m x y z : list F) : option vec3 :=
  '(mass_total, (r00, r01, r02)) ←
    for_range 0 N_ (fun i '(mass_total, (r00, r01, r02)) =>
      mass ← rd m i;
      xi ← rd x i; yi ← rd y i; zi ← rd z i;
      Some (mass_total +. mass,
            (r00 +. xi *. mass, r01 +. yi *. mass, r02 +. zi *. mass)))
      (ZERO, r0);
  Some (r00 /. mass_total, r01 /. mass_total, r02 /. mass_total).

(** [get_angular_momentum]; [L] is accumulated into and returned. *)
Definition get_angular_momentum (N_ : Z) (L r0 : vec3) (m x y z : list F)
    (v : arrays) : option vec3 :=
  for_range 0 N_ (fun i '(L0, L1, L2) =>
    xi ← rd x i; yi ← rd y i; zi ← rd z i;
    let dx := xi -. r0.1.1 in let dy := yi -. r0.1.2 in let dz := zi -. r0.2 in
    mi ← rd m i;
    ux ← rd v.1.1 i; uy ← rd v.1.2 i; uz ← rd v.2 i;
    Some (L0 +. mi *. (dy *. uz -. dz *. uy),
          L1 +. mi *. (dz *. ux -. dx *. uz),
          L2 +. mi *. (dx *. uy -. dy *. ux))) L.

(** [get_inertia]; [I] is accumulated into and returned. *)
Definition get_inertia (N_ : Z) (I : mat3) (r0 : vec3) (m x y z : list F)
    : option mat3 :=
  I ← for_range 0 N_ (fun i (I : mat3) =>
    xi ← rd x i; yi ← rd y i; zi ← rd z i;
    let dx := xi -. r0.1.1 in let dy := yi -. r0.1.2 in let dz := zi -. r0.2 in
    mi ← rd m i;
    Some {| m00 := m00 I +. mi *. (dy *. dy +. dz *. dz);
            m11 := m11 I +. mi *. (dx *. dx +. dz *. dz);
            m22 := m22 I +. mi *. (dx *. dx +. dy *. dy);
            m01 := m01 I -. mi *. dx *. dy;
            m12 := m12 I -. mi *. dy *. dz;
            m02 := m02 I -. mi *. dx *. dz;
            m10 := m10 I; m21 := m21 I; m20 := m20 I |}) I;
  Some {| m00 := m00 I; m01 := m01 I; m02 := m02 I;
          m10 := m01 I; m11 := m11 I; m12 := m12 I;
          m20 := m02 I; m21 := m12 I; m22 := m22 I |}.

(** The determinant as [get_angular_velocity] computes it. *)
Definition determinant (I : mat3) : F :=
  m00 I *. m11 I *. m22 I +. m01 I *. m12 I *. m20 I +.
  m02 I *. m10 I *. m21 I -. m00 I *. m12 I *. m21 I -.
  m01 I *. m10 I *. m22 I -. m20 I *. m11 I *. m02 I.

(** [get_angular_velocity]: [w = inv(I) * L]. *)
Definition get_angular_velocity (I : mat3) (L : vec3) : vec3 :=
  (* inverse of I *)
  let inverse00 := m11 I *. m22 I -. m12 I *. m21 I in
  let inverse01 := -. (m01 I *. m22 I -. m02 I *. m21 I) in
  let inverse02 := m01 I *. m12 I -. m02 I *. m11 I in
  let inverse10 := -. (m10 I *. m22 I -. m12 I *. m20 I) in
  let inverse11 := m00 I *. m22 I -. m02 I *. m20 I in
  let inverse12 := -. (m00 I *. m12 I -. m02 I *. m10 I) in
  let inverse20 := m10 I *. m21 I -. m11 I *. m20 I in
  let inverse21 := -. (m00 I *. m21 I -. m01 I *. m20 I) in
  let inverse22 := m00 I *. m11 I -. m01 I *. m10 I in
  let determinant := determinant I in
  let inverse00 := inverse00 /. determinant in
  let inverse01 := inverse01 /. determinant in
  let inverse02 := inverse02 /. determinant in
  let inverse10 := inverse10 /. determinant in
  let inverse11 := inverse11 /. determinant in
  let inverse12 := inverse12 /. determinant in
  let inverse20 := inverse20 /. determinant in
  let inverse21 := inverse21 /. determinant in
  let inverse22 := inverse22 /. determinant in
  let '(L0, L1, L2) := L in
  (inverse00 *. L0 +. inverse01 *. L1 +. inverse02 *. L2,
   inverse10 *. L0 +. inverse11 *. L1 +. inverse12 *. L2,
   inverse20 *. L0 +. inverse21 *. L1 +. inverse22 *. L2).

(** [zero_angular_momentum]: [v_i = v_i - w x dr_i]. *)
Definition zero_angular_momentum (N_ : Z) (w r0 : vec3) (x y z : list F)
    (v : arrays) : option arrays :=
  let '(w0, w1, w2) := w in
  for_range 0 N_ (fun i '(ax, ay, az) =>
    xi ← rd x i; yi ← rd y i; zi ← rd z i;
    let dx := xi -. r0.1.1 in let dy := yi -. r0.1.2 in let dz := zi -. r0.2 in
    ax ← modify ax i (fun u => u -. (w1 *. dz -. w2 *. dy));
    ay ← modify ay i (fun u => u -. (w2 *. dx -. w0 *. dz));
    az ← modify az i (fun u => u -. (w0 *. dy -. w1 *. dx));
    Some (ax, ay, az)) v.

Definition zero_vec : vec3 := (ZERO, ZERO, ZERO).
Definition zero_mat : mat3 :=
  {| m00 := ZERO; m01 := ZERO; m02 := ZERO;
     m10 := ZERO; m11 := ZERO; m12 := ZERO;
     m20 := ZERO; m21 := ZERO; m22 := ZERO |}.

(** [Atom::initialize_velocity_cpu], from call number [k] of [rand]. *)
Definition initialize_velocity_cpu (k : Z) (atom : Atom) : option (Z * Atom) :=
  let N_ := N atom in
  '(k, v) ← get_random_velocities N_ (k, (cpu_vx atom, cpu_vy atom, cpu_vz atom));
  v ← zero_linear_momentum N_ (cpu_mass atom) v;
  (* center of mass position *)
  r0 ← get_center N_ zero_vec (cpu_mass atom) (cpu_x atom) (cpu_y atom) (cpu_z atom);
  (* angular momentum *)
  L ← get_angular_momentum N_ zero_vec r0 (cpu_mass atom)
         (cpu_x atom) (cpu_y atom) (cpu_z atom) v;
  (* moment of inertia *)
  I ← get_inertia N_ zero_mat r0 (cpu_mass atom)
         (cpu_x atom) (cpu_y atom) (cpu_z atom);
  (* angular velocity *)
  let w := get_angular_velocity I L in
  v ← zero_angular_momentum N_ w r0 (cpu_x atom) (cpu_y atom) (cpu_z atom) v;
  atom ← scale_velocity (with_cpu_velocity atom v);
  Some (k, atom).

(** The part of [Atom::initialize_velocity_cpu] before [scale_velocity]:
    the number of calls of [rand] and the velocities handed to
    [scale_velocity]. *)
Definition unscaled_velocities (k : Z) (atom : Atom)
    : option (Z * (list F * list F * list F)) :=
  let N_ := N atom in
  '(k, v) ← get_random_velocities N_
              (k, (cpu_vx atom, cpu_vy atom, cpu_vz atom));
  v ← zero_linear_momentum N_ (cpu_mass atom) v;
  r0 ← get_center N_ zero_vec (cpu_mass atom) (cpu_x atom) (cpu_y atom) (cpu_z atom);
  L ← get_angular_momentum N_ zero_vec r0 (cpu_mass atom)
         (cpu_x atom) (cpu_y atom) (cpu_z atom) v;
  I ← get_inertia N_ zero_mat r0 (cpu_mass atom)
         (cpu_x atom) (cpu_y atom) (cpu_z atom);
  let w := get_angular_velocity I L in
  v ← zero_angular_momentum N_ w r0 (cpu_x atom) (cpu_y atom) (cpu_z atom) v;
  Some (k, v).

(** [cudaMemcpy(dst, src, sizeof(double) * n, cudaMemcpyHostToDevice)]. *)
Definition cudaMemcpy (dst src : list F) (n : Z) : option (list F) :=
  if decide (0 <= n <= Z.of_nat (length src) /\ n <= Z.of_nat (length dst))
  then Some (take (Z.to_nat n) src ++ drop (Z.to_nat n) dst) else None.

(** [Atom::initialize_velocity]. *)
Definition initialize_velocity (k : Z) (atom : Atom) : option (Z * Atom) :=
  '(k, atom) ← (if decide (has_velocity_in_xyz atom = 0)
                then initialize_velocity_cpu k atom else Some (k, atom));
  ax ← cudaMemcpy (vx atom) (cpu_vx atom) (N atom);
  ay ← cudaMemcpy (vy atom) (cpu_vy atom) (N atom);
  az ← cudaMemcpy (vz atom) (cpu_vz atom) (N atom);
  Some (k, with_velocity atom (ax, ay, az)).

End Definitions.

(** ** Sums of real numbers *)

Section RealSums.

Lemma sumZ_R_succ (g : Z -> R) n :
  0 <= n -> sumZ g (n + 1) = (sumZ g n + g n)%R.
Proof. intros Hn. by rewrite sumZ_succ. Qed.

Lemma sumZ_R_0 (g : Z -> R) : sumZ g 0 = 0%R.
Proof. reflexivity. Qed.

(** Sums are linear. *)
Lemma sumZ_linear (a b : R) (g h : Z -> R) n :
  sumZ (fun i => a * g i + b * h i)%R n = (a * sumZ g n + b * sumZ h n)%R.
Proof.
  destruct (decide (n <= 0)) as [Hn|Hn].
  { rewrite !sumZ_nonpos by done. unfold ZERO. simpl. ring. }
  apply (sumZ_ind (fun k =>
    sumZ (fun i => a * g i + b * h i)%R k
    = (a * sumZ g k + b * sumZ h k)%R) n); [lia| |].
  { rewrite !sumZ_R_0. ring. }
  intros k Hk IH. rewrite !sumZ_R_succ by lia. rewrite IH. ring.
Qed.

Lemma sumZ_const (c : R) n : 0 <= n -> sumZ (fun _ => c) n = (IZR n * c)%R.
Proof.
  intros Hn.
  apply (sumZ_ind (fun k => sumZ (fun _ => c) k = (IZR k * c)%R) n); [lia| |].
  { rewrite sumZ_R_0. simpl. ring. }
  intros k Hk IH. rewrite sumZ_R_succ by lia. rewrite IH, plus_IZR. ring.
Qed.

End RealSums.


(** ** Momentum in exact arithmetic *)

Section RealFacts.
Implicit Types (m x y z a : list R) (v : list R * list R * list R).

(** The component along one axis of the total linear momentum of the
    first [n] atoms. *)
Definition momentum m a (n : Z) : R := sumZ (fun i => get m i * get a i)%R n.

Lemma Forall_get (P : R -> Prop) a i :
  Forall P a -> 0 <= i < Z.of_nat (length a) -> P (get a i).
Proof.
  intros HP Hi. destruct (rd_in_range a i Hi) as [u E].
  rewrite (get_rd _ _ _ E). unfold rd in E. case_decide; [|done].
  by eapply Forall_lookup_1.
Qed.

Lemma sumZ_scaled (c : R) (g : Z -> R) n :
  sumZ (fun i => g i / c)%R n = (sumZ g n / c)%R.
Proof.
  rewrite (sumZ_ext _ (fun i => / c * g i + 0 * 0)%R)
    by (intros; simpl; unfold Rdiv; ring).
  rewrite sumZ_linear. unfold Rdiv. ring.
Qed.

(** The mean momentum per atom that the first loop of
    [zero_linear_momentum] leaves in [p]. *)
Lemma mean_momentum_loop n m v :
  0 <= n -> Z.of_nat (length m) = n -> sized3 n v ->
  for_range 0 n (fun i '(p0, p1, p2) =>
    mn ← rd m i;
    ux ← rd v.1.1 i; uy ← rd v.1.2 i; uz ← rd v.2 i;
    Some (p0 +. mn *. ux /. of_int n,
          p1 +. mn *. uy /. of_int n,
          p2 +. mn *. uz /. of_int n)) (ZERO, ZERO, ZERO)
  = Some ((momentum m v.1.1 n / IZR n)%R, (momentum m v.1.2 n / IZR n)%R,
          (momentum m v.2 n / IZR n)%R).
Proof.
  intros Hn Lm (Lx & Ly & Lz).
  destruct (for_range_inv (fun k (p : R * R * R) =>
    p = (sumZ (fun i => get m i * get v.1.1 i / IZR n)%R k,
         sumZ (fun i => get m i * get v.1.2 i / IZR n)%R k,
         sumZ (fun i => get m i * get v.2 i / IZR n)%R k)) 0 n
    (fun i '(p0, p1, p2) =>
      mn ← rd m i;
      ux ← rd v.1.1 i; uy ← rd v.1.2 i; uz ← rd v.2 i;
      Some (p0 +. mn *. ux /. of_int n,
            p1 +. mn *. uy /. of_int n,
            p2 +. mn *. uz /. of_int n)) (ZERO, ZERO, ZERO))
    as (p & E & ->); [lia | done | |].
  - intros k p Hk ->.
    rewrite (rd_get m), (rd_get v.1.1), (rd_get v.1.2), (rd_get v.2) by lia.
    eexists. split; [reflexivity|]. by rewrite !sumZ_R_succ by lia.
  - rewrite E. unfold momentum. by rewrite !sumZ_scaled.
Qed.

(** Subtracting [p / m_i] from the velocity of every atom takes [n p] off
    the momentum. *)
Lemma momentum_shift n m a a' (p : R) :
  0 <= n -> Z.of_nat (length m) = n ->
  Forall (fun u => u <> 0%R) m ->
  (forall j, 0 <= j < n -> get a' j = (get a j - p / get m j)%R) ->
  momentum m a' n = (momentum m a n - IZR n * p)%R.
Proof.
  intros Hn Lm Hm Ha. unfold momentum.
  rewrite (sumZ_ext _ (fun i => 1 * (get m i * get a i) + (-1) * p)%R).
  - rewrite sumZ_linear, sumZ_const by done. ring.
  - intros j Hj. rewrite Ha by done.
    assert (get m j <> 0%R) by (apply Forall_get; [done|lia]).
    simpl. field. done.
Qed.

Lemma zero_linear_momentum_spec (n : Z) m v :
  0 < n -> Z.of_nat (length m) = n -> sized3 n v ->
  Forall (fun u => u <> 0%R) m ->
  exists v',
    zero_linear_momentum n m v = Some v' /\ sized3 n v' /\
    momentum m v'.1.1 n = 0%R /\ momentum m v'.1.2 n = 0%R /\
    momentum m v'.2 n = 0%R.
Proof.
  intros Hn Lm Sv Hm. unfold zero_linear_momentum.
  rewrite mean_momentum_loop by (done || lia). rewrite bind_Some_eq.
  set (p0 := (momentum m v.1.1 n / IZR n)%R).
  set (p1 := (momentum m v.1.2 n / IZR n)%R).
  set (p2 := (momentum m v.2 n / IZR n)%R).
  destruct (modify_loop (fun i u => u -. p0 /. get m i)
              (fun i u => u -. p1 /. get m i) (fun i u => u -. p2 /. get m i)
              v n) as (v' & E & U); [lia | done |].
  exists v'. split; [|split].
  - rewrite <- E. apply for_range_ext. intros k [[ax ay] az] Hk.
    by rewrite (rd_get m) by lia.
  - by eapply rewritten_sized.
  - assert (IZR n <> 0%R) as Hn0 by (apply not_0_IZR; lia).
    split; [|split];
      (erewrite momentum_shift; [| lia | done | done |
         intros j Hj; by destruct (rewritten_get _ _ _ _ _ _ j U Hj) as (X & Y & Z_)]);
      subst p0 p1 p2; field; done.
Qed.


(** [get_angular_velocity] solves [I w = L] whenever the determinant it
    divides by is not zero. *)
Lemma get_angular_velocity_spec (I : mat3) (L : R * R * R) :
  determinant I <> 0%R ->
  let w := get_angular_velocity I L in
  (m00 I * w.1.1 + m01 I * w.1.2 + m02 I * w.2 = L.1.1 /\
   m10 I * w.1.1 + m11 I * w.1.2 + m12 I * w.2 = L.1.2 /\
   m20 I * w.1.1 + m21 I * w.1.2 + m22 I * w.2 = L.2)%R.
Proof.
  destruct I as [a b c d e f g h i], L as [[L0 L1] L2].
  unfold get_angular_velocity, determinant. simpl. intros Hd.
  repeat split; field; exact Hd.
Qed.

(** The position of atom [i] relative to [r0]. *)
Definition arm (r0 : R * R * R) x y z (i : Z) : R * R * R :=
  ((get x i - r0.1.1)%R, (get y i - r0.1.2)%R, (get z i - r0.2)%R).

(** The total angular momentum about [r0] of the first [n] atoms. *)
Definition angular_momentum (r0 : R * R * R) m x y z v (n : Z) : R * R * R :=
  (sumZ (fun i => let '(dx, dy, dz) := arm r0 x y z i in
           get m i * (dy * get v.2 i - dz * get v.1.2 i))%R n,
   sumZ (fun i => let '(dx, dy, dz) := arm r0 x y z i in
           get m i * (dz * get v.1.1 i - dx * get v.2 i))%R n,
   sumZ (fun i => let '(dx, dy, dz) := arm r0 x y z i in
           get m i * (dx * get v.1.2 i - dy * get v.1.1 i))%R n).

(** The inertia tensor about [r0] of the first [n] atoms. *)
Definition inertia (r0 : R * R * R) m x y z (n : Z) : mat3 :=
  let xx := sumZ (fun i => let '(dx, dy, dz) := arm r0 x y z i in
                   get m i * (dy * dy + dz * dz))%R n in
  let yy := sumZ (fun i => let '(dx, dy, dz) := arm r0 x y z i in
                   get m i * (dx * dx + dz * dz))%R n in
  let zz := sumZ (fun i => let '(dx, dy, dz) := arm r0 x y z i in
                   get m i * (dx * dx + dy * dy))%R n in
  let xy := sumZ (fun i => let '(dx, dy, dz) := arm r0 x y z i in
                   get m i * dx * dy)%R n in
  let yz := sumZ (fun i => let '(dx, dy, dz) := arm r0 x y z i in
                   get m i * dy * dz)%R n in
  let xz := sumZ (fun i => let '(dx, dy, dz) := arm r0 x y z i in
                   get m i * dx * dz)%R n in
  {| m00 := xx; m01 := (- xy)%R; m02 := (- xz)%R;
     m10 := (- xy)%R; m11 := yy; m12 := (- yz)%R;
     m20 := (- xz)%R; m21 := (- yz)%R; m22 := zz |}.

(** The centre of mass of the first [n] atoms. *)
Definition center m x y z (n : Z) : R * R * R :=
  let mass_total := sumZ (get m) n in
  ((sumZ (fun i => get x i * get m i)%R n / mass_total)%R,
   (sumZ (fun i => get y i * get m i)%R n / mass_total)%R,
   (sumZ (fun i => get z i * get m i)%R n / mass_total)%R).

Section Positions.
Variables (n : Z) (m x y z : list R).
Hypothesis Hn : 0 <= n.
Hypothesis Lm : Z.of_nat (length m) = n.
Hypothesis Lx : Z.of_nat (length x) = n.
Hypothesis Ly : Z.of_nat (length y) = n.
Hypothesis Lz : Z.of_nat (length z) = n.

Lemma get_center_spec :
  get_center n zero_vec m x y z = Some (center m x y z n).
Proof.
  unfold get_center.
  destruct (for_range_inv (fun k (s : R * (R * R * R)) =>
    s = (sumZ (get m) k,
         (sumZ (fun i => get x i * get m i)%R k,
          sumZ (fun i => get y i * get m i)%R k,
          sumZ (fun i => get z i * get m i)%R k))) 0 n
    (fun i '(mass_total, (r00, r01, r02)) =>
      mass ← rd m i;
      xi ← rd x i; yi ← rd y i; zi ← rd z i;
      Some (mass_total +. mass,
            (r00 +. xi *. mass, r01 +. yi *. mass, r02 +. zi *. mass)))
    (ZERO, zero_vec)) as (s & E & ->); [lia | done | |].
  - intros k s Hk ->.
    rewrite (rd_get m), (rd_get x), (rd_get y), (rd_get z) by lia.
    eexists. split; [reflexivity|]. by rewrite !sumZ_R_succ by lia.
  - rewrite E. reflexivity.
Qed.

Lemma get_angular_momentum_spec (r0 : R * R * R) v :
  sized3 n v ->
  get_angular_momentum n zero_vec r0 m x y z v
  = Some (angular_momentum r0 m x y z v n).
Proof.
  intros (Lvx & Lvy & Lvz). unfold get_angular_momentum.
  destruct (for_range_inv (fun k (L : R * R * R) =>
    L = angular_momentum r0 m x y z v k) 0 n
    (fun i '(L0, L1, L2) =>
      xi ← rd x i; yi ← rd y i; zi ← rd z i;
      let dx := xi -. r0.1.1 in let dy := yi -. r0.1.2 in
      let dz := zi -. r0.2 in
      mi ← rd m i;
      ux ← rd v.1.1 i; uy ← rd v.1.2 i; uz ← rd v.2 i;
      Some (L0 +. mi *. (dy *. uz -. dz *. uy),
            L1 +. mi *. (dz *. ux -. dx *. uz),
            L2 +. mi *. (dx *. uy -. dy *. ux))) zero_vec)
    as (L & E & ->); [lia | done | |].
  - intros k L Hk ->. unfold angular_momentum. cbv beta iota.
    rewrite (rd_get x), (rd_get y), (rd_get z) by lia.
    rewrite !bind_Some_eq. cbv zeta.
    rewrite (rd_get m), (rd_get v.1.1), (rd_get v.1.2), (rd_get v.2) by lia.
    eexists. split; [reflexivity|].
    by rewrite !sumZ_R_succ by lia.
  - exact E.
Qed.

Lemma get_inertia_spec (r0 : R * R * R) :
  get_inertia n zero_mat r0 m x y z = Some (inertia r0 m x y z n).
Proof.
  unfold get_inertia.
  destruct (for_range_inv (fun k (I : mat3) =>
    m00 I = m00 (inertia r0 m x y z k) /\ m11 I = m11 (inertia r0 m x y z k) /\
    m22 I = m22 (inertia r0 m x y z k) /\ m01 I = m01 (inertia r0 m x y z k) /\
    m12 I = m12 (inertia r0 m x y z k) /\ m02 I = m02 (inertia r0 m x y z k))
    0 n
    (fun i (I : mat3) =>
      xi ← rd x i; yi ← rd y i; zi ← rd z i;
      let dx := xi -. r0.1.1 in let dy := yi -. r0.1.2 in
      let dz := zi -. r0.2 in
      mi ← rd m i;
      Some {| m00 := m00 I +. mi *. (dy *. dy +. dz *. dz);
              m11 := m11 I +. mi *. (dx *. dx +. dz *. dz);
              m22 := m22 I +. mi *. (dx *. dx +. dy *. dy);
              m01 := m01 I -. mi *. dx *. dy;
              m12 := m12 I -. mi *. dy *. dz;
              m02 := m02 I -. mi *. dx *. dz;
              m10 := m10 I; m21 := m21 I; m20 := m20 I |}) zero_mat)
    as (I & E & H00 & H11 & H22 & H01 & H12 & H02); [lia | | |].
  - simpl. rewrite !sumZ_R_0. unfold ZERO. simpl. repeat split; ring.
  - intros k I Hk (H00 & H11 & H22 & H01 & H12 & H02).
    rewrite (rd_get x), (rd_get y), (rd_get z) by lia.
    rewrite !bind_Some_eq. cbv zeta.
    rewrite (rd_get m) by lia.
    eexists. split; [reflexivity|]. simpl in * .
    rewrite H00, H11, H22, H01, H12, H02.
    rewrite !sumZ_R_succ by lia. unfold arm. simpl.
    repeat split; ring.
  - cbv zeta in E. rewrite E. simpl. f_equal. unfold inertia.
    simpl in * . by rewrite H00, H11, H22, H01, H12, H02.
Qed.

End Positions.


Lemma zero_angular_momentum_eq n (w r0 : R * R * R) x y z v :
  zero_angular_momentum n w r0 x y z v
  = for_range 0 n (fun i '(ax, ay, az) =>
      xi ← rd x i; yi ← rd y i; zi ← rd z i;
      ax ← modify ax i (fun u =>
              u -. (w.1.2 *. (zi -. r0.2) -. w.2 *. (yi -. r0.1.2)));
      ay ← modify ay i (fun u =>
              u -. (w.2 *. (xi -. r0.1.1) -. w.1.1 *. (zi -. r0.2)));
      az ← modify az i (fun u =>
              u -. (w.1.1 *. (yi -. r0.1.2) -. w.1.2 *. (xi -. r0.1.1)));
      Some (ax, ay, az)) v.
Proof. by destruct w as [[w0 w1] w2]. Qed.

Section Rotation.
Variables (n : Z) (m x y z : list R) (v : list R * list R * list R).
Variables (w r0 : R * R * R).
Hypothesis Hn : 0 <= n.
Hypothesis Lx : Z.of_nat (length x) = n.
Hypothesis Ly : Z.of_nat (length y) = n.
Hypothesis Lz : Z.of_nat (length z) = n.
Hypothesis Sv : sized3 n v.

(** The velocity of atom [i] after [w x dr_i] has been taken off. *)
Definition counter_rotated (i : Z) : R * R * R :=
  let '(dx, dy, dz) := arm r0 x y z i in
  ((get v.1.1 i - (w.1.2 * dz - w.2 * dy))%R,
   (get v.1.2 i - (w.2 * dx - w.1.1 * dz))%R,
   (get v.2 i - (w.1.1 * dy - w.1.2 * dx))%R).

Lemma zero_angular_momentum_spec :
  exists v',
    zero_angular_momentum n w r0 x y z v = Some v' /\
    rewritten n (fun i => (counter_rotated i).1.1)
      (fun i => (counter_rotated i).1.2) (fun i => (counter_rotated i).2) v v'.
Proof.
  destruct (modify_loop
    (fun i u => u -. (w.1.2 *. (get z i -. r0.2) -. w.2 *. (get y i -. r0.1.2)))
    (fun i u => u -. (w.2 *. (get x i -. r0.1.1) -. w.1.1 *. (get z i -. r0.2)))
    (fun i u => u -. (w.1.1 *. (get y i -. r0.1.2) -. w.1.2 *. (get x i -. r0.1.1)))
    v n) as (v' & E & U); [lia | done |].
  exists v'. split; [|exact U].
  rewrite <- E, zero_angular_momentum_eq.
  apply for_range_ext. intros k [[ax ay] az] Hk.
  by rewrite (rd_get x), (rd_get y), (rd_get z) by lia.
Qed.

(** What the correction does to the angular momentum about [r0]: it takes
    [I w] off, [I] being the inertia tensor about [r0]. *)
Lemma counter_rotated_angular_momentum v' :
  rewritten n (fun i => (counter_rotated i).1.1)
    (fun i => (counter_rotated i).1.2) (fun i => (counter_rotated i).2) v v' ->
  let L := angular_momentum r0 m x y z v n in
  let L' := angular_momentum r0 m x y z v' n in
  let I := inertia r0 m x y z n in
  (L'.1.1 = L.1.1 - (m00 I * w.1.1 + m01 I * w.1.2 + m02 I * w.2) /\
   L'.1.2 = L.1.2 - (m10 I * w.1.1 + m11 I * w.1.2 + m12 I * w.2) /\
   L'.2 = L.2 - (m20 I * w.1.1 + m21 I * w.1.2 + m22 I * w.2))%R.
Proof.
  intros U. cbv zeta.
  assert (forall k, 0 <= k <= n ->
    let L := angular_momentum r0 m x y z v k in
    let L' := angular_momentum r0 m x y z v' k in
    let I := inertia r0 m x y z k in
    (L'.1.1 = L.1.1 - (m00 I * w.1.1 + m01 I * w.1.2 + m02 I * w.2) /\
     L'.1.2 = L.1.2 - (m10 I * w.1.1 + m11 I * w.1.2 + m12 I * w.2) /\
     L'.2 = L.2 - (m20 I * w.1.1 + m21 I * w.1.2 + m22 I * w.2))%R) as Hk.
  { intros k [Hk0 Hk1]. revert Hk1. pattern k. apply sumZ_ind; [lia| |].
    - intros _. simpl. rewrite !sumZ_R_0. repeat split; ring.
    - intros j Hj IH Hle. destruct IH as (I0 & I1 & I2); [lia|].
      destruct (rewritten_get _ _ _ _ _ _ j U) as (Gx & Gy & Gz); [lia|].
      simpl in I0, I1, I2 |- * . rewrite !sumZ_R_succ by lia.
      rewrite I0, I1, I2, Gx, Gy, Gz.
      unfold counter_rotated, arm. simpl. repeat split; ring. }
  apply Hk. lia.
Qed.

(** What it does to the linear momentum. *)
Lemma counter_rotated_momentum v' :
  rewritten n (fun i => (counter_rotated i).1.1)
    (fun i => (counter_rotated i).1.2) (fun i => (counter_rotated i).2) v v' ->
  let sx := sumZ (fun i => get m i * (get x i - r0.1.1))%R n in
  let sy := sumZ (fun i => get m i * (get y i - r0.1.2))%R n in
  let sz := sumZ (fun i => get m i * (get z i - r0.2))%R n in
  (momentum m v'.1.1 n = momentum m v.1.1 n - (w.1.2 * sz - w.2 * sy) /\
   momentum m v'.1.2 n = momentum m v.1.2 n - (w.2 * sx - w.1.1 * sz) /\
   momentum m v'.2 n = momentum m v.2 n - (w.1.1 * sy - w.1.2 * sx))%R.
Proof.
  intros U. cbv zeta. unfold momentum.
  assert (forall k, 0 <= k <= n ->
    (sumZ (fun i => get m i * get v'.1.1 i) k
     = sumZ (fun i => get m i * get v.1.1 i) k
       - (w.1.2 * sumZ (fun i => get m i * (get z i - r0.2)) k
          - w.2 * sumZ (fun i => get m i * (get y i - r0.1.2)) k) /\
     sumZ (fun i => get m i * get v'.1.2 i) k
     = sumZ (fun i => get m i * get v.1.2 i) k
       - (w.2 * sumZ (fun i => get m i * (get x i - r0.1.1)) k
          - w.1.1 * sumZ (fun i => get m i * (get z i - r0.2)) k) /\
     sumZ (fun i => get m i * get v'.2 i) k
     = sumZ (fun i => get m i * get v.2 i) k
       - (w.1.1 * sumZ (fun i => get m i * (get y i - r0.1.2)) k
          - w.1.2 * sumZ (fun i => get m i * (get x i - r0.1.1)) k))%R) as Hk.
  { intros k [Hk0 Hk1]. revert Hk1. pattern k. apply sumZ_ind; [lia| |].
    - intros _. rewrite !sumZ_R_0. repeat split; ring.
    - intros j Hj IH Hle. destruct IH as (I0 & I1 & I2); [lia|].
      destruct (rewritten_get _ _ _ _ _ _ j U) as (Gx & Gy & Gz); [lia|].
      rewrite !sumZ_R_succ by lia.
      rewrite I0, I1, I2, Gx, Gy, Gz.
      unfold counter_rotated, arm. simpl. repeat split; ring. }
  apply Hk. lia.
Qed.

End Rotation.

(** About the centre of mass the mass-weighted positions add up to zero. *)
Lemma center_balance n m x y z :
  sumZ (get m) n <> 0%R ->
  let r0 := center m x y z n in
  sumZ (fun i => get m i * (get x i - r0.1.1))%R n = 0%R /\
  sumZ (fun i => get m i * (get y i - r0.1.2))%R n = 0%R /\
  sumZ (fun i => get m i * (get z i - r0.2))%R n = 0%R.
Proof.
  intros HM. unfold center. simpl.
  assert (forall (a : list R) (c : R),
    sumZ (fun i => get m i * (get a i - c))%R n
    = (sumZ (fun i => get a i * get m i)%R n - c * sumZ (get m) n)%R) as Hs.
  { intros a c.
    rewrite (sumZ_ext _ (fun i => 1 * (get a i * get m i) + (- c) * get m i)%R)
      by (intros; simpl; ring).
    rewrite sumZ_linear. ring. }
  rewrite !Hs. repeat split; field; exact HM.
Qed.


(** With [w] the solution of [I w = L] the angular momentum about [r0]
    is gone. *)
Lemma counter_rotation_removes (n : Z) (r0 : R * R * R) m x y z v v' :
  0 <= n ->
  let I := inertia r0 m x y z n in
  let L := angular_momentum r0 m x y z v n in
  determinant I <> 0%R ->
  rewritten n (fun i => (counter_rotated x y z v (get_angular_velocity I L) r0 i).1.1)
    (fun i => (counter_rotated x y z v (get_angular_velocity I L) r0 i).1.2)
    (fun i => (counter_rotated x y z v (get_angular_velocity I L) r0 i).2) v v' ->
  angular_momentum r0 m x y z v' n = zero_vec.
Proof.
  intros Hn I L Hd U.
  destruct (counter_rotated_angular_momentum n m x y z v
              (get_angular_velocity I L) r0 Hn v' U) as (H0 & H1 & H2).
  destruct (get_angular_velocity_spec I L Hd) as (S0 & S1 & S2).
  fold I L in H0, H1, H2. rewrite S0 in H0. rewrite S1 in H1. rewrite S2 in H2.
  destruct (angular_momentum r0 m x y z v' n) as [[a b] c]. simpl in * .
  unfold zero_vec, ZERO. simpl. f_equal; [f_equal|]; lra.
Qed.

(** About the centre of mass the correction leaves the linear momentum
    alone. *)
Lemma counter_rotation_keeps (n : Z) (w : R * R * R) m x y z v v' :
  0 <= n -> sumZ (get m) n <> 0%R ->
  let r0 := center m x y z n in
  rewritten n (fun i => (counter_rotated x y z v w r0 i).1.1)
    (fun i => (counter_rotated x y z v w r0 i).1.2)
    (fun i => (counter_rotated x y z v w r0 i).2) v v' ->
  momentum m v'.1.1 n = momentum m v.1.1 n /\
  momentum m v'.1.2 n = momentum m v.1.2 n /\
  momentum m v'.2 n = momentum m v.2 n.
Proof.
  intros Hn HM r0 U.
  destruct (counter_rotated_momentum n m x y z v w r0 Hn v' U) as (H0 & H1 & H2).
  destruct (center_balance n m x y z HM) as (B0 & B1 & B2). fold r0 in B0, B1, B2.
  rewrite B0, B1, B2 in * . rewrite H0, H1, H2. repeat split; ring.
Qed.

(** Twice the kinetic energy of the first [n] atoms. *)
Definition kinetic m v (n : Z) : R :=
  sumZ (fun i => get m i * (get v.1.1 i * get v.1.1 i
                            + get v.1.2 i * get v.1.2 i
                            + get v.2 i * get v.2 i))%R n.

(** The temperature [scale_velocity] computes from the velocities. *)
Definition temperature_of (K_B : R) m v (n : Z) : R :=
  (kinetic m v n / (3 * K_B * IZR n))%R.

(** Velocities multiplied by [c]. *)
Definition scaled (c : R) v v' (n : Z) : Prop :=
  rewritten n (fun i => get v.1.1 i * c)%R (fun i => get v.1.2 i * c)%R
    (fun i => get v.2 i * c)%R v v'.

Lemma scaled_sum (c : R) (g g' : Z -> R) n :
  (forall i, 0 <= i < n -> g' i = (c * g i)%R) ->
  sumZ g' n = (c * sumZ g n)%R.
Proof.
  intros E. rewrite (sumZ_ext _ (fun i => c * g i + 0 * 0)%R).
  - rewrite sumZ_linear. ring.
  - intros i Hi. rewrite E by done. simpl. ring.
Qed.

Lemma scaled_kinetic c m v v' n :
  scaled c v v' n -> kinetic m v' n = (c * c * kinetic m v n)%R.
Proof.
  intros U. apply scaled_sum. intros i Hi.
  destruct (rewritten_get _ _ _ _ _ _ i U Hi) as (-> & -> & ->). ring.
Qed.



Section Scale.
Variable K_B : R.

Lemma scale_velocity_eq (atom : Atom) :
  let n := N atom in
  let v := (cpu_vx atom, cpu_vy atom, cpu_vz atom) in
  Z.of_nat (length (cpu_mass atom)) = n -> sized3 n v -> 0 <= n ->
  exists v',
    scale_velocity K_B atom = Some (with_cpu_velocity atom v') /\
    scaled (R_sqrt.sqrt (initial_temperature atom
                         / temperature_of K_B (cpu_mass atom) v n)) v v' n.
Proof.
  intros n v Lm Sv Hn. unfold scale_velocity. fold n.
  destruct Sv as (Lx & Ly & Lz). simpl in Lx, Ly, Lz.
  destruct (for_range_inv (fun k (t : R) => t = kinetic (cpu_mass atom) v k) 0 n
    (fun i (t : R) =>
      ux ← rd (cpu_vx atom) i; uy ← rd (cpu_vy atom) i; uz ← rd (cpu_vz atom) i;
      let v2 := ux *. ux +. uy *. uy +. uz *. uz in
      m ← rd (cpu_mass atom) i;
      Some (t +. m *. v2)) ZERO) as (t & E & ->); [lia | done | |].
  { intros k t Hk ->.
    rewrite (rd_get (cpu_vx atom)), (rd_get (cpu_vy atom)),
      (rd_get (cpu_vz atom)) by lia.
    rewrite !bind_Some_eq. cbv zeta. rewrite (rd_get (cpu_mass atom)) by lia.
    eexists. split; [reflexivity|]. unfold kinetic. by rewrite sumZ_R_succ by lia. }
  cbv zeta in E. rewrite E, bind_Some_eq.
  set (factor := fsqrt _).
  destruct (modify_loop (fun _ u => u *. factor) (fun _ u => u *. factor)
              (fun _ u => u *. factor) v n) as (v' & E' & U); [lia | done |].
  exists v'. split; [|exact U].
  fold v. by rewrite E'.
Qed.

(** The temperature after the scaling. *)
Lemma scaled_temperature (T0 : R) m v v' n :
  0 < n -> (0 < K_B)%R -> (0 <= T0)%R -> (0 < kinetic m v n)%R ->
  scaled (R_sqrt.sqrt (T0 / temperature_of K_B m v n)) v v' n ->
  temperature_of K_B m v' n = T0.
Proof.
  intros Hn HK HT Hkin U.
  unfold temperature_of in * . rewrite (scaled_kinetic _ _ _ _ _ U).
  assert (0 < IZR n)%R as Hn' by (apply IZR_lt; lia).
  assert (0 < 3 * K_B * IZR n)%R as Hden by nra.
  set (T := (kinetic m v n / (3 * K_B * IZR n))%R).
  assert (0 < T)%R as HTpos by (apply Rdiv_lt_0_compat; done).
  rewrite sqrt_sqrt.
  - subst T. field. split; [|split]; lra.
  - apply Rmult_le_pos; [done|]. left. by apply Rinv_0_lt_compat.
Qed.

End Scale.


End RealFacts.

(** ** Random velocities *)

Section RandomFacts.
Context {F : Type} `{Arith F}.
Variables (RAND_MAX : Z) (rand_value : Z -> Z).

(** Atom [i] receives the values of the calls [k + 3 i], [k + 3 i + 1] and
    [k + 3 i + 2] of [rand]. *)
Lemma get_random_velocities_spec n k (v : list F * list F * list F) :
  0 <= n -> sized3 n v ->
  exists v',
    get_random_velocities RAND_MAX rand_value n (k, v) = Some (k + 3 * n, v') /\
    rewritten n (fun i => random_component RAND_MAX rand_value (k + 3 * i))
      (fun i => random_component RAND_MAX rand_value (k + 3 * i + 1))
      (fun i => random_component RAND_MAX rand_value (k + 3 * i + 2)) v v'.
Proof.
  intros Hn (Lx & Ly & Lz). destruct v as [[ax ay] az]. simpl in Lx, Ly, Lz.
  destruct (for_range_inv (fun j (st : Z * (list F * list F * list F)) =>
    st.1 = k + 3 * j /\
    rewritten j (fun i => random_component RAND_MAX rand_value (k + 3 * i))
      (fun i => random_component RAND_MAX rand_value (k + 3 * i + 1))
      (fun i => random_component RAND_MAX rand_value (k + 3 * i + 2))
      (ax, ay, az) st.2) 0 n
    (fun i '(k, (ax, ay, az)) =>
      ax ← wr ax i (random_component RAND_MAX rand_value k);
      ay ← wr ay i (random_component RAND_MAX rand_value (k + 1));
      az ← wr az i (random_component RAND_MAX rand_value (k + 2));
      Some (k + 3, (ax, ay, az))) (k, (ax, ay, az)))
    as ([k' v'] & E & Ek & U); [lia | | |].
  - split; [simpl; lia|]. repeat split; simpl; try done; intros j Hj; lia.
  - intros j [k' [[bx by_] bz]] Hj (Ek & Ux & Uy & Uz).
    simpl in Ek, Ux, Uy, Uz. subst k'.
    destruct (updated_wr _ _ _ _ j
                (random_component RAND_MAX rand_value (k + 3 * j)) Ux)
      as (cx & -> & Ux'); [lia | done |].
    destruct (updated_wr _ _ _ _ j
                (random_component RAND_MAX rand_value (k + 3 * j + 1)) Uy)
      as (cy & -> & Uy'); [lia | done |].
    destruct (updated_wr _ _ _ _ j
                (random_component RAND_MAX rand_value (k + 3 * j + 2)) Uz)
      as (cz & -> & Uz'); [lia | done |].
    simpl. eexists. split; [reflexivity|]. simpl. split; [lia|].
    split; [|split]; simpl; (eapply updated_ext; [|eassumption]);
      intros i; cbv beta; lia.
  - simpl in Ek. subst k'. exists v'. split; [exact E | exact U].
Qed.

End RandomFacts.

Section Unscaled.
Context {F : Type} `{Arith F}.
Variables (K_B : F) (RAND_MAX : Z) (rand_value : Z -> Z).

End Unscaled.

Section RealRandom.
Variables (RAND_MAX : Z) (rand_value : Z -> Z).

Lemma random_component_range k :
  0 < RAND_MAX -> 0 <= rand_value k <= RAND_MAX ->
  (-1 <= random_component RAND_MAX rand_value k <= 1)%R.
Proof.
  intros HM [H0 H1]. unfold random_component, ONE, TWO. simpl.
  assert (0 < IZR RAND_MAX)%R as HM' by (apply IZR_lt; lia).
  assert (0 <= IZR (rand_value k))%R as H0' by (apply IZR_le; lia).
  assert (IZR (rand_value k) <= IZR RAND_MAX)%R as H1' by (apply IZR_le; lia).
  assert (0 <= IZR (rand_value k) * 2 / IZR RAND_MAX <= 2)%R; [|lra].
  split.
  - apply Rmult_le_pos; [lra|]. left. by apply Rinv_0_lt_compat.
  - apply (Rmult_le_reg_r (IZR RAND_MAX)); [done|].
    unfold Rdiv. rewrite Rmult_assoc, Rinv_l by lra. lra.
Qed.

(** C [rand] returns values between 0 and [RAND_MAX]; the velocities drawn
    from it lie in [-1, 1], and every entry of the three arrays is
    overwritten. *)
Theorem random_velocities_in_unit_cube n k (v : list R * list R * list R) :
  0 <= n -> sized3 n v -> 0 < RAND_MAX ->
  (forall j, 0 <= rand_value j <= RAND_MAX) ->
  exists v',
    get_random_velocities RAND_MAX rand_value n (k, v) = Some (k + 3 * n, v') /\
    sized3 n v' /\
    forall i, 0 <= i < n ->
      get v'.1.1 i = random_component RAND_MAX rand_value (k + 3 * i) /\
      get v'.1.2 i = random_component RAND_MAX rand_value (k + 3 * i + 1) /\
      get v'.2 i = random_component RAND_MAX rand_value (k + 3 * i + 2) /\
      (-1 <= get v'.1.1 i <= 1)%R /\ (-1 <= get v'.1.2 i <= 1)%R /\
      (-1 <= get v'.2 i <= 1)%R.
Proof.
  intros Hn Sv HM Hr.
  destruct (get_random_velocities_spec RAND_MAX rand_value n k v Hn Sv)
    as (v' & E & U).
  exists v'. split; [exact E|]. split; [by eapply rewritten_sized|].
  intros i Hi.
  destruct (rewritten_get _ _ _ _ _ _ i U Hi) as (-> & -> & ->).
  repeat split; try apply random_component_range; auto.
Qed.

End RealRandom.


(** ** The properties of the initial velocities *)

Section RealVelocity.
Variables (K_B : R) (RAND_MAX : Z) (rand_value : Z -> Z).
Implicit Types (m x y z : list R) (v : list R * list R * list R).

(** [zero_linear_momentum] over the reals: every access is in bounds and
    the total linear momentum of the result is zero along each axis. *)
Theorem linear_momentum_is_removed (n : Z) m v :
  0 < n -> Z.of_nat (length m) = n -> sized3 n v ->
  Forall (fun u => u <> 0%R) m ->
  exists v',
    zero_linear_momentum n m v = Some v' /\ sized3 n v' /\
    momentum m v'.1.1 n = 0%R /\ momentum m v'.1.2 n = 0%R /\
    momentum m v'.2 n = 0%R.
Proof. apply zero_linear_momentum_spec. Qed.

(** [get_angular_velocity] over the reals: when the determinant it divides
    by is not zero, the [w] it returns solves [I w = L]. *)
Theorem angular_velocity_solves (I : mat3) (L : R * R * R) :
  determinant I <> 0%R ->
  let w := get_angular_velocity I L in
  (m00 I * w.1.1 + m01 I * w.1.2 + m02 I * w.2 = L.1.1 /\
   m10 I * w.1.1 + m11 I * w.1.2 + m12 I * w.2 = L.1.2 /\
   m20 I * w.1.1 + m21 I * w.1.2 + m22 I * w.2 = L.2)%R.
Proof. apply get_angular_velocity_spec. Qed.

(** [get_inertia], [get_angular_momentum], [get_angular_velocity] and
    [zero_angular_momentum] chained as in [initialize_velocity_cpu], about
    any point [r0] and over the reals: when the inertia tensor about [r0]
    is not singular, the angular momentum about [r0] recomputed by
    [get_angular_momentum] from the corrected velocities is zero. *)
Theorem angular_momentum_is_removed (n : Z) (r0 : R * R * R) m x y z v :
  0 <= n -> Z.of_nat (length m) = n ->
  Z.of_nat (length x) = n -> Z.of_nat (length y) = n ->
  Z.of_nat (length z) = n -> sized3 n v ->
  determinant (inertia r0 m x y z n) <> 0%R ->
  exists I L v',
    get_inertia n zero_mat r0 m x y z = Some I /\
    get_angular_momentum n zero_vec r0 m x y z v = Some L /\
    zero_angular_momentum n (get_angular_velocity I L) r0 x y z v = Some v' /\
    sized3 n v' /\
    get_angular_momentum n zero_vec r0 m x y z v' = Some zero_vec.
Proof.
  intros Hn Lm Lx Ly Lz Sv Hd.
  set (I := inertia r0 m x y z n) in * .
  set (L := angular_momentum r0 m x y z v n).
  destruct (zero_angular_momentum_spec n x y z v (get_angular_velocity I L) r0)
    as (v' & E & U); [done..|].
  assert (sized3 n v') as Sv' by (by eapply rewritten_sized).
  exists I, L, v'.
  split; [by apply get_inertia_spec|].
  split; [by apply get_angular_momentum_spec|].
  split; [exact E|]. split; [exact Sv'|].
  rewrite get_angular_momentum_spec by done. f_equal.
  by apply (counter_rotation_removes n r0 m x y z v v').
Qed.

(** [zero_angular_momentum] about the centre of mass that [get_center]
    returns, over the reals and for any [w]: the total linear momentum is
    what it was. *)
Theorem rotation_keeps_linear_momentum (n : Z) (w : R * R * R) m x y z v :
  0 <= n -> Z.of_nat (length m) = n ->
  Z.of_nat (length x) = n -> Z.of_nat (length y) = n ->
  Z.of_nat (length z) = n -> sized3 n v ->
  sumZ (get m) n <> 0%R ->
  exists r0 v',
    get_center n zero_vec m x y z = Some r0 /\
    zero_angular_momentum n w r0 x y z v = Some v' /\
    sized3 n v' /\
    momentum m v'.1.1 n = momentum m v.1.1 n /\
    momentum m v'.1.2 n = momentum m v.1.2 n /\
    momentum m v'.2 n = momentum m v.2 n.
Proof.
  intros Hn Lm Lx Ly Lz Sv HM.
  set (r0 := center m x y z n).
  destruct (zero_angular_momentum_spec n x y z v w r0) as (v' & E & U);
    [done..|].
  exists r0, v'. split; [by apply get_center_spec|].
  split; [exact E|]. split; [by eapply rewritten_sized|].
  by apply (counter_rotation_keeps n w m x y z v v').
Qed.

(** [Atom::scale_velocity] over the reals, for a positive [K_B], a
    temperature that is not negative and velocities that are not all
    zero: every velocity is multiplied by the same factor, and the
    temperature recomputed from the result is [initial_temperature]. *)
Theorem scale_velocity_sets_temperature (atom : Atom) :
  let n := N atom in
  let m := cpu_mass atom in
  let v := (cpu_vx atom, cpu_vy atom, cpu_vz atom) in
  0 < n -> Z.of_nat (length m) = n -> sized3 n v ->
  (0 < K_B)%R -> (0 <= initial_temperature atom)%R -> (0 < kinetic m v n)%R ->
  exists v',
    scale_velocity K_B atom = Some (with_cpu_velocity atom v') /\
    scaled (R_sqrt.sqrt (initial_temperature atom / temperature_of K_B m v n))
      v v' n /\
    temperature_of K_B m v' n = initial_temperature atom.
Proof.
  intros n m v Hn Lm Sv HK HT Hkin.
  destruct (scale_velocity_eq K_B atom) as (v' & E & U); [done | done | lia |].
  fold n v m in U. exists v'. split; [exact E|]. split; [exact U|].
  by eapply scaled_temperature.
Qed.



(** Velocities read from the input ([has_velocity_in_xyz] is not zero) are
    copied to the device as they are: the host arrays are not touched and
    [rand] is not called. *)
Theorem given_velocities_are_uploaded (k : Z) (atom : Atom) :
  has_velocity_in_xyz atom <> 0 -> 0 <= N atom ->
  sized3 (N atom) (cpu_vx atom, cpu_vy atom, cpu_vz atom) ->
  sized3 (N atom) (vx atom, vy atom, vz atom) ->
  initialize_velocity K_B RAND_MAX rand_value k atom
  = Some (k, with_velocity atom (cpu_vx atom, cpu_vy atom, cpu_vz atom)).
Proof.
  intros Hx Hn (Hx1 & Hy1 & Hz1) (Hx2 & Hy2 & Hz2). simpl in * .
  unfold initialize_velocity. case_decide; [done|]. rewrite bind_Some_eq.
  assert (forall dst src : list R,
    Z.of_nat (length src) = N atom -> Z.of_nat (length dst) = N atom ->
    cudaMemcpy dst src (N atom) = Some src) as Hc.
  { intros dst src Ls Ld. unfold cudaMemcpy. case_decide; [|lia]. f_equal.
    rewrite take_ge, drop_ge by lia. apply app_nil_r. }
  by rewrite !Hc by done.
Qed.

End RealVelocity.

(** Three atoms of unit mass at the corners (1,0,0), (0,1,0), (0,0,1). *)
Definition unit_masses : list R := [1%R; 1%R; 1%R].
Definition corner_x : list R := [1%R; 0%R; 0%R].
Definition corner_y : list R := [0%R; 1%R; 0%R].
Definition corner_z : list R := [0%R; 0%R; 1%R].
Definition some_velocities : list R * list R * list R :=
  ([1%R; 2%R; 0%R], [0%R; 1%R; 0%R], [0%R; 0%R; 3%R]).

Definition three_atoms (given : Z) : Atom :=
  {| N := 3; has_velocity_in_xyz := given; initial_temperature := 300%R;
     cpu_mass := unit_masses;
     cpu_x := corner_x; cpu_y := corner_y; cpu_z := corner_z;
     cpu_vx := some_velocities.1.1; cpu_vy := some_velocities.1.2;
     cpu_vz := some_velocities.2;
     vx := [0%R; 0%R; 0%R]; vy := [0%R; 0%R; 0%R]; vz := [0%R; 0%R; 0%R] |}.

(** A linear congruential sequence standing for [rand]. *)
Definition lcg (j : Z) : Z := (j * 7919 + 13) `mod` 32768.

Definition twice_identity : mat3 :=
  {| m00 := 2%R; m01 := 0%R; m02 := 0%R;
     m10 := 0%R; m11 := 2%R; m12 := 0%R;
     m20 := 0%R; m21 := 0%R; m22 := 2%R |}.

Ltac real_compute :=
  cbv -[Rplus Rmult Rminus Ropp Rdiv Rinv IZR Rlt Rle Rgt Rge R_sqrt.sqrt].

Lemma three_atoms_at_rest_on_average :
  exists v',
    zero_linear_momentum 3 unit_masses some_velocities = Some v' /\
    sized3 3 v' /\
    momentum unit_masses v'.1.1 3 = 0%R /\
    momentum unit_masses v'.1.2 3 = 0%R /\
    momentum unit_masses v'.2 3 = 0%R.
Proof.
  apply (linear_momentum_is_removed 3 unit_masses some_velocities).
  - lia.
  - reflexivity.
  - repeat split.
  - repeat constructor; real_compute; lra.
Defined.

Lemma twice_identity_is_inverted :
  let w := get_angular_velocity twice_identity (2%R, 4%R, 6%R) in
  (m00 twice_identity * w.1.1 + m01 twice_identity * w.1.2
   + m02 twice_identity * w.2 = 2 /\
   m10 twice_identity * w.1.1 + m11 twice_identity * w.1.2
   + m12 twice_identity * w.2 = 4 /\
   m20 twice_identity * w.1.1 + m21 twice_identity * w.1.2
   + m22 twice_identity * w.2 = 6)%R.
Proof.
  apply (angular_velocity_solves twice_identity (2%R, 4%R, 6%R)).
  real_compute. lra.
Defined.

Lemma three_atoms_stop_rotating :
  exists I L v',
    get_inertia 3 zero_mat (0%R, 0%R, 0%R) unit_masses corner_x corner_y corner_z
    = Some I /\
    get_angular_momentum 3 zero_vec (0%R, 0%R, 0%R) unit_masses
      corner_x corner_y corner_z some_velocities = Some L /\
    zero_angular_momentum 3 (get_angular_velocity I L) (0%R, 0%R, 0%R)
      corner_x corner_y corner_z some_velocities = Some v' /\
    sized3 3 v' /\
    get_angular_momentum 3 zero_vec (0%R, 0%R, 0%R) unit_masses
      corner_x corner_y corner_z v' = Some zero_vec.
Proof.
  apply (angular_momentum_is_removed 3 (0%R, 0%R, 0%R) unit_masses
           corner_x corner_y corner_z some_velocities).
  - lia.
  - reflexivity.
  - reflexivity.
  - reflexivity.
  - reflexivity.
  - repeat split.
  - real_compute. lra.
Defined.

Lemma three_atoms_keep_their_momentum :
  exists r0 v',
    get_center 3 zero_vec unit_masses corner_x corner_y corner_z = Some r0 /\
    zero_angular_momentum 3 (1%R, 2%R, 3%R) r0 corner_x corner_y corner_z
      some_velocities = Some v' /\
    sized3 3 v' /\
    momentum unit_masses v'.1.1 3 = momentum unit_masses some_velocities.1.1 3 /\
    momentum unit_masses v'.1.2 3 = momentum unit_masses some_velocities.1.2 3 /\
    momentum unit_masses v'.2 3 = momentum unit_masses some_velocities.2 3.
Proof.
  apply (rotation_keeps_linear_momentum 3 (1%R, 2%R, 3%R) unit_masses
           corner_x corner_y corner_z some_velocities).
  - lia.
  - reflexivity.
  - reflexivity.
  - reflexivity.
  - reflexivity.
  - repeat split.
  - real_compute. lra.
Defined.

Lemma three_atoms_at_300_K :
  exists v',
    scale_velocity 1%R (three_atoms 0) = Some (with_cpu_velocity (three_atoms 0) v') /\
    scaled (R_sqrt.sqrt (300 / temperature_of 1%R unit_masses some_velocities 3))
      some_velocities v' 3 /\
    temperature_of 1%R unit_masses v' 3 = 300%R.
Proof.
  apply (scale_velocity_sets_temperature 1%R (three_atoms 0)).
  - simpl. lia.
  - reflexivity.
  - repeat split.
  - lra.
  - simpl. lra.
  - real_compute. lra.
Defined.

Lemma lcg_velocities_in_unit_cube :
  exists v',
    get_random_velocities 32767 lcg 3 (0, some_velocities) = Some (0 + 3 * 3, v') /\
    sized3 3 v' /\
    forall i, 0 <= i < 3 ->
      get v'.1.1 i = random_component 32767 lcg (0 + 3 * i) /\
      get v'.1.2 i = random_component 32767 lcg (0 + 3 * i + 1) /\
      get v'.2 i = random_component 32767 lcg (0 + 3 * i + 2) /\
      (-1 <= get v'.1.1 i <= 1)%R /\ (-1 <= get v'.1.2 i <= 1)%R /\
      (-1 <= get v'.2 i <= 1)%R.
Proof.
  apply (random_velocities_in_unit_cube 32767 lcg 3 0 some_velocities).
  - lia.
  - repeat split.
  - lia.
  - intros j. unfold lcg.
    pose proof (Z.mod_pos_bound (j * 7919 + 13) 32768 ltac:(lia)). lia.
Defined.




Lemma three_given_velocities_uploaded :
  initialize_velocity 1%R 32767 lcg 0 (three_atoms 1)
  = Some (0, with_velocity (three_atoms 1)
               (some_velocities.1.1, some_velocities.1.2, some_velocities.2)).
Proof.
  apply (given_velocities_are_uploaded 1%R 32767 lcg 0 (three_atoms 1)).
  - simpl. lia.
  - simpl. lia.
  - repeat split.
  - repeat split.
Defined.

End VELOCITY.
